(* ===== verification/_CoqProject ===== *)
-Q . S2P
Prelude.v
Text.v
Errors.v
Random.v
Ids.v
Shelf.v
Records.v
Effects.v
Rules.v
Workspace.v
Upload.v
Rewrite.v
Ledger.v
Engine.v
Operations.v
Demo.v
Safety.v
Totality.v
Replays.v
Timed.v
Decisions.v
UploadSpec.v
Sessions.v
Reading.v
Auth.v
Database.v
Schema.v
Migration.v
Sqlite.v
Control.v
Keys.v
Operators.v
Accounts.v
Rate.v
Net.v
Clock.v
Config.v
Plan.v
Install.v
Installed.v
ServiceDemo.v
Bridge.v
Engines.v
Commands.v
Handlers.v
Server.v
Logs.v
Tenancy.v
Operated.v
Purpose.v
OperatorDemo.v
Clients.v
HttpClient.v
Tls.v
Reloading.v
TlsDemo.v
Letsencrypt.v
Setup.v
SetupFacts.v
SetupDemo.v
Host.v
HostDemo.v
Output.v
Health.v
HealthDemo.v
Accepting.v
Starting.v
Stopping.v
Files.v
FsShelf.v
FsRep.v
FsRules.v
FsLaws.v
FsDisk.v
FsDemo.v
Corners.v
