(* ===== verification/Prelude.v ===== *)
(** * passalong-server: models and proofs

    passalong-server keeps encrypted items for the devices of a household, one
    workspace per group of devices.  This library models its core, its API and
    its command line as functions one can run, and proves what makes them
    correct.  Every definition has the name of what it models, and each file
    opens by saying which source file that is; paths below are under
    [src/crates/].

    ** The program, and which file models what

    A request passes, from the outside in:

    - [Accepting.v]: connections and their handshakes; [Starting.v], [Stopping.v]:
      how the server comes to listen, and how it stops; [Server.v]: the router and the table of
      routes, request ids, the bearer layer and the janitor
      ([passalong-server-api/src/server.rs], [routes.rs], [auth.rs]);
      [Rate.v]: the limiter of failed tokens ([rate.rs]); [Net.v]: addresses as
      the standard library reads and writes them;
    - [Tls.v], [Reloading.v], [TlsDemo.v]: pins, self-signed pairs, and the
      pair in use ([tls.rs]);
    - [Handlers.v]: one handler per operation of the API and its answers
      ([handlers/], [problem.rs], [state.rs]); [Bridge.v]: bodies that arrive
      and leave in bounded pieces, and ranges ([bridge.rs]);
    - [Engines.v]: which workspaces are open
      ([passalong-server-core/src/engines.rs]);
    - [Engine.v]: one workspace, its transactions and reads (struct [Engine] of
      [workspace.rs]); a transaction loads the record from the ledger, runs a
      rule, stores the record, and then does the clean-ups the rule asked for;
    - the rules: [Rules.v] (the monad they run in, and what they share),
      [Workspace.v] (reading, deleting, encryption without re-encrypting),
      [Upload.v] (tickets, content, commits, cleaning) and [Rewrite.v] (the
      session that re-encrypts all items), from [workspace.rs], [upload.rs] and
      [rewrite.rs], over the data of [Records.v];
    - [Shelf.v]: where items are ([shelf/mod.rs], [shelf/memory.rs]);
      [FsShelf.v]: the shelf in a directory ([shelf/fs.rs]), as calls of the
      file system of [Files.v];
    - [Ledger.v]: where records are ([ledger/mod.rs], [ledger/memory.rs]), and
      [Sqlite.v]: the ledger in SQLite ([ledger/sqlite.rs]), over the tables and
      statements of [Database.v]; [Schema.v], [Migration.v]: the schema, its
      steps, and opening the database ([control/schema.rs], [ledger/sqlite.rs]);
    - [Control.v]: workspaces, keys, authentication and the audit trail
      ([control/mod.rs]);
    - [Ids.v], [Auth.v], [Random.v], [Errors.v], [Clock.v], [Config.v]: the
      modules of the core of these names; [Logs.v]: what is logged
      ([telemetry.rs], and the line of a request of [server.rs]); [Text.v]:
      what they use of [str].

    The operator works by commands ([passalong-server-cli/src/]):

    - [Commands.v]: workspaces, keys, rewrite sessions, the audit trail and
      [check] ([commands.rs], [owner.rs], [main.rs], [cli.rs]); [Output.v]: the
      times, sizes and tables they print ([output.rs]);
    - [Setup.v]: [init] and [tls] ([commands.rs]); [Letsencrypt.v]: the
      walkthrough of [tls letsencrypt] ([letsencrypt.rs]);
    - [Health.v]: [check --health] ([serve.rs]), by the client of
      [HttpClient.v] ([passalong-server-api/src/client.rs]);
    - [Plan.v], [Install.v]: what installing the service will do, and doing it
      ([service/plan.rs], [service/unit.rs], [service/mod.rs]); [Host.v]: the
      host it is done on ([service/system.rs]).

    [Prelude.v], this file, has what all share: bytes, outcomes, the state
    monad with its weakest preconditions, [u64] as the release profile
    compiles it, ordered maps, and lemmas and tactics on lists.

    ** State, errors and time

    Code that keeps state is a function from the state to an outcome and the
    state: [M E S A].  An outcome is [Ok], [Err] with the code's own error,
    [Killed] (the process died at a fault point or in the middle of a step of
    the shelf or the ledger), or [Spinning] (fuel ran out).  Whatever a step
    did before it failed stays done, unless the code rolls it back.  The clock
    is a function from how often it was looked at to the time, so that it may
    jump and go back; random bytes come from a [RandomSource]; both are
    threaded.  Integers are [N] with the wrap-around or saturation of the
    operation the code uses ([wadd], [sadd], [ssub]).  Maps are [gmap]s, and
    iteration over a [BTreeMap] goes in ascending order.  What several tasks
    do is a step relation: the bridge, the pair in use,
    connections, and the stop.

    ** Interfaces

    [ItemShelf], [Ledger], [RandomSource], [Database], [Statements], [Channel],
    [Weather], [ServerJson], [ShelfDisk], [OperatorDisk], [System], [SetupHost],
    [Network], [HttpStream], [Certificates], [Journal], [Migrating],
    [DatabaseFile], [LogWriter] and [HostCalls] are classes, as they are traits
    or libraries in the code.  [LawfulShelf] says that each operation of a
    shelf acts as [MemoryShelf], or is cut short and leaves no more than a
    named partial effect; [LawfulLedger] says that a transaction stores all of
    the record or nothing.  The rules are proved once, against these.
    [MemoryShelf] and [MemoryLedger] discharge them in [Shelf.v] and
    [Ledger.v], a directory the first in [FsDisk.v]; [Sqlite.v] discharges the second from
    [LawfulDatabase], which says what SQLite's documentation says of statements
    and transactions and is itself discharged by the tables in memory.
    [Installed.v] is proved against [LawfulSystem], which [Host.v] discharges
    from [LawfulHostCalls], what the calls of the operating system promise;
    [Tls.pairs] is the [Pairs] that it takes.  Each [Lawful...] class that
    stands for a library has an instance in memory, in the file whose name
    ends in [Demo] or beside the class.  SHA-256 and JSON are the class
    [Externals]: the theorems need nothing of them but, where it is named, that
    hashes have 32 bytes.

    ** What is shown

    The abstract specification of the rules is [Effects.v]: a transition
    system over records and shelves, with the invariants [RecOk] (the record
    is well formed) and [ShelfOk] (the shelf fits it), and [Tidy] (nothing on
    the shelf that the record does not point to, and the books equal to what
    is there).  [Workspace.v], [Upload.v] and [Rewrite.v] prove that each rule
    does no more than its effect ([.._obeys]); [Engine.v] and [Operations.v]
    carry this over the transaction, the clean-ups that may fail, kills and
    restarts.  From there:

    - [Safety.v]: after any history the record and the shelf fit; nothing is
      lost; opening repairs; answered calls keep the books;
    - [Totality.v]: where nothing fails and ids do not repeat every operation
      is answered, [beginUpload] with its search for an id included;
    - [Replays.v]: commits sent again, and commits that were killed;
    - [Decisions.v], [UploadSpec.v]: what each operation answers on each branch,
      by what its looks at the clock show ([Timed.v]); those of uploads in terms
      that are their own and not the code's, with the quota they keep to;
    - [Sessions.v]: what a rewrite session excludes, and read-only keys;
    - [Reading.v]: listings, typed prefixes, streaming, and the round trip from
      putting to reading;
    - [FsRep.v] (what a directory stands for), [FsRules.v] and [FsLaws.v] (the
      calls of the file system, one operation at a time), [FsDisk.v]: callers
      of the shelf in a directory ([Clients.v]) are served as the contract
      allows, as by the shelf in memory while nothing fails, and openings mend
      what was left; [FsDemo.v]: a commit that dies in any of its calls;
    - [Sqlite.v]: rows are read back as written, and the ledger is kept;
      [Migration.v]: a database of any release is brought up to date, or left;
    - [Keys.v], [Operators.v], [Accounts.v]: what commands store, all or
      nothing, with a row of the audit trail; who a token is from; unique names
      and ids; what engines leave alone;
    - [Tenancy.v]: a request changes nothing, or notes the last use of a key
      whose secret it has and acts in that key's workspace, and any requests by
      anybody keep every workspace sound; [Server.v]: the table of
      routes is the router;
    - [Operated.v], [Purpose.v], [OperatorDemo.v]: requests and commands in any
      order: revoked keys stay out, workspaces and sessions end on purpose
      only, a new key opens its workspace, [check] passes what is in order;
    - [Tls.v], [Reloading.v]: a pin admits its own certificates; the pair in
      use is always one that was there, and a new one is taken up, as long as
      no file is given a time and length it had before;
      [Accepting.v], [Starting.v], [Stopping.v]: silence holds up nobody, a
      server that is to speak TLS speaks nothing else, and a stop ends;
    - [HttpClient.v], [Health.v]: requests and answers are exact on the wire,
      and what is found healthy has answered 204 to a request for [/readyz] on a
      connection to this configuration's server;
    - [SetupFacts.v], [SetupDemo.v]: [init] and [tls] overwrite nothing and
      leave what they promise, line by line, where it is found again; [Letsencrypt.v]: what
      is printed to be run is run as meant;
    - [Installed.v], [Host.v] with [ServiceDemo.v], [HostDemo.v]: an install
      spares what is not its own, and finishes; a file is put in its place
      whole or not at all;
    - [Logs.v]: what is not on the list leaves no trace, and a request is one
      line whatever it sends, and is answered; [Output.v]: sizes are the nearest tenth and
      columns line up;
    - [Bridge.v], [Rate.v], [Config.v], [Clock.v], [Auth.v], [Net.v]: the
      component's own contract, against a plain reference where there is one;
    - [Corners.v]: runs that show where the code differs from its comments.

    ** Fuel and bounds

    Fuel has: the search for a new upload id, for which
    [Totality.rounds_enough] says how much is enough; the search for
    a new workspace or key id, which stops at the first id that is not taken;
    the wait for WAL mode, for which [Migration.the_wait_for_wal_ends] does;
    and the reader of chunks and the trimming of paths, which are given the
    length of their text, as [HttpClient.an_answer_always_ends] shows to be
    enough.  Of handshakes there are at most [Accepting.HANDSHAKES].  The
    theorems that count need that fewer than 2^64 bytes are stored and fewer
    than 2^64 - 1 generations were begun; they say so, and [Effects.fits] is
    that bound.

    ** Not modelled

    - concurrency inside one process: an engine is behind a lock and a
      transaction is SQLite's, so operations are sequences; what runs outside
      a transaction (putting and reading content) is one step here, where the
      code lets other operations pass between its pieces; and a command that
      runs beside the server comes between its requests;
    - of the file system: power loss (what a process sees is what it wrote,
      flushed or not), the file that a stalled write still holds after its
      upload was published, and the permissions of a shelf; a rename is one
      step, and the theorems take a [stat] to tell whether a file is there
      ([SharpWeather]), which [Corners.an_item_goes_unlisted] drops;
    - sockets, the parsing of HTTP by hyper, how axum matches a path and
      answers a method that it does not have (here: an answer 405), what
      makes a handler panic, tokio's tasks, and time-outs other than those of
      handshakes, of the health check and of the stop;
    - X.509, PEM, base64, the making of certificates and the handshakes
      themselves: parameters, rustls's and rcgen's;
    - JSON and TOML texts: serde's and toml's, so a body and a configuration
      file are the structures they decode to;
    - clap, the sentences around what is printed, the prose of the
      walkthrough, and other programs that are run; what of the events is
      logged but for the line of a request, and what the tracing library
      writes in front of it;
    - [storage_child.rs], a test's program. *)

From Stdlib Require Export Strings.Byte String Ascii.
From stdpp Require Export base numbers strings list sorting gmap fin_maps option.
From stdpp Require Export list.

(** ** Bytes *)

#[global] Instance byte_eq_decision : EqDecision byte := Byte.byte_eq_dec.
#[global] Instance byte_inhabited : Inhabited byte := populate Byte.x00.

(** ** Outcomes

    What a call gives back.  [Ok] and [Err] are Rust's [Result]; [Killed] is
    a process that died at a fault point, and [Spinning] a loop that has not
    ended within the fuel it was given. *)

Inductive outcome (E A : Type) : Type :=
| Ok (a : A)
| Err (e : E)
| Killed
| Spinning.
Arguments Ok {E A} a.
Arguments Err {E A} e.
Arguments Killed {E A}.
Arguments Spinning {E A}.

Definition ok_or {E A} (e : E) (o : option A) : outcome E A :=
  match o with Some a => Ok a | None => Err e end.

Definition is_ok {E A} (r : outcome E A) : bool :=
  match r with Ok _ => true | _ => false end.

(** An outcome that is not [Ok] has no value, so it fits any type. *)
Definition recast {E A B} (r : outcome E A) (ok : A → outcome E B) : outcome E B :=
  match r with
  | Ok a => ok a
  | Err e => Err e
  | Killed => Killed
  | Spinning => Spinning
  end.

(** [.map_err(f)] *)
Definition map_err {E E' A} (f : E → E') (x : outcome E A) : outcome E' A :=
  match x with Ok a => Ok a | Err e => Err (f e) | Killed => Killed | Spinning => Spinning end.

#[global] Instance outcome_ret {E} : MRet (outcome E) := λ A a, Ok a.
#[global] Instance outcome_bind {E} : MBind (outcome E) := λ A B f r, recast r f.

(** ** The state monad with outcomes

    A step that is not [Ok] ends the computation and leaves the state as it
    is then: nothing is rolled back here, because a shelf rolls nothing back. *)

Definition M (E S A : Type) : Type := S → outcome E A * S.

#[global] Instance M_ret {E S} : MRet (M E S) := λ A a s, (Ok a, s).
#[global] Instance M_bind {E S} : MBind (M E S) := λ A B f m s,
  match m s with
  | (Ok a, s') => f a s'
  | (Err e, s') => (Err e, s')
  | (Killed, s') => (Killed, s')
  | (Spinning, s') => (Spinning, s')
  end.

Definition get {E S} : M E S S := λ s, (Ok s, s).
Definition gets {E S A} (f : S → A) : M E S A := λ s, (Ok (f s), s).
Definition modify {E S} (f : S → S) : M E S unit := λ s, (Ok (), f s).
Definition throw {E S A} (e : E) : M E S A := λ s, (Err e, s).
Definition lift {E S A} (r : outcome E A) : M E S A := λ s, (r, s).

(** [for x in l { f(x) }] *)
Fixpoint for_each {E S A} (l : list A) (f : A → M E S unit) : M E S unit :=
  match l with
  | [] => mret ()
  | x :: l => f x;; for_each l f
  end.

(** ** Weakest preconditions

    [wp m Q s]: run from [s], [m] ends with an outcome and a state that
    satisfy [Q].  Everything here is total, so this is total correctness. *)

Definition wp {E S A} (m : M E S A) (Q : outcome E A → S → Prop) (s : S) : Prop :=
  Q (m s).1 (m s).2.

(** What follows an [Ok] goes on; anything else is passed through. *)
Definition andthen {E S A B} (f : A → M E S B) (Q : outcome E B → S → Prop)
    (r : outcome E A) (s : S) : Prop :=
  match r with
  | Ok a => wp (f a) Q s
  | Err e => Q (Err e) s
  | Killed => Q Killed s
  | Spinning => Q Spinning s
  end.

Section wp.
Context {E S : Type}.
Implicit Types s : S.

Lemma wp_ret {A} (a : A) (Q : outcome E A → S → Prop) s : Q (Ok a) s → wp (mret a) Q s.
Proof. done. Qed.

Lemma wp_bind {A B} (m : M E S A) (f : A → M E S B) Q s :
  wp m (andthen f Q) s → wp (m ≫= f) Q s.
Proof.
  unfold wp, andthen, mbind, M_bind. destruct (m s) as [[a|e| |] s']; done.
Qed.

Lemma wp_pair {A} (m : M E S A) (Q : outcome E A → S → Prop) s : wp m Q s → let '(y, s') := m s in Q y s'.
Proof. unfold wp. by destruct (m s). Qed.

Lemma wp_mono {A} (m : M E S A) (Q Q' : outcome E A → S → Prop) s :
  wp m Q s → (∀ r s', Q r s' → Q' r s') → wp m Q' s.
Proof. unfold wp; auto. Qed.

Lemma wp_get (Q : outcome E S → S → Prop) s : Q (Ok s) s → wp get Q s.
Proof. done. Qed.

Lemma wp_gets {A} (f : S → A) (Q : outcome E A → S → Prop) s :
  Q (Ok (f s)) s → wp (gets f) Q s.
Proof. done. Qed.

Lemma wp_modify (f : S → S) (Q : outcome E unit → S → Prop) s :
  Q (Ok ()) (f s) → wp (modify f) Q s.
Proof. done. Qed.

Lemma wp_throw {A} (e : E) (Q : outcome E A → S → Prop) s :
  Q (Err e) s → wp (throw e) Q s.
Proof. done. Qed.

Lemma wp_lift {A} (r : outcome E A) (Q : outcome E A → S → Prop) s :
  Q r s → wp (lift r) Q s.
Proof. done. Qed.

(** A loop keeps what each of its rounds keeps, when rounds cannot fail. *)
Lemma wp_for_each {A} (I : list A → S → Prop) (l : list A) (f : A → M E S unit)
    (Q : outcome E unit → S → Prop) s :
  I l s →
  (∀ x l s, I (x :: l) s → wp (f x) (λ r s', r = Ok () ∧ I l s') s) →
  (∀ s', I [] s' → Q (Ok ()) s') →
  wp (for_each l f) Q s.
Proof.
  intros HI Hf HQ. revert s HI.
  induction l as [|x l IH]; intros s HI; simpl; [by apply wp_ret, HQ|].
  apply wp_bind. eapply wp_mono; [by apply Hf|].
  intros r s' [-> HI']. simpl. by apply IH.
Qed.
End wp.

(** ** What every run keeps

    [leads Q m]: from wherever [m] is run, it ends where [Q] says. *)
Definition leads {E S A} (Q : relation S) (m : M E S A) : Prop := ∀ s, Q s (m s).2.

Section leads.
Context {S : Type} (Q : relation S) `{!PreOrder Q}.

Lemma leads_same {E A} (m : M E S A) : (∀ s, (m s).2 = s) → leads Q m.
Proof. intros Hm s. by rewrite Hm. Qed.
Lemma leads_ret {E A} (a : A) : leads Q (mret a : M E S A).
Proof. by apply leads_same. Qed.
Lemma leads_throw {E A} (e : E) : leads Q (throw e : M E S A).
Proof. by apply leads_same. Qed.
Lemma leads_lift {E A} (y : outcome E A) : leads Q (lift y : M E S A).
Proof. by apply leads_same. Qed.
Lemma leads_gets {E A} (f : S → A) : leads Q (gets f : M E S A).
Proof. by apply leads_same. Qed.
Lemma leads_bind {E A B} (m : M E S A) (f : A → M E S B) : leads Q m → (∀ a, leads Q (f a)) → leads Q (m ≫= f).
Proof.
  intros Hm Hf s. specialize (Hm s). unfold mbind, M_bind. destruct (m s) as [[a| | |] s1]; [|done..].
  etrans; [exact Hm|apply Hf].
Qed.
Lemma leads_for_each {E A} (l : list A) (f : A → M E S unit) : (∀ a, leads Q (f a)) → leads Q (for_each l f).
Proof. intros Hf. induction l as [|a l IH]; cbn; [apply leads_ret|]. by apply leads_bind. Qed.
End leads.

Create HintDb leads.
#[export] Hint Resolve leads_ret leads_throw leads_lift leads_gets : leads.
#[export] Hint Extern 0 (PreOrder _) => typeclasses eauto : leads.

(** One step after the other, each with what [leads] knows. *)
Ltac leads := intros; repeat first
  [ solve [eauto with leads] | apply leads_bind; [typeclasses eauto| |intros ?] | apply leads_for_each; [typeclasses eauto|intros ?]
  | match goal with |- leads _ (match ?x with _ => _ end) => destruct x end ].

(** What is preserved of a part. *)
#[export] Instance preorder_part {S T} (f : S → T) (Q : relation T) `{!PreOrder Q} : PreOrder (λ s s', Q (f s) (f s')).
Proof. split; [intros s; reflexivity|]. intros s1 s2 s3 H1 H2. by etrans. Qed.

Lemma fst_is {A B} (p : A * B) a : p.1 = a → p = (a, p.2).
Proof. intros <-. by destruct p. Qed.

(** ** Machine integers

    [u64] arithmetic as the release profile compiles it: [+], [-] and [sum]
    wrap; [saturating_add], [saturating_sub] and [checked_mul] say what they
    do.  A [u64] is an [N]. *)

Definition two64 : N := 18446744073709551616.
Definition u64_max : N := 18446744073709551615.

Definition wadd (a b : N) : N := ((a + b) mod two64)%N.
Definition wsub (a b : N) : N := ((a + two64 - b) mod two64)%N.
Definition sadd (a b : N) : N := N.min (a + b) u64_max.
Definition ssub (a b : N) : N := (a - b)%N.
Definition smul (a b : N) : N := N.min (a * b) u64_max.
Definition checked_mul (a b : N) : option N :=
  if (a * b <=? u64_max)%N then Some (a * b)%N else None.

(** [.sum()] *)
Definition wsum (l : list N) : N := fold_left wadd l 0%N.

(** The sum without a width. *)
Definition Nsum (l : list N) : N := foldr N.add 0%N l.

Lemma wadd_small a b : (a + b < two64)%N → wadd a b = (a + b)%N.
Proof. intros. by apply N.mod_small. Qed.

Lemma wadd_wadd a b c : wadd (wadd a b) c = ((a + b + c) mod two64)%N.
Proof. unfold wadd. by rewrite N.Div0.add_mod_idemp_l. Qed.

Lemma wadd_lt a b : (wadd a b < two64)%N.
Proof. apply N.mod_upper_bound. done. Qed.

Lemma wsub_small a b : (b ≤ a)%N → (a < two64)%N → wsub a b = (a - b)%N.
Proof.
  intros Hb Ha. unfold wsub. replace (a + two64 - b)%N with (a - b + 1 * two64)%N by lia.
  rewrite N.Div0.mod_add. apply N.mod_small. lia.
Qed.

Lemma wsum_Nsum l : wsum l = (Nsum l mod two64)%N.
Proof.
  unfold wsum. enough (∀ a, fold_left wadd l (a mod two64)%N = ((a + Nsum l) mod two64)%N) as H.
  { apply (H 0%N). }
  induction l as [|x l IH]; intros a; simpl; [by rewrite N.add_0_r|].
  unfold wadd at 2. rewrite N.Div0.add_mod_idemp_l, IH. f_equal. lia.
Qed.

Lemma Nsum_app l k : Nsum (l ++ k) = (Nsum l + Nsum k)%N.
Proof. induction l; simpl; lia. Qed.

#[global] Instance Nsum_perm : Proper ((≡ₚ) ==> (=)) Nsum.
Proof. induction 1; simpl; lia. Qed.

(** ** Ordered maps

    A [BTreeMap] is a [gmap]; what depends on its order goes through
    [btree_iter], the entries by ascending key. *)

Class KeyOrder (K : Type) := {
  key_le : relation K;
  key_le_dec :: RelDecision key_le;
  key_le_total :: Total key_le;
  key_le_po :: PartialOrder key_le;
}.

#[export] Instance N_key_order : KeyOrder N := {| key_le := N.le |}.
#[export] Instance string_key_order : KeyOrder string := {| key_le := String.le |}.

Definition entry_le {K V} `{KeyOrder K} : relation (K * V) := λ x y, key_le x.1 y.1.

#[global] Instance entry_le_dec {K V} `{KeyOrder K} : RelDecision (@entry_le K V _).
Proof. intros x y. apply key_le_dec. Defined.
#[global] Instance entry_le_total {K V} `{KeyOrder K} : Total (@entry_le K V _).
Proof. intros x y. apply key_le_total. Qed.
#[global] Instance entry_le_trans {K V} `{KeyOrder K} : Transitive (@entry_le K V _).
Proof. intros x y z. apply key_le_po. Qed.

Definition btree_iter {K V} `{Countable K, KeyOrder K} (m : gmap K V) : list (K * V) :=
  merge_sort entry_le (map_to_list m).
Definition btree_keys {K V} `{Countable K, KeyOrder K} (m : gmap K V) : list K :=
  (btree_iter m).*1.
Definition btree_values {K V} `{Countable K, KeyOrder K} (m : gmap K V) : list V :=
  (btree_iter m).*2.

Section btree.
Context {K V : Type} `{Countable K, KeyOrder K}.
Implicit Types m : gmap K V.

Lemma btree_iter_perm m : btree_iter m ≡ₚ map_to_list m.
Proof. apply merge_sort_Permutation. Qed.

Lemma elem_of_btree_iter m k v : (k, v) ∈ btree_iter m ↔ m !! k = Some v.
Proof. rewrite btree_iter_perm. apply elem_of_map_to_list. Qed.

Lemma elem_of_btree_keys m k : k ∈ btree_keys m ↔ is_Some (m !! k).
Proof.
  unfold btree_keys. rewrite list_elem_of_fmap. split.
  - intros ([k' v] & -> & Hin). apply elem_of_btree_iter in Hin. by eexists.
  - intros [v Hv]. exists (k, v). by rewrite elem_of_btree_iter.
Qed.

Lemma NoDup_btree_keys m : NoDup (btree_keys m).
Proof. unfold btree_keys. rewrite btree_iter_perm. apply NoDup_fst_map_to_list. Qed.

Lemma NoDup_btree_iter m : NoDup (btree_iter m).
Proof. rewrite btree_iter_perm. apply NoDup_map_to_list. Qed.

Lemma btree_keys_sorted m : StronglySorted key_le (btree_keys m).
Proof.
  unfold btree_keys.
  assert (StronglySorted entry_le (btree_iter m)) as Hs by apply (StronglySorted_merge_sort entry_le).
  induction Hs as [|x l Hs IH Hx]; simpl; constructor; [done|].
  apply Forall_fmap. by eapply Forall_impl; [exact Hx|].
Qed.

Lemma btree_keys_nil m : btree_keys m = [] ↔ m = ∅.
Proof.
  unfold btree_keys. split; intros Hm.
  - apply fmap_nil_inv in Hm. apply map_to_list_empty_iff.
    pose proof (btree_iter_perm m) as Hp. rewrite Hm in Hp. by apply Permutation_nil_l in Hp.
  - subst. by vm_compute.
Qed.

Lemma length_btree_keys m : length (btree_keys m) = size m.
Proof.
  unfold btree_keys. rewrite length_fmap, (Permutation_length (btree_iter_perm m)).
  apply length_map_to_list.
Qed.

(** The order is the keys', so it depends on nothing else. *)
Lemma btree_keys_unique m (l : list K) :
  NoDup l → StronglySorted key_le l → (∀ k, k ∈ l ↔ is_Some (m !! k)) → btree_keys m = l.
Proof.
  intros Hnd Hs Hin.
  apply (StronglySorted_unique key_le); [apply btree_keys_sorted|done|].
  apply NoDup_Permutation; [apply NoDup_btree_keys|done|].
  intros k. by rewrite elem_of_btree_keys, Hin.
Qed.
End btree.

(** ** Lists and strings *)

(** [.iter().find(p)] *)
Lemma find_Some_spec {A} (p : A → bool) l x : List.find p l = Some x → x ∈ l ∧ p x = true.
Proof. intros H. apply find_some in H as [H ?]. by rewrite list_elem_of_In. Qed.

Lemma find_None_spec {A} (p : A → bool) l x : List.find p l = None → x ∈ l → p x = false.
Proof. intros H Hx. apply list_elem_of_In in Hx. by eapply find_none. Qed.

(** The bytes of a [str] are the characters of a [string]. *)
Definition str_bytes : string → list ascii := list_ascii_of_string.

(** [&text[..n]] and [&text[n..]] *)
Fixpoint str_take (n : nat) (s : string) : string :=
  match n, s with
  | S n, String c s => String c (str_take n s)
  | _, _ => ""
  end.
Fixpoint str_drop (n : nat) (s : string) : string :=
  match n, s with
  | S n, String _ s => str_drop n s
  | S _, "" => ""
  | O, s => s
  end.

(** [text.strip_prefix(p)] *)
Definition strip_prefix (p s : string) : option string :=
  if String.prefix p s then Some (str_drop (String.length p) s) else None.

(** [text.bytes().all(p)] *)
Definition all_bytes (p : ascii → bool) (s : string) : bool := forallb p (str_bytes s).

Lemma str_take_drop n s : (str_take n s ++ str_drop n s)%string = s.
Proof.
  revert s. induction n as [|n IH]; intros [|c s]; try done.
  change (String c (str_take n s ++ str_drop n s)%string = String c s). by rewrite IH.
Qed.

Lemma length_app_str s t : String.length (s ++ t)%string = String.length s + String.length t.
Proof.
  induction s as [|c s IH]; [done|].
  change (S (String.length (s ++ t)%string) = S (String.length s + String.length t)). by rewrite IH.
Qed.

Lemma length_str_take n s : n ≤ String.length s → String.length (str_take n s) = n.
Proof. revert s. induction n; intros [|c s]; simpl; intros; try lia. f_equal. apply IHn. lia. Qed.

Lemma str_take_app s t : str_take (String.length s) (s ++ t)%string = s.
Proof.
  induction s as [|c s IH]; [by destruct t|].
  change (String c (str_take (String.length s) (s ++ t)%string) = String c s). by rewrite IH.
Qed.

Lemma str_drop_app s t : str_drop (String.length s) (s ++ t)%string = t.
Proof. induction s as [|c s IH]; [by destruct t|]. apply IH. Qed.

Lemma strip_prefix_Some p s rest : strip_prefix p s = Some rest → s = (p ++ rest)%string.
Proof.
  unfold strip_prefix. destruct (String.prefix p s) eqn:Hp; [|done]. intros [= <-].
  revert s Hp. induction p as [|c p IH]; intros [|c' s] Hp; try done.
  cbn in Hp. destruct (ascii_dec c c') as [->|]; [|done].
  change (String c' s = String c' (p ++ str_drop (String.length p) s)%string). by rewrite <- IH.
Qed.

Lemma strip_prefix_is_prefix p s : String.prefix p s = true → ∃ t, s = (p ++ t)%string.
Proof. intros Hp. eexists. apply strip_prefix_Some. unfold strip_prefix. by rewrite Hp. Qed.

Lemma str_prefix_app p s : String.prefix p (p ++ s)%string = true.
Proof.
  induction p as [|c p IH]; [by destruct s|].
  change (String c p ++ s)%string with (String c (p ++ s)%string). cbn [String.prefix].
  by destruct (ascii_dec c c).
Qed.

Lemma strip_prefix_app p s : strip_prefix p (p ++ s)%string = Some s.
Proof. unfold strip_prefix. by rewrite str_prefix_app, str_drop_app. Qed.

Lemma all_bytes_app p s t : all_bytes p (s ++ t)%string = all_bytes p s && all_bytes p t.
Proof.
  unfold all_bytes. induction s as [|c s IH]; [done|].
  change (p c && forallb p (str_bytes (s ++ t)%string) = p c && forallb p (str_bytes s) && forallb p (str_bytes t)).
  by rewrite IH, andb_assoc.
Qed.

(** ** Hexadecimal: [format!("{b:02x}")] *)

Definition hex_digit (n : N) : ascii :=
  if (n <? 10)%N then ascii_of_N (48 + n) else ascii_of_N (87 + n).
Definition hex_byte (b : byte) : string :=
  String (hex_digit (Byte.to_N b / 16)) (String (hex_digit (Byte.to_N b mod 16)) "").
Fixpoint hex (bytes : list byte) : string :=
  match bytes with
  | [] => ""
  | b :: bytes => (hex_byte b ++ hex bytes)%string
  end.

(** [matches!(b, b'0'..=b'9' | b'a'..=b'f')] *)
Definition is_hex_byte (c : ascii) : bool :=
  let n := N_of_ascii c in
  ((48 <=? n) && (n <=? 57) || (97 <=? n) && (n <=? 102))%N.

Lemma hex_byte_ok b : all_bytes is_hex_byte (hex_byte b) = true.
Proof. by destruct b. Qed.

Lemma hex_byte_inj b c : hex_byte b = hex_byte c → b = c.
Proof.
  (* A byte is read back from its two digits. *)
  assert (∀ b, Byte.of_N (match hex_byte b with
    | String h (String l _) =>
        let v c := let n := N_of_ascii c in (if (n <? 58)%N then n - 48 else n - 87)%N in
        v h * 16 + v l
    | _ => 0 end)%N = Some b) as Hb by (intros []; vm_compute; reflexivity).
  intros E. pose proof (Hb b) as Hb1. rewrite E in Hb1. rewrite Hb in Hb1. congruence.
Qed.

Lemma length_hex bytes : String.length (hex bytes) = 2 * length bytes.
Proof. induction bytes; simpl; [done|]. rewrite length_app_str, IHbytes. simpl. lia. Qed.

Lemma hex_all bytes : all_bytes is_hex_byte (hex bytes) = true.
Proof. induction bytes; [done|]. simpl. by rewrite all_bytes_app, hex_byte_ok, IHbytes. Qed.

#[global] Instance hex_inj : Inj (=) (=) hex.
Proof.
  intros x. induction x as [|b x IH]; intros [|c y] E; try done.
  simpl in E. assert (hex_byte b = hex_byte c ∧ hex x = hex y) as [E1 E2].
  { unfold hex_byte in *.
    change (String (hex_digit (Byte.to_N b / 16)) (String (hex_digit (Byte.to_N b mod 16)) (hex x)) =
      String (hex_digit (Byte.to_N c / 16)) (String (hex_digit (Byte.to_N c mod 16)) (hex y))) in E.
    injection E as E1 E2 E3. by rewrite E1, E2. }
  by rewrite (hex_byte_inj _ _ E1), (IH _ E2).
Qed.
