(* ===== verification/Text.v ===== *)
(** Text, as Rust's standard library handles it: trimming, splitting, and
    whole numbers in decimal. *)

From stdpp Require Import pretty.
From S2P Require Import Prelude.

(** ** [str::trim]

    Rust trims the code points with the Unicode property [White_Space]; on
    UTF-8 bytes these are the sequences below. *)
Definition white_space : list string :=
  let seq l := string_of_list_ascii (map ascii_of_N l) in
  map seq [[9]; [10]; [11]; [12]; [13]; [32]; [194; 133]; [194; 160]; [225; 154; 128];
    [226; 128; 128]; [226; 128; 129]; [226; 128; 130]; [226; 128; 131]; [226; 128; 132];
    [226; 128; 133]; [226; 128; 134]; [226; 128; 135]; [226; 128; 136]; [226; 128; 137];
    [226; 128; 138]; [226; 128; 168]; [226; 128; 169]; [226; 128; 175]; [226; 129; 159];
    [227; 128; 128]]%N.

(** The first of [ps] that [s] starts with, dropped. *)
Fixpoint strip_one (ps : list string) (s : string) : option string :=
  match ps with
  | [] => None
  | p :: ps => match strip_prefix p s with Some s => Some s | None => strip_one ps s end
  end.

(** [n] is the number of bytes, more than the rounds there can be. *)
Fixpoint strip_all (n : nat) (ps : list string) (s : string) : string :=
  match n with
  | O => s
  | S n => match strip_one ps s with Some s => strip_all n ps s | None => s end
  end.

Definition str_rev (s : string) : string := string_of_list_ascii (rev (list_ascii_of_string s)).

Definition trim_start (s : string) : string := strip_all (String.length s) white_space s.
Definition trim_end (s : string) : string :=
  str_rev (strip_all (String.length s) (map str_rev white_space) (str_rev s)).
Definition trim (s : string) : string := trim_end (trim_start s).

(** [text.split_once(c)]: at the first [c]. *)
Fixpoint split_once (c : ascii) (s : string) : option (string * string) :=
  match s with
  | "" => None
  | String c' s =>
      if Ascii.eqb c' c then Some ("", s)
      else match split_once c s with
        | Some (before, after) => Some (String c' before, after)
        | None => None
        end
  end.

(** [text.rsplit(c).next()]: what follows the last [c]. *)
Fixpoint after_last (c : ascii) (s : string) : string :=
  match split_once c s with
  | None => s
  | Some _ => match s with "" => "" | String _ s => after_last c s end
  end.

(** [text.contains(c)] *)
Definition contains (c : ascii) (s : string) : bool := existsb (Ascii.eqb c) (str_bytes s).

(** [u8::is_ascii_digit], [u8::is_ascii_lowercase] *)
Definition is_digit (c : ascii) : bool := let n := N_of_ascii c in ((48 <=? n) && (n <=? 57))%N.
Definition is_lowercase (c : ascii) : bool := let n := N_of_ascii c in ((97 <=? n) && (n <=? 122))%N.

(** [bytes().take_while(p).count()], as the two parts it splits the text at. *)
Fixpoint span (p : ascii → bool) (s : string) : string * string :=
  match s with
  | "" => ("", "")
  | String c rest =>
      if p c then let '(a, b) := span p rest in (String c a, b) else ("", s)
  end.

(** [text.trim_start_matches(c)] *)
Fixpoint trim_start_matches (c : ascii) (s : string) : string :=
  match s with
  | String c' rest => if Ascii.eqb c' c then trim_start_matches c rest else s
  | "" => ""
  end.

(** [str::split] at every [c] *)
Fixpoint split (c : ascii) (s : string) : list string :=
  match s with
  | "" => [""]
  | String c' s =>
      if Ascii.eqb c' c then "" :: split c s
      else match split c s with [] => [String c' ""] | f :: fs => String c' f :: fs end
  end.

(** [to_ascii_lowercase] *)
Definition ascii_lower (c : ascii) : ascii :=
  let n := N_of_ascii c in if ((65 <=? n) && (n <=? 90))%N then ascii_of_N (n + 32) else c.
Definition to_ascii_lowercase (s : string) : string :=
  string_of_list_ascii (map ascii_lower (list_ascii_of_string s)).

(** [a.eq_ignore_ascii_case(b)] *)
Definition eq_ignore_ascii_case (a b : string) : bool := String.eqb (to_ascii_lowercase a) (to_ascii_lowercase b).

(** [u8::is_ascii_hexdigit] *)
Definition is_ascii_hexdigit (c : ascii) : bool :=
  let n := N_of_ascii c in
  ((48 <=? n) && (n <=? 57) || (65 <=? n) && (n <=? 70) || (97 <=? n) && (n <=? 102))%N.

(** ** [str::parse::<u64>]

    Digits, after one [+] if there is one; too large a number is an error. *)
Definition digit_value (c : ascii) : N := N_of_ascii c - 48.
Definition push_digit (n : N) (c : ascii) : N := n * 10 + digit_value c.
Definition digits_value (s : string) : N := fold_left push_digit (str_bytes s) 0%N.

Definition parse_digits (s : string) : option N :=
  if negb (String.length s =? 0) && all_bytes is_digit s && (digits_value s <=? u64_max)%N
  then Some (digits_value s) else None.

Definition parse_u64 (s : string) : option N :=
  match s with
  | String "+" rest => parse_digits rest
  | _ => parse_digits s
  end.

(** ** Lines

    [str::lines]: without their ends, and nothing after the last end. *)
Fixpoint split_lines (s : string) : list string :=
  match s with
  | "" => []
  | String c s =>
      if Ascii.eqb c "010" then "" :: split_lines s
      else match split_lines s with [] => [String c ""] | l :: ls => String c l :: ls end
  end.
Definition newline : string := String "010" "".
Definition strip_cr (l : string) : string :=
  match str_rev l with String "013" l => str_rev l | _ => l end.
Definition lines (s : string) : list string := map strip_cr (split_lines s).

(** [text.replace(from, to)], for a [from] that is not empty; [n] is the number
    of bytes, as many as the rounds there can be. *)
Fixpoint replace_all (n : nat) (from to s : string) : string :=
  match n with
  | O => s
  | S n =>
      match strip_prefix from s with
      | Some rest => (to ++ replace_all n from to rest)%string
      | None => match s with String c rest => String c (replace_all n from to rest) | "" => "" end
      end
  end.
Definition replace (from to s : string) : string := replace_all (String.length s) from to s.

(** [format!("{text:?}")]; what is not ASCII is taken to be printable. *)
Definition escape (c : ascii) : string :=
  let n := N_of_ascii c in
  if (n =? 9)%N then "\t" else if (n =? 10)%N then "\n" else if (n =? 13)%N then "\r" else if (n =? 0)%N then "\0"
  else if ((n =? 34) || (n =? 92))%N then String "092" (String c "")
  else if ((n <? 32) || (n =? 127))%N
  then ("\u{" ++ (if (n <? 16)%N then "" else String (hex_digit (n / 16)) "") ++ String (hex_digit (n mod 16)) "}")%string
  else String c "".
Definition debug (s : string) : string :=
  String "034" (String.concat "" (map escape (str_bytes s)) ++ String "034" "")%string.

(** ** Lemmas *)

Lemma split_once_Some c s before after :
  split_once c s = Some (before, after) → s = (before ++ String c after)%string.
Proof.
  revert before. induction s as [|c' s IH]; intros before Hs; [done|]. cbn in Hs.
  destruct (Ascii.eqb_spec c' c) as [->|]; [by injection Hs as <- <-|].
  destruct (split_once c s) as [[b a]|]; [|done]. injection Hs as <- ->. by rewrite (IH b).
Qed.

Lemma span_app p s : ((span p s).1 ++ (span p s).2)%string = s.
Proof.
  induction s as [|c s IH]; [done|]. cbn. destruct (p c); [|done]. destruct (span p s) as [a b]. cbn in *.
  change (String c a ++ b)%string with (String c (a ++ b)%string). by rewrite IH.
Qed.

Lemma span_all p s : all_bytes p (span p s).1 = true.
Proof.
  induction s as [|c s IH]; [done|]. cbn. destruct (p c) eqn:Hc; [|done]. destruct (span p s) as [a b].
  cbn in *. unfold all_bytes in *. cbn. by rewrite Hc, IH.
Qed.

(** The value of digits, when they are written. *)
Lemma pretty_char_digit x : (x < 10)%N → is_digit (pretty_N_char x) = true ∧ digit_value (pretty_N_char x) = x.
Proof.
  intros Hx. assert (x ∈ [0; 1; 2; 3; 4; 5; 6; 7; 8; 9]%N) as Hin by set_solver by lia.
  repeat (apply elem_of_cons in Hin as [->|Hin]; [by vm_compute|]). by apply elem_of_nil in Hin.
Qed.

Lemma fold_push_app l1 l2 n : fold_left push_digit (l1 ++ l2) n = fold_left push_digit l2 (fold_left push_digit l1 n).
Proof. apply fold_left_app. Qed.

Lemma pretty_go_digits x s :
  all_bytes is_digit (pretty_N_go x s) = all_bytes is_digit s ∧
  digits_value (pretty_N_go x s) = fold_left push_digit (str_bytes s) x.
Proof.
  revert s. induction (N.lt_wf_0 x) as [x _ IH]; intros s.
  destruct (decide (x = 0%N)) as [->|Hne]; [by rewrite pretty_N_go_0|].
  rewrite pretty_N_go_step by lia.
  destruct (IH (x / 10)%N ltac:(apply N.div_lt; lia) (String (pretty_N_char (x mod 10)) s)) as [-> ->].
  destruct (pretty_char_digit (x mod 10)%N) as [Hd Hv]; [by apply N.mod_lt|]. split.
  - unfold all_bytes. cbn. by rewrite Hd.
  - cbn. f_equal. unfold push_digit. rewrite Hv. rewrite N.mul_comm. symmetry. apply N.div_mod. done.
Qed.

Lemma pretty_digits (n : N) :
  all_bytes is_digit (pretty n) = true ∧ digits_value (pretty n) = n ∧ String.length (pretty n) ≠ 0.
Proof.
  unfold pretty, pretty_N. case_decide as Hn; [subst; by vm_compute|].
  destruct (pretty_go_digits n "") as [-> ->]. split_and!; [done..|].
  intros Hl. destruct (pretty_N_go n "") eqn:Hg; [|done].
  pose proof (pretty_go_digits n "") as [_ Hv]. by rewrite Hg in Hv.
Qed.

Lemma parse_digits_pretty n : (n ≤ u64_max)%N → parse_digits (pretty n) = Some n.
Proof.
  intros Hn. unfold parse_digits. destruct (pretty_digits n) as (-> & -> & Hl).
  apply Nat.eqb_neq in Hl as ->. by rewrite (proj2 (N.leb_le _ _) Hn).
Qed.

(** A number is read back from how it is written. *)
Lemma parse_pretty n : (n ≤ u64_max)%N → parse_u64 (pretty n) = Some n.
Proof.
  intros Hn. pose proof (pretty_digits n) as (Hd & _ & Hl). unfold parse_u64.
  destruct (pretty n) as [|c s] eqn:Hp; [done|]. rewrite <- (parse_digits_pretty n Hn), Hp.
  assert (c ≠ "+"%char) as Hc by (intros ->; by cbn in Hd).
  destruct c as [[] [] [] [] [] [] [] []]; try done.
Qed.

Lemma str_bytes_app s t : str_bytes (s ++ t)%string = str_bytes s ++ str_bytes t.
Proof. unfold str_bytes. induction s as [|c s IH]; [done|]. cbn. by rewrite <- IH. Qed.

Lemma string_of_bytes_app l k :
  string_of_list_ascii (l ++ k) = (string_of_list_ascii l ++ string_of_list_ascii k)%string.
Proof. induction l as [|c l IH]; [done|]. cbn. by rewrite IH.
Qed.

(** ** Trimming leaves what is visible alone *)

(** Characters that are no part of white space: the printable ones of ASCII. *)
Definition visible (c : ascii) : bool := let n := N_of_ascii c in ((33 <=? n) && (n <=? 126))%N.

Lemma strip_visible c s : visible c = true →
  strip_one white_space (String c s) = None ∧ strip_one (map str_rev white_space) (String c s) = None.
Proof. destruct c as [[] [] [] [] [] [] [] []]; first [by intros [=]|intros _; split; reflexivity]. Qed.

Lemma str_rev_app s t : str_rev (s ++ t)%string = (str_rev t ++ str_rev s)%string.
Proof.
  unfold str_rev. fold (str_bytes (s ++ t)). rewrite str_bytes_app, rev_app_distr. apply string_of_bytes_app.
Qed.

Lemma str_rev_rev s : str_rev (str_rev s) = s.
Proof.
  unfold str_rev. by rewrite list_ascii_of_string_of_list_ascii, rev_involutive, string_of_list_ascii_of_string.
Qed.

Lemma strip_all_none n ps s : strip_one ps s = None → strip_all n ps s = s.
Proof. intros Hs. destruct n; [done|]. cbn. by rewrite Hs. Qed.

Lemma trim_visible c d r l : visible c = true → visible d = true → String c r = (l ++ String d "")%string →
  trim (String c r) = String c r.
Proof.
  intros Hc Hd Heq. unfold trim, trim_start.
  rewrite (strip_all_none _ _ _ (proj1 (strip_visible c r Hc))). rewrite Heq. unfold trim_end.
  rewrite str_rev_app. change (str_rev (String d "")) with (String d "").
  rewrite (strip_all_none _ _ (String d "" ++ str_rev l) (proj2 (strip_visible d (str_rev l) Hd))).
  change (String d "") with (str_rev (String d "")) at 1.
  by rewrite <- str_rev_app, str_rev_rev.
Qed.

(** A text has a first and a last character, which are of its characters. *)
Lemma text_first p s : all_bytes p s = true → s ≠ "" → ∃ c r, s = String c r ∧ p c = true.
Proof. destruct s as [|c s]; [done|]. unfold all_bytes. cbn. intros [Hc _]%andb_true_iff _. by exists c, s. Qed.

Lemma text_last p s : all_bytes p s = true → s ≠ "" → ∃ l d, s = (l ++ String d "")%string ∧ p d = true.
Proof.
  induction s as [|c s IH]; [done|]. unfold all_bytes. cbn. intros [Hc Hs]%andb_true_iff _.
  destruct s as [|c' s]; [by exists "", c|]. destruct (IH Hs) as (l & d & Hl & Hd); [done|].
  exists (String c l), d. split; [|done]. by rewrite Hl.
Qed.

Lemma trim_printable s : all_bytes visible s = true → trim s = s.
Proof.
  intros Hs. destruct (decide (s = "")) as [->|Hne]; [done|].
  destruct (text_first _ s Hs Hne) as (c & r & Hc & Hdc), (text_last _ s Hs Hne) as (l & d & Hd & Hdd).
  rewrite Hc in *. by eapply trim_visible.
Qed.

Lemma digit_visible c : is_digit c = true → visible c = true.
Proof.
  unfold is_digit, visible. rewrite !andb_true_iff, !N.leb_le. lia.
Qed.

Lemma all_bytes_impl p q s : (∀ c, p c = true → q c = true) → all_bytes p s = true → all_bytes q s = true.
Proof. unfold all_bytes. rewrite !forallb_forall. auto. Qed.

Lemma trim_digits s : all_bytes is_digit s = true → trim s = s.
Proof. intros Hs. apply trim_printable, (all_bytes_impl is_digit); auto using digit_visible. Qed.

Lemma split_once_digits a r c : all_bytes is_digit a = true → is_digit c = false →
  split_once c (a ++ String c r)%string = Some (a, r).
Proof.
  intros Ha Hc. induction a as [|c' a IH].
  - change (split_once c (String c r) = Some ("", r)). cbn. by rewrite Ascii.eqb_refl.
  - unfold all_bytes in Ha. cbn in Ha. apply andb_true_iff in Ha as [Hc' Ha].
    change (split_once c (String c' (a ++ String c r)) = Some (String c' a, r)). cbn.
    rewrite (IH Ha). destruct (Ascii.eqb_spec c' c) as [->|]; [congruence|done].
Qed.

Lemma contains_app c s t : contains c (s ++ t)%string = contains c s || contains c t.
Proof. unfold contains. by rewrite str_bytes_app, existsb_app. Qed.

Lemma contains_digits c s : all_bytes is_digit s = true → is_digit c = false → contains c s = false.
Proof.
  intros Hs Hc. induction s as [|c' s IH]; [done|]. unfold all_bytes in Hs. cbn in Hs.
  apply andb_true_iff in Hs as [Hc' Hs]. unfold contains in *. cbn. rewrite (IH Hs), orb_false_r.
  apply Ascii.eqb_neq. congruence.
Qed.

Lemma parse_u64_digits s : all_bytes is_digit s = true → parse_u64 s = parse_digits s.
Proof.
  destruct s as [|c s]; [done|]. unfold all_bytes. cbn. intros [Hc _]%andb_true_iff.
  destruct c as [[] [] [] [] [] [] [] []]; done.
Qed.

Lemma str_app_assoc a b c : ((a ++ b) ++ c)%string = (a ++ b ++ c)%string.
Proof.
  induction a as [|x a IH]; [done|].
  change (String x ((a ++ b) ++ c) = String x (a ++ b ++ c)). by rewrite IH.
Qed.

Lemma str_app_nil s : (s ++ "")%string = s.
Proof. induction s as [|c s IH]; [done|]. change (String c (s ++ "") = String c s). by rewrite IH. Qed.
Lemma cons_app c s t : (String c s ++ t = String c (s ++ t))%string.
Proof. done. Qed.
Lemma concat_cons s ss : String.concat "" (s :: ss) = (s ++ String.concat "" ss)%string.
Proof. cbn. destruct ss as [|s' ss]; [by rewrite str_app_nil|done]. Qed.

Lemma contains_cons c c' s : contains c (String c' s) = Ascii.eqb c c' || contains c s.
Proof. done. Qed.
Lemma split_app_first c a b : contains c a = false → split c (a ++ String c b)%string = a :: split c b.
Proof.
  induction a as [|c' a IH]; intros Ha; [change (split c (String c b) = "" :: split c b); cbn; by rewrite Ascii.eqb_refl|].
  rewrite contains_cons, orb_false_iff in Ha. destruct Ha as [Hc Ha]. rewrite cons_app. cbn [split].
  rewrite Ascii.eqb_sym, Hc. by rewrite IH.
Qed.
Lemma split_none c a : contains c a = false → split c a = [a].
Proof.
  induction a as [|c' a IH]; intros Ha; [done|]. rewrite contains_cons, orb_false_iff in Ha. destruct Ha as [Hc Ha].
  cbn [split]. by rewrite Ascii.eqb_sym, Hc, IH.
Qed.

(** Words that are joined are split again. *)
Fixpoint join_by (c : ascii) (ws : list string) : string :=
  match ws with [] => "" | [w] => w | w :: ws => (w ++ String c (join_by c ws))%string end.
Lemma split_join c w ws : Forall (λ w, contains c w = false) (w :: ws) → split c (join_by c (w :: ws)) = w :: ws.
Proof.
  revert w. induction ws as [|w' ws IH]; intros w [Hw Hws]%Forall_cons; [by apply split_none|].
  change (join_by c (w :: w' :: ws)) with (w ++ String c (join_by c (w' :: ws)))%string.
  by rewrite split_app_first, IH.
Qed.

Lemma not_contained p c s : all_bytes p s = true → p c = false → contains c s = false.
Proof.
  intros Hs Hc. induction s as [|c' s IH]; [done|]. unfold all_bytes in Hs. cbn in Hs.
  apply andb_true_iff in Hs as [Hc' Hs]. rewrite contains_cons, (IH Hs), orb_false_r. apply Ascii.eqb_neq. congruence.
Qed.
