(* ===== verification/Errors.v ===== *)
(** The API's errors ([error.rs]): one constructor per stable error code, the
    code, the HTTP status it travels with, and whether sending the request
    again can help. *)

From stdpp Require Import pretty.
From S2P Require Import Prelude.

Inductive ApiError :=
| Unauthenticated
| KeyExpired
| KeyRevoked
| ForbiddenRole
| KeyIdMismatch
| RewriteInProgress
| LeaseHeld
| RewriteIncomplete (staged source : nat)
| RewriteEnded
| QuotaExceeded
| ItemTooLarge
| ContentMismatch
| NotFound
| InvalidId (reason : string)
| InvalidRequest (reason : string)
| RateLimited
| ServiceUnavailable.

#[global] Instance ApiError_eq_dec : EqDecision ApiError.
Proof. solve_decision. Defined.

Definition code (e : ApiError) : string :=
  match e with
  | Unauthenticated => "UNAUTHENTICATED"
  | KeyExpired => "KEY_EXPIRED"
  | KeyRevoked => "KEY_REVOKED"
  | ForbiddenRole => "FORBIDDEN_ROLE"
  | KeyIdMismatch => "KEY_ID_MISMATCH"
  | RewriteInProgress => "REWRITE_IN_PROGRESS"
  | LeaseHeld => "LEASE_HELD"
  | RewriteIncomplete _ _ => "REWRITE_INCOMPLETE"
  | RewriteEnded => "REWRITE_ENDED"
  | QuotaExceeded => "QUOTA_EXCEEDED"
  | ItemTooLarge => "ITEM_TOO_LARGE"
  | ContentMismatch => "CONTENT_MISMATCH"
  | NotFound => "NOT_FOUND"
  | InvalidId _ => "INVALID_ID"
  | InvalidRequest _ => "INVALID_REQUEST"
  | RateLimited => "RATE_LIMITED"
  | ServiceUnavailable => "SERVICE_UNAVAILABLE"
  end%string.

Definition http_status (e : ApiError) : N :=
  match e with
  | Unauthenticated | KeyExpired | KeyRevoked => 401
  | ForbiddenRole => 403
  | KeyIdMismatch | RewriteInProgress | LeaseHeld | RewriteIncomplete _ _ | RewriteEnded => 409
  | QuotaExceeded | ItemTooLarge => 413
  | ContentMismatch => 422
  | NotFound => 404
  | InvalidId _ | InvalidRequest _ => 400
  | RateLimited => 429
  | ServiceUnavailable => 503
  end%N.

Definition retryable (e : ApiError) : bool :=
  match e with
  | RewriteInProgress | LeaseHeld | RateLimited | ServiceUnavailable => true
  | _ => false
  end.

(** [Display]: what a client is told besides the code. *)
Definition error_text (e : ApiError) : string :=
  match e with
  | Unauthenticated => "no valid API key"
  | KeyExpired => "this API key has expired"
  | KeyRevoked => "this API key was revoked"
  | ForbiddenRole => "this key is read-only"
  | KeyIdMismatch => "the workspace's data key is another one"
  | RewriteInProgress => "the workspace's encryption is being changed"
  | LeaseHeld => "another key holds the rewrite session"
  | RewriteIncomplete staged source => pretty staged ++ " of " ++ pretty source ++ " items are staged"
  | RewriteEnded => "that rewrite was aborted; begin again under a new key"
  | QuotaExceeded => "the workspace is full"
  | ItemTooLarge => "the item is larger than this server accepts"
  | ContentMismatch => "the content is not what was announced"
  | NotFound => "not found"
  | InvalidId reason | InvalidRequest reason => reason
  | RateLimited => "too many failed authentications from this address"
  | ServiceUnavailable => "the server cannot reach its storage"
  end%string.

(** Two errors with one code differ at most in what they carry. *)
Definition same_variant (e e' : ApiError) : Prop :=
  match e, e' with
  | RewriteIncomplete _ _, RewriteIncomplete _ _ => True
  | InvalidId _, InvalidId _ => True
  | InvalidRequest _, InvalidRequest _ => True
  | _, _ => e = e'
  end.

Lemma code_same_variant e e' : code e = code e' → same_variant e e'.
Proof. by destruct e, e'. Qed.
