(* ===== verification/Random.v ===== *)
(** Randomness, injected ([random.rs]): the interface [RandomSource] every
    identifier is minted through, and the reproducible [SeededRandom]. *)

From S2P Require Import Prelude.

(** [fill(&mut self, bytes: &mut [u8])]: what a slice of [n] bytes holds
    afterwards, and the source as it is then.  A slice keeps its length. *)
Class RandomSource (R : Type) := {
  fill : nat → R → list byte * R;
  fill_length n (rng : R) : length (fill n rng).1 = n;
}.

Record SeededRandom := mkSeeded { seed : N }.

Definition wmul (a b : N) : N := ((a * b) mod two64)%N.

Module SeededRandom.
Definition new (seed : N) : SeededRandom := mkSeeded seed.

(** SplitMix64, on [u64] with [wrapping_add] and [wrapping_mul]. *)
Definition next (self : SeededRandom) : N * SeededRandom :=
  let state := wadd (seed self) 0x9E3779B97F4A7C15 in
  let z := state in
  let z := wmul (N.lxor z (N.shiftr z 30)) 0xBF58476D1CE4E5B9 in
  let z := wmul (N.lxor z (N.shiftr z 27)) 0x94D049BB133111EB in
  (N.lxor z (N.shiftr z 31), mkSeeded state).

Definition low_byte (n : N) : byte := default Byte.x00 (Byte.of_N (n mod 256)).

(** [word.to_le_bytes()[..n]] *)
Fixpoint le_bytes (n : nat) (word : N) : list byte :=
  match n with
  | O => []
  | S n => low_byte word :: le_bytes n (N.shiftr word 8)
  end.

(** [for chunk in bytes.chunks_mut(8)]: whole words first, then the rest.
    [fuel] is the number of chunks, at most [n + 1]. *)
Fixpoint fill_chunks (fuel n : nat) (self : SeededRandom) : list byte * SeededRandom :=
  match fuel, n with
  | S fuel, S _ =>
      let '(word, self) := next self in
      let chunk := le_bytes (Nat.min 8 n) word in
      let '(rest, self) := fill_chunks fuel (n - Nat.min 8 n) self in
      (chunk ++ rest, self)
  | _, _ => ([], self)
  end.
End SeededRandom.

Lemma length_le_bytes n word : length (SeededRandom.le_bytes n word) = n.
Proof. revert word. induction n; intros; simpl; auto. Qed.

Lemma length_fill_chunks fuel n self :
  n ≤ fuel → length (SeededRandom.fill_chunks fuel n self).1 = n.
Proof.
  revert n self. induction fuel as [|fuel IH]; intros [|n] self Hn; try done; [lia|].
  cbn [SeededRandom.fill_chunks].
  destruct (SeededRandom.next self) as [word self'].
  specialize (IH (S n - Nat.min 8 (S n)) self' ltac:(lia)).
  destruct (SeededRandom.fill_chunks fuel _ self') as [rest self'']; cbn [fst] in IH.
  cbn [fst]. rewrite length_app, length_le_bytes, IH.
  lia.
Qed.

#[export] Instance seeded_source : RandomSource SeededRandom := {|
  fill n self := SeededRandom.fill_chunks n n self;
  fill_length n self := length_fill_chunks n n self (le_n n);
|}.

(** ** SplitMix64 does not repeat itself

    Each of its steps is a bijection of [u64]: a shift and exclusive or, and
    a product with an odd number, which has an inverse modulo 2^64. *)

Lemma lt_two64_bits a : (a < two64)%N ↔ ∀ i, (64 ≤ i)%N → N.testbit a i = false.
Proof.
  change two64 with (2 ^ 64)%N. split.
  - intros Ha i Hi. destruct (decide (a = 0%N)) as [->|Hne]; [apply N.bits_0|].
    apply N.bits_above_log2. apply N.log2_lt_pow2 in Ha; lia.
  - intros Hb. destruct (decide (a = 0%N)) as [->|Hne]; [lia|].
    apply N.log2_lt_pow2; [lia|]. apply N.nle_gt. intros Hle.
    pose proof (N.bit_log2 a Hne) as Hbit. by rewrite (Hb _ Hle) in Hbit.
Qed.

Definition xorshift (k z : N) : N := N.lxor z (N.shiftr z k).

Lemma xorshift_lt k z : (z < two64)%N → (xorshift k z < two64)%N.
Proof.
  rewrite !lt_two64_bits. intros Hz i Hi. unfold xorshift.
  rewrite N.lxor_spec, N.shiftr_spec', !Hz by lia. done.
Qed.

Lemma xorshift_inj k a b :
  (0 < k)%N → (a < two64)%N → (b < two64)%N → xorshift k a = xorshift k b → a = b.
Proof.
  intros Hk Ha Hb Heq. apply N.bits_inj. intros i. rewrite lt_two64_bits in Ha, Hb.
  assert (∀ n i, (64 ≤ i + N.of_nat n)%N → N.testbit a i = N.testbit b i) as Hall;
    [|by apply (Hall 64 i); lia].
  clear i. intros n. induction n as [|n IH]; intros i Hi; [by rewrite Ha, Hb by lia|].
  apply (f_equal (λ z, N.testbit z i)) in Heq. unfold xorshift in Heq.
  rewrite !N.lxor_spec, !N.shiftr_spec', (IH (i + k)%N) in Heq by lia.
  by destruct (N.testbit a i), (N.testbit b i), (N.testbit b (i + k)%N).
Qed.

Lemma wmul_lt a b : (wmul a b < two64)%N.
Proof. by apply N.mod_upper_bound. Qed.

Lemma wmul_inj c c' a b :
  wmul c c' = 1%N → (a < two64)%N → (b < two64)%N → wmul a c = wmul b c → a = b.
Proof.
  intros Hc Ha Hb Heq.
  assert (∀ z, (z < two64)%N → wmul (wmul z c) c' = z) as Hinv.
  { intros z Hz. unfold wmul in *. rewrite N.Div0.mul_mod_idemp_l, <- N.mul_assoc.
    rewrite <- N.Div0.mul_mod_idemp_r, Hc, N.mul_1_r. by apply N.mod_small. }
  rewrite <- (Hinv a Ha), <- (Hinv b Hb). by rewrite Heq.
Qed.

Definition mix (z : N) : N :=
  xorshift 31 (wmul (xorshift 27 (wmul (xorshift 30 z) 0xBF58476D1CE4E5B9)) 0x94D049BB133111EB).

Lemma mix_inj a b : (a < two64)%N → (b < two64)%N → mix a = mix b → a = b.
Proof.
  intros Ha Hb Heq. unfold mix in Heq.
  apply xorshift_inj in Heq; [|done|apply wmul_lt..].
  apply (wmul_inj _ 0x319642b2d24d8ec3) in Heq; [|by vm_compute|apply xorshift_lt, wmul_lt..].
  apply xorshift_inj in Heq; [|done|apply wmul_lt..].
  apply (wmul_inj _ 0x96de1b173f119089) in Heq; [|by vm_compute|by apply xorshift_lt..].
  by apply xorshift_inj in Heq.
Qed.

Lemma mix_lt z : (mix z < two64)%N.
Proof. apply xorshift_lt, wmul_lt. Qed.

Definition gamma : N := 0x9E3779B97F4A7C15.

Lemma next_mix self :
  SeededRandom.next self = (mix (wadd (seed self) gamma), mkSeeded (wadd (seed self) gamma)).
Proof. done. Qed.

Lemma fill_chunks_step fuel n self :
  SeededRandom.fill_chunks (S fuel) (S n) self =
    (SeededRandom.le_bytes (Nat.min 8 (S n)) (SeededRandom.next self).1 ++
       (SeededRandom.fill_chunks fuel (S n - Nat.min 8 (S n)) (SeededRandom.next self).2).1,
     (SeededRandom.fill_chunks fuel (S n - Nat.min 8 (S n)) (SeededRandom.next self).2).2).
Proof.
  cbn [SeededRandom.fill_chunks]. destruct (SeededRandom.next self) as [word self1].
  cbn [fst snd]. by destruct (SeededRandom.fill_chunks fuel _ self1).
Qed.

Lemma low_byte_inj a b : (a mod 256 = b mod 256 ↔ SeededRandom.low_byte a = SeededRandom.low_byte b)%N.
Proof.
  unfold SeededRandom.low_byte. split; [by intros ->|]. intros Heq.
  assert (∀ n, Byte.of_N (n mod 256) = Some (default Byte.x00 (Byte.of_N (n mod 256)))) as Hsome.
  { intros n. destruct (Byte.of_N (n mod 256)) eqn:Hn; [done|].
    apply Byte.of_N_None_iff in Hn. pose proof (N.mod_upper_bound n 256). lia. }
  pose proof (Hsome a) as Ha. rewrite Heq, <- (Hsome b) in Ha.
  apply (f_equal (default Byte.x00)) in Ha. 
  destruct (Byte.of_N (a mod 256)) eqn:Ea; [|by pose proof (Hsome a); congruence].
  destruct (Byte.of_N (b mod 256)) eqn:Eb; [|by pose proof (Hsome b); congruence].
  apply Byte.to_of_N in Ea, Eb. simpl in Ha. congruence.
Qed.

Lemma le_bytes_inj n a b :
  (a < 256 ^ N.of_nat n)%N → (b < 256 ^ N.of_nat n)%N →
  SeededRandom.le_bytes n a = SeededRandom.le_bytes n b → a = b.
Proof.
  revert a b. induction n as [|n IH]; intros a b Ha Hb Heq; [simpl in *; lia|].
  cbn [SeededRandom.le_bytes] in Heq. injection Heq as Hlow Hrest. apply low_byte_inj in Hlow.
  rewrite !N.shiftr_div_pow2 in Hrest. change (2 ^ 8)%N with 256%N in Hrest.
  rewrite Nat2N.inj_succ, N.pow_succ_r' in Ha, Hb.
  apply IH in Hrest; [|by apply N.Div0.div_lt_upper_bound..].
  rewrite (N.div_mod a 256), (N.div_mod b 256) by done. congruence.
Qed.
