(* ===== verification/Ids.v ===== *)
(** Identifiers ([ids.rs]): parsed strictly, so that each is safe as a path
    component, and ordered so that item ids are chronological. *)

From S2P Require Import Prelude Errors Random.

(** ** Texts of a checked form

    The newtypes of [ids.rs] wrap a [String] in a private field, so that a
    value comes from [parse], or from [generate] for the ids the server
    mints: its text has the form the type says.  [Checked] is that. *)
Record Checked (form : string → bool) := mkChecked {
  text : string;
  text_form : form text = true;
}.
Arguments mkChecked {form} text text_form.
Arguments text {form} _.
Arguments text_form {form} _.

Section checked.
Context {form : string → bool}.

Lemma checked_eq (x y : Checked form) : text x = text y → x = y.
Proof. destruct x as [x hx], y as [y hy]; simpl. intros <-. f_equal. apply proof_irrel. Qed.

Definition checked_eq_dec : EqDecision (Checked form).
Proof.
  intros x y. destruct (decide (text x = text y)) as [E|E].
  - left. by apply checked_eq.
  - right. by intros ->.
Defined.

(** [if form(text) { Ok(Self(text)) } else { Err(e) }] *)
Definition check (e : ApiError) (s : string) : outcome ApiError (Checked form) :=
  match decide (form s = true) with
  | left h => Ok (mkChecked s h)
  | right _ => Err e
  end.

Lemma check_ok e s x : check e s = Ok x ↔ text x = s.
Proof.
  unfold check. split.
  - case_decide; [|done]. by intros [= <-].
  - intros <-. destruct (decide _) as [h|h]; [|by destruct h; apply text_form].
    f_equal. by apply checked_eq.
Qed.

Lemma check_err e s e' : check e s = Err e' ↔ e' = e ∧ form s = false.
Proof.
  unfold check. case_decide as Hf; split; [done|by intros [_ ?]; congruence| |by intros [-> _]].
  intros [= <-]. split; [done|]. by apply not_true_is_false.
Qed.

Definition checked_countable `{EqDecision (Checked form)} : Countable (Checked form).
Proof.
  refine (inj_countable text (λ s, match check NotFound s with Ok x => Some x | _ => None end) _).
  intros x. by rewrite (proj2 (check_ok _ _ x)).
Defined.

(** [derive(PartialOrd, Ord)]: the order of the text. *)
Definition checked_order : KeyOrder (Checked form).
Proof.
  refine {| key_le := λ x y, String.le (text x) (text y) |}.
  - intros x y. apply _.
  - intros x y. apply (total String.le).
  - split; [split|].
    + intros x. reflexivity.
    + intros x y z. apply transitivity.
    + intros x y Hxy Hyx. by apply checked_eq, (anti_symm String.le).
Defined.
End checked.

(** [a < b] *)
Definition key_lt {K} `{KeyOrder K} (x y : K) : Prop := ¬ key_le y x.
#[global] Instance key_lt_dec {K} `{KeyOrder K} : RelDecision (key_lt (K := K)).
Proof. intros x y. unfold key_lt. destruct (key_le_dec y x); [by right; auto|by left]. Defined.

(** ** The forms *)

Definition is_lower_hex (text : string) : bool :=
  negb (String.length text =? 0) && all_bytes is_hex_byte text.

Definition item_form (text : string) : bool :=
  (String.length text =? 21)
  && bool_decide (String.get 8 text = Some "-"%char)
  && is_lower_hex (str_take 8 text)
  && is_lower_hex (str_drop 9 text).
Definition key_form (text : string) : bool := (String.length text <=? 64) && is_lower_hex text.
Definition upload_form (text : string) : bool := (String.length text =? 32) && is_lower_hex text.
Definition workspace_form (text : string) : bool := (String.length text =? 16) && is_lower_hex text.

Definition ItemId : Type := Checked item_form.
Definition KeyId : Type := Checked key_form.
Definition UploadId : Type := Checked upload_form.
Definition WorkspaceId : Type := Checked workspace_form.
(** Any text: [ApiKeyId::new] checks nothing. *)
Record ApiKeyId := mkApiKeyId { api_key_str : string }.

#[global] Instance ItemId_eq_dec : EqDecision ItemId := checked_eq_dec.
#[global] Instance KeyId_eq_dec : EqDecision KeyId := checked_eq_dec.
#[global] Instance UploadId_eq_dec : EqDecision UploadId := checked_eq_dec.
#[global] Instance WorkspaceId_eq_dec : EqDecision WorkspaceId := checked_eq_dec.
#[global] Instance ApiKeyId_eq_dec : EqDecision ApiKeyId.
Proof. solve_decision. Defined.

#[global] Instance ItemId_countable : Countable ItemId := checked_countable.
#[global] Instance KeyId_countable : Countable KeyId := checked_countable.
#[global] Instance UploadId_countable : Countable UploadId := checked_countable.
#[global] Instance WorkspaceId_countable : Countable WorkspaceId := checked_countable.

#[global] Instance ItemId_order : KeyOrder ItemId := checked_order.
#[global] Instance KeyId_order : KeyOrder KeyId := checked_order.
#[global] Instance UploadId_order : KeyOrder UploadId := checked_order.
#[global] Instance WorkspaceId_order : KeyOrder WorkspaceId := checked_order.

(** Random bytes in hexadecimal have the form of a minted id. *)
Lemma hex_form n bytes : 0 < n → length bytes = n →
  (String.length (hex bytes) =? 2 * n) && is_lower_hex (hex bytes) = true.
Proof.
  intros Hn Hl. unfold is_lower_hex. rewrite length_hex, hex_all, Hl, Nat.eqb_refl, andb_true_r.
  apply negb_true_iff, Nat.eqb_neq. lia.
Qed.

Module ItemId.
Definition parse (text : string) : outcome ApiError ItemId :=
  check (InvalidId ("`" ++ text ++ "` is not an item id")%string) text.

Definition content_key (id : ItemId) : string := str_drop 9 (text id).
End ItemId.

Module KeyId.
Definition parse (text : string) : outcome ApiError KeyId := check (InvalidId "not a key id") text.
End KeyId.

Module UploadId.
Definition generate {R} `{RandomSource R} (rng : R) : UploadId * R :=
  (mkChecked (hex (fill 16 rng).1) (hex_form 16 _ (Nat.lt_0_succ _) (fill_length 16 rng)),
   (fill 16 rng).2).

Definition parse (text : string) : outcome ApiError UploadId :=
  check (InvalidId "not an upload id") text.
End UploadId.

Module WorkspaceId.
Definition generate {R} `{RandomSource R} (rng : R) : WorkspaceId * R :=
  (mkChecked (hex (fill 8 rng).1) (hex_form 8 _ (Nat.lt_0_succ _) (fill_length 8 rng)),
   (fill 8 rng).2).

Definition parse (text : string) : outcome ApiError WorkspaceId :=
  check (InvalidId "not a workspace id") text.
End WorkspaceId.
