(* ===== verification/Shelf.v ===== *)
(** Where items are kept ([shelf/mod.rs] and [shelf/memory.rs]).

    - the data: [Envelope], [StoredItem];
    - [pump], which streams content into a shelf;
    - the class [ItemShelf], the operations of the trait;
    - the module [MemoryShelf], the shelf in memory, which is also the
      reference every other shelf is compared with;
    - the class [LawfulShelf]: what a shelf promises to the rules, stated
      against that reference.  A lawful shelf may be interrupted (an I/O
      error or a kill) and leaves most steps undone or done; what else may be
      left is a place for an upload that is not finished, an old note of a
      digest, and a generation that was begun and holds nothing. *)

From S2P Require Import Prelude Errors Random Ids.

(** ** What comes from outside

    SHA-256 ([sha2]) and JSON ([serde_json]) are third-party code. *)
Class Externals := {
  sha256 : list byte → list byte;
  json : Type;
  json_from_slice : list byte → option json;
  (** [value.get(field).and_then(Value::as_str)] and [..as_u64] *)
  json_str : json → string → option string;
  json_u64 : json → string → option N;
}.

(** The digest of SHA-256 is 32 bytes. *)
Class LawfulExternals `{Externals} := {
  sha256_length bytes : length (sha256 bytes) = 32;
}.

Definition CHUNK_BYTES : nat := 64 * 1024.

Record Envelope := mkEnvelope {
  meta : list byte;
  under : option KeyId;
  received_at : N;
}.

Record StoredItem := mkStoredItem {
  item_size : N;
  envelope : Envelope;
}.

#[global] Instance Envelope_eq_dec : EqDecision Envelope.
Proof. solve_decision. Defined.
#[global] Instance StoredItem_eq_dec : EqDecision StoredItem.
Proof. solve_decision. Defined.

(** [content.len() as u64] *)
Definition len64 (content : list byte) : N := N.of_nat (length content).

(** ** Reading content

    A [dyn Read] is what its next calls of [read] give: a piece of at most
    the buffer's size, [ErrorKind::Interrupted], or another error.  When
    nothing is left it is at its end, which is [Ok(0)]. *)
Inductive read_event :=
| Data (piece : list byte)
| Interrupted
| Broken.
Definition Reader : Type := list read_event.

(** What a reader yields before it ends or breaks. *)
Fixpoint yielded (content : Reader) : list byte :=
  match content with
  | Data [] :: _ | Broken :: _ | [] => []
  | Data piece :: content => piece ++ yielded content
  | Interrupted :: content => yielded content
  end.

(** Whether a reader comes to its end. *)
Fixpoint ends (content : Reader) : bool :=
  match content with
  | [] | Data [] :: _ => true
  | Broken :: _ => false
  | _ :: content => ends content
  end.

(** The incremental hasher holds what it was given; [finalize] is [sha256]. *)
Section pump.
Context {X : Type} (announced : N) (sink : list byte → X → outcome ApiError unit * X).

Fixpoint pump_from (content : Reader) (sum : N) (hasher : option (list byte)) (x : X)
    : outcome ApiError N * option (list byte) * X :=
  match content with
  | [] => (Ok sum, hasher, x)
  | Data [] :: _ => (Ok sum, hasher, x)
  | Data piece :: content =>
      let sum := wadd sum (len64 piece) in
      if (announced <? sum)%N then (Err ContentMismatch, hasher, x)
      else
        let hasher := (λ h, h ++ piece) <$> hasher in
        match sink piece x with
        | (Ok _, x) => pump_from content sum hasher x
        | (Err e, x) => (Err e, hasher, x)
        | (Killed, x) => (Killed, hasher, x)
        | (Spinning, x) => (Spinning, hasher, x)
        end
  | Interrupted :: content => pump_from content sum hasher x
  | Broken :: _ =>
      (Err (InvalidRequest "the content could not be read to its end"), hasher, x)
  end.
End pump.

Definition pump {X} (content : Reader) (announced : N) (hasher : option (list byte))
    (sink : list byte → X → outcome ApiError unit * X) (x : X)
    : outcome ApiError N * option (list byte) * X :=
  pump_from announced sink content 0 hasher x.

(** ** The trait *)

Class ItemShelf (Sh : Type) := {
  stage_create : UploadId → M ApiError Sh unit;
  stage_write : UploadId → Reader → N → M ApiError Sh N;
  stage_write_hashed : UploadId → Reader → N → M ApiError Sh N;
  stage_digest : UploadId → M ApiError Sh (option (list byte));
  stage_size : UploadId → M ApiError Sh (option N);
  stage_remove : UploadId → M ApiError Sh unit;
  staged : M ApiError Sh (list UploadId);
  publish : UploadId → N → ItemId → Envelope → M ApiError Sh bool;
  shelf_get : N → ItemId → M ApiError Sh (option StoredItem);
  open_content_from : N → ItemId → N → M ApiError Sh (option (list byte));
  shelf_ids : N → M ApiError Sh (list ItemId);
  shelf_remove : N → ItemId → M ApiError Sh (option StoredItem);
  drop_generation : N → M ApiError Sh unit;
  generations : M ApiError Sh (list N);
  shelf_bytes : N → M ApiError Sh N;
}.

(** The trait's one provided method. *)
Definition open_content {Sh} `{ItemShelf Sh} (g : N) (id : ItemId)
    : M ApiError Sh (option (list byte)) := open_content_from g id 0.

(** ** The shelf in memory *)

Abbreviation staged_content := (list byte * option (list byte))%type (only parsing).
Abbreviation shelved := (list byte * Envelope)%type (only parsing).

Record Shelves := mkShelves {
  staging : gmap UploadId staged_content;
  gens : gmap N (gmap ItemId shelved);
}.

#[global] Instance Shelves_eq_dec : EqDecision Shelves.
Proof. solve_decision. Defined.

Definition no_shelves : Shelves := mkShelves ∅ ∅.

(** A generation nothing was put into is an empty one. *)
Definition items (sh : Shelves) (g : N) : gmap ItemId shelved :=
  default ∅ (gens sh !! g).

Definition set_staging (f : gmap UploadId staged_content → gmap UploadId staged_content)
    (sh : Shelves) : Shelves := mkShelves (f (staging sh)) (gens sh).
Definition set_gens (f : gmap N (gmap ItemId shelved) → gmap N (gmap ItemId shelved))
    (sh : Shelves) : Shelves := mkShelves (staging sh) (f (gens sh)).

Definition stored (it : shelved) : StoredItem := mkStoredItem (len64 it.1) it.2.

Module MemoryShelf.
Section MemoryShelf.
Context `{Externals}.

Definition stage_create (u : UploadId) : M ApiError Shelves unit := λ sh,
  match staging sh !! u with
  | Some _ => (Ok (), sh)
  | None => (Ok (), set_staging <[u := ([], None)]> sh)
  end.

Definition write (u : UploadId) (content : Reader) (announced : N) (hashed : bool)
    : M ApiError Shelves N := λ sh,
  match staging sh !! u with
  | None => (Err NotFound, sh)
  | Some _ =>
      let '(written, hasher, bytes) :=
        pump content announced (if hashed then Some [] else None)
          (λ piece bytes, (Ok (), bytes ++ piece)) [] in
      let digest := sha256 <$> hasher in
      match staging sh !! u with
      | None => (Err NotFound, sh)
      | Some _ =>
          (written,
           set_staging <[u := if is_ok written then (bytes, digest) else ([], None)]> sh)
      end
  end.

Definition stage_write (u : UploadId) (content : Reader) (announced : N) :=
  write u content announced false.
Definition stage_write_hashed (u : UploadId) (content : Reader) (announced : N) :=
  write u content announced true.

Definition stage_digest (u : UploadId) : M ApiError Shelves (option (list byte)) := λ sh,
  (Ok (staging sh !! u ≫= snd), sh).

Definition stage_size (u : UploadId) : M ApiError Shelves (option N) := λ sh,
  (Ok (len64 ∘ fst <$> staging sh !! u), sh).

Definition stage_remove (u : UploadId) : M ApiError Shelves unit := λ sh,
  (Ok (), set_staging (delete u) sh).

Definition staged : M ApiError Shelves (list UploadId) := λ sh,
  (Ok (btree_keys (staging sh)), sh).

Definition publish (u : UploadId) (g : N) (id : ItemId) (e : Envelope)
    : M ApiError Shelves bool := λ sh,
  match staging sh !! u with
  | None => (Err NotFound, sh)
  | Some (content, _) =>
      if bool_decide (is_Some (items sh g !! id)) then (Ok false, sh)
      else
        (Ok true,
         mkShelves (delete u (staging sh)) (<[g := <[id := (content, e)]> (items sh g)]> (gens sh)))
  end.

Definition get (g : N) (id : ItemId) : M ApiError Shelves (option StoredItem) := λ sh,
  (Ok (stored <$> (gens sh !! g ≫= λ its, its !! id)), sh).

Definition open_content_from (g : N) (id : ItemId) (offset : N)
    : M ApiError Shelves (option (list byte)) := λ sh,
  (Ok ((λ it : shelved, drop (N.to_nat (N.min offset (len64 it.1))) it.1) <$>
       (gens sh !! g ≫= λ its, its !! id)), sh).

Definition ids (g : N) : M ApiError Shelves (list ItemId) := λ sh,
  (Ok (from_option (λ its, reverse (btree_keys its)) [] (gens sh !! g)), sh).

Definition remove (g : N) (id : ItemId) : M ApiError Shelves (option StoredItem) := λ sh,
  match gens sh !! g with
  | None => (Ok None, sh)
  | Some its => (Ok (stored <$> its !! id), set_gens <[g := delete id its]> sh)
  end.

Definition drop_generation (g : N) : M ApiError Shelves unit := λ sh,
  (Ok (), set_gens (delete g) sh).

Definition generations : M ApiError Shelves (list N) := λ sh,
  (Ok ((List.filter (λ e, negb (bool_decide (e.2 = ∅))) (btree_iter (gens sh))).*1), sh).

Definition bytes (g : N) : M ApiError Shelves N := λ sh,
  (Ok (from_option (λ its, wsum (map (λ it, len64 it.1) (btree_values its))) 0%N (gens sh !! g)), sh).
End MemoryShelf.
End MemoryShelf.

#[export] Instance memory_shelf `{Externals} : ItemShelf Shelves := {|
  stage_create := MemoryShelf.stage_create;
  stage_write := MemoryShelf.stage_write;
  stage_write_hashed := MemoryShelf.stage_write_hashed;
  stage_digest := MemoryShelf.stage_digest;
  stage_size := MemoryShelf.stage_size;
  stage_remove := MemoryShelf.stage_remove;
  staged := MemoryShelf.staged;
  publish := MemoryShelf.publish;
  shelf_get := MemoryShelf.get;
  open_content_from := MemoryShelf.open_content_from;
  shelf_ids := MemoryShelf.ids;
  shelf_remove := MemoryShelf.remove;
  drop_generation := MemoryShelf.drop_generation;
  generations := MemoryShelf.generations;
  shelf_bytes := MemoryShelf.bytes;
|}.

(** ** What a shelf promises *)

(** A step that was cut short by an I/O error or a kill. *)
Definition interrupted {A} (r : outcome ApiError A) : Prop :=
  r = Err ServiceUnavailable ∨ r = Killed.

(** [obeys view r spec torn]: what [r] answers is what the reference answers,
    on the same shelves; or the step was cut short, and the shelves are as
    [torn] allows. *)
Definition obeys {Sh A} (view : Sh → Shelves) (r : outcome ApiError A * Sh)
    (spec : outcome ApiError A * Shelves) (torn : Shelves → Prop) : Prop :=
  (r.1 = spec.1 ∧ view r.2 = spec.2) ∨ (interrupted r.1 ∧ torn (view r.2)).

(** Cut short, most steps were done whole or not at all. *)
Definition undone_or_done {A} (before : Shelves) (spec : outcome ApiError A * Shelves)
    (after : Shelves) : Prop := after = before ∨ after = spec.2.

(** Writing content is an exception: what was staged is lost meanwhile, but
    nothing else changes. *)
Definition torn_write (u : UploadId) (before after : Shelves) : Prop :=
  after = before ∨ ∃ c, after = set_staging <[u := c]> before.

(** The same uploads and items; a generation may have been begun. *)
Definition same_items (v v' : Shelves) : Prop :=
  staging v' = staging v ∧ ∀ g, items v' g = items v g.

(** A place for an upload.  The note [d] of a digest may be older than it,
    when removing the place of an earlier upload of this id was cut short. *)
Definition create_place (d : option (list byte)) (u : UploadId) (v : Shelves) : Shelves :=
  match staging v !! u with
  | Some _ => v
  | None => set_staging <[u := ([], d)]> v
  end.

(** A place that was not finished: it is not staged, and may be written to. *)
Definition place_found (u : UploadId) (v v0 : Shelves) : Prop :=
  v0 = v ∨ ∃ d, v0 = create_place d u v.

Class LawfulShelf (Sh : Type) `{Externals} `{ItemShelf Sh} := {
  view : Sh → Shelves;
  stage_create_law u sh : ∃ d,
    obeys view (stage_create u sh) (Ok (), create_place d u (view sh))
      (undone_or_done (view sh) (Ok () : outcome ApiError unit, create_place d u (view sh)));
  stage_write_law u content announced sh : ∃ v0, place_found u (view sh) v0 ∧
    obeys view (stage_write u content announced sh)
      (MemoryShelf.stage_write u content announced v0) (torn_write u (view sh));
  stage_write_hashed_law u content announced sh : ∃ v0, place_found u (view sh) v0 ∧
    obeys view (stage_write_hashed u content announced sh)
      (MemoryShelf.stage_write_hashed u content announced v0) (torn_write u (view sh));
  stage_digest_law u sh : is_Some (staging (view sh) !! u) →
    obeys view (stage_digest u sh) (MemoryShelf.stage_digest u (view sh)) (eq (view sh));
  stage_size_law u sh :
    obeys view (stage_size u sh) (MemoryShelf.stage_size u (view sh)) (eq (view sh));
  stage_remove_law u sh :
    obeys view (stage_remove u sh) (MemoryShelf.stage_remove u (view sh))
      (undone_or_done (view sh) (MemoryShelf.stage_remove u (view sh)));
  staged_law sh : ∃ us, (∀ u, is_Some (staging (view sh) !! u) → u ∈ us) ∧
    obeys view (staged sh) (Ok us, view sh) (eq (view sh));
  publish_law u g id e sh : is_Some (staging (view sh) !! u) →
    obeys view (publish u g id e sh) (MemoryShelf.publish u g id e (view sh))
      (λ v', same_items (view sh) v' ∨ v' = (MemoryShelf.publish u g id e (view sh)).2);
  get_law g id sh :
    obeys view (shelf_get g id sh) (MemoryShelf.get g id (view sh)) (eq (view sh));
  open_content_from_law g id offset sh :
    obeys view (open_content_from g id offset sh)
      (MemoryShelf.open_content_from g id offset (view sh)) (eq (view sh));
  ids_law g sh : obeys view (shelf_ids g sh) (MemoryShelf.ids g (view sh)) (eq (view sh));
  remove_law g id sh :
    obeys view (shelf_remove g id sh) (MemoryShelf.remove g id (view sh))
      (undone_or_done (view sh) (MemoryShelf.remove g id (view sh)));
  drop_generation_law g sh :
    obeys view (drop_generation g sh) (MemoryShelf.drop_generation g (view sh))
      (undone_or_done (view sh) (MemoryShelf.drop_generation g (view sh)));
  generations_law sh :
    obeys view (generations sh) (MemoryShelf.generations (view sh)) (eq (view sh));
  bytes_law g sh :
    obeys view (shelf_bytes g sh) (MemoryShelf.bytes g (view sh)) (eq (view sh));
}.

Lemma memory_stage_create `{Externals} u v : MemoryShelf.stage_create u v = (Ok (), create_place None u v).
Proof. unfold MemoryShelf.stage_create, create_place. by case_match. Qed.

(** The reference keeps its own promise, and is never interrupted. *)
#[export] Instance memory_lawful `{Externals} : LawfulShelf Shelves.
Proof.
  unshelve econstructor; [exact (λ sh, sh)|..]; intros;
    try (eexists; split; [by left|left; done]); try (left; done).
  - exists None. left. cbn. by rewrite memory_stage_create.
  - exists (btree_keys (staging sh)). split; [intros u; by rewrite elem_of_btree_keys|left; done].
Defined.

(** ** Facts about the reference *)

Lemma items_insert sh g g' its :
  items (set_gens <[g := its]> sh) g' = if decide (g = g') then its else items sh g'.
Proof. unfold items; simpl. case_decide; [subst; by rewrite lookup_insert_eq|by rewrite lookup_insert_ne]. Qed.

Lemma items_delete sh g g' :
  items (set_gens (delete g) sh) g' = if decide (g = g') then ∅ else items sh g'.
Proof. unfold items; simpl. case_decide; [subst; by rewrite lookup_delete_eq|by rewrite lookup_delete_ne]. Qed.

Lemma items_set_staging f sh g : items (set_staging f sh) g = items sh g.
Proof. done. Qed.

Lemma items_lookup sh g id :
  (gens sh !! g ≫= λ its, its !! id) = items sh g !! id.
Proof. unfold items. by destruct (gens sh !! g); simpl; [|rewrite lookup_empty]. Qed.

(** The bytes of a generation, without a width. *)
Definition true_bytes (its : gmap ItemId shelved) : N :=
  Nsum ((λ e, len64 e.2.1) <$> map_to_list its).

Lemma true_bytes_empty : true_bytes ∅ = 0%N.
Proof. by vm_compute. Qed.

Lemma true_bytes_insert (its : gmap ItemId shelved) id it :
  its !! id = None → true_bytes (<[id := it]> its) = (len64 it.1 + true_bytes its)%N.
Proof. intros Hn. unfold true_bytes. by rewrite map_to_list_insert. Qed.

Lemma true_bytes_delete (its : gmap ItemId shelved) id it :
  its !! id = Some it → true_bytes its = (len64 it.1 + true_bytes (delete id its))%N.
Proof.
  intros Hs. rewrite <- (true_bytes_insert _ id) by apply lookup_delete_eq.
  by rewrite insert_delete_id.
Qed.

Lemma memory_ids_spec g sh :
  (MemoryShelf.ids g sh).1 = Ok (reverse (btree_keys (items sh g))).
Proof. unfold MemoryShelf.ids, items. by destruct (gens sh !! g). Qed.

Lemma memory_bytes_spec g sh :
  (MemoryShelf.bytes g sh).1 = Ok (true_bytes (items sh g) mod two64)%N.
Proof.
  unfold MemoryShelf.bytes, items. simpl. f_equal.
  destruct (gens sh !! g) as [its|]; [|by vm_compute]. simpl.
  rewrite wsum_Nsum. f_equal. unfold true_bytes, btree_values.
  apply Nsum_perm. rewrite <- (btree_iter_perm its).
  rewrite <- list_fmap_compose. done.
Qed.

Lemma memory_generations_spec sh g l :
  (MemoryShelf.generations sh).1 = Ok l → g ∈ l ↔ items sh g ≠ ∅.
Proof.
  intros [= <-]. rewrite list_elem_of_fmap. unfold items. split.
  - intros ([g' its] & -> & Hin). apply list_elem_of_In, filter_In in Hin as [Hin Hne].
    apply list_elem_of_In, elem_of_btree_iter in Hin. simpl in *. rewrite Hin. simpl.
    by apply negb_true_iff, bool_decide_eq_false in Hne.
  - intros Hne. destruct (gens sh !! g) as [its|] eqn:Hg; [|done]. simpl in Hne.
    exists (g, its). split; [done|]. apply list_elem_of_In, filter_In.
    split; [by apply list_elem_of_In, elem_of_btree_iter|].
    apply negb_true_iff, bool_decide_eq_false. done.
Qed.
