(* ===== verification/Records.v ===== *)
(** The data of the rules: what [workspace.rs], [upload.rs], [rewrite.rs] and
    [ledger/mod.rs] declare, with the setters the rules update it by. *)

From S2P Require Import Prelude Errors Random Ids Shelf.

(** ** [workspace.rs] *)

Inductive Role := ReadWrite | ReadOnly.

Record Caller := mkCaller {
  key : ApiKeyId;
  role : Role;
}.

Definition must_write (c : Caller) : outcome ApiError unit :=
  match role c with
  | ReadWrite => Ok ()
  | ReadOnly => Err ForbiddenRole
  end.

Record Limits := mkLimits {
  quota_bytes : N;
  max_item_bytes : option N;
  staging_secs : N;
  lease_secs : N;
  check_plaintext_content : bool;
}.

Definition default_limits : Limits := {|
  quota_bytes := 20 * 1024 * 1024 * 1024;
  max_item_bytes := None;
  staging_secs := 24 * 60 * 60;
  lease_secs := 10 * 60;
  check_plaintext_content := true;
|}.

Inductive Partition := Current | Plain.

Inductive Resolved :=
| ResolvedId (id : ItemId)
| Ambiguous (candidates : list ItemId)
| ResolvedNotFound
| InvalidPrefix.

Inductive EncryptionState := Plaintext | Sealed | InRewrite.

Record Seal := mkSeal {
  seal_key_id : KeyId;
  seal_header : list byte;
}.

(** ** [rewrite.rs] *)

Inductive RewriteKind := Migrate | Rotate.

Record Session := mkSession {
  kind : RewriteKind;
  prior : option Seal;
  next : Seal;
  holder : ApiKeyId;
  lease_expires_at : N;
  staged_generation : N;
}.

Record RewriteRequest := mkRewriteRequest {
  rr_kind : RewriteKind;
  rr_expected_key_id : option KeyId;
  new_key_id : KeyId;
  new_header : list byte;
}.

Record SessionView := mkSessionView {
  sv_kind : RewriteKind;
  sv_holder : ApiKeyId;
  sv_lease_expires_at : N;
  sv_new_key_id : KeyId;
  sv_new_header : list byte;
  sv_staged_ids : list ItemId;
  sv_source_items : nat;
}.

Record EncryptionView := mkEncryptionView {
  ev_state : EncryptionState;
  ev_key_id : option KeyId;
  ev_header : option (list byte);
  ev_rewrite : option SessionView;
}.

Inductive State :=
| Settled (seal : option Seal)
| Rewriting (session : Session).

Inductive Cleanup :=
| DropGeneration (g : N)
| RemoveStaging (u : UploadId).

(** ** [upload.rs] *)

Record UploadRequest := mkUploadRequest {
  ur_id : ItemId;
  ur_meta : list byte;
  ur_size : N;
  ur_expected_key_id : option KeyId;
  in_rewrite : bool;
}.

Record UploadTicket := mkUploadTicket {
  ticket_upload_id : UploadId;
  ticket_until : N;
}.

Record PutOutcome := mkPutOutcome {
  out_id : ItemId;
  created : bool;
  out_staged : bool;
}.

Inductive UploadState :=
| Awaiting (size : N)
| Finished.

Inductive Begun :=
| BegunTicket (ticket : UploadTicket)
| BegunStored (out : PutOutcome).

Record Ticket := mkTicket {
  t_owner : ApiKeyId;
  t_request : UploadRequest;
  t_expires_at : N;
}.

Record Tombstone := mkTombstone {
  s_owner : ApiKeyId;
  s_outcome : PutOutcome;
  s_expires_at : N;
}.

(** ** [ledger/mod.rs]; [Uploads] is its two maps *)

Record WorkspaceRecord := mkRecord {
  state : State;
  generation : N;
  plain : option N;
  next_generation : N;
  used : gmap N N;
  tickets : gmap UploadId Ticket;
  tombstones : gmap UploadId Tombstone;
  ended_rewrites : gset KeyId;
}.

Definition default_record : WorkspaceRecord := {|
  state := Settled None;
  generation := 0;
  plain := None;
  next_generation := 1;
  used := ∅;
  tickets := ∅;
  tombstones := ∅;
  ended_rewrites := ∅;
|}.

#[global] Instance Role_eq_dec : EqDecision Role.
Proof. solve_decision. Defined.
#[global] Instance Partition_eq_dec : EqDecision Partition.
Proof. solve_decision. Defined.
#[global] Instance Seal_eq_dec : EqDecision Seal.
Proof. solve_decision. Defined.
#[global] Instance RewriteKind_eq_dec : EqDecision RewriteKind.
Proof. solve_decision. Defined.
#[global] Instance Session_eq_dec : EqDecision Session.
Proof. solve_decision. Defined.
#[global] Instance State_eq_dec : EqDecision State.
Proof. solve_decision. Defined.
#[global] Instance Cleanup_eq_dec : EqDecision Cleanup.
Proof. solve_decision. Defined.
#[global] Instance UploadRequest_eq_dec : EqDecision UploadRequest.
Proof. solve_decision. Defined.
#[global] Instance PutOutcome_eq_dec : EqDecision PutOutcome.
Proof. solve_decision. Defined.
#[global] Instance Ticket_eq_dec : EqDecision Ticket.
Proof. solve_decision. Defined.
#[global] Instance Tombstone_eq_dec : EqDecision Tombstone.
Proof. solve_decision. Defined.
#[global] Instance WorkspaceRecord_eq_dec : EqDecision WorkspaceRecord.
Proof. solve_decision. Defined.

(** Field updates. *)
Definition with_state (x : State) (r : WorkspaceRecord) : WorkspaceRecord :=
  mkRecord x (generation r) (plain r) (next_generation r) (used r) (tickets r) (tombstones r) (ended_rewrites r).
Definition with_generation (x : N) (r : WorkspaceRecord) : WorkspaceRecord :=
  mkRecord (state r) x (plain r) (next_generation r) (used r) (tickets r) (tombstones r) (ended_rewrites r).
Definition with_plain (x : option N) (r : WorkspaceRecord) : WorkspaceRecord :=
  mkRecord (state r) (generation r) x (next_generation r) (used r) (tickets r) (tombstones r) (ended_rewrites r).
Definition with_next_generation (x : N) (r : WorkspaceRecord) : WorkspaceRecord :=
  mkRecord (state r) (generation r) (plain r) x (used r) (tickets r) (tombstones r) (ended_rewrites r).
Definition with_used (x : gmap N N) (r : WorkspaceRecord) : WorkspaceRecord :=
  mkRecord (state r) (generation r) (plain r) (next_generation r) x (tickets r) (tombstones r) (ended_rewrites r).
Definition with_tickets (x : gmap UploadId Ticket) (r : WorkspaceRecord) : WorkspaceRecord :=
  mkRecord (state r) (generation r) (plain r) (next_generation r) (used r) x (tombstones r) (ended_rewrites r).
Definition with_tombstones (x : gmap UploadId Tombstone) (r : WorkspaceRecord) : WorkspaceRecord :=
  mkRecord (state r) (generation r) (plain r) (next_generation r) (used r) (tickets r) x (ended_rewrites r).
Definition with_ended_rewrites (x : gset KeyId) (r : WorkspaceRecord) : WorkspaceRecord :=
  mkRecord (state r) (generation r) (plain r) (next_generation r) (used r) (tickets r) (tombstones r) x.

Arguments with_state x r /.
Arguments with_generation x r /.
Arguments with_plain x r /.
Arguments with_next_generation x r /.
Arguments with_used x r /.
Arguments with_tickets x r /.
Arguments with_tombstones x r /.
Arguments with_ended_rewrites x r /.

(** ** Reading a record *)

(** [Rules::seal]: what readers and ordinary writers go by. *)
Definition seal (r : WorkspaceRecord) : option Seal :=
  match state r with
  | Settled seal => seal
  | Rewriting session => prior session
  end.

(** [Rules::generation_of] *)
Definition generation_of (r : WorkspaceRecord) (p : Partition) : option N :=
  match p with
  | Current => Some (generation r)
  | Plain => plain r
  end.

(** [Rules::live_generations] *)
Definition live_generations (r : WorkspaceRecord) : list N :=
  [generation r] ++ option_list (plain r) ++
  match state r with
  | Rewriting session => [staged_generation session]
  | Settled _ => []
  end.

(** [self.rec.used.get(&g).copied().unwrap_or(0)] *)
Definition used_of (r : WorkspaceRecord) (g : N) : N := default 0%N (used r !! g).

(** [Rules::used_bytes] *)
Definition used_bytes (r : WorkspaceRecord) : N := wsum (used_of r <$> live_generations r).

(** [Rules::staged_bytes] *)
Definition staged_bytes (r : WorkspaceRecord) : N :=
  match state r with
  | Rewriting session => used_of r (staged_generation session)
  | Settled _ => 0
  end.

(** [Rules::reserved_by] *)
Definition reserved_by (r : WorkspaceRecord) (now : N) (rewriting : bool) : N :=
  wsum (ur_size ∘ t_request <$>
    List.filter (λ t, (now <? t_expires_at t)%N && eqb (in_rewrite (t_request t)) rewriting)
      (btree_values (tickets r))).

(** [Rules::pending_uploads] *)
Definition pending_uploads (r : WorkspaceRecord) : nat := size (tickets r).

(** [matches!(self.rec.state, State::Rewriting(_))] *)
Definition is_rewriting (r : WorkspaceRecord) : bool :=
  match state r with Rewriting _ => true | Settled _ => false end.
