(* ===== verification/Effects.v ===== *)
(** What the rules promise: an abstract transition system over records and
    shelves, and the invariants it keeps.

    [effect d r v r' v' a] says that a rule which succeeds may take the record
    [r] over the shelves [v] to [r'] over [v'], leaving the clean-ups [a] for
    after the transaction; [d] is the item it was asked to delete, if that is
    what was asked.  [torn d r v v'] is what a rule that was cut short may
    leave on the shelves, the record being still [r].  The files that model the
    rules prove that these are all they ever do. *)

From S2P Require Import Prelude Errors Random Ids Shelf Records.

(** The data key a generation's items are under: [None] is plaintext. *)
Definition keyed (r : WorkspaceRecord) : list (N * option KeyId) :=
  [(generation r, seal_key_id <$> seal r)] ++
  ((λ g, (g, None)) <$> option_list (plain r)) ++
  match state r with
  | Rewriting session => [(staged_generation session, Some (seal_key_id (next session)))]
  | Settled _ => []
  end.

(** Where an upload goes, if it may go anywhere. *)
Definition target (r : WorkspaceRecord) (q : UploadRequest) : option N :=
  match state r, in_rewrite q with
  | Rewriting s, true =>
      if bool_decide (ur_expected_key_id q = Some (seal_key_id (next s)))
      then Some (staged_generation s) else None
  | Settled sl, false =>
      if bool_decide (seal_key_id <$> sl = ur_expected_key_id q)
      then Some (generation r) else None
  | _, _ => None
  end.

(** ** The record *)

(** A session fits the kind it has, and never goes to the key the workspace
    is under, nor to one an ended rewrite went to. *)
Definition session_ok (r : WorkspaceRecord) (s : Session) : Prop :=
  (kind s = Migrate ↔ prior s = None) ∧
  seal_key_id <$> prior s ≠ Some (seal_key_id (next s)) ∧
  seal_key_id (next s) ∉ ended_rewrites r.

(** An upload of a rewrite belongs to the open one. *)
Definition ticket_ok (r : WorkspaceRecord) (t : Ticket) : Prop :=
  in_rewrite (t_request t) = true →
  ∃ s, state r = Rewriting s ∧
    ur_expected_key_id (t_request t) = Some (seal_key_id (next s)).

Record RecOk (r : WorkspaceRecord) : Prop := mkRecOk {
  ok_numbered g : g ∈ live_generations r → (g < next_generation r)%N;
  ok_distinct : NoDup (live_generations r);
  ok_plain : is_Some (plain r) → is_Some (seal r);
  ok_session s : state r = Rewriting s → session_ok r s;
  ok_tickets u t : tickets r !! u = Some t → ticket_ok r t;
  ok_disjoint u : is_Some (tickets r !! u) → tombstones r !! u = None;
  ok_booked g : is_Some (used r !! g) → g ∈ live_generations r;
}.

(** ** The shelves *)

(** One data key throughout, and no content twice. *)
Record sound_items (k : option KeyId) (its : gmap ItemId shelved) : Prop := {
  sound_under id it : its !! id = Some it → under it.2 = k;
  sound_unique id id' : is_Some (its !! id) → is_Some (its !! id') →
    ItemId.content_key id = ItemId.content_key id' → id = id';
}.

Record ShelfOk (r : WorkspaceRecord) (v : Shelves) : Prop := mkShelfOk {
  ok_items g k : (g, k) ∈ keyed r → sound_items k (items v g);
  ok_unused g : (next_generation r ≤ g)%N → items v g = ∅;
}.

(** A clean-up never touches what the record points to. *)
Definition safe_cleanup (r : WorkspaceRecord) (c : Cleanup) : Prop :=
  match c with
  | DropGeneration g => g ∉ live_generations r
  | RemoveStaging u => tickets r !! u = None
  end.

(** The books and the shelf agree, and nothing is on the shelf that neither
    the record points to nor a clean-up will remove. *)
Record Tidy (r : WorkspaceRecord) (v : Shelves) (a : list Cleanup) : Prop := mkTidy {
  tidy_books g : g ∈ live_generations r → used_of r g = true_bytes (items v g);
  tidy_staging u : is_Some (staging v !! u) → is_Some (tickets r !! u) ∨ RemoveStaging u ∈ a;
  tidy_generations g : items v g ≠ ∅ → g ∈ live_generations r ∨ DropGeneration g ∈ a;
}.

(** ** Bounds that the machine sets, not the rules

    Fewer than 2^64 - 1 generations were begun, and fewer than 2^64 bytes are
    stored. *)
Definition has_room (r : WorkspaceRecord) : Prop := (next_generation r < u64_max)%N.
Definition fits (r : WorkspaceRecord) (v : Shelves) : Prop :=
  (Nsum ((λ g, true_bytes (items v g)) <$> live_generations r) < two64)%N.

(** ** What a rule may do *)

(** The steps of the reference shelf. *)
Definition take_out (g : N) (id : ItemId) (v : Shelves) : Shelves :=
  set_gens <[g := delete id (items v g)]> v.
Definition move_in (u : UploadId) (g : N) (id : ItemId) (content : list byte) (e : Envelope)
    (v : Shelves) : Shelves :=
  mkShelves (delete u (staging v)) (<[g := <[id := (content, e)]> (items v g)]> (gens v)).

(** No item of [g] has this content key. *)
Definition new_content (v : Shelves) (g : N) (ck : string) : Prop :=
  ∀ id, is_Some (items v g !! id) → ItemId.content_key id ≠ ck.

(** An upload that ended: its ticket goes, its outcome stays. *)
Definition ended (u : UploadId) (st : Tombstone) (r : WorkspaceRecord) : WorkspaceRecord :=
  with_tombstones (<[u := st]> (tombstones r)) (with_tickets (delete u (tickets r)) r).

Definition open_session (s : Session) (r : WorkspaceRecord) : WorkspaceRecord :=
  with_state (Rewriting s) (with_next_generation (wadd (next_generation r) 1) r).

Definition drop_tickets (us : list UploadId) (r : WorkspaceRecord) : WorkspaceRecord :=
  with_tickets (filter (λ e, e.1 ∉ us) (tickets r)) r.

Definition committed (s : Session) (r : WorkspaceRecord) : WorkspaceRecord :=
  with_used (delete (generation r) (used r))
    (with_state (Settled (Some (next s))) (with_generation (staged_generation s) r)).
Definition aborted (s : Session) (r : WorkspaceRecord) : WorkspaceRecord :=
  with_used (delete (staged_generation s) (used r))
    (with_state (Settled (prior s))
      (with_ended_rewrites ({[seal_key_id (next s)]} ∪ ended_rewrites r) r)).

Definition set_aside (sl : Seal) (r : WorkspaceRecord) : WorkspaceRecord :=
  with_state (Settled (Some sl)) (with_next_generation (wadd (next_generation r) 1)
    (with_generation (next_generation r) (with_plain (Some (generation r)) r))).

(** The record with its expired uploads and outcomes forgotten. *)
Definition pruned (n : N) (r : WorkspaceRecord) : WorkspaceRecord :=
  with_tombstones (filter (λ e, (n < s_expires_at e.2)%N) (tombstones r))
    (with_tickets (filter (λ e, (n < t_expires_at e.2)%N) (tickets r)) r).
(** The books of the live generations, taken from the shelf. *)
Definition recounted (v : Shelves) (r : WorkspaceRecord) : WorkspaceRecord :=
  with_used (foldl (λ us g, <[g := (true_bytes (items v g) mod two64)%N]> us)
    (used r) (live_generations r)) r.

(** What the janitor asks for. *)
Definition rubbish (r : WorkspaceRecord) (v : Shelves) (a : list Cleanup) : Prop :=
  (∀ c, c ∈ a → match c with
    | RemoveStaging u => tickets r !! u = None
    | DropGeneration g => items v g ≠ ∅ ∧ g ∉ live_generations r
    end) ∧
  (∀ u, is_Some (staging v !! u) → tickets r !! u = None → RemoveStaging u ∈ a) ∧
  (∀ g, items v g ≠ ∅ → g ∉ live_generations r → DropGeneration g ∈ a).

Inductive effect (d : option (Partition * ItemId)) (r : WorkspaceRecord) (v : Shelves)
    : WorkspaceRecord → Shelves → list Cleanup → Prop :=
| eff_none : effect d r v r v []
| eff_delete p g id it :
    d = Some (p, id) → is_rewriting r = false → generation_of r p = Some g → items v g !! id = Some it →
    effect d r v (with_used (<[g := ssub (used_of r g) (len64 it.1)]> (used r)) r) (take_out g id v) []
| eff_enable sl :
    state r = Settled None → items v (generation r) = ∅ →
    effect d r v (with_state (Settled (Some sl)) r) v []
| eff_set_aside sl :
    state r = Settled None → items v (generation r) ≠ ∅ → effect d r v (set_aside sl r) v []
| eff_header sl h :
    state r = Settled (Some sl) →
    effect d r v (with_state (Settled (Some (mkSeal (seal_key_id sl) h))) r) v []
| eff_give_up us :
    (∀ u, u ∈ us → is_Some (tickets r !! u)) →
    effect d r v (drop_tickets us r) v (RemoveStaging <$> us)
| eff_again u n : is_Some (tickets r !! u) → effect d r v r (create_place n u v) []
| eff_ticket u t g n :
    tickets r !! u = None → tombstones r !! u = None → target r (t_request t) = Some g →
    effect d r v (with_tickets (<[u := t]> (tickets r)) r) (create_place n u v) []
| eff_duplicate u t g st :
    tickets r !! u = Some t → target r (t_request t) = Some g →
    effect d r v (ended u st r) v [RemoveStaging u]
| eff_publish u t g c e st :
    tickets r !! u = Some t → target r (t_request t) = Some g →
    staging v !! u = Some c → len64 c.1 = ur_size (t_request t) →
    under e = ur_expected_key_id (t_request t) →
    new_content v g (ItemId.content_key (ur_id (t_request t))) →
    effect d r v
      (ended u st (with_used (<[g := wadd (used_of r g) (ur_size (t_request t))]> (used r)) r))
      (move_in u g (ur_id (t_request t)) c.1 e v) [RemoveStaging u]
| eff_unrecorded u t g st :
    tickets r !! u = Some t → target r (t_request t) = Some g → staging v !! u = None →
    effect d r v
      (ended u st (with_used (<[g := (true_bytes (items v g) mod two64)%N]> (used r)) r))
      v [RemoveStaging u]
| eff_begin s :
    state r = Settled (prior s) → session_ok r s → staged_generation s = next_generation r →
    effect d r v (open_session s r) v []
| eff_lease s s' :
    state r = Rewriting s → prior s' = prior s → next s' = next s → kind s' = kind s →
    staged_generation s' = staged_generation s →
    effect d r v (with_state (Rewriting s') r) v []
| eff_commit s us :
    state r = Rewriting s →
    size (items v (staged_generation s)) = size (items v (generation r)) →
    (∀ u, u ∈ us ↔ ∃ t, tickets r !! u = Some t ∧ in_rewrite (t_request t) = true) →
    effect d r v (drop_tickets us (committed s r)) v
      (DropGeneration (generation r) :: (RemoveStaging <$> us))
| eff_abort s us :
    state r = Rewriting s →
    (∀ u, u ∈ us ↔ ∃ t, tickets r !! u = Some t ∧ in_rewrite (t_request t) = true) →
    effect d r v (drop_tickets us (aborted s r)) v
      (DropGeneration (staged_generation s) :: (RemoveStaging <$> us))
| eff_clean n r' a :
    r' = pruned n r → rubbish r' v a → effect d r v r' v a
| eff_reconcile n r' a :
    r' = pruned n (recounted v r) → rubbish r' v a → effect d r v r' v a.

(** What a rule that was cut short may leave. *)
Inductive torn (d : option (Partition * ItemId)) (r : WorkspaceRecord) (v : Shelves) : Shelves → Prop :=
| torn_staging v' : (∀ g, items v' g = items v g) → torn d r v v'
| torn_delete p g id it :
    d = Some (p, id) → is_rewriting r = false → generation_of r p = Some g → items v g !! id = Some it →
    torn d r v (take_out g id v)
| torn_publish u t g c e :
    tickets r !! u = Some t → target r (t_request t) = Some g →
    staging v !! u = Some c → len64 c.1 = ur_size (t_request t) →
    under e = ur_expected_key_id (t_request t) →
    new_content v g (ItemId.content_key (ur_id (t_request t))) →
    torn d r v (move_in u g (ur_id (t_request t)) c.1 e v).

(** ** Facts about records *)

Lemma live_keyed r : live_generations r = (keyed r).*1.
Proof.
  unfold live_generations, keyed. destruct (plain r); by destruct (state r).
Qed.

Lemma keyed_live r g k : (g, k) ∈ keyed r → g ∈ live_generations r.
Proof. intros Hg. rewrite live_keyed. apply list_elem_of_fmap. by exists (g, k). Qed.

Lemma live_keyed_ex r g : g ∈ live_generations r → ∃ k, (g, k) ∈ keyed r.
Proof. rewrite live_keyed. intros ([g' k] & -> & Hin)%list_elem_of_fmap. by exists k. Qed.

Lemma keyed_generation r : (generation r, seal_key_id <$> seal r) ∈ keyed r.
Proof. apply list_elem_of_here. Qed.

Lemma keyed_plain r g : plain r = Some g → (g, None) ∈ keyed r.
Proof. intros Hp. unfold keyed. rewrite Hp. set_solver. Qed.

Lemma keyed_staged r s : state r = Rewriting s →
  (staged_generation s, Some (seal_key_id (next s))) ∈ keyed r.
Proof. intros Hs. unfold keyed. rewrite Hs. set_solver. Qed.

(** What [keyed] holds, case by case. *)
Lemma keyed_inv r g k : (g, k) ∈ keyed r →
  (g = generation r ∧ k = seal_key_id <$> seal r) ∨
  (plain r = Some g ∧ k = None) ∨
  (∃ s, state r = Rewriting s ∧ g = staged_generation s ∧ k = Some (seal_key_id (next s))).
Proof.
  unfold keyed. intros Hin.
  rewrite !elem_of_app in Hin. destruct Hin as [Hg|[Hp|Hs]].
  - apply list_elem_of_singleton in Hg as [= -> ->]. by left.
  - destruct (plain r); simpl in Hp; [|by apply elem_of_nil in Hp].
    apply list_elem_of_singleton in Hp as [= -> ->]. auto.
  - destruct (state r); [by apply elem_of_nil in Hs|].
    apply list_elem_of_singleton in Hs as [= -> ->]. right; right. by exists session.
Qed.

Lemma target_keyed r q g : target r q = Some g → (g, ur_expected_key_id q) ∈ keyed r.
Proof.
  unfold target. intros Hg.
  destruct (state r) as [sl|s] eqn:Hs; destruct (in_rewrite q); simplify_eq;
    case_bool_decide as Hk; simplify_eq.
  - rewrite <- Hk. pose proof (keyed_generation r) as Hin. unfold seal in Hin.
    by rewrite Hs in Hin.
  - rewrite Hk. by apply keyed_staged.
Qed.

Lemma target_live r q g : target r q = Some g → g ∈ live_generations r.
Proof. intros Ht. by eapply keyed_live, target_keyed. Qed.

Lemma generation_of_live r p g : generation_of r p = Some g → g ∈ live_generations r.
Proof.
  destruct p; simpl; intros Hg; simplify_eq.
  - by eapply keyed_live, keyed_generation.
  - by eapply keyed_live, keyed_plain.
Qed.

Lemma keyed_functional r g k k' :
  RecOk r → (g, k) ∈ keyed r → (g, k') ∈ keyed r → k = k'.
Proof.
  intros Hr Hk Hk'. pose proof (ok_distinct _ Hr) as Hnd. rewrite live_keyed in Hnd.
  apply list_elem_of_lookup in Hk as [i Hi], Hk' as [j Hj].
  assert (i = j) as ->; [|congruence].
  eapply (NoDup_lookup _ i j g Hnd); by rewrite list_lookup_fmap, ?Hi, ?Hj.
Qed.

(** A change of the books, the tickets and the outcomes alone. *)
Definition with_books (us : gmap N N) (ts : gmap UploadId Ticket)
    (ss : gmap UploadId Tombstone) (r : WorkspaceRecord) : WorkspaceRecord :=
  mkRecord (state r) (generation r) (plain r) (next_generation r) us ts ss (ended_rewrites r).

Lemma rec_ok_books us ts ss r :
  RecOk r →
  (∀ g, is_Some (us !! g) → g ∈ live_generations r) →
  (∀ u t, ts !! u = Some t → ticket_ok r t) →
  (∀ u, is_Some (ts !! u) → ss !! u = None) →
  RecOk (with_books us ts ss r).
Proof. intros [Hn Hd Hp Hs Ht Hj Hb] Hus Hts Hss. by split. Qed.

Lemma lookup_insert_live r g n : RecOk r → g ∈ live_generations r →
  ∀ g', is_Some (<[g := n]> (used r) !! g') → g' ∈ live_generations r.
Proof.
  intros Hr Hg g'. rewrite lookup_insert_is_Some'. intros [<-|Hg']; [done|].
  by apply (ok_booked _ Hr).
Qed.

Lemma shelf_ok_same_live r r' v :
  keyed r' = keyed r → next_generation r' = next_generation r → ShelfOk r v → ShelfOk r' v.
Proof. intros Hk Hn [Hi Hu]. split; [by rewrite Hk|by rewrite Hn]. Qed.

(** ** Facts about shelves *)

Lemma items_gens v v' g : gens v' = gens v → items v' g = items v g.
Proof. unfold items. by intros ->. Qed.

Lemma gens_create_place d u v : gens (create_place d u v) = gens v.
Proof. unfold create_place. by case_match. Qed.

Lemma items_create_place d u v g : items (create_place d u v) g = items v g.
Proof. apply items_gens, gens_create_place. Qed.

Lemma staging_create_place d u v u' :
  is_Some (staging (create_place d u v) !! u') → u' = u ∨ is_Some (staging v !! u').
Proof.
  unfold create_place. case_match; simpl; [auto|].
  rewrite lookup_insert_is_Some'. intros [->|]; auto.
Qed.

Lemma items_take_out g id v g' :
  items (take_out g id v) g' = if decide (g = g') then delete id (items v g) else items v g'.
Proof. apply items_insert. Qed.

Lemma items_move_in u g id c e v g' :
  items (move_in u g id c e v) g' =
    if decide (g = g') then <[id := (c, e)]> (items v g) else items v g'.
Proof.
  unfold move_in, items; simpl. case_decide; subst; [by rewrite lookup_insert_eq|].
  by rewrite lookup_insert_ne.
Qed.

Lemma new_content_fresh v g id : new_content v g (ItemId.content_key id) → items v g !! id = None.
Proof. intros Hn. destruct (items v g !! id) eqn:Hi; [|done]. by edestruct (Hn id). Qed.

Lemma sound_empty k : sound_items k ∅.
Proof.
  split; [intros id it Hi; by rewrite lookup_empty in Hi|].
  intros id id' [it Hi]. by rewrite lookup_empty in Hi.
Qed.

Lemma sound_delete k its id : sound_items k its → sound_items k (delete id its).
Proof.
  intros [Hu Hq]. split.
  - intros id' it [_ Hi]%lookup_delete_Some. eauto.
  - intros i j [_ Hi]%lookup_delete_is_Some [_ Hj]%lookup_delete_is_Some. by apply Hq.
Qed.

Lemma sound_insert k its id it :
  sound_items k its → under it.2 = k →
  (∀ id', is_Some (its !! id') → ItemId.content_key id' ≠ ItemId.content_key id) →
  sound_items k (<[id := it]> its).
Proof.
  intros [Hu Hq] Hk Hn. split.
  - intros id' it' [[<- <-]|[_ Hi]]%lookup_insert_Some; eauto.
  - intros i j Hi Hj Hc. apply lookup_insert_is_Some' in Hi, Hj.
    destruct (decide (i = j)); [done|].
    destruct Hi as [<-|Hi], Hj as [<-|Hj]; try done.
    + by edestruct (Hn j).
    + by edestruct (Hn i).
    + by apply Hq.
Qed.

(** ** Every effect keeps the record well formed *)

Lemma ticket_ok_state r r' t : state r' = state r → ticket_ok r t → ticket_ok r' t.
Proof. unfold ticket_ok. by intros ->. Qed.

Lemma ticket_ok_ordinary r t : in_rewrite (t_request t) = false → ticket_ok r t.
Proof. intros Hf Ht. congruence. Qed.

Lemma target_ticket_ok r t g : target r (t_request t) = Some g → ticket_ok r t.
Proof.
  unfold target. intros Hg Ht. rewrite Ht in Hg. destruct (state r) as [|s]; [done|].
  case_bool_decide; simplify_eq. by exists s.
Qed.

Lemma settled_tickets r u t sl : RecOk r → state r = Settled sl →
  tickets r !! u = Some t → in_rewrite (t_request t) = false.
Proof.
  intros Hr Hs Ht. apply not_true_is_false. intros Hi.
  destruct (ok_tickets _ Hr _ _ Ht Hi) as (s & Hs' & _). congruence.
Qed.

Lemma settled_plain r : RecOk r → state r = Settled None → plain r = None.
Proof.
  intros Hr Hs. destruct (plain r) eqn:Hp; [|done].
  destruct (ok_plain _ Hr) as [sl Hsl]; [by eexists|]. unfold seal in Hsl. by rewrite Hs in Hsl.
Qed.

Lemma rec_ok_tickets r ts : RecOk r → ts ⊆ tickets r → RecOk (with_tickets ts r).
Proof.
  intros Hr Hts. apply (rec_ok_books (used r) ts (tombstones r) r); [done|apply Hr|..].
  - intros u t Ht. eapply Hr, lookup_weaken; eauto.
  - intros u [t Ht]. apply Hr. eexists. by eapply lookup_weaken.
Qed.

Lemma rec_ok_ended r u t st us :
  RecOk r → tickets r !! u = Some t →
  (∀ g, is_Some (us !! g) → g ∈ live_generations r) →
  RecOk (ended u st (with_used us r)).
Proof.
  intros Hr Ht Hus.
  apply (rec_ok_books us (delete u (tickets r)) (<[u := st]> (tombstones r)) r); [done|done|..].
  - intros u' t' [_ Ht']%lookup_delete_Some. by eapply Hr.
  - intros u' [Hne Hu']%lookup_delete_is_Some. rewrite lookup_insert_ne by done. by apply Hr.
Qed.

Lemma rec_ok_pruned n r : RecOk r → RecOk (pruned n r).
Proof.
  intros Hr. eapply (rec_ok_books (used r) _ _ r); [done|apply Hr|..].
  - intros u t [Ht _]%map_lookup_filter_Some. by eapply Hr.
  - intros u [t [Ht _]%map_lookup_filter_Some].
    apply map_lookup_filter_None_2. left. apply Hr. by eexists.
Qed.

Lemma lookup_recount (f : N → N) (us : gmap N N) (l : list N) (g : N) :
  is_Some (foldl (λ us g, <[g := f g]> us) us l !! g) → g ∈ l ∨ is_Some (us !! g).
Proof.
  revert us. induction l as [|g' l IH]; intros us; simpl; [auto|].
  intros [|Hs]%IH; [left; by right|].
  rewrite lookup_insert_is_Some' in Hs. destruct Hs as [<-|]; [left; by left|by right].
Qed.

Lemma rec_ok_recounted v r : RecOk r → RecOk (recounted v r).
Proof.
  intros Hr. eapply (rec_ok_books _ (tickets r) (tombstones r) r); [done| |apply Hr|apply Hr].
  intros g [|]%lookup_recount; [done|]. by apply Hr.
Qed.

(** A settled state with another seal. *)
Lemma rec_ok_settled r sl sl' :
  RecOk r → state r = Settled sl → (is_Some sl → is_Some sl') →
  RecOk (with_state (Settled sl') r).
Proof.
  intros Hr Hs Hsl. pose proof Hr as [Hn Hd Hp _ Ht Hj Hb].
  unfold live_generations, seal in *. rewrite Hs in *.
  split; cbn; [done|done|auto|done| |done|done].
  intros u t Hu. apply ticket_ok_ordinary. by eapply settled_tickets.
Qed.

Lemma rec_ok_set_aside r sl :
  RecOk r → has_room r → state r = Settled None → RecOk (set_aside sl r).
Proof.
  intros Hr Hroom Hs. pose proof (settled_plain _ Hr Hs) as Hpl.
  pose proof Hr as [Hn _ _ _ _ Hj Hb]. unfold has_room in Hroom.
  unfold live_generations in *. rewrite Hs, Hpl in *.
  assert (generation r < next_generation r)%N by (apply Hn; set_solver).
  assert (wadd (next_generation r) 1 = next_generation r + 1)%N as Hw
    by (apply wadd_small; unfold u64_max, two64 in *; lia).
  split; cbn; unfold live_generations; cbn.
  - intros g Hg. rewrite Hw. set_unfold. destruct Hg as [->|[->|[]]]; lia.
  - apply NoDup_cons. split; [|by apply NoDup_singleton].
    rewrite list_elem_of_singleton. lia.
  - by eexists.
  - done.
  - intros u t Hu. apply ticket_ok_ordinary. by eapply settled_tickets.
  - done.
  - intros g Hg. pose proof (Hb g Hg) as Hin. clear -Hin. set_solver.
Qed.

Lemma rec_ok_open r s :
  RecOk r → has_room r → state r = Settled (prior s) → session_ok r s →
  staged_generation s = next_generation r → RecOk (open_session s r).
Proof.
  intros Hr Hroom Hs Hok Hg. pose proof Hr as [Hn Hd Hp _ Ht Hj Hb]. unfold has_room in Hroom.
  assert (wadd (next_generation r) 1 = next_generation r + 1)%N as Hw
    by (apply wadd_small; unfold u64_max, two64 in *; lia).
  assert (live_generations (open_session s r) = live_generations r ++ [staged_generation s]) as Hl.
  { unfold live_generations; cbn. by rewrite Hs, app_nil_r. }
  split; rewrite ?Hl.
  - intros g [Hin| ->%list_elem_of_singleton]%elem_of_app; cbn; rewrite Hw;
      [specialize (Hn g Hin)|]; lia.
  - apply NoDup_app. split; [done|]. split; [|by apply NoDup_singleton].
    intros g Hin ->%list_elem_of_singleton. specialize (Hn _ Hin). lia.
  - intros Hpl. cbn. cbn in Hpl. specialize (Hp Hpl). unfold seal in *. by rewrite Hs in Hp.
  - intros s' [= <-]. apply Hok.
  - intros u t Hu. apply ticket_ok_ordinary. by eapply settled_tickets.
  - done.
  - intros g Hin. apply elem_of_app. left. by apply Hb.
Qed.

(** The end of a session: one of its two generations stays. *)
Lemma rec_ok_closed r s us g sl ks gone :
  RecOk r → state r = Rewriting s →
  (g = staged_generation s ∧ gone = generation r ∨ g = generation r ∧ gone = staged_generation s) →
  (is_Some (prior s) → is_Some sl) →
  (∀ u t, tickets r !! u = Some t → in_rewrite (t_request t) = true → u ∈ us) →
  RecOk (drop_tickets us (mkRecord (Settled sl) g (plain r) (next_generation r)
    (delete gone (used r)) (tickets r) (tombstones r) ks)).
Proof.
  intros [Hn Hd Hp _ Ht Hj Hb] Hs Hg Hsl Hus.
  unfold live_generations, seal in *. rewrite Hs in *.
  assert (∀ x, x ∈ g :: option_list (plain r) → x ∈
    ([generation r] ++ option_list (plain r) ++ [staged_generation s])) as Hsub by set_solver.
  split; cbn; unfold live_generations; cbn; rewrite ?app_nil_r.
  - auto.
  - revert Hd. destruct (plain r); cbn; rewrite !NoDup_cons; set_solver.
  - auto.
  - done.
  - intros u t [Hu Hni]%map_lookup_filter_Some. apply ticket_ok_ordinary.
    destruct (in_rewrite (t_request t)) eqn:Hi; [|done]. by destruct Hni; eapply Hus.
  - intros u [t [Hu _]%map_lookup_filter_Some]. apply Hj. by eexists.
  - intros x [Hne Hx]%lookup_delete_is_Some. pose proof (Hb x Hx) as Hin. clear -Hg Hin Hne. set_solver.
Qed.

Lemma rec_ok_lease r s s' :
  RecOk r → state r = Rewriting s → prior s' = prior s → next s' = next s → kind s' = kind s →
  staged_generation s' = staged_generation s → RecOk (with_state (Rewriting s') r).
Proof.
  intros [Hn Hd Hp Hse Ht Hj Hb] Hs Hpr Hnx Hk Hg. specialize (Hse s Hs).
  unfold live_generations, seal, session_ok, ticket_ok in *. rewrite Hs in *.
  rewrite <- Hpr, <- Hnx, <- Hk, <- Hg in *.
  split; cbn; unfold live_generations, session_ok, ticket_ok; cbn; try done.
  - by intros ? [= <-].
  - intros u t Hu Hi. destruct (Ht u t Hu Hi) as (s0 & [= <-] & Hx). exists s'.
    split; [done|congruence].
Qed.

Lemma effect_rec_ok d r v r' v' a :
  RecOk r → has_room r → effect d r v r' v' a → RecOk r'.
Proof.
  intros Hr Hroom He.
  destruct He as [|p g id it Hdel Hw Hp Hi|sl Hs He|sl Hs He|sl h Hs|us Hus|u dg Hu|u t g dg Hu Hu' Hg
    |u t g st Hu Hg|u t g c e st Hu Hg Hc Hsz Hun Hnew|u t g st Hu Hg Hno|s Hs Hok Hg
    |s s' Hs Hpr Hnx Hk Hg|s us Hs Hsz Hus|s us Hs Hus|n r' a -> Ha|n r' a -> Ha].
  - done.
  - eapply (rec_ok_books _ (tickets r) (tombstones r) r); [done| |apply Hr|apply Hr].
    apply lookup_insert_live; [done|]. by eapply generation_of_live.
  - by eapply rec_ok_settled.
  - by apply rec_ok_set_aside.
  - by eapply rec_ok_settled; [..|by eexists].
  - apply rec_ok_tickets; [done|]. apply map_filter_subseteq.
  - done.
  - eapply (rec_ok_books (used r) _ (tombstones r) r); [done|apply Hr|..].
    + intros u' t' [[<- <-]|[_ Ht']]%lookup_insert_Some; [by eapply target_ticket_ok|by eapply Hr].
    + intros u' [<-|Ht']%lookup_insert_is_Some'; [done|by apply Hr].
  - eapply (rec_ok_ended _ _ _ _ (used r)); [done|done|apply Hr].
  - eapply rec_ok_ended; [done..|]. apply lookup_insert_live; [done|by eapply target_live].
  - eapply rec_ok_ended; [done..|]. apply lookup_insert_live; [done|by eapply target_live].
  - by apply rec_ok_open.
  - by eapply rec_ok_lease.
  - apply (rec_ok_closed r s us (staged_generation s) (Some (next s)) (ended_rewrites r) (generation r)).
    all: try done; auto. intros u t Hu Hi. apply Hus. by exists t.
  - apply (rec_ok_closed r s us (generation r) (prior s) ({[seal_key_id (next s)]} ∪ ended_rewrites r)
      (staged_generation s)).
    all: try done; auto. intros u t Hu Hi. apply Hus. by exists t.
  - by apply rec_ok_pruned.
  - by apply rec_ok_pruned, rec_ok_recounted.
Qed.

(** ** ... and the shelves *)

Lemma shelf_ok_gens r v v' : (∀ g, items v' g = items v g) → ShelfOk r v → ShelfOk r v'.
Proof.
  intros Hg [Hi Hu]. split.
  - intros g k Hk. rewrite Hg. by apply Hi.
  - intros g Hn. rewrite Hg. by apply Hu.
Qed.

Lemma shelf_ok_take_out r v g id : ShelfOk r v → ShelfOk r (take_out g id v).
Proof.
  intros [Hi Hu]. split.
  - intros g' k Hk. rewrite items_take_out. case_decide; subst; [|by apply Hi].
    by apply sound_delete, Hi.
  - intros g' Hn. rewrite items_take_out. case_decide; subst; [|by apply Hu].
    rewrite Hu by done. apply delete_empty.
Qed.

Lemma shelf_ok_move_in r v u t g c e :
  RecOk r → ShelfOk r v → target r (t_request t) = Some g →
  under e = ur_expected_key_id (t_request t) →
  new_content v g (ItemId.content_key (ur_id (t_request t))) →
  ShelfOk r (move_in u g (ur_id (t_request t)) c e v).
Proof.
  intros Hr [Hi Hu] Hg He Hnew. pose proof (target_keyed _ _ _ Hg) as Hk. split.
  - intros g' k Hk'. rewrite items_move_in. case_decide; subst; [|by apply Hi].
    pose proof (keyed_functional _ _ _ _ Hr Hk Hk') as <-.
    apply sound_insert; [by apply Hi|done|done].
  - intros g' Hn. rewrite items_move_in. case_decide; subst; [|by apply Hu].
    pose proof (ok_numbered _ Hr _ (target_live _ _ _ Hg)). lia.
Qed.

Lemma torn_shelf_ok d r v v' : RecOk r → ShelfOk r v → torn d r v v' → ShelfOk r v'.
Proof.
  intros Hr Hv []; [by eapply shelf_ok_gens|by apply shelf_ok_take_out|by apply shelf_ok_move_in].
Qed.

(** Fewer generations, or one that is new and empty. *)
Lemma shelf_ok_fewer r r' v :
  (next_generation r ≤ next_generation r')%N →
  (∀ g k, (g, k) ∈ keyed r' → (g, k) ∈ keyed r ∨ items v g = ∅) →
  ShelfOk r v → ShelfOk r' v.
Proof.
  intros Hn Hk [Hi Hu]. split.
  - intros g k [Hin| ->]%Hk; [by apply Hi|apply sound_empty].
  - intros g Hg. apply Hu. lia.
Qed.

Lemma next_generation_succ r : has_room r →
  wadd (next_generation r) 1 = (next_generation r + 1)%N.
Proof. unfold has_room. intros. apply wadd_small. unfold u64_max, two64 in *. lia. Qed.

Lemma effect_shelf_ok d r v r' v' a :
  RecOk r → has_room r → ShelfOk r v → effect d r v r' v' a → ShelfOk r' v'.
Proof.
  intros Hr Hroom Hv He. pose proof (next_generation_succ _ Hroom) as Hsucc.
  destruct He as [|p g id it Hdel Hw Hp Hi|sl Hs He|sl Hs He|sl h Hs|us Hus|u dg Hu|u t g dg Hu Hu' Hg
    |u t g st Hu Hg|u t g c e st Hu Hg Hc Hsz Hun Hnew|u t g st Hu Hg Hno|s Hs Hok Hg
    |s s' Hs Hpr Hnx Hk Hg|s us Hs Hsz Hus|s us Hs Hus|n r' a -> Ha|n r' a -> Ha].
  1, 5, 6, 9, 11, 16, 17: by (apply (shelf_ok_same_live r); [|done|done]; unfold keyed, seal; cbn; rewrite ?Hs).
  - eapply (shelf_ok_same_live r); [done|done|]. by apply shelf_ok_take_out.
  - apply (shelf_ok_fewer r); [done| |done]. intros g k Hin.
    apply keyed_inv in Hin as [[-> _]|[[Hp ->]|(s & [=] & _)]]; [by right|left].
    by apply keyed_plain.
  - apply (shelf_ok_fewer r); [cbn; lia| |done]. intros g k Hin.
    apply keyed_inv in Hin as [[-> _]|[[[= <-] ->]|(s & [=] & _)]].
    + right. by apply Hv.
    + left. pose proof (keyed_generation r) as Hin. unfold seal in Hin. by rewrite Hs in Hin.
  - eapply shelf_ok_gens; [intros; apply items_create_place|done].
  - eapply shelf_ok_gens; [intros; apply items_create_place|]. by eapply (shelf_ok_same_live r).
  - eapply (shelf_ok_same_live r); [done|done|]. by apply shelf_ok_move_in.
  - apply (shelf_ok_fewer r); [cbn; lia| |done]. intros g k Hin.
    apply keyed_inv in Hin as [[-> ->]|[[Hp ->]|(s' & [= <-] & -> & ->)]].
    + left. pose proof (keyed_generation r) as Hin. unfold seal in *. by rewrite Hs in Hin.
    + left. by apply keyed_plain.
    + right. rewrite Hg. by apply Hv.
  - eapply (shelf_ok_same_live r); [unfold keyed, seal|done|done]. cbn. by rewrite Hs, Hpr, Hnx, Hg.
  - apply (shelf_ok_fewer r); [done| |done]. intros g k Hin.
    apply keyed_inv in Hin as [[-> ->]|[[Hp ->]|(s' & [=] & _)]]; left.
    + by apply keyed_staged.
    + by apply keyed_plain.
  - apply (shelf_ok_fewer r); [done| |done]. intros g k Hin.
    apply keyed_inv in Hin as [[-> ->]|[[Hp ->]|(s' & [=] & _)]]; left.
    + pose proof (keyed_generation r) as Hin. unfold seal in *. by rewrite Hs in Hin.
    + by apply keyed_plain.
Qed.

(** ** The clean-ups an effect asks for are safe *)

Lemma effect_safe d r v r' v' a :
  RecOk r → effect d r v r' v' a → Forall (safe_cleanup r') a.
Proof.
  intros Hr He. apply Forall_forall. intros c Hc.
  destruct He as [|p g id it Hdel Hw Hp Hi|sl Hs He|sl Hs He|sl h Hs|us Hus|u dg Hu|u t g dg Hu Hu' Hg
    |u t g st Hu Hg|u t g cc e st Hu Hg Hcc Hsz Hun Hnew|u t g st Hu Hg Hno|s Hs Hok Hg
    |s s' Hs Hpr Hnx Hk Hg|s us Hs Hsz Hus|s us Hs Hus|n r' a -> Ha|n r' a -> Ha].
  all: try by apply elem_of_nil in Hc.
  - apply list_elem_of_fmap in Hc as (u & -> & Hu). apply map_lookup_filter_None_2. right. intros t _ Hn. by apply Hn.
  - apply list_elem_of_singleton in Hc as ->. apply lookup_delete_eq.
  - apply list_elem_of_singleton in Hc as ->. apply lookup_delete_eq.
  - apply list_elem_of_singleton in Hc as ->. apply lookup_delete_eq.
  - apply elem_of_cons in Hc as [->|(u & -> & Hu)%list_elem_of_fmap].
    + pose proof (ok_distinct _ Hr) as Hd. unfold live_generations in Hd. rewrite Hs in Hd.
      simpl. unfold live_generations; simpl. destruct (plain r); simpl in *;
        rewrite !NoDup_cons in Hd; set_solver.
    + apply map_lookup_filter_None_2. right. intros t _ Hn. by apply Hn.
  - apply elem_of_cons in Hc as [->|(u & -> & Hu)%list_elem_of_fmap].
    + pose proof (ok_distinct _ Hr) as Hd. unfold live_generations in Hd. rewrite Hs in Hd.
      simpl. unfold live_generations; simpl. destruct (plain r); simpl in *;
        rewrite !NoDup_cons in Hd; set_solver.
    + apply map_lookup_filter_None_2. right. intros t _ Hn. by apply Hn.
  - apply Ha in Hc. by destruct c as [g|u]; [destruct Hc|].
  - apply Ha in Hc. by destruct c as [g|u]; [destruct Hc|].
Qed.

(** ** Nothing is lost *)

(** Every generation the record still points to holds what it held, but for
    what the caller deleted. *)
Definition kept (r : WorkspaceRecord) (v v' : Shelves) : Prop :=
  ∀ g, g ∈ live_generations r → items v g ⊆ items v' g.

(** ... but for one item. *)
Definition kept_but (g : N) (id : ItemId) (r : WorkspaceRecord) (v v' : Shelves) : Prop :=
  ∀ g', g' ∈ live_generations r →
    items v g' ⊆ items v' g' ∨ g' = g ∧ items v' g = delete id (items v g).

Lemma move_in_kept r u g id c e v :
  new_content v g (ItemId.content_key id) → kept r v (move_in u g id c e v).
Proof.
  intros Hn g' _. rewrite items_move_in. case_decide; subst; [|done].
  apply insert_subseteq. by apply new_content_fresh.
Qed.

Lemma take_out_kept r g id v : kept_but g id r v (take_out g id v).
Proof.
  intros g' _. destruct (decide (g = g')) as [<-|Hne].
  - right. by rewrite items_take_out, decide_True.
  - left. by rewrite items_take_out, decide_False.
Qed.

Lemma effect_kept d r v r' v' a :
  effect d r v r' v' a →
  (∃ p g id, d = Some (p, id) ∧ generation_of r p = Some g ∧ is_Some (items v g !! id) ∧ v' = take_out g id v ∧ a = []) ∨
  kept r' v v'.
Proof.
  intros He.
  destruct He as [|p g id it Hdel Hw Hp Hi|sl Hs He|sl Hs He|sl h Hs|us Hus|u dg Hu|u t g dg Hu Hu' Hg
    |u t g st Hu Hg|u t g c e st Hu Hg Hc Hsz Hun Hnew|u t g st Hu Hg Hno|s Hs Hok Hg
    |s s' Hs Hpr Hnx Hk Hg|s us Hs Hsz Hus|s us Hs Hus|n r' a -> Ha|n r' a -> Ha].
  2: left; by exists p, g, id.
  all: right; try by intros ??.
  - intros g _. by rewrite items_create_place.
  - intros g' _. by rewrite items_create_place.
  - by apply move_in_kept.
Qed.

Lemma torn_kept d r v v' :
  torn d r v v' →
  (∃ p g id, d = Some (p, id) ∧ generation_of r p = Some g ∧ is_Some (items v g !! id) ∧ v' = take_out g id v) ∨
  kept r v v'.
Proof.
  intros [v'' Hg|p g id it Hdel Hw Hp Hi|]; [right|left|right].
  - intros g _. by rewrite Hg.
  - by exists p, g, id.
  - by apply move_in_kept.
Qed.

(** ** ... and tidy *)

Lemma Nsum_elem_le l n : n ∈ l → (n ≤ Nsum l)%N.
Proof. induction 1; simpl; lia. Qed.

Lemma fits_lt r v g : fits r v → g ∈ live_generations r → (true_bytes (items v g) < two64)%N.
Proof.
  intros Hf Hg. eapply N.le_lt_trans; [|exact Hf]. apply Nsum_elem_le.
  apply list_elem_of_fmap. by exists g.
Qed.

Lemma used_of_insert r g n g' :
  used_of (with_used (<[g := n]> (used r)) r) g' = if decide (g = g') then n else used_of r g'.
Proof. unfold used_of; simpl. case_decide; subst; [by rewrite lookup_insert_eq|by rewrite lookup_insert_ne]. Qed.

Lemma used_of_delete r g g' r' : used r' = delete g (used r) → g ≠ g' → used_of r' g' = used_of r g'.
Proof. unfold used_of. intros -> Hne. by rewrite lookup_delete_ne. Qed.

Lemma used_of_foldl (f : N → N) (l : list N) (us : gmap N N) (g : N) :
  foldl (λ us g, <[g := f g]> us) us l !! g = if decide (g ∈ l) then Some (f g) else us !! g.
Proof.
  revert us. induction l as [|g' l IH]; intros us; simpl; [done|].
  rewrite IH. destruct (decide (g ∈ l)) as [Hl|Hl], (decide (g ∈ g' :: l)) as [Hl'|Hl']; try done.
  - destruct Hl'. by right.
  - apply elem_of_cons in Hl' as [->|]; [|done]. by rewrite lookup_insert_eq.
  - rewrite lookup_insert_ne; [done|]. intros ->. destruct Hl'. by left.
Qed.

(** A changed set of tickets, the shelf and the books unchanged. *)
Lemma tidy_tickets r r' v a a' :
  live_generations r' = live_generations r → used r' = used r →
  (∀ u, is_Some (tickets r !! u) → is_Some (tickets r' !! u) ∨ RemoveStaging u ∈ a') →
  (∀ c, c ∈ a → c ∈ a') →
  Tidy r v a → Tidy r' v a'.
Proof.
  intros Hl Hu Ht Ha [Hb Hs Hg]. split; rewrite ?Hl.
  - intros g Hin. unfold used_of. rewrite Hu. by apply Hb.
  - intros u [Hin|Hin]%Hs; [by apply Ht|right; by apply Ha].
  - intros g [Hin|Hin]%Hg; [by left|right; by apply Ha].
Qed.

Lemma tidy_create_place r v d u :
  is_Some (tickets r !! u) → Tidy r v [] → Tidy r (create_place d u v) [].
Proof.
  intros Hu [Hb Hs Hg]. split.
  - intros g. rewrite items_create_place. apply Hb.
  - intros u' [->|Hu']%staging_create_place; [by left|by apply Hs].
  - intros g. rewrite items_create_place. apply Hg.
Qed.

(** An upload that ended gives its staging place up. *)
Lemma tidy_ended r v u st : Tidy r v [] → Tidy (ended u st r) v [RemoveStaging u].
Proof.
  intros Ht. eapply tidy_tickets; [..|exact Ht]; try done.
  - intros u' Hu'. simpl. destruct (decide (u = u')) as [<-|]; [right; set_solver|left].
    by rewrite lookup_delete_ne.
  - by intros c ?%elem_of_nil.
Qed.

Lemma tidy_move_in r v u t g c e st :
  let id := ur_id (t_request t) in
  let size := ur_size (t_request t) in
  RecOk r → tickets r !! u = Some t → target r (t_request t) = Some g →
  len64 c = size → new_content v g (ItemId.content_key id) →
  (true_bytes (items (move_in u g id c e v) g) < two64)%N →
  Tidy r v [] →
  Tidy (ended u st (with_used (<[g := wadd (used_of r g) size]> (used r)) r))
    (move_in u g id c e v) [RemoveStaging u].
Proof.
  intros id size Hr Hu Hg Hc Hn Hlt [Hb Hs Hgen].
  pose proof (target_live _ _ _ Hg) as Hlive. apply tidy_ended. split.
  - intros g' Hg'. rewrite used_of_insert, items_move_in.
    rewrite items_move_in, decide_True in Hlt by done.
    destruct (decide (g = g')) as [<-|]; [|by apply Hb].
    rewrite true_bytes_insert in * by (by apply new_content_fresh). simpl in *.
    rewrite (Hb g Hg'), Hc in *. rewrite wadd_small; lia.
  - intros u'. simpl. rewrite lookup_delete_is_Some. intros [_ Hin]. by apply Hs.
  - intros g'. rewrite items_move_in. case_decide; subst; [by left|]. apply Hgen.
Qed.

(** What was rubbish is asked for, so whatever the books say is all there is. *)
Lemma tidy_rubbish r v a :
  (∀ g, g ∈ live_generations r → used_of r g = true_bytes (items v g)) → rubbish r v a → Tidy r v a.
Proof.
  intros Hb Ha. split; [done|..].
  - intros u Hu. destruct (tickets r !! u) eqn:Ht; [left; by eexists|right]. by apply Ha.
  - intros g Hg. destruct (decide (g ∈ live_generations r)); [by left|right]. by apply Ha.
Qed.

(** A session's generation goes with it. *)
Lemma tidy_closed r s us r' g gone v :
  RecOk r → state r = Rewriting s →
  (g = staged_generation s ∧ gone = generation r ∨ g = generation r ∧ gone = staged_generation s) →
  live_generations r' = g :: option_list (plain r) → used r' = delete gone (used r) →
  tickets r' = tickets r →
  (∀ u t, tickets r !! u = Some t → u ∈ us ↔ in_rewrite (t_request t) = true) →
  Tidy r v [] → Tidy (drop_tickets us r') v (DropGeneration gone :: (RemoveStaging <$> us)).
Proof.
  intros Hr Hs Hg Hl Hu Ht Hus [Hb Hst Hgen].
  pose proof (ok_distinct _ Hr) as Hd. unfold live_generations in Hb, Hgen, Hd. rewrite Hs in *.
  assert (live_generations (drop_tickets us r') = g :: option_list (plain r)) as Hl' by done.
  split.
  - intros x Hx. rewrite Hl' in Hx. rewrite (used_of_delete r gone); [|done|].
    + apply Hb. clear -Hx Hg. set_solver.
    + intros ->. revert Hd. clear -Hx Hg. destruct (plain r); simpl in *;
        rewrite !NoDup_cons; set_solver.
  - intros u [Hin|Hin%elem_of_nil]%Hst; [|done]. destruct Hin as [t Hin].
    destruct (decide (u ∈ us)) as [Hi|Hi].
    + right. apply elem_of_cons. right. apply list_elem_of_fmap. by exists u.
    + left. exists t. apply map_lookup_filter_Some. by rewrite Ht.
  - intros x [Hx|Hx%elem_of_nil]%Hgen; [|done]. rewrite Hl'. clear -Hx Hg. set_solver.
Qed.

Lemma used_of_new r : RecOk r → used_of r (next_generation r) = 0%N.
Proof.
  intros Hr. unfold used_of. destruct (used r !! next_generation r) eqn:Hu; [|done].
  pose proof (ok_numbered _ Hr _ (ok_booked _ Hr _ (mk_is_Some _ _ Hu))). lia.
Qed.

(** A generation that is new, the others as they were. *)
Lemma tidy_opened r r' v :
  RecOk r → ShelfOk r v →
  (∀ g, g ∈ live_generations r' ↔ g = next_generation r ∨ g ∈ live_generations r) →
  used r' = used r → tickets r' = tickets r → Tidy r v [] → Tidy r' v [].
Proof.
  intros Hr Hv Hl Hu Ht [Hb Hs Hg]. split.
  - intros g [->|Hin]%Hl; unfold used_of; rewrite Hu; [|by apply Hb].
    rewrite (ok_unused _ _ Hv) by done. rewrite true_bytes_empty. by apply used_of_new.
  - intros u. rewrite Ht. apply Hs.
  - intros g [Hin|Hin]%Hg; [|by right]. left. apply Hl. by right.
Qed.

Lemma recounted_books r v g :
  fits r v → g ∈ live_generations r → used_of (recounted v r) g = true_bytes (items v g).
Proof.
  intros Hf Hg. unfold used_of, recounted. cbn [used with_used].
  rewrite (used_of_foldl (λ g, (true_bytes (items v g) mod two64)%N)), decide_True by done.
  simpl. apply N.mod_small. by eapply fits_lt.
Qed.

Lemma effect_tidy d r v r' v' a :
  RecOk r → ShelfOk r v → fits r v → fits r' v' →
  Tidy r v [] → effect d r v r' v' a → Tidy r' v' a.
Proof.
  intros Hr Hv Hf Hf' Ht He. pose proof (ok_distinct _ Hr) as Hd.
  destruct He as [|p g id it Hdel Hw Hp Hi|sl Hs He|sl Hs He|sl h Hs|us Hus|u dg Hu|u t g dg Hu Hu' Hg
    |u t g st Hu Hg|u t g c e st Hu Hg Hc Hsz Hun Hnew|u t g st Hu Hg Hno|s Hs Hok Hg
    |s s' Hs Hpr Hnx Hk Hg|s us Hs Hsz Hus|s us Hs Hus|n r' a -> Ha|n r' a -> Ha].
  - done.
  - destruct Ht as [Hb Hst Hgen]. split; [|done|].
    + intros g' Hg'. rewrite used_of_insert, items_take_out.
      destruct (decide (g = g')) as [<-|]; [|by apply Hb].
      rewrite (Hb g Hg'), (true_bytes_delete _ _ _ Hi). unfold ssub. lia.
    + intros g'. rewrite items_take_out. destruct (decide (g = g')) as [<-|]; [|apply Hgen].
      left. by eapply generation_of_live.
  - eapply tidy_tickets; [..|exact Ht]; try done; [|by intros; left].
    unfold live_generations; cbn. by rewrite Hs.
  - apply (tidy_opened r); try done. intros g. unfold live_generations; cbn.
    rewrite Hs, (settled_plain _ Hr Hs). clear. set_solver.
  - eapply tidy_tickets; [..|exact Ht]; try done; [|by intros; left].
    unfold live_generations; cbn. by rewrite Hs.
  - eapply tidy_tickets; [..|exact Ht]; try done; [|by intros ? ?%elem_of_nil].
    intros u [t Hu]. simpl. destruct (decide (u ∈ us)) as [Hi|Hi].
    + right. apply list_elem_of_fmap. by exists u.
    + left. exists t. by apply map_lookup_filter_Some.
  - by apply tidy_create_place.
  - apply tidy_create_place; [simpl; rewrite lookup_insert_eq; by eexists|].
    eapply tidy_tickets; [..|exact Ht]; try done.
    intros u' Hin. left. apply lookup_insert_is_Some'. by right.
  - by apply tidy_ended.
  - apply (tidy_move_in r v u t g c.1); try done. eapply (fits_lt _ _ _ Hf'). by eapply target_live.
  - apply tidy_ended. destruct Ht as [Hb Hst Hgen]. split; [|done|done].
    intros g' Hg'. rewrite used_of_insert. destruct (decide (g = g')) as [<-|]; [|by apply Hb].
    apply N.mod_small. by apply (fits_lt r).
  - apply (tidy_opened r); try done. intros g. unfold live_generations; cbn.
    rewrite Hs, Hg. clear. set_solver.
  - eapply tidy_tickets; [..|exact Ht]; try done; [|by intros; left].
    unfold live_generations; cbn. by rewrite Hs, Hg.
  - apply (tidy_closed r s us (committed s r) (staged_generation s)); auto.
    + unfold live_generations; cbn. by rewrite app_nil_r.
    + intros u t Hu. rewrite Hus. naive_solver.
  - apply (tidy_closed r s us (aborted s r) (generation r)); auto.
    + unfold live_generations; cbn. by rewrite app_nil_r.
    + intros u t Hu. rewrite Hus. naive_solver.
  - apply tidy_rubbish; [|done]. apply Ht.
  - apply tidy_rubbish; [|done]. intros g Hg. by apply recounted_books.
Qed.

(** ** A clean-up, performed *)

Definition cleaned (c : Cleanup) (v : Shelves) : Shelves :=
  match c with
  | DropGeneration g => set_gens (delete g) v
  | RemoveStaging u => set_staging (delete u) v
  end.

Lemma items_cleaned c v g :
  items (cleaned c v) g = ∅ ∨ items (cleaned c v) g = items v g.
Proof. destruct c; simpl; [|by right]. rewrite items_delete. case_decide; auto. Qed.

Lemma cleaned_items r c v g :
  safe_cleanup r c → g ∈ live_generations r → items (cleaned c v) g = items v g.
Proof.
  destruct c as [g'|u]; simpl; intros Hc Hg; [|done].
  rewrite items_delete. rewrite decide_False; [done|]. by intros ->.
Qed.

Lemma cleaned_staging c v u :
  is_Some (staging (cleaned c v) !! u) ↔ is_Some (staging v !! u) ∧ c ≠ RemoveStaging u.
Proof.
  destruct c; simpl; [naive_solver|]. rewrite lookup_delete_is_Some. naive_solver.
Qed.

Lemma shelf_ok_cleaned r c v : ShelfOk r v → ShelfOk r (cleaned c v).
Proof.
  intros [Hi Hu]. split.
  - intros g k Hk. destruct (items_cleaned c v g) as [-> | ->]; [apply sound_empty|by apply Hi].
  - intros g Hn. destruct (items_cleaned c v g) as [-> | ->]; [done|by apply Hu].
Qed.

Lemma kept_cleaned r c v : safe_cleanup r c → kept r v (cleaned c v).
Proof. intros Hc g Hg. by rewrite (cleaned_items r). Qed.

Lemma tidy_cleaned r c v a :
  safe_cleanup r c → Tidy r v (c :: a) → Tidy r (cleaned c v) a.
Proof.
  intros Hc [Hb Hs Hg]. split.
  - intros g Hin. rewrite (cleaned_items r) by done. by apply Hb.
  - intros u [Hu Hne]%cleaned_staging. destruct (Hs u Hu) as [|Ha]; [by left|right].
    apply elem_of_cons in Ha as [<-|]; done.
  - intros g Hne. destruct (Hg g) as [|Ha]; [|by left|right].
    + by destruct (items_cleaned c v g) as [E|E]; rewrite E in Hne.
    + apply elem_of_cons in Ha as [<-|]; [|done]. simpl in Hne. by rewrite items_delete, decide_True in Hne.
Qed.

(** An opened workspace is tidy, whatever it was before. *)

Lemma reconciled_tidy r v n a :
  fits r v → rubbish (pruned n (recounted v r)) v a → Tidy (pruned n (recounted v r)) v a.
Proof. intros Hf Ha. apply tidy_rubbish; [|done]. intros g Hg. by apply recounted_books. Qed.

(** What an effect did to the shelves, a rule that was cut short could have
    left: so a transaction that is not stored after all does no harm. *)
Lemma effect_torn d r v r' v' a : effect d r v r' v' a → torn d r v v'.
Proof.
  intros He.
  destruct He as [|p g id it Hdel Hw Hp Hi| | | | |u dg Hu|u t g dg Hu Hu' Hg
    | |u t g c e st Hu Hg Hc Hsz Hun Hnew| | | | | | | ]; try by apply torn_staging.
  - by eapply torn_delete.
  - apply torn_staging. intros; apply items_create_place.
  - apply torn_staging. intros; apply items_create_place.
  - by eapply torn_publish.
Qed.

(** ** Clean-ups, some of which fail *)

(** [swept a v v' left]: of the clean-ups [a], all but [left] were done. *)
Inductive swept : list Cleanup → Shelves → Shelves → list Cleanup → Prop :=
| swept_stop a v : swept a v v a
| swept_done c a v v' left : swept a (cleaned c v) v' left → swept (c :: a) v v' left
| swept_failed c a v v' left : swept a v v' left → swept (c :: a) v v' (c :: left).

Lemma swept_shelf_ok r a v v' left : swept a v v' left → ShelfOk r v → ShelfOk r v'.
Proof. induction 1; eauto using shelf_ok_cleaned. Qed.

Lemma swept_kept r a v v' left :
  swept a v v' left → Forall (safe_cleanup r) a → kept r v v'.
Proof.
  induction 1 as [a v|c a v v' left Hs IH|c a v v' left Hs IH]; intros Ha g Hg; [done|..];
    apply Forall_cons in Ha as [Hc Ha].
  - etrans; [by apply (kept_cleaned r c v)|by apply IH].
  - by apply IH.
Qed.

Lemma swept_staging a v v' left u :
  swept a v v' left → is_Some (staging v' !! u) → is_Some (staging v !! u).
Proof. induction 1; auto. intros Hu. by apply (cleaned_staging c v u), IHswept. Qed.

(** Clean-ups of the staging area leave the generations alone. *)
Lemma swept_gens a v v' left :
  swept a v v' left → (∀ c, c ∈ a → ∃ u, c = RemoveStaging u) → gens v' = gens v.
Proof.
  induction 1 as [a v|c a v v' left Hs IH|c a v v' left Hs IH]; intros Ha; [done|..];
    rewrite IH by set_solver; [|done].
  by destruct (Ha c ltac:(set_solver)) as [u ->].
Qed.

Lemma tidy_rotate r v a a' : (∀ c, c ∈ a → c ∈ a') → Tidy r v a → Tidy r v a'.
Proof.
  intros Ha [Hb Hs Hg]. split; [done|..].
  - intros u [|]%Hs; auto.
  - intros g [|]%Hg; auto.
Qed.

Lemma swept_tidy r a v v' left rest :
  swept a v v' left → Forall (safe_cleanup r) a → Tidy r v (a ++ rest) → Tidy r v' (left ++ rest).
Proof.
  intros Hs. revert rest.
  induction Hs as [a v|c a v v' left Hs IH|c a v v' left Hs IH]; intros rest Ha Ht; [done|..];
    apply Forall_cons in Ha as [Hc Ha].
  - apply IH; [done|]. by apply tidy_cleaned.
  - assert (Tidy r v' (left ++ c :: rest)) as Hr.
    { apply IH; [done|]. eapply tidy_rotate; [|exact Ht]. intros x. simpl. set_solver. }
    eapply tidy_rotate; [|exact Hr]. intros x. simpl. set_solver.
Qed.
