(* ===== verification/Rules.v ===== *)
(** The rules at work ([struct Rules] of [workspace.rs]): the monad they run
    in, the steps they share, and how to reason about them.

    A rule reads its environment [Env] and threads [St]: the record, the
    shelf, the random source, the clean-ups it asked for, how often it looked
    at the clock, and how often it passed the fault point under test. *)

From S2P Require Import Prelude Errors Random Ids Shelf Records Effects.

(** [clock k] is what the [k]-th look at the clock shows: time may pass, or be
    set back, within one rule.  [fuel] bounds the one loop of the rules that
    has no bound of its own ([begin_upload]'s search for a new id).  [fault]
    is [PASSALONG_FAULT] with [PASSALONG_FAULT_SKIP]; the server's build has
    [None]. *)
Record Env := mkEnv {
  clock : nat → N;
  limits : Limits;
  fuel : nat;
  fault : option (string * N);
}.

Record St (Sh RS : Type) := mkSt {
  rec : WorkspaceRecord;
  shelf : Sh;
  rng : RS;
  after : list Cleanup;
  ticks : nat;
  passed : N;
}.
Arguments mkSt {Sh RS}.
Arguments rec {Sh RS}.
Arguments shelf {Sh RS}.
Arguments rng {Sh RS}.
Arguments after {Sh RS}.
Arguments ticks {Sh RS}.
Arguments passed {Sh RS}.

Section Rules.
Context {Sh RS : Type} `{Externals} `{ItemShelf Sh} `{RandomSource RS}.
Context (E : Env).

Definition R (A : Type) : Type := M ApiError (St Sh RS) A.

(** ** Steps *)

Definition get_rec : R WorkspaceRecord := gets rec.
Definition modify_rec (f : WorkspaceRecord → WorkspaceRecord) : R unit :=
  modify (λ s, mkSt (f (rec s)) (shelf s) (rng s) (after s) (ticks s) (passed s)).

(** [self.clock.now()] *)
Definition now : R N := λ s,
  (Ok (clock E (ticks s)),
   mkSt (rec s) (shelf s) (rng s) (after s) (S (ticks s)) (passed s)).

(** A method of [self.shelf]. *)
Definition call {A} (op : M ApiError Sh A) : R A := λ s,
  let '(r, sh) := op (shelf s) in
  (r, mkSt (rec s) sh (rng s) (after s) (ticks s) (passed s)).

(** [self.after.push(..)] *)
Definition push_after (c : Cleanup) : R unit :=
  modify (λ s, mkSt (rec s) (shelf s) (rng s) (after s ++ [c]) (ticks s) (passed s)).

(** [crate::fault::point], in the build that has it: [n] is how often the
    point under test was passed. *)
Definition pass (name : string) (n : N) : outcome ApiError unit * N :=
  match fault E with
  | Some (wanted, skip) =>
      if bool_decide (wanted = name)
      then (if (n =? skip)%N then Killed else Ok (), wadd n 1)
      else (Ok (), n)
  | None => (Ok (), n)
  end.

Definition point (name : string) : R unit := λ s,
  let '(x, n) := pass name (passed s) in
  (x, mkSt (rec s) (shelf s) (rng s) (after s) (ticks s) n).

Definition new_upload_id : R UploadId := λ s,
  let '(u, rng') := UploadId.generate (rng s) in
  (Ok u, mkSt (rec s) (shelf s) rng' (after s) (ticks s) (passed s)).

(** ** [workspace.rs]: what several rules share *)

(** The oldest item of [g] whose content key is [ck]. *)
Definition find_in (g : N) (ck : string) : R (option ItemId) :=
  ids ← call (shelf_ids g);
  mret (List.find (λ id, bool_decide (ItemId.content_key id = ck)) (rev ids)).

Definition check_writable (expected : option KeyId) : R unit :=
  r ← get_rec;
  match state r with
  | Rewriting _ => throw RewriteInProgress
  | Settled seal =>
      if bool_decide (seal_key_id <$> seal = expected) then mret ()
      else throw KeyIdMismatch
  end.

Definition add_used (g bytes : N) : R unit :=
  modify_rec (λ r, with_used (<[g := wadd (used_of r g) bytes]> (used r)) r).

(** ** [rewrite.rs]: the open session *)

(** The open session, for its holder. *)
Definition held_session (caller : Caller) : R Session :=
  r ← get_rec;
  match state r with
  | Settled _ => throw NotFound
  | Rewriting session =>
      if bool_decide (holder session = key caller) then mret session else throw LeaseHeld
  end.

Definition rewrite_target (caller : Caller) (expected : option KeyId) : R N :=
  session ← held_session caller;
  if bool_decide (expected = Some (seal_key_id (next session)))
  then mret (staged_generation session)
  else throw KeyIdMismatch.

Definition session_view : R (option SessionView) :=
  r ← get_rec;
  match state r with
  | Settled _ => mret None
  | Rewriting session =>
      staged ← call (shelf_ids (staged_generation session));
      source ← call (shelf_ids (generation r));
      mret (Some {|
        sv_kind := kind session;
        sv_holder := holder session;
        sv_lease_expires_at := lease_expires_at session;
        sv_new_key_id := seal_key_id (next session);
        sv_new_header := seal_header (next session);
        sv_staged_ids := staged;
        sv_source_items := length source;
      |})
  end.

(** [self.session_view()?.ok_or(ApiError::NotFound)] *)
Definition open_session_view : R SessionView :=
  view ← session_view;
  lift (ok_or NotFound view).

Definition renew_lease (who : ApiKeyId) : R unit :=
  n ← now;
  modify_rec (λ r, match state r with
    | Rewriting session => with_state (Rewriting {|
        kind := kind session;
        prior := prior session;
        next := next session;
        holder := who;
        lease_expires_at := wadd n (lease_secs (limits E));
        staged_generation := staged_generation session;
      |}) r
    | Settled _ => r
    end).

(** [Rules::encryption] *)
Definition encryption : R EncryptionView :=
  rewrite ← session_view;
  r ← get_rec;
  mret {|
    ev_state := match state r, seal r with
      | Rewriting _, _ => InRewrite
      | _, Some _ => Sealed
      | _, None => Plaintext
      end;
    ev_key_id := seal_key_id <$> seal r;
    ev_header := seal_header <$> seal r;
    ev_rewrite := rewrite;
  |}.
End Rules.
Arguments R : clear implicits.

Create HintDb rules discriminated.

(** ** Reasoning about rules

    A rule's effect is on three things: the record, the shelf as its [view],
    and the clean-ups asked for.  [wpr m Q r v a]: run where these are [r],
    [v] and [a], [m] ends as [Q] says.  The clock's readings are left open, so
    what is proved holds however time passes. *)

Section reasoning.
Context {Sh RS : Type} `{Ext : Externals} `{Shelf : !ItemShelf Sh} `{Lawful : !LawfulShelf Sh}
  `{Random : !RandomSource RS}.
Context (E : Env).
Implicit Types (r : WorkspaceRecord) (v : Shelves) (a : list Cleanup).

Definition post (A : Type) : Type :=
  outcome ApiError A → WorkspaceRecord → Shelves → list Cleanup → Prop.

Definition wpr {A} (m : R Sh RS A) (Q : post A) r v a : Prop := ∀ s : St Sh RS,
  rec s = r → view (shelf s) = v → after s = a →
  Q (m s).1 (rec (m s).2) (view (shelf (m s).2)) (after (m s).2).

Definition andthenr {A B} (f : A → R Sh RS B) (Q : post B) : post A := λ x r v a,
  match x with
  | Ok y => wpr (f y) Q r v a
  | Err e => Q (Err e) r v a
  | Killed => Q Killed r v a
  | Spinning => Q Spinning r v a
  end.

Lemma wpr_bind {A B} (m : R Sh RS A) (f : A → R Sh RS B) Q r v a :
  wpr m (andthenr f Q) r v a → wpr (m ≫= f) Q r v a.
Proof.
  intros Hm s Hr Hv Ha. specialize (Hm s Hr Hv Ha). unfold mbind, M_bind, andthenr in *.
  destruct (m s) as [[y|e| |] s']; simpl in *; try done. by apply Hm.
Qed.

Lemma wpr_mono {A} (m : R Sh RS A) (Q Q' : post A) r v a :
  wpr m Q r v a → (∀ x r' v' a', Q x r' v' a' → Q' x r' v' a') → wpr m Q' r v a.
Proof. intros Hm HQ s Hr Hv Ha. apply HQ. by apply Hm. Qed.

Lemma wpr_and {A} (m : R Sh RS A) (Q Q' : post A) r v a :
  wpr m Q r v a → wpr m Q' r v a →
  wpr m (λ x r' v' a', Q x r' v' a' ∧ Q' x r' v' a') r v a.
Proof. intros H1 H2 s Hr Hv Ha. split; [by apply H1|by apply H2]. Qed.

Lemma wpr_ret {A} (y : A) (Q : post A) r v a : Q (Ok y) r v a → wpr (mret y) Q r v a.
Proof. intros HQ s <- <- <-. exact HQ. Qed.

Lemma wpr_throw {A} e (Q : post A) r v a : Q (Err e) r v a → wpr (throw e) Q r v a.
Proof. intros HQ s <- <- <-. exact HQ. Qed.

Lemma wpr_lift {A} (x : outcome ApiError A) (Q : post A) r v a : Q x r v a → wpr (lift x) Q r v a.
Proof. intros HQ s <- <- <-. exact HQ. Qed.

Lemma wpr_get_rec (Q : post WorkspaceRecord) r v a : Q (Ok r) r v a → wpr get_rec Q r v a.
Proof. intros HQ s <- <- <-. exact HQ. Qed.

Lemma wpr_modify_rec f (Q : post unit) r v a : Q (Ok ()) (f r) v a → wpr (modify_rec f) Q r v a.
Proof. intros HQ s <- <- <-. exact HQ. Qed.

Lemma wpr_push_after c (Q : post unit) r v a : Q (Ok ()) r v (a ++ [c]) → wpr (push_after c) Q r v a.
Proof. intros HQ s <- <- <-. exact HQ. Qed.

Lemma wpr_now (Q : post N) r v a : (∀ k, Q (Ok (clock E k)) r v a) → wpr (now E) Q r v a.
Proof. intros HQ s <- <- <-. apply HQ. Qed.

Lemma pass_cases name n :
  (pass E name n).1 = Ok () ∨ fault E ≠ None ∧ (pass E name n).1 = Killed.
Proof.
  unfold pass. destruct (fault E) as [[wanted skip]|]; [|by left].
  case_bool_decide; [|by left]. destruct (n =? skip)%N; [by right|by left].
Qed.

Lemma wpr_point name (Q : post unit) r v a :
  Q (Ok ()) r v a → (fault E ≠ None → Q Killed r v a) → wpr (point E name) Q r v a.
Proof.
  intros HQ HK s <- <- <-. unfold point. pose proof (pass_cases name (passed s)) as Hp.
  destruct (pass E name (passed s)) as [x n]; simpl in *. destruct Hp as [->|[Hf ->]]; auto.
Qed.

Lemma wpr_new_upload_id (Q : post UploadId) r v a :
  (∀ u, Q (Ok u) r v a) → wpr new_upload_id Q r v a.
Proof.
  intros HQ s <- <- <-. unfold new_upload_id.
  destruct (UploadId.generate (rng s)) as [u rng']. apply HQ.
Qed.

(** A step of the shelf: done in one of the ways it may be, or cut short. *)
Lemma wpr_call_one_of {A} (op : M ApiError Sh A) (torn : Shelves → Shelves → Prop)
    (spec : Shelves → outcome ApiError A * Shelves → Prop) (Q : post A) r v a :
  (∀ sh, view sh = v → ∃ y, spec (view sh) y ∧ obeys view (op sh) y (torn (view sh))) →
  (∀ y, spec v y → Q y.1 r y.2 a) →
  (∀ x v', interrupted x → torn v v' → Q x r v' a) →
  wpr (call op) Q r v a.
Proof.
  intros Hop Hok Hcut s Hr Hv Ha. destruct (Hop (shelf s) Hv) as (y & Hy & Hobeys). clear Hop. unfold call, obeys in *.
  destruct (op (shelf s)) as [x sh]; simpl in *. rewrite Hr, Ha, Hv in *.
  destruct Hobeys as [[-> ->]|[Hi Ht]]; [by apply Hok|by apply Hcut].
Qed.

Lemma wpr_call {A} (op : M ApiError Sh A) (spec : M ApiError Shelves A)
    (torn : Shelves → Shelves → Prop) (Q : post A) r v a :
  (∀ sh, obeys view (op sh) (spec (view sh)) (torn (view sh))) →
  Q (spec v).1 r (spec v).2 a →
  (∀ x v', interrupted x → torn v v' → Q x r v' a) →
  wpr (call op) Q r v a.
Proof.
  intros Hop Hok Hcut. apply (wpr_call_one_of op torn (λ v y, y = spec v)); [|by intros y ->|done].
  intros sh _. exists (spec (view sh)). split; [done|apply Hop].
Qed.

(** A query of the shelf. *)
Lemma wpr_query {A} (op : M ApiError Sh A) (spec : M ApiError Shelves A) (Q : post A) r v a y :
  (∀ sh, obeys view (op sh) (spec (view sh)) (eq (view sh))) →
  spec v = (Ok y, v) →
  Q (Ok y) r v a → (∀ x, interrupted x → Q x r v a) →
  wpr (call op) Q r v a.
Proof.
  intros Hop Hspec Hok Hcut.
  apply (wpr_call op spec eq Q); [done| |by intros x v' Hi <-; apply Hcut].
  by rewrite Hspec.
Qed.

Lemma wpr_for_each {A} (I : list A → post unit) (l : list A) (f : A → R Sh RS unit) (Q : post unit) r v a :
  I l (Ok ()) r v a →
  (∀ x l r v a, I (x :: l) (Ok ()) r v a →
    wpr (f x) (λ y r' v' a', match y with Ok _ => I l (Ok ()) r' v' a' | _ => Q y r' v' a' end) r v a) →
  (∀ r' v' a', I [] (Ok ()) r' v' a' → Q (Ok ()) r' v' a') →
  wpr (for_each l f) Q r v a.
Proof.
  intros HI Hf HQ. revert r v a HI.
  induction l as [|x l IH]; intros r v a HI; simpl; [by apply wpr_ret, HQ|].
  apply wpr_bind. eapply wpr_mono; [by apply Hf|].
  intros [[]|e| |] r' v' a' H'; simpl; try done. by apply IH.
Qed.

(** A rule that only reads, and how it answers. *)
Definition reads {A} (m : R Sh RS A) (P : WorkspaceRecord → Shelves → outcome ApiError A → Prop) : Prop :=
  ∀ r v a, wpr m (λ x r' v' a', r' = r ∧ v' = v ∧ a' = a ∧ P r v x) r v a.

Lemma wpr_reads {A} (m : R Sh RS A) P (Q : post A) r v a :
  reads m P → (∀ x, P r v x → Q x r v a) → wpr m Q r v a.
Proof.
  intros Hm HQ. eapply wpr_mono; [apply Hm|]. intros x r' v' a' (-> & -> & -> & HP). by apply HQ.
Qed.
End reasoning.

(** The answer of a step that was cut short. *)
Lemma interrupted_cases {A} (x : outcome ApiError A) :
  interrupted x → x = Err ServiceUnavailable ∨ x = Killed.
Proof. done. Qed.

Lemma interrupted_unavailable {A} : interrupted (A := A) (Err ServiceUnavailable).
Proof. by left. Qed.
Lemma interrupted_killed {A} : interrupted (A := A) Killed.
Proof. by right. Qed.
#[export] Hint Resolve interrupted_unavailable interrupted_killed : rules.

(** One step of symbolic execution; the clock, a new id, a fault point and a
    query of the shelf leave their own goals. *)
Ltac rule_step :=
  match goal with
  | |- wpr (mbind _ _) _ _ _ _ => apply wpr_bind
  | |- wpr (mret _) _ _ _ _ => apply wpr_ret
  | |- wpr (throw _) _ _ _ _ => apply wpr_throw
  | |- wpr (lift _) _ _ _ _ => apply wpr_lift
  | |- wpr get_rec _ _ _ _ => apply wpr_get_rec
  | |- wpr (modify_rec _) _ _ _ _ => apply wpr_modify_rec
  | |- wpr (push_after _) _ _ _ _ => apply wpr_push_after
  | |- wpr (now _) _ _ _ _ => apply wpr_now; intros ?k
  | |- wpr new_upload_id _ _ _ _ => apply wpr_new_upload_id; intros ?u
  | |- wpr (if ?b then _ else _) _ _ _ _ => destruct b eqn:?
  | |- wpr (match ?x with _ => _ end) _ _ _ _ => destruct x eqn:?
  | |- andthenr _ _ (Ok _) _ _ _ => cbn [andthenr]
  | |- andthenr _ _ (Err _) _ _ _ => cbn [andthenr]
  | |- andthenr _ _ Killed _ _ _ => cbn [andthenr]
  | |- andthenr _ _ Spinning _ _ _ => cbn [andthenr]
  | |- andthenr _ _ (ok_or _ (Some _)) _ _ _ => cbn [ok_or andthenr]
  | |- andthenr _ _ (ok_or _ None) _ _ _ => cbn [ok_or andthenr]
  | |- andthenr _ _ ?x _ _ _ => destruct x eqn:?
  end.
(** The condition of the [if] at the head, as a proposition. *)
Ltac rule_if H :=
  match goal with
  | |- wpr (if negb (bool_decide ?P) then _ else _) _ _ _ _ =>
      destruct (bool_decide_reflect P) as [H|H]; cbn [negb]
  | |- wpr (if bool_decide ?P then _ else _) _ _ _ _ =>
      destruct (bool_decide_reflect P) as [H|H]
  | |- wpr (if ?b then _ else _) _ _ _ _ => destruct b eqn:H
  end.
Ltac rule_steps := repeat (rule_step; cbv beta).

(** ** The steps of a lawful shelf, as the rules see them *)

Section shelf_steps.
Context {Sh RS : Type} `{Ext : Externals} `{Shelf : !ItemShelf Sh} `{Lawful : !LawfulShelf Sh}.
Implicit Types (r : WorkspaceRecord) (v : Shelves) (a : list Cleanup).

Lemma wpr_ids g (Q : post (list ItemId)) r v a :
  Q (Ok (reverse (btree_keys (items v g)))) r v a → (∀ x, interrupted x → Q x r v a) →
  wpr (Sh := Sh) (RS := RS) (call (shelf_ids g)) Q r v a.
Proof.
  apply (wpr_query _ (MemoryShelf.ids g)); [apply ids_law|].
  apply injective_projections; [apply memory_ids_spec|done].
Qed.

Lemma wpr_get g id (Q : post (option StoredItem)) r v a :
  Q (Ok (stored <$> items v g !! id)) r v a → (∀ x, interrupted x → Q x r v a) →
  wpr (Sh := Sh) (RS := RS) (call (shelf_get g id)) Q r v a.
Proof.
  apply (wpr_query _ (MemoryShelf.get g id)); [apply get_law|].
  unfold MemoryShelf.get. by rewrite items_lookup.
Qed.

Lemma wpr_open_from g id n (Q : post (option (list byte))) r v a :
  Q (Ok ((λ it : shelved, drop (N.to_nat (N.min n (len64 it.1))) it.1) <$> items v g !! id)) r v a →
  (∀ x, interrupted x → Q x r v a) →
  wpr (Sh := Sh) (RS := RS) (call (open_content_from g id n)) Q r v a.
Proof.
  apply (wpr_query _ (MemoryShelf.open_content_from g id n)); [apply open_content_from_law|].
  unfold MemoryShelf.open_content_from. by rewrite items_lookup.
Qed.

Lemma wpr_bytes g (Q : post N) r v a :
  Q (Ok (true_bytes (items v g) mod two64)%N) r v a → (∀ x, interrupted x → Q x r v a) →
  wpr (Sh := Sh) (RS := RS) (call (shelf_bytes g)) Q r v a.
Proof.
  apply (wpr_query _ (MemoryShelf.bytes g)); [apply bytes_law|].
  apply injective_projections; [apply memory_bytes_spec|done].
Qed.

Lemma wpr_staged (Q : post (list UploadId)) r v a :
  (∀ us, (∀ u, is_Some (staging v !! u) → u ∈ us) → Q (Ok us) r v a) → (∀ x, interrupted x → Q x r v a) →
  wpr (Sh := Sh) (RS := RS) (call staged) Q r v a.
Proof.
  intros HQ Hcut. apply (wpr_call_one_of staged eq (λ v y,
    ∃ us, (∀ u, is_Some (staging v !! u) → u ∈ us) ∧ y = (Ok us, v))); [|naive_solver|by intros x ? ? <-; apply Hcut].
  intros sh _. destruct (staged_law sh) as (us & Hus & Ho). exists (Ok us, view sh). split; [by exists us|done].
Qed.

Lemma wpr_generations (Q : post (list N)) r v a :
  (∀ l, (∀ g, g ∈ l ↔ items v g ≠ ∅) → Q (Ok l) r v a) → (∀ x, interrupted x → Q x r v a) →
  wpr (Sh := Sh) (RS := RS) (call generations) Q r v a.
Proof.
  intros HQ. eapply (wpr_query _ MemoryShelf.generations); [apply generations_law|done|].
  apply HQ. intros g. by apply memory_generations_spec.
Qed.

Lemma wpr_stage_size u (Q : post (option N)) r v a :
  Q (Ok (len64 ∘ fst <$> staging v !! u)) r v a → (∀ x, interrupted x → Q x r v a) →
  wpr (Sh := Sh) (RS := RS) (call (stage_size u)) Q r v a.
Proof. apply (wpr_query _ (MemoryShelf.stage_size u)); [apply stage_size_law|done]. Qed.

Lemma wpr_stage_digest u (Q : post (option (list byte))) r v a :
  is_Some (staging v !! u) →
  Q (Ok (staging v !! u ≫= snd)) r v a → (∀ x, interrupted x → Q x r v a) →
  wpr (Sh := Sh) (RS := RS) (call (stage_digest u)) Q r v a.
Proof.
  intros Hu HQ Hcut. apply (wpr_call_one_of (stage_digest u) eq (λ v y, y = MemoryShelf.stage_digest u v));
    [|by intros y ->|by intros x ? ? <-; apply Hcut].
  intros sh Hv. eexists. split; [done|]. apply stage_digest_law. by rewrite Hv.
Qed.

Lemma wpr_stage_create u (Q : post unit) r v a :
  (∀ d, Q (Ok ()) r (create_place d u v) a) →
  (∀ x v', interrupted x → v' = v ∨ (∃ d, v' = create_place d u v) → Q x r v' a) →
  wpr (Sh := Sh) (RS := RS) (call (stage_create u)) Q r v a.
Proof.
  intros Hok Hcut.
  apply (wpr_call_one_of _ (λ v v', v' = v ∨ ∃ d, v' = create_place d u v)
    (λ v y, ∃ d, y = (Ok (), create_place d u v))); [|intros y [d ->]; apply Hok|done].
  intros sh _. destruct (stage_create_law u sh) as [d Hd]. eexists. split; [by exists d|].
  destruct Hd as [Hd|[Hx Ht]]; [by left|right; split; [exact Hx|]]. destruct Ht as [->| ->]; [by left|right; by exists d].
Qed.

(** What a write answers and leaves, whether the place was finished or not. *)
Lemma wpr_stage_write (hashed : bool) u content announced (Q : post N) r v a :
  (∀ v0, place_found u v v0 →
    Q (MemoryShelf.write u content announced hashed v0).1 r (MemoryShelf.write u content announced hashed v0).2 a) →
  (∀ x v', interrupted x → torn_write u v v' → Q x r v' a) →
  wpr (Sh := Sh) (RS := RS)
    (if hashed then call (stage_write_hashed u content announced) else call (stage_write u content announced)) Q r v a.
Proof.
  intros Hok Hcut.
  replace (if hashed then call _ else _)
    with (call (RS := RS) (if hashed then stage_write_hashed u content announced else stage_write u content announced))
    by (by destruct hashed).
  apply (wpr_call_one_of _ (torn_write u)
    (λ v y, ∃ v0, place_found u v v0 ∧ y = MemoryShelf.write u content announced hashed v0));
    [|intros y (v0 & Hv & ->); by apply Hok|done].
  intros sh _. destruct hashed; [destruct (stage_write_hashed_law u content announced sh) as (v0 & Hv & Ho)
    |destruct (stage_write_law u content announced sh) as (v0 & Hv & Ho)]; eexists; (split; [by exists v0|exact Ho]).
Qed.

Lemma wpr_stage_remove u (Q : post unit) r v a :
  Q (Ok ()) r (cleaned (RemoveStaging u) v) a →
  (∀ x v', interrupted x → v' = v ∨ v' = cleaned (RemoveStaging u) v → Q x r v' a) →
  wpr (Sh := Sh) (RS := RS) (call (stage_remove u)) Q r v a.
Proof.
  intros Hok Hcut.
  by apply (wpr_call _ (MemoryShelf.stage_remove u)
    (λ v v', undone_or_done v (MemoryShelf.stage_remove u v) v')); [apply stage_remove_law|..].
Qed.

Lemma memory_remove g id v :
  MemoryShelf.remove g id v =
    (Ok (stored <$> items v g !! id), if items v g !! id then take_out g id v else v).
Proof.
  unfold MemoryShelf.remove, take_out, items. destruct (gens v !! g) as [its|] eqn:Hg; simpl.
  - f_equal. destruct (its !! id) eqn:Hi; [done|]. destruct v as [st gs]; simpl in *.
    unfold set_gens; simpl. by rewrite delete_id, insert_id.
  - by rewrite lookup_empty.
Qed.

Lemma wpr_remove g id (Q : post (option StoredItem)) r v a :
  (∀ it, items v g !! id = Some it → Q (Ok (Some (stored it))) r (take_out g id v) a) →
  (items v g !! id = None → Q (Ok None) r v a) →
  (∀ x v', interrupted x →
    v' = v ∨ is_Some (items v g !! id) ∧ v' = take_out g id v → Q x r v' a) →
  wpr (Sh := Sh) (RS := RS) (call (shelf_remove g id)) Q r v a.
Proof.
  intros Hsome Hnone Hcut.
  apply (wpr_call _ (MemoryShelf.remove g id)
    (λ v v', undone_or_done v (MemoryShelf.remove g id v) v')); [apply remove_law|..].
  - rewrite memory_remove. destruct (items v g !! id) eqn:Hi; simpl; auto.
  - intros x v' Hx Hv. unfold undone_or_done in Hv. rewrite memory_remove in Hv. simpl in Hv.
    apply Hcut; [done|]. destruct (items v g !! id) eqn:Hi; [|by destruct Hv; left].
    destruct Hv; [by left|right]. split; [by eexists|done].
Qed.

(** [publish], where what is staged is there and the id is free. *)
Lemma wpr_publish u g id e c (Q : post bool) r v a :
  staging v !! u = Some c → items v g !! id = None →
  Q (Ok true) r (move_in u g id c.1 e v) a →
  (∀ x v', interrupted x → same_items v v' ∨ v' = move_in u g id c.1 e v → Q x r v' a) →
  wpr (Sh := Sh) (RS := RS) (call (publish u g id e)) Q r v a.
Proof.
  intros Hc Hi Hok Hcut.
  assert (MemoryShelf.publish u g id e v = (Ok true, move_in u g id c.1 e v)) as Hspec.
  { unfold MemoryShelf.publish, move_in. rewrite Hc, Hi. by destruct c. }
  apply (wpr_call_one_of _ (λ v v', same_items v v' ∨ v' = (MemoryShelf.publish u g id e v).2)
    (λ v y, y = MemoryShelf.publish u g id e v)).
  - intros sh <-. eexists. split; [reflexivity|]. apply publish_law. by rewrite Hc.
  - intros y ->. by rewrite Hspec.
  - intros x v' Hx Hv. rewrite Hspec in Hv. by apply Hcut.
Qed.
End shelf_steps.

(** ** What every rule keeps to *)

Definition refused (d : option (Partition * ItemId)) (r : WorkspaceRecord) (v : Shelves) (e : ApiError) (v' : Shelves) : Prop :=
  v' = v ∨ (e = ServiceUnavailable ∧ torn d r v v').

(** A rule that succeeds has one of the effects of the contract; one that is
    refused changed nothing; one that is cut short left at most what [torn]
    allows. *)
Definition obedient {A} (d : option (Partition * ItemId)) (r : WorkspaceRecord) (v : Shelves) (Q : A → WorkspaceRecord → Shelves → list Cleanup → Prop) : post A :=
  λ x r' v' a', match x with
    | Ok y => effect d r v r' v' a' ∧ Q y r' v' a'
    | Err e => refused d r v e v'
    | Killed => torn d r v v'
    | Spinning => v' = v
    end.

Definition anything {A B C D} : A → B → C → D → Prop := λ _ _ _ _, True.

Lemma torn_refl d r v : torn d r v v.
Proof. by apply torn_staging. Qed.
Lemma refused_same d r v e : refused d r v e v.
Proof. by left. Qed.
Lemma obedient_err {A} d r v r' a' (Q : A → WorkspaceRecord → Shelves → list Cleanup → Prop) e : obedient d r v Q (Err e) r' v a'.
Proof. by left. Qed.
#[export] Hint Resolve torn_refl refused_same obedient_err : rules.

(** An interrupted query leaves all as it was. *)
Lemma obedient_cut {A} d r v v' r' a' (Q : A → WorkspaceRecord → Shelves → list Cleanup → Prop) x :
  interrupted x → torn d r v v' → obedient d r v Q x r' v' a'.
Proof. intros [->| ->] Ht; simpl; [by right|done]. Qed.

Lemma obedient_andthen_cut {Sh RS A B} `{Ext : Externals} `{Shelf : !ItemShelf Sh} `{Lawful : !LawfulShelf Sh}
    (f : A → R Sh RS B) d r v v' r' a' (Q : B → WorkspaceRecord → Shelves → list Cleanup → Prop) x :
  interrupted x → torn d r v v' → andthenr f (obedient d r v Q) x r' v' a'.
Proof. intros [->| ->] Ht; simpl; [by right|done]. Qed.

Lemma obedient_reads {Sh RS A} `{Ext : Externals} `{Shelf : !ItemShelf Sh} `{Lawful : !LawfulShelf Sh}
    (m : R Sh RS A) P d r v :
  reads m P → wpr m (obedient d r v anything) r v [].
Proof.
  intros Hm. eapply wpr_mono; [apply Hm|]. intros x r' v' a' (-> & -> & -> & _).
  destruct x; simpl; auto with rules. split; [constructor|done].
Qed.

(** ** What the shared steps answer *)

(** [find(|id| id.content_key() == ck)] over the ids, oldest first. *)
Definition oldest_with (its : gmap ItemId shelved) (ck : string) : option ItemId :=
  List.find (λ id, bool_decide (ItemId.content_key id = ck)) (btree_keys its).

Lemma oldest_with_Some its ck id :
  oldest_with its ck = Some id → is_Some (its !! id) ∧ ItemId.content_key id = ck.
Proof.
  intros [Hin Hb]%find_Some_spec. by rewrite elem_of_btree_keys, bool_decide_eq_true in *.
Qed.

Lemma oldest_with_None its ck id :
  oldest_with its ck = None → is_Some (its !! id) → ItemId.content_key id ≠ ck.
Proof.
  intros Hn Hi. eapply find_None_spec in Hn; [|by apply elem_of_btree_keys].
  by apply bool_decide_eq_false in Hn.
Qed.

Lemma oldest_with_new v g ck : oldest_with (items v g) ck = None → new_content v g ck.
Proof. intros Hn id Hi. by eapply oldest_with_None. Qed.

(** [Rules::session_view] and [Rules::encryption], of a record and shelves. *)
Definition session_view_of (r : WorkspaceRecord) (v : Shelves) : option SessionView :=
  match state r with
  | Settled _ => None
  | Rewriting s => Some {|
      sv_kind := kind s;
      sv_holder := holder s;
      sv_lease_expires_at := lease_expires_at s;
      sv_new_key_id := seal_key_id (next s);
      sv_new_header := seal_header (next s);
      sv_staged_ids := reverse (btree_keys (items v (staged_generation s)));
      sv_source_items := size (items v (generation r));
    |}
  end.

Definition encryption_of (r : WorkspaceRecord) (v : Shelves) : EncryptionView := {|
  ev_state := match state r, seal r with
    | Rewriting _, _ => InRewrite
    | _, Some _ => Sealed
    | _, None => Plaintext
    end;
  ev_key_id := seal_key_id <$> seal r;
  ev_header := seal_header <$> seal r;
  ev_rewrite := session_view_of r v;
|}.

(** Where an item's generation must be readable at all. *)
Definition answers {A} (f : WorkspaceRecord → Shelves → outcome ApiError A)
    : WorkspaceRecord → Shelves → outcome ApiError A → Prop := λ r v x, x = f r v ∨ interrupted x.

Ltac cut_query := intros x [->| ->]; cbn [andthenr]; unfold answers, interrupted; auto 8.

Section shared.
Context {Sh RS : Type} `{Ext : Externals} `{Shelf : !ItemShelf Sh} `{Lawful : !LawfulShelf Sh}
  `{Random : !RandomSource RS}.
Context (E : Env).

Lemma find_in_answers g ck :
  reads (Sh := Sh) (RS := RS) (find_in g ck) (answers (λ _ v, Ok (oldest_with (items v g) ck))).
Proof.
  intros r v a. unfold find_in. rule_step. apply wpr_ids; [|cut_query].
  rule_steps. split_and!; [done..|]. left. unfold oldest_with, reverse. 
  by rewrite <- rev_alt, rev_involutive.
Qed.

Lemma session_view_answers :
  reads (Sh := Sh) (RS := RS) session_view (answers (λ r v, Ok (session_view_of r v))).
Proof.
  intros r v a. unfold session_view. do 2 rule_step. cbn [andthenr].
  destruct (state r) as [sl|s] eqn:Hs.
  - rule_steps. unfold answers, session_view_of. rewrite Hs. auto.
  - rule_step. apply wpr_ids; [|cut_query]. rule_steps. apply wpr_ids; [|cut_query]. rule_steps.
    unfold answers, session_view_of. rewrite Hs, length_reverse, length_btree_keys. auto.
Qed.

Lemma encryption_answers :
  reads (Sh := Sh) (RS := RS) encryption (answers (λ r v, Ok (encryption_of r v))).
Proof.
  intros r v a. unfold encryption. rule_step. eapply wpr_reads; [apply session_view_answers|].
  intros x [->|Hi]; [|revert x Hi; cut_query]. rule_steps. unfold answers. auto.
Qed.

Lemma open_session_view_answers :
  reads (Sh := Sh) (RS := RS) open_session_view
    (answers (λ r v, ok_or NotFound (session_view_of r v))).
Proof.
  intros r v a. unfold open_session_view. rule_step. eapply wpr_reads; [apply session_view_answers|].
  intros x [->|Hi]; [|revert x Hi; cut_query]. rule_steps. unfold answers. auto.
Qed.
End shared.

(** ** Rules that change nothing *)

Definition quiet {Sh RS A} `{Ext : Externals} `{Shelf : !ItemShelf Sh} `{Lawful : !LawfulShelf Sh}
    (m : R Sh RS A) : Prop := reads m (λ _ _ _, True).

Section quiet.
Context {Sh RS : Type} `{Ext : Externals} `{Shelf : !ItemShelf Sh} `{Lawful : !LawfulShelf Sh}
  `{Random : !RandomSource RS}.
Context (E : Env).

Lemma reads_quiet {A} (m : R Sh RS A) P : reads m P → quiet m.
Proof. intros Hm r v a. eapply wpr_reads; [exact Hm|]. done. Qed.

Lemma quiet_bind {A B} (m : R Sh RS A) (f : A → R Sh RS B) :
  quiet m → (∀ y, quiet (f y)) → quiet (m ≫= f).
Proof.
  intros Hm Hf r v a. rule_step. eapply wpr_reads; [exact Hm|]. intros [y|e| |] _; cbn; try done.
  apply Hf.
Qed.

Lemma quiet_ret {A} (y : A) : quiet (Sh := Sh) (RS := RS) (mret y).
Proof. intros r v a. by rule_step. Qed.
Lemma quiet_throw {A} e : quiet (Sh := Sh) (RS := RS) (A := A) (throw e).
Proof. intros r v a. by rule_step. Qed.
Lemma quiet_lift {A} (x : outcome ApiError A) : quiet (Sh := Sh) (RS := RS) (lift x).
Proof. intros r v a. by rule_step. Qed.
Lemma quiet_get_rec : quiet (Sh := Sh) (RS := RS) get_rec.
Proof. intros r v a. by rule_step. Qed.
Lemma quiet_now : quiet (Sh := Sh) (RS := RS) (now E).
Proof. intros r v a. by rule_step. Qed.
Lemma quiet_ids g : quiet (Sh := Sh) (RS := RS) (call (shelf_ids g)).
Proof. intros r v a. by apply wpr_ids. Qed.
Lemma quiet_get g id : quiet (Sh := Sh) (RS := RS) (call (shelf_get g id)).
Proof. intros r v a. by apply wpr_get. Qed.
Lemma quiet_open g id n : quiet (Sh := Sh) (RS := RS) (call (open_content_from g id n)).
Proof. intros r v a. by apply wpr_open_from. Qed.
End quiet.

Create HintDb quiet discriminated.
#[export] Hint Resolve quiet_ret quiet_throw quiet_lift quiet_get_rec quiet_now quiet_ids quiet_get
  quiet_open : quiet.

Ltac quiet :=
  repeat first
    [ progress eauto with quiet
    | apply quiet_bind; [|intros ?]
    | match goal with
      | |- quiet (match ?x with _ => _ end) => destruct x
      end ].
