(* ===== verification/Workspace.v ===== *)
(** One workspace ([workspace.rs]): reading items, deleting one, and the
    changes of encryption that re-encrypt nothing. *)

From S2P Require Import Prelude Text Errors Random Ids Shelf Records Effects Rules.

Definition count_bytes (c : ascii) (s : string) : nat :=
  length (List.filter (Ascii.eqb c) (str_bytes s)).

Section Workspace.
Context {Sh RS : Type} `{Externals} `{ItemShelf Sh} `{RandomSource RS}.
Context (E : Env).

Definition item_ids (p : Partition) : R Sh RS (list ItemId) :=
  r ← get_rec;
  match generation_of r p with
  | Some g => call (shelf_ids g)
  | None => mret []
  end.

Definition item_ids_after (p : Partition) (bound : option ItemId) : R Sh RS (list ItemId) :=
  ids ← item_ids p;
  match bound with
  | Some bound => mret (List.filter (λ id, bool_decide (key_lt bound id)) ids)
  | None => mret ids
  end.

Definition item (p : Partition) (id : ItemId) : R Sh RS (option StoredItem) :=
  r ← get_rec;
  match generation_of r p with
  | Some g => call (shelf_get g id)
  | None => mret None
  end.

Fixpoint items_of (p : Partition) (ids : list ItemId) : R Sh RS (list (ItemId * StoredItem)) :=
  match ids with
  | [] => mret []
  | id :: ids =>
      it ← item p id;
      rest ← items_of p ids;
      mret (match it with Some it => (id, it) :: rest | None => rest end)
  end.

Definition items_after (p : Partition) (bound : option ItemId) : R Sh RS (list (ItemId * StoredItem)) :=
  ids ← item_ids_after p bound;
  items_of p ids.

Definition well_formed_prefix (typed : string) : bool :=
  (4 <=? String.length typed)
  && all_bytes (λ b, is_ascii_hexdigit b || Ascii.eqb b "-") typed
  && (count_bytes "-" typed <=? 1).

Definition resolve_item (input : string) : R Sh RS Resolved :=
  let typed := to_ascii_lowercase (trim input) in
  if negb (well_formed_prefix typed) then mret InvalidPrefix
  else
    let whole_id := negb (count_bytes "-" typed =? 0) in
    ids ← item_ids Current;
    let matches := List.filter (λ id,
      if whole_id then String.prefix typed (text id)
      else String.prefix typed (ItemId.content_key id)) ids in
    mret match matches with
      | [] => ResolvedNotFound
      | [id] => ResolvedId id
      | _ => Ambiguous matches
      end.

Definition item_content_from (p : Partition) (id : ItemId) (offset : N)
    : R Sh RS (option (list byte)) :=
  r ← get_rec;
  match generation_of r p with
  | Some g => call (open_content_from g id offset)
  | None => mret None
  end.

Definition item_content (p : Partition) (id : ItemId) : R Sh RS (option (list byte)) :=
  item_content_from p id 0.

Definition find_by_content_key (ck : string) : R Sh RS (option ItemId) :=
  r ← get_rec;
  find_in (generation r) ck.

Definition delete_item (caller : Caller) (p : Partition) (id : ItemId)
    (expected : option KeyId) : R Sh RS StoredItem :=
  lift (must_write caller);;
  check_writable expected;;
  r ← get_rec;
  g ← lift (ok_or NotFound (generation_of r p));
  removed ← call (shelf_remove g id);
  it ← lift (ok_or NotFound removed);
  modify_rec (λ r, with_used (<[g := ssub (used_of r g) (item_size it)]> (used r)) r);;
  mret it.

(** What [enable_encryption] and [fresh_start] share. *)
Definition settle (caller : Caller) (key_id : KeyId) : R Sh RS bool :=
  lift (must_write caller);;
  r ← get_rec;
  match state r with
  | Rewriting _ => throw RewriteInProgress
  | Settled (Some seal) =>
      if bool_decide (seal_key_id seal = key_id) then mret true else throw KeyIdMismatch
  | Settled None => mret false
  end.

Definition enable_encryption (caller : Caller) (key_id : KeyId) (header : list byte)
    : R Sh RS EncryptionView :=
  settled ← settle caller key_id;
  if (settled : bool) then encryption
  else
    r ← get_rec;
    ids ← call (shelf_ids (generation r));
    match ids with
    | _ :: _ =>
        throw (InvalidRequest "the workspace holds items; use a fresh start or migrate")
    | [] =>
        modify_rec (with_state (Settled (Some (mkSeal key_id header))));;
        encryption
    end.

Definition fresh_start (caller : Caller) (key_id : KeyId) (header : list byte)
    : R Sh RS EncryptionView :=
  settled ← settle caller key_id;
  if (settled : bool) then encryption
  else
    r ← get_rec;
    ids ← call (shelf_ids (generation r));
    match ids with
    | _ :: _ => modify_rec (λ r,
        with_next_generation (wadd (next_generation r) 1)
          (with_generation (next_generation r) (with_plain (Some (generation r)) r)))
    | [] => mret ()
    end;;
    modify_rec (with_state (Settled (Some (mkSeal key_id header))));;
    encryption.

Definition replace_header (caller : Caller) (expected : KeyId) (header : list byte)
    : R Sh RS EncryptionView :=
  lift (must_write caller);;
  r ← get_rec;
  match state r with
  | Rewriting _ => throw RewriteInProgress
  | Settled None => throw (InvalidRequest "the workspace is not encrypted")
  | Settled (Some seal) =>
      if bool_decide (seal_key_id seal = expected) then
        modify_rec (with_state (Settled (Some (mkSeal (seal_key_id seal) header))));;
        encryption
      else throw KeyIdMismatch
  end.
End Workspace.

(** ** What the rules answer *)

(** A partition of a workspace, as a reader sees it. *)
Definition partition (r : WorkspaceRecord) (v : Shelves) (p : Partition) : gmap ItemId shelved :=
  from_option (items v) ∅ (generation_of r p).

(** The ids of a partition, newest first. *)
Definition ids_of (r : WorkspaceRecord) (v : Shelves) (p : Partition) : list ItemId :=
  reverse (btree_keys (partition r v p)).

Lemma ids_of_empty r v p : generation_of r p = None → ids_of r v p = [].
Proof. unfold ids_of, partition. intros ->. by vm_compute. Qed.

Section answers.
Context {Sh RS : Type} `{Ext : Externals} `{Shelf : !ItemShelf Sh} `{Lawful : !LawfulShelf Sh}
  `{Random : !RandomSource RS}.
Context (E : Env).
Implicit Types (r : WorkspaceRecord) (v : Shelves).

Lemma item_ids_answers p :
  reads (Sh := Sh) (RS := RS) (item_ids p) (answers (λ r v, Ok (ids_of r v p))).
Proof.
  intros r v a. unfold item_ids. do 2 rule_step. cbn [andthenr].
  destruct (generation_of r p) as [g|] eqn:Hg.
  - apply wpr_ids; [|cut_query]. unfold answers, ids_of, partition. rewrite Hg. auto.
  - rule_steps. unfold answers. rewrite ids_of_empty by done. auto.
Qed.

Lemma item_answers p id :
  reads (Sh := Sh) (RS := RS) (item p id) (answers (λ r v, Ok (stored <$> partition r v p !! id))).
Proof.
  intros r v a. unfold item. do 2 rule_step. cbn [andthenr]. unfold answers, partition.
  destruct (generation_of r p) as [g|] eqn:Hg.
  - apply wpr_get; [|cut_query]. auto.
  - rule_steps. simpl. rewrite lookup_empty. auto.
Qed.

Lemma item_content_from_answers p id n :
  reads (Sh := Sh) (RS := RS) (item_content_from p id n) (answers (λ r v,
    Ok ((λ it : shelved, drop (N.to_nat (N.min n (len64 it.1))) it.1) <$> partition r v p !! id))).
Proof.
  intros r v a. unfold item_content_from. do 2 rule_step. cbn [andthenr]. unfold answers, partition.
  destruct (generation_of r p) as [g|] eqn:Hg.
  - apply wpr_open_from; [|cut_query]. auto.
  - rule_steps. simpl. rewrite lookup_empty. auto.
Qed.

Lemma find_by_content_key_answers ck :
  reads (Sh := Sh) (RS := RS) (find_by_content_key ck)
    (answers (λ r v, Ok (oldest_with (partition r v Current) ck))).
Proof.
  intros r v a. unfold find_by_content_key. do 2 rule_step. cbn [andthenr].
  eapply wpr_reads; [apply find_in_answers|]. done.
Qed.
End answers.

(** ** What the rules change *)

Section obey.
Context {Sh RS : Type} `{Ext : Externals} `{Shelf : !ItemShelf Sh} `{Lawful : !LawfulShelf Sh}
  `{Random : !RandomSource RS}.
Context (E : Env).
Implicit Types (r : WorkspaceRecord) (v : Shelves).

Lemma encryption_obeys d r v r' a (Q : EncryptionView → WorkspaceRecord → Shelves → list Cleanup → Prop) :
  effect d r v r' v a → Q (encryption_of r' v) r' v a →
  wpr (Sh := Sh) (RS := RS) encryption (obedient d r v Q) r' v a.
Proof.
  intros He HQ. eapply wpr_reads; [apply encryption_answers|].
  intros x [->|Hi]; [by split|]. apply obedient_cut; auto with rules.
Qed.

(** [must_write], then the rest. *)
Lemma wpr_must_write {A} c (f : unit → R Sh RS A) (Q : post A) r v a :
  (role c = ReadWrite → wpr (f ()) Q r v a) → (role c = ReadOnly → Q (Err ForbiddenRole) r v a) →
  wpr (lift (must_write c) ≫= f) Q r v a.
Proof. intros Hw Hn. do 2 rule_step. unfold must_write. destruct (role c); simpl; auto. Qed.

Lemma wpr_check_writable {A} k (f : unit → R Sh RS A) (Q : post A) r v a :
  (∀ sl, state r = Settled sl → seal_key_id <$> sl = k → wpr (f ()) Q r v a) →
  (∀ s, state r = Rewriting s → Q (Err RewriteInProgress) r v a) →
  (∀ sl, state r = Settled sl → seal_key_id <$> sl ≠ k → Q (Err KeyIdMismatch) r v a) →
  wpr (check_writable k ≫= f) Q r v a.
Proof.
  intros Hok Hre Hk. rule_step. unfold check_writable. do 2 rule_step. cbn [andthenr].
  destruct (state r) as [sl|s] eqn:Hs.
  - case_bool_decide; rule_step; simpl; eauto.
  - rule_step. simpl. eauto.
Qed.

Lemma delete_item_obeys c p id k r v :
  wpr (Sh := Sh) (RS := RS) (delete_item c p id k) (obedient (Some (p, id)) r v anything) r v [].
Proof.
  unfold delete_item. apply wpr_must_write; [intros _|auto with rules].
  apply wpr_check_writable; [|auto with rules..]. intros sl Hs _.
  do 2 rule_step. cbn [andthenr]. do 2 rule_step.
  destruct (generation_of r p) as [g|] eqn:Hg; simpl; [|auto with rules].
  rule_step. apply wpr_remove.
  - intros it Hi. rule_steps. split; [|done].
    apply (eff_delete _ r v p g id it); auto. unfold is_rewriting. by rewrite Hs.
  - intros Hi. rule_steps. auto with rules.
  - intros x v' Hx Hv. apply obedient_andthen_cut; [done|].
    destruct Hv as [->|[[it Hi] ->]]; [auto with rules|].
    apply (torn_delete _ r v p g id it); auto. unfold is_rewriting. by rewrite Hs.
Qed.

(** [settle]: a replay, a refusal, or a plaintext workspace. *)
Lemma wpr_settle {A} c k (f : bool → R Sh RS A) (Q : post A) r v a :
  (∀ sl, role c = ReadWrite → state r = Settled (Some sl) → seal_key_id sl = k → wpr (f true) Q r v a) →
  (role c = ReadWrite → state r = Settled None → wpr (f false) Q r v a) →
  (∀ e, Q (Err e) r v a) →
  wpr (settle c k ≫= f) Q r v a.
Proof.
  intros Hyes Hno Herr. rule_step. unfold settle. apply wpr_must_write; [intros Hw|simpl; auto].
  do 2 rule_step. cbn [andthenr]. destruct (state r) as [[sl|]|s] eqn:Hs.
  - case_bool_decide; rule_step; simpl; eauto.
  - rule_step. simpl. auto.
  - rule_step. simpl. auto.
Qed.

Lemma ids_nil (its : gmap ItemId shelved) : reverse (btree_keys its) = [] ↔ its = ∅.
Proof.
  rewrite <- btree_keys_nil. split; [|by intros ->].
  intros H. apply (f_equal reverse) in H. by rewrite reverse_involutive in H.
Qed.

Lemma enable_encryption_obeys c k h r v :
  wpr (Sh := Sh) (RS := RS) (enable_encryption c k h) (obedient None r v anything) r v [].
Proof.
  unfold enable_encryption. apply wpr_settle; [| |auto with rules].
  - intros sl _ Hs _. apply encryption_obeys; [constructor|done].
  - intros _ Hs. do 2 rule_step. cbn [andthenr]. rule_step.
    apply wpr_ids; [|intros x Hx; apply obedient_andthen_cut; auto with rules].
    cbn [andthenr]. destruct (reverse _) eqn:Hi; [|rule_step; auto with rules].
    rule_steps. apply encryption_obeys; [|done].
    apply (eff_enable _ r v (mkSeal k h)); [done|]. by apply ids_nil.
Qed.

Lemma fresh_start_obeys c k h r v :
  wpr (Sh := Sh) (RS := RS) (fresh_start c k h) (obedient None r v anything) r v [].
Proof.
  unfold fresh_start. apply wpr_settle; [| |auto with rules].
  - intros sl _ Hs _. apply encryption_obeys; [constructor|done].
  - intros _ Hs. do 2 rule_step. cbn [andthenr]. rule_step.
    apply wpr_ids; [|intros x Hx; apply obedient_andthen_cut; auto with rules].
    cbn [andthenr]. destruct (reverse _) eqn:Hi.
    + rule_steps. apply encryption_obeys; [|done].
      apply (eff_enable _ r v (mkSeal k h)); [done|]. by apply ids_nil.
    + rule_steps. apply encryption_obeys; [|done].
      apply (eff_set_aside _ r v (mkSeal k h)); [done|]. intros He. by apply ids_nil in He; rewrite He in Hi.
Qed.

Lemma replace_header_obeys c k h r v :
  wpr (Sh := Sh) (RS := RS) (replace_header c k h) (obedient None r v anything) r v [].
Proof.
  unfold replace_header. apply wpr_must_write; [intros _|auto with rules].
  do 2 rule_step. cbn [andthenr]. destruct (state r) as [[sl|]|s] eqn:Hs;
    [|rule_step; auto with rules..].
  case_bool_decide; [|rule_step; auto with rules].
  rule_steps. apply encryption_obeys; [|done]. by apply (eff_header _ r v sl h).
Qed.
End obey.

(** ** What the reading rules leave alone *)

Section quiet.
Context {Sh RS : Type} `{Ext : Externals} `{Shelf : !ItemShelf Sh} `{Lawful : !LawfulShelf Sh}
  `{Random : !RandomSource RS}.

Lemma encryption_quiet : quiet (Sh := Sh) (RS := RS) encryption.
Proof. eapply reads_quiet, encryption_answers. Qed.
Lemma session_view_quiet : quiet (Sh := Sh) (RS := RS) session_view.
Proof. eapply reads_quiet, session_view_answers. Qed.
Lemma item_ids_quiet p : quiet (Sh := Sh) (RS := RS) (item_ids p).
Proof. eapply reads_quiet, item_ids_answers. Qed.
Lemma item_quiet p id : quiet (Sh := Sh) (RS := RS) (item p id).
Proof. eapply reads_quiet, item_answers. Qed.
Lemma find_by_content_key_quiet ck : quiet (Sh := Sh) (RS := RS) (find_by_content_key ck).
Proof. eapply reads_quiet, find_by_content_key_answers. Qed.
Lemma item_content_from_quiet p id n : quiet (Sh := Sh) (RS := RS) (item_content_from p id n).
Proof. eapply reads_quiet, item_content_from_answers. Qed.

Lemma item_ids_after_quiet p bound : quiet (Sh := Sh) (RS := RS) (item_ids_after p bound).
Proof. unfold item_ids_after. apply quiet_bind; [apply item_ids_quiet|]. intros. quiet. Qed.

Lemma items_of_quiet p ids : quiet (Sh := Sh) (RS := RS) (items_of p ids).
Proof.
  induction ids as [|id ids IH]; simpl; [quiet|].
  apply quiet_bind; [apply item_quiet|]. intros. apply quiet_bind; [done|]. quiet.
Qed.

Lemma items_after_quiet p bound : quiet (Sh := Sh) (RS := RS) (items_after p bound).
Proof.
  unfold items_after. apply quiet_bind; [apply item_ids_after_quiet|]. intros. apply items_of_quiet.
Qed.

Lemma resolve_item_quiet input : quiet (Sh := Sh) (RS := RS) (resolve_item input).
Proof.
  unfold resolve_item. destruct (negb _); [quiet|]. apply quiet_bind; [apply item_ids_quiet|]. quiet.
Qed.
End quiet.

#[export] Hint Resolve encryption_quiet session_view_quiet item_ids_quiet item_quiet
  find_by_content_key_quiet item_content_from_quiet item_ids_after_quiet items_after_quiet
  resolve_item_quiet : quiet.
