(* ===== verification/Upload.v ===== *)
(** The upload lifecycle ([upload.rs]): begin, put, commit, abort, and what
    the janitor and an opening do to what was left behind. *)

From S2P Require Import Prelude Errors Random Ids Shelf Records Effects Rules Workspace.

Section Upload.
Context {Sh RS : Type} `{Externals} `{ItemShelf Sh} `{RandomSource RS}.
Context (E : Env).

Definition reserved_bytes : R Sh RS N :=
  n ← now E;
  r ← get_rec;
  mret (reserved_by r n false).

(** Where an upload goes, if it may go anywhere. *)
Definition upload_target (caller : Caller) (request : UploadRequest) : R Sh RS N :=
  if in_rewrite request then rewrite_target caller (ur_expected_key_id request)
  else
    check_writable (ur_expected_key_id request);;
    r ← get_rec;
    mret (generation r).

(** [self.rec.uploads.tickets.remove(&upload)], then the clean-up. *)
Definition forfeit (u : UploadId) : R Sh RS unit :=
  modify_rec (λ r, with_tickets (delete u (tickets r)) r);;
  push_after (RemoveStaging u).

(** The uploads with a ticket that [p] holds of, by id. *)
Definition uploads_where (p : Ticket → bool) (r : WorkspaceRecord) : list UploadId :=
  (List.filter (λ e, p e.2) (btree_iter (tickets r))).*1.

(** [ticket.owner == caller.key && ticket.request == request] *)
Definition is_same_upload (caller : Caller) (request : UploadRequest) (t : Ticket) : bool :=
  bool_decide (t_owner t = key caller ∧ t_request t = request).

(** [loop { candidate; if !known { break candidate } }] *)
Fixpoint fresh_upload_id (n : nat) : R Sh RS UploadId :=
  match n with
  | O => lift Spinning
  | S n =>
      candidate ← new_upload_id;
      r ← get_rec;
      if bool_decide (is_Some (tickets r !! candidate))
         || bool_decide (is_Some (tombstones r !! candidate))
      then fresh_upload_id n
      else mret candidate
  end.

(** The bytes the quota counts where an upload goes. *)
Definition held_bytes (r : WorkspaceRecord) (n : N) (rewriting : bool) (g : N) : N :=
  if rewriting then sadd (used_of r g) (reserved_by r n true)
  else sadd (wsub (used_bytes r) (staged_bytes r)) (reserved_by r n false).

Definition begin_upload (caller : Caller) (request : UploadRequest) : R Sh RS Begun :=
  lift (must_write caller);;
  g ← upload_target caller request;
  if match max_item_bytes (limits E) with
     | Some max => (max <? ur_size request)%N
     | None => false
     end
  then throw ItemTooLarge
  else
    found ← find_in g (ItemId.content_key (ur_id request));
    match found with
    | Some id =>
        r ← get_rec;
        for_each (uploads_where (is_same_upload caller request) r) forfeit;;
        mret (BegunStored (mkPutOutcome id false (in_rewrite request)))
    | None =>
        n ← now E;
        r ← get_rec;
        let live := List.find (λ e : UploadId * Ticket,
          (n <? t_expires_at e.2)%N && is_same_upload caller request e.2) (btree_iter (tickets r)) in
        match live with
        | Some (u, t) =>
            call (stage_create u);;
            mret (BegunTicket (mkUploadTicket u (t_expires_at t)))
        | None =>
            if (quota_bytes (limits E) <? sadd (held_bytes r n (in_rewrite request) g) (ur_size request))%N
            then throw QuotaExceeded
            else
              u ← fresh_upload_id (fuel E);
              let expires_at := wadd n (staging_secs (limits E)) in
              call (stage_create u);;
              modify_rec (λ r, with_tickets
                (<[u := mkTicket (key caller) request expires_at]> (tickets r)) r);;
              mret (BegunTicket (mkUploadTicket u expires_at))
        end
    end.

Definition checks_content (request : UploadRequest) : bool :=
  check_plaintext_content (limits E) && bool_decide (ur_expected_key_id request = None).

(** The one look the server takes inside [meta]. *)
Definition check_plaintext (u : UploadId) (request : UploadRequest) : R Sh RS unit :=
  meta ← lift (ok_or ContentMismatch (json_from_slice (ur_meta request)));
  let said_sha := json_str meta "sha256" in
  let said_size := json_u64 meta "size" in
  digest ← call (stage_digest u);
  let honest :=
    match hex <$> digest, said_sha, said_size with
    | Some sha, Some said_sha, Some said_size =>
        String.eqb sha said_sha
        && (said_size =? ur_size request)%N
        && String.eqb (ItemId.content_key (ur_id request)) (str_take 12 sha)
    | _, _, _ => false
    end in
  if honest then mret () else throw ContentMismatch.

(** [&&] looks at the clock only when the owner is the caller. *)
Definition live_ticket (caller : Caller) (u : UploadId) : R Sh RS (option Ticket) :=
  r ← get_rec;
  match tickets r !! u with
  | Some t =>
      if bool_decide (t_owner t = key caller) then
        n ← now E;
        mret (if (n <? t_expires_at t)%N then Some t else None)
      else mret None
  | None => mret None
  end.

Definition tombstone (caller : Caller) (u : UploadId) : R Sh RS (option Tombstone) :=
  r ← get_rec;
  match tombstones r !! u with
  | Some st =>
      if bool_decide (s_owner st = key caller) then
        n ← now E;
        mret (if (n <? s_expires_at st)%N then Some st else None)
      else mret None
  | None => mret None
  end.

Definition upload_state (caller : Caller) (u : UploadId) : R Sh RS UploadState :=
  stone ← tombstone caller u;
  match stone with
  | Some _ => mret Finished
  | None =>
      t ← live_ticket caller u;
      lift (ok_or NotFound (Awaiting ∘ ur_size ∘ t_request <$> t))
  end.

Definition put_upload_content (caller : Caller) (u : UploadId) (content : Reader) : R Sh RS unit :=
  stone ← tombstone caller u;
  match stone with
  | Some _ => mret ()
  | None =>
      t ← live_ticket caller u;
      t ← lift (ok_or NotFound t);
      let announced := ur_size (t_request t) in
      written ← (if checks_content (t_request t)
                 then call (stage_write_hashed u content announced)
                 else call (stage_write u content announced));
      mret ()
  end.

(** Records an upload's outcome. *)
Definition finish_upload (u : UploadId) (t : Ticket) (id : ItemId) (made : bool) : R Sh RS PutOutcome :=
  let out := mkPutOutcome id made (in_rewrite (t_request t)) in
  push_after (RemoveStaging u);;
  modify_rec (λ r, with_tickets (delete u (tickets r)) r);;
  n ← now E;
  modify_rec (λ r, with_tombstones
    (<[u := mkTombstone (t_owner t) out (wadd n (staging_secs (limits E)))]> (tombstones r)) r);;
  mret out.

(** An earlier commit published the item and died before it could say so:
    [Some] outcome when that is what happened. *)
Definition finish_unrecorded (u : UploadId) (t : Ticket) (g : N) : R Sh RS (option PutOutcome) :=
  published ← call (shelf_get g (ur_id (t_request t)));
  match published with
  | Some it =>
      if (item_size it =? ur_size (t_request t))%N then
        bytes ← call (shelf_bytes g);
        modify_rec (λ r, with_used (<[g := bytes]> (used r)) r);;
        out ← finish_upload u t (ur_id (t_request t)) true;
        mret (Some out)
      else mret None
  | None => mret None
  end.

(** Deduplicates or publishes what is staged. *)
Definition publish_or_find (u : UploadId) (t : Ticket) (g : N) : R Sh RS (ItemId * bool) :=
  existing ← find_in g (ItemId.content_key (ur_id (t_request t)));
  match existing with
  | Some id => mret (id, false)
  | None =>
      n ← now E;
      call (publish u g (ur_id (t_request t))
        (mkEnvelope (ur_meta (t_request t)) (ur_expected_key_id (t_request t)) n));;
      point E "upload: after the publish";;
      add_used g (ur_size (t_request t));;
      mret (ur_id (t_request t), true)
  end.

Definition commit_upload (caller : Caller) (u : UploadId) : R Sh RS PutOutcome :=
  stone ← tombstone caller u;
  match stone with
  | Some st => mret (s_outcome st)
  | None =>
      t ← live_ticket caller u;
      t ← lift (ok_or NotFound t);
      g ← upload_target caller (t_request t);
      staged ← call (stage_size u);
      unrecorded ← match staged with
                   | None => finish_unrecorded u t g
                   | Some _ => mret None
                   end;
      match unrecorded with
      | Some out => mret out
      | None =>
          if bool_decide (staged = Some (ur_size (t_request t))) then
            (if checks_content (t_request t) then check_plaintext u (t_request t) else mret ());;
            out ← publish_or_find u t g;
            finish_upload u t out.1 out.2
          else throw ContentMismatch
      end
  end.

Definition abort_upload (caller : Caller) (u : UploadId) : R Sh RS unit :=
  r ← get_rec;
  if bool_decide (t_owner <$> tickets r !! u = Some (key caller)) then
    modify_rec (λ r, with_tickets (delete u (tickets r)) r);;
    push_after (RemoveStaging u)
  else mret ().

Definition probe_write (caller : Caller) : R Sh RS unit :=
  lift (must_write caller);;
  r ← get_rec;
  if is_rewriting r then throw RewriteInProgress
  else
    probe ← new_upload_id;
    call (stage_create probe);;
    call (stage_remove probe).

(** Drops the uploads of a rewrite that ended. *)
Definition drop_rewrite_uploads : R Sh RS unit :=
  r ← get_rec;
  for_each (uploads_where (in_rewrite ∘ t_request) r) forfeit.

Definition clean_staging : R Sh RS nat :=
  n ← now E;
  modify_rec (λ r, with_tickets (filter (λ e, (n < t_expires_at e.2)%N) (tickets r)) r);;
  modify_rec (λ r, with_tombstones (filter (λ e, (n < s_expires_at e.2)%N) (tombstones r)) r);;
  r ← get_rec;
  all ← call staged;
  let orphans := List.filter (λ u, bool_decide (tickets r !! u = None)) all in
  for_each orphans (λ u, push_after (RemoveStaging u));;
  on_shelf ← call generations;
  let rubbish := List.filter (λ g, negb (bool_decide (g ∈ live_generations r))) on_shelf in
  for_each rubbish (λ g,
    push_after (DropGeneration g);;
    modify_rec (λ r, with_used (delete g (used r)) r));;
  mret (length orphans).

(** What a workspace needs when it is opened. *)
Definition reconcile : R Sh RS unit :=
  r ← get_rec;
  for_each (live_generations r) (λ g,
    bytes ← call (shelf_bytes g);
    modify_rec (λ r, with_used (<[g := bytes]> (used r)) r));;
  clean_staging;;
  mret ().
End Upload.

(** ** What the rules change *)

Lemma with_tickets_id r : with_tickets (tickets r) r = r.
Proof. by destruct r. Qed.

Lemma drop_tickets_nil r : drop_tickets [] r = r.
Proof.
  unfold drop_tickets. rewrite map_filter_id; [apply with_tickets_id|].
  intros u t _ []%elem_of_nil.
Qed.

Lemma drop_tickets_cons u us r :
  drop_tickets (u :: us) r = drop_tickets us (with_tickets (delete u (tickets r)) r).
Proof.
  unfold drop_tickets; simpl. f_equal. apply map_eq. intros u'.
  apply option_eq. intros t. rewrite !map_lookup_filter_Some, lookup_delete_Some, not_elem_of_cons.
  naive_solver.
Qed.

Section obey.
Context {Sh RS : Type} `{Ext : Externals} `{Shelf : !ItemShelf Sh} `{Lawful : !LawfulShelf Sh}
  `{Random : !RandomSource RS}.
Context (E : Env).
Implicit Types (r : WorkspaceRecord) (v : Shelves).

Lemma wpr_forfeit_all us (Q : post unit) r v a :
  Q (Ok ()) (drop_tickets us r) v (a ++ (RemoveStaging <$> us)) →
  wpr (Sh := Sh) (RS := RS) (for_each us forfeit) Q r v a.
Proof.
  revert r a. induction us as [|u us IH]; intros r a HQ; simpl.
  - rule_step. rewrite drop_tickets_nil, app_nil_r in HQ. done.
  - rule_step. unfold forfeit. rule_steps.
    apply IH. rewrite drop_tickets_cons in HQ. by rewrite <- app_assoc.
Qed.

Lemma elem_of_uploads_where p r u :
  u ∈ uploads_where p r ↔ ∃ t, tickets r !! u = Some t ∧ p t = true.
Proof.
  unfold uploads_where. rewrite list_elem_of_fmap. split.
  - intros ([u' t] & -> & Hin). apply list_elem_of_In, filter_In in Hin as [Hin Hp].
    exists t. split; [|done]. by apply elem_of_btree_iter, list_elem_of_In.
  - intros (t & Hu & Hp). exists (u, t). split; [done|]. apply list_elem_of_In, filter_In.
    split; [|done]. by apply list_elem_of_In, elem_of_btree_iter.
Qed.

(** Why an upload may go nowhere. *)
Inductive no_target c q r : ApiError → Prop :=
| no_writers s : in_rewrite q = false → state r = Rewriting s → no_target c q r RewriteInProgress
| no_such_key sl : in_rewrite q = false → state r = Settled sl → seal_key_id <$> sl ≠ ur_expected_key_id q →
    no_target c q r KeyIdMismatch
| no_session sl : in_rewrite q = true → state r = Settled sl → no_target c q r NotFound
| no_lease s : in_rewrite q = true → state r = Rewriting s → holder s ≠ key c → no_target c q r LeaseHeld
| no_next_key s : in_rewrite q = true → state r = Rewriting s → holder s = key c →
    ur_expected_key_id q ≠ Some (seal_key_id (next s)) → no_target c q r KeyIdMismatch.

Lemma wpr_upload_target {A} c q (f : N → R Sh RS A) (Q : post A) r v a :
  (∀ g, target r q = Some g →
    (in_rewrite q = true → ∃ s, state r = Rewriting s ∧ holder s = key c) → wpr (f g) Q r v a) →
  (∀ e, no_target c q r e → Q (Err e) r v a) →
  wpr (upload_target c q ≫= f) Q r v a.
Proof.
  intros Hok Herr. rule_step. unfold upload_target. unfold target in Hok.
  destruct (in_rewrite q) eqn:Hre.
  - unfold rewrite_target. rule_step. unfold held_session. do 2 rule_step. cbn [andthenr].
    destruct (state r) as [sl|s] eqn:Hs; [rule_step; simpl; eauto using no_target|].
    rule_if Hh; [|rule_step; simpl; eauto using no_target].
    rule_step. cbn [andthenr]. rule_if Hk; rule_step; [|simpl; eauto using no_target].
    apply Hok; [done|]. eauto.
  - apply wpr_check_writable; [|simpl; eauto using no_target..]. intros sl Hs Hk. rule_steps.
    apply Hok; [|done]. rewrite Hs. by rewrite bool_decide_true.
Qed.

Lemma wpr_fresh_upload_id n (Q : post UploadId) r v a :
  (∀ u, tickets r !! u = None → tombstones r !! u = None → Q (Ok u) r v a) →
  Q Spinning r v a →
  wpr (Sh := Sh) (RS := RS) (fresh_upload_id n) Q r v a.
Proof.
  intros Hok Hspin. induction n as [|n IH]; simpl; [by rule_step|].
  do 2 rule_step. cbn [andthenr]. do 2 rule_step. cbn [andthenr].
  destruct (bool_decide (is_Some (tickets r !! u))) eqn:Ht; [done|].
  destruct (bool_decide (is_Some (tombstones r !! u))) eqn:Hs; [done|].
  simpl. rule_step. apply bool_decide_eq_false in Ht, Hs. apply Hok; by apply eq_None_not_Some.
Qed.

Lemma begin_upload_obeys c q r v :
  wpr (Sh := Sh) (RS := RS) (begin_upload E c q) (obedient None r v anything) r v [].
Proof.
  unfold begin_upload. apply wpr_must_write; [intros _|auto with rules].
  apply wpr_upload_target; [|auto with rules]. intros g Hg _.
  destruct (match max_item_bytes _ with Some _ => _ | None => _ end); [rule_step; auto with rules|].
  rule_step. eapply wpr_reads; [apply find_in_answers|].
  intros x [->|Hx]; [|apply obedient_andthen_cut; auto with rules]. cbn [andthenr].
  destruct (oldest_with _ _) as [id|].
  - do 4 rule_step. apply wpr_forfeit_all. rule_steps. split; [|done].
    apply eff_give_up. intros u (t & Hu & _)%elem_of_uploads_where. by eexists.
  - do 6 rule_step. destruct (List.find _ _) as [[u t]|] eqn:Hlive.
    + apply find_Some_spec in Hlive as [Hin%elem_of_btree_iter _].
      rule_step. apply wpr_stage_create.
      * intros d. cbn [andthenr]. rule_steps. split; [|done]. apply eff_again. by eexists.
      * intros x v' Hx Hv. apply obedient_andthen_cut; [done|]. apply torn_staging.
        destruct Hv as [->|[d ->]]; [done|intros; apply items_create_place].
    + destruct (quota_bytes _ <? _)%N; [rule_step; auto with rules|].
      rule_step. apply wpr_fresh_upload_id; [|by simpl]. intros u Hu Hu'. cbn [andthenr].
      rule_step. apply wpr_stage_create.
      * intros d. cbn [andthenr]. rule_steps. split; [|done]. by apply (eff_ticket _ r v u (mkTicket _ _ _) g).
      * intros x v' Hx Hv. apply obedient_andthen_cut; [done|]. apply torn_staging.
        destruct Hv as [->|[d ->]]; [done|intros; apply items_create_place].
Qed.

Lemma abort_upload_obeys c u r v :
  wpr (Sh := Sh) (RS := RS) (abort_upload c u) (obedient None r v anything) r v [].
Proof.
  unfold abort_upload. do 2 rule_step. cbn [andthenr].
  case_bool_decide as Hu; rule_steps; split; try done; [|constructor].
  destruct (tickets r !! u) as [t|] eqn:Ht; [|done].
  pose proof (eff_give_up None r v [u]) as He. rewrite drop_tickets_cons, drop_tickets_nil in He.
  apply He. intros u' ->%list_elem_of_singleton. by eexists.
Qed.

(** ** Committing *)

(** Whether the caller's outcome is remembered, and whether the caller's
    ticket is live, as far as some reading of the clock can tell. *)
Definition outcome_gone c u r : Prop := ∀ st, tombstones r !! u = Some st →
  s_owner st = key c → ∃ k, (s_expires_at st ≤ clock E k)%N.
Definition ticket_gone c u r : Prop := ∀ t, tickets r !! u = Some t →
  t_owner t = key c → ∃ k, (t_expires_at t ≤ clock E k)%N.

Lemma wpr_tombstone {A} c u (f : option Tombstone → R Sh RS A) (Q : post A) r v a :
  (∀ st, tombstones r !! u = Some st → s_owner st = key c → wpr (f (Some st)) Q r v a) →
  (outcome_gone c u r → wpr (f None) Q r v a) →
  wpr (tombstone E c u ≫= f) Q r v a.
Proof.
  intros Hsome Hnone. rule_step. unfold tombstone. do 2 rule_step. cbn [andthenr].
  unfold outcome_gone in Hnone. destruct (tombstones r !! u) as [st|]; [|rule_steps; by apply Hnone].
  case_bool_decide as Ho; rule_steps; [|apply Hnone; congruence].
  destruct (_ <? _)%N eqn:Hk; [by apply Hsome|]. apply Hnone. intros st' [= <-] _.
  exists k. by apply N.ltb_ge.
Qed.

Lemma wpr_live_ticket {A} c u (f : option Ticket → R Sh RS A) (Q : post A) r v a :
  (∀ t, tickets r !! u = Some t → t_owner t = key c → wpr (f (Some t)) Q r v a) →
  (ticket_gone c u r → wpr (f None) Q r v a) →
  wpr (live_ticket E c u ≫= f) Q r v a.
Proof.
  intros Hsome Hnone. rule_step. unfold live_ticket. do 2 rule_step. cbn [andthenr].
  unfold ticket_gone in Hnone. destruct (tickets r !! u) as [t|]; [|rule_steps; by apply Hnone].
  case_bool_decide as Ho; rule_steps; [|apply Hnone; congruence].
  destruct (_ <? _)%N eqn:Hk; [by apply Hsome|]. apply Hnone. intros t' [= <-] _.
  exists k. by apply N.ltb_ge.
Qed.

(** What [check_plaintext] asks of what is staged. *)
Definition honest (v : Shelves) (u : UploadId) (q : UploadRequest) : bool :=
  match json_from_slice (ur_meta q) with
  | None => false
  | Some meta =>
      match hex <$> (staging v !! u ≫= snd), json_str meta "sha256", json_u64 meta "size" with
      | Some sha, Some said_sha, Some said_size =>
          String.eqb sha said_sha && (said_size =? ur_size q)%N
          && String.eqb (ItemId.content_key (ur_id q)) (str_take 12 sha)
      | _, _, _ => false
      end
  end.

Lemma wpr_check_plaintext u q (Q : post unit) r v a :
  is_Some (staging v !! u) →
  (∀ x, answers (λ _ v, if honest v u q then Ok () else Err ContentMismatch) r v x → Q x r v a) →
  wpr (Sh := Sh) (RS := RS) (check_plaintext u q) Q r v a.
Proof.
  intros Hu HQ. unfold check_plaintext, answers, honest in *. do 2 rule_step.
  destruct (json_from_slice _) as [meta|]; rule_step; [|by apply HQ; left]. rule_step.
  apply wpr_stage_digest; [done| |intros x [->| ->]; apply HQ; by right; auto with rules]. cbn [andthenr].
  destruct (match hex <$> _ with Some _ => _ | None => _ end); rule_step; by apply HQ; left.
Qed.

Lemma wpr_finish_upload u t id made (Q : post PutOutcome) r v a :
  (∀ k, Q (Ok (mkPutOutcome id made (in_rewrite (t_request t))))
    (ended u (mkTombstone (t_owner t) (mkPutOutcome id made (in_rewrite (t_request t)))
      (wadd (clock E k) (staging_secs (limits E)))) r) v (a ++ [RemoveStaging u])) →
  wpr (Sh := Sh) (RS := RS) (finish_upload E u t id made) Q r v a.
Proof. intros HQ. unfold finish_upload. rule_steps. apply HQ. Qed.

(** What a commit answers and remembers. *)
Definition commit_post c u r v (out : PutOutcome) r' v' (a : list Cleanup) : Prop :=
  (∃ st, tombstones r !! u = Some st ∧ s_owner st = key c ∧ out = s_outcome st ∧ r' = r ∧ v' = v ∧ a = []) ∨
  (∃ t g st, tickets r !! u = Some t ∧ t_owner t = key c ∧ target r (t_request t) = Some g ∧
    tickets r' !! u = None ∧ tombstones r' !! u = Some st ∧ s_owner st = key c ∧ s_outcome st = out ∧
    out_staged out = in_rewrite (t_request t) ∧
    ItemId.content_key (out_id out) = ItemId.content_key (ur_id (t_request t)) ∧
    is_Some (items v' g !! out_id out) ∧
    (created out = true → out_id out = ur_id (t_request t)) ∧
    (created out = false → v' = v)).

Lemma commit_post_ended c u r r0 v v' t g k id made a :
  tickets r !! u = Some t → t_owner t = key c → target r (t_request t) = Some g →
  ItemId.content_key id = ItemId.content_key (ur_id (t_request t)) →
  is_Some (items v' g !! id) → (made = true → id = ur_id (t_request t)) → (made = false → v' = v) →
  let out := mkPutOutcome id made (in_rewrite (t_request t)) in
  commit_post c u r v out (ended u (mkTombstone (t_owner t) out k) r0) v' a.
Proof.
  intros Ht Ho Hg Hck Hin Hmade Hv out. right.
  exists t, g, (mkTombstone (t_owner t) out k). split_and!; try done.
  - apply lookup_delete_eq.
  - apply lookup_insert_eq.
Qed.

Lemma finish_unrecorded_obeys c u t g r v (f : option PutOutcome → R Sh RS PutOutcome) :
  tickets r !! u = Some t → t_owner t = key c → target r (t_request t) = Some g →
  staging v !! u = None →
  (∀ out r' a', wpr (f (Some out)) (λ x r'' v' a'', x = Ok out ∧ r'' = r' ∧ v' = v ∧ a'' = a') r' v a') →
  wpr (f None) (obedient None r v (commit_post c u r v)) r v [] →
  wpr (finish_unrecorded E u t g ≫= f) (obedient None r v (commit_post c u r v)) r v [].
Proof.
  intros Ht Ho Hg Hu Hsome Hnone. rule_step. unfold finish_unrecorded. rule_step.
  apply wpr_get; [|intros x [->| ->]; cbn; auto with rules]. cbn [andthenr].
  destruct (items v g !! _) as [it|] eqn:Hi; [|by rule_steps]. cbn.
  destruct (len64 it.1 =? _)%N eqn:Hsz; [|by rule_steps].
  rule_step. apply wpr_bytes; [|intros x [->| ->]; cbn; auto with rules]. rule_steps.
  apply wpr_finish_upload. intros k. rule_steps. eapply wpr_mono; [apply Hsome|].
  intros x r' v' a' (-> & -> & -> & ->). split.
  - by apply (eff_unrecorded _ r v u t g).
  - by apply commit_post_ended with (g := g).
Qed.

Lemma publish_or_find_obeys c u t g content r v (f : ItemId * bool → R Sh RS PutOutcome) :
  tickets r !! u = Some t → t_owner t = key c → target r (t_request t) = Some g →
  staging v !! u = Some content → len64 content.1 = ur_size (t_request t) →
  (∀ id made r' v'', wpr (f (id, made)) (λ x r'' v' a'', ∃ k,
    let out := mkPutOutcome id made (in_rewrite (t_request t)) in
    x = Ok out ∧ r'' = ended u (mkTombstone (t_owner t) out k) r' ∧ v' = v'' ∧ a'' = [RemoveStaging u]) r' v'' []) →
  wpr (publish_or_find E u t g ≫= f) (obedient None r v (commit_post c u r v)) r v [].
Proof.
  intros Ht Ho Hg Hu Hsz Hf. rule_step. unfold publish_or_find. rule_step.
  eapply wpr_reads; [apply find_in_answers|].
  intros x [->|[->| ->]]; [|cbn; auto with rules..]. cbn [andthenr].
  destruct (oldest_with _ _) as [id|] eqn:Hold.
  - apply oldest_with_Some in Hold as [Hin Hck]. rule_steps. eapply wpr_mono; [apply Hf|].
    intros x r' v' a' (k & -> & -> & -> & ->). split; [by eapply eff_duplicate|].
    by apply commit_post_ended with (g := g).
  - apply oldest_with_new in Hold. pose proof (new_content_fresh _ _ _ Hold) as Hfresh.
    do 2 rule_step. cbn [andthenr]. rule_step.
    set (e := mkEnvelope _ _ _).
    assert (∀ v', same_items v v' ∨ v' = move_in u g (ur_id (t_request t)) content.1 e v → torn None r v v') as Htorn.
    { intros v' [[_ Hv]| ->]; [by apply torn_staging|]. by apply (torn_publish _ r v u t g content e). }
    apply (wpr_publish u g (ur_id (t_request t)) e content); [done|done| |].
    + rule_steps. apply wpr_point; [|intros _; cbn; auto]. unfold add_used. rule_steps.
      eapply wpr_mono; [apply Hf|]. intros x r' v' a' (k' & -> & -> & -> & ->). split.
      * by apply (eff_publish _ r v u t g content e).
      * apply commit_post_ended with (g := g); try done.
        rewrite items_move_in, decide_True, lookup_insert_eq by done. by eexists.
    + intros x v' [->| ->] Hv; cbn; [right|]; auto.
Qed.

Lemma commit_upload_obeys c u r v :
  wpr (Sh := Sh) (RS := RS) (commit_upload E c u) (obedient None r v (commit_post c u r v)) r v [].
Proof.
  unfold commit_upload. apply wpr_tombstone.
  { intros st Hst Ho. rule_step. split; [constructor|]. left. by exists st. }
  intros _. apply wpr_live_ticket; [|intros _; rule_steps; auto with rules].
  intros t Ht Ho. do 3 rule_step. apply wpr_upload_target; [|auto with rules]. intros g Hg _.
  rule_step. apply wpr_stage_size; [|intros x Hx; apply obedient_andthen_cut; auto with rules].
  cbn [andthenr].
  destruct (staging v !! u) as [content|] eqn:Hu; cbn.
  - do 2 rule_step. cbn [andthenr]. case_bool_decide as Hsz; [|rule_step; auto with rules].
    injection Hsz as Hsz.
    assert (wpr (Sh := Sh) (RS := RS)
      (out ← publish_or_find E u t g; finish_upload E u t out.1 out.2)
      (obedient None r v (commit_post c u r v)) r v []) as Hrest.
    { eapply publish_or_find_obeys; eauto. intros id made r' v'.
      cbn [fst snd]. unfold finish_upload. rule_steps. eexists. split_and!; done. }
    rule_step. destruct (checks_content _ _).
    + apply wpr_check_plaintext; [by rewrite Hu|].
      intros x [->|[->| ->]]; [|cbn; auto with rules..]. destruct (honest _ _ _); cbn; auto with rules.
    + rule_step. done.
  - eapply finish_unrecorded_obeys; eauto.
    + intros out r' a'. rule_steps. done.
    + rewrite bool_decide_false by done. rule_step. auto with rules.
Qed.

(** Who may upload where a ticket says: anyone, or the rewrite's holder. *)
Definition may_upload c r (q : UploadRequest) : Prop :=
  in_rewrite q = true → ∃ s, state r = Rewriting s ∧ holder s = key c.

(** What the publish of a commit did to the shelves. *)
Definition published c u r v v' : Prop :=
  ∃ t g content e, tickets r !! u = Some t ∧ t_owner t = key c ∧ may_upload c r (t_request t) ∧
    target r (t_request t) = Some g ∧ staging v !! u = Some content ∧
    len64 content.1 = ur_size (t_request t) ∧ items v g !! ur_id (t_request t) = None ∧
    v' = move_in u g (ur_id (t_request t)) content.1 e v.

(** However a commit ends, what is on the shelves is as it was or as its
    publish leaves it. *)
Lemma commit_upload_shelf c u r v :
  wpr (Sh := Sh) (RS := RS) (commit_upload E c u) (λ _ _ v' _, same_items v v' ∨ published c u r v v') r v [].
Proof.
  unfold commit_upload. apply wpr_tombstone; [intros; rule_step; by left|].
  intros _. apply wpr_live_ticket; [|intros _; rule_steps; by left].
  intros t Ht Ho. do 3 rule_step. apply wpr_upload_target; [|by left]. intros g Hg Hmay.
  rule_step. apply wpr_stage_size; [|intros x [->| ->]; by left]. cbn [andthenr].
  destruct (staging v !! u) as [content|] eqn:Hu; cbn.
  - do 2 rule_step. cbn [andthenr]. rule_if Hsz; [|rule_step; by left]. injection Hsz as Hsz.
    assert (wpr (Sh := Sh) (RS := RS) (out ← publish_or_find E u t g; finish_upload E u t out.1 out.2)
      (λ _ _ v' _, same_items v v' ∨ published c u r v v') r v []) as Hrest.
    { unfold publish_or_find. do 2 rule_step. eapply wpr_reads; [apply find_in_answers|].
      intros x [->|[->| ->]]; [|by left..]. cbn [andthenr].
      destruct (oldest_with _ _) as [id|] eqn:Hold.
      - rule_step. cbn. apply wpr_finish_upload. by left.
      - apply oldest_with_new in Hold. pose proof (new_content_fresh _ _ _ Hold) as Hfresh.
        do 3 rule_step. rule_step. set (e := mkEnvelope _ _ _).
        assert (∀ v', same_items v v' ∨ v' = move_in u g (ur_id (t_request t)) content.1 e v → same_items v v' ∨ published c u r v v') as Hpub.
        { intros v' [Hv| ->]; [by left|right]. by exists t, g, content, e. }
        apply (wpr_publish u g (ur_id (t_request t)) e content); [done|done| |].
        + rule_steps. apply wpr_point; [|intros _; cbn; auto]. unfold add_used. rule_steps.
          cbn. apply wpr_finish_upload. auto.
        + intros x v' [->| ->] Hv; cbn; auto. }
    rule_step. destruct (checks_content _ _).
    + apply wpr_check_plaintext; [by rewrite Hu|].
      intros x [->|[->| ->]]; [|by left..]. destruct (honest _ _ _); cbn; [done|by left].
    + by rule_step.
  - rule_step. unfold finish_unrecorded. rule_step. apply wpr_get; [|intros x [->| ->]; by left].
    cbn [andthenr]. destruct (items v g !! _) as [it|]; cbn;
      [|rule_step; cbn; rewrite bool_decide_false by done; rule_step; by left].
    destruct (len64 it.1 =? _)%N; [|rule_step; cbn; rewrite bool_decide_false by done; rule_step; by left].
    rule_step. apply wpr_bytes; [|intros x [->| ->]; by left]. rule_steps.
    apply wpr_finish_upload. intros k. rule_steps. by left.
Qed.

(** A commit of an upload that was published before: its outcome is the one
    the first commit had, and the books are taken from the shelf. *)
Lemma commit_upload_completes c u r v t g content e :
  tickets r !! u = Some t → t_owner t = key c → may_upload c r (t_request t) →
  target r (t_request t) = Some g → tombstones r !! u = None →
  len64 content = ur_size (t_request t) →
  staging v !! u = None → items v g !! ur_id (t_request t) = Some (content, e) →
  (∀ k, (clock E k < t_expires_at t)%N) →
  wpr (Sh := Sh) (RS := RS) (commit_upload E c u) (λ x r' v'' _,
    v'' = v ∧ (interrupted x ∨
      x = Ok (mkPutOutcome (ur_id (t_request t)) true (in_rewrite (t_request t))) ∧
      used_of r' g = (true_bytes (items v g) mod two64)%N ∧ tickets r' !! u = None)) r v [].
Proof.
  intros Ht Ho Hmay Hg Hst Hsz Hu Hi Hk. unfold commit_upload.
  apply wpr_tombstone; [intros st H; congruence|]. intros _.
  apply wpr_live_ticket; [|intros Hgone; destruct (Hgone t Ht Ho) as [k Hle]; specialize (Hk k); lia].
  intros t' Ht' _. assert (t' = t) as -> by congruence. do 4 rule_step. unfold upload_target.
  assert (wpr (Sh := Sh) (RS := RS)
    (if in_rewrite (t_request t) then rewrite_target c (ur_expected_key_id (t_request t))
     else check_writable (ur_expected_key_id (t_request t));; r ← get_rec; mret (generation r))
    (λ x r' v' a', x = Ok g ∧ r' = r ∧ v' = v ∧ a' = []) r v []) as Htarget.
  { unfold target in Hg. destruct (in_rewrite (t_request t)) eqn:Hre.
    - destruct (Hmay Hre) as (s & Hs & Hh). rewrite Hs in Hg. unfold rewrite_target, held_session.
      do 4 rule_step. rewrite Hs, (bool_decide_true (holder s = key c)) by done. do 2 rule_step.
      case_bool_decide; [|done]. injection Hg as <-. by rule_step.
    - destruct (state r) as [sl|s] eqn:Hs; [|done]. unfold check_writable. do 4 rule_step. rewrite Hs.
      case_bool_decide; [|done]. injection Hg as <-. by rule_steps. }
  eapply wpr_mono; [exact Htarget|]. intros x r' v1 a' (-> & -> & -> & ->). cbn [andthenr].
  rule_step. apply wpr_stage_size; [|intros x [->| ->]; split; auto with rules].
  rewrite Hu. cbn.
  rule_step. unfold finish_unrecorded. rule_step. apply wpr_get; [|intros x [->| ->]; split; auto with rules].
  rewrite Hi. cbn. rewrite Hsz, N.eqb_refl.
  rule_step. apply wpr_bytes; [|intros x [->| ->]; split; auto with rules]. rule_steps.
  apply wpr_finish_upload. intros k. rule_steps. split; [done|]. right. split; [done|]. split.
  - unfold used_of. simpl. by rewrite lookup_insert_eq.
  - simpl. apply lookup_delete_eq.
Qed.

(** ** Cleaning and opening *)

Lemma wpr_push_all {B} (f : B → Cleanup) l (Q : post unit) r v a :
  Q (Ok ()) r v (a ++ (f <$> l)) →
  wpr (Sh := Sh) (RS := RS) (for_each l (λ x, push_after (f x))) Q r v a.
Proof.
  revert a. induction l as [|x l IH]; intros a HQ; simpl.
  - rule_step. by rewrite app_nil_r in HQ.
  - do 3 rule_step. apply IH. by rewrite <- app_assoc.
Qed.

Lemma wpr_drop_all l (Q : post unit) r v a :
  (∀ g, g ∈ l → used r !! g = None) →
  Q (Ok ()) r v (a ++ (DropGeneration <$> l)) →
  wpr (Sh := Sh) (RS := RS) (for_each l (λ g,
    push_after (DropGeneration g);;
    modify_rec (λ r, with_used (delete g (used r)) r))) Q r v a.
Proof.
  revert a. induction l as [|g l IH]; intros a Hl HQ; simpl.
  - rule_step. by rewrite app_nil_r in HQ.
  - rule_steps. rewrite delete_id by (apply Hl; by left).
    replace (mkRecord _ _ _ _ _ _ _ _) with r by (by destruct r).
    apply IH; [intros g' Hg'; apply Hl; by right|]. by rewrite <- app_assoc.
Qed.

Lemma wpr_clean_staging (Q : post nat) r v a :
  RecOk r →
  (∀ k n a', rubbish (pruned (clock E k) r) v a' → Q (Ok n) (pruned (clock E k) r) v (a ++ a')) →
  (∀ x r' a', interrupted x → Q x r' v a') →
  wpr (Sh := Sh) (RS := RS) (clean_staging E) Q r v a.
Proof.
  intros Hr HQ Hcut. unfold clean_staging. do 12 rule_step.
  change (wpr (Sh := Sh) (RS := RS)
    (all ← call staged;
     let orphans := List.filter (λ u, bool_decide (tickets (pruned (clock E k) r) !! u = None)) all in
     for_each orphans (λ u, push_after (RemoveStaging u));;
     on_shelf ← call generations;
     let rubbish := List.filter (λ g, negb (bool_decide (g ∈ live_generations (pruned (clock E k) r)))) on_shelf in
     for_each rubbish (λ g,
       push_after (DropGeneration g);;
       modify_rec (λ r, with_used (delete g (used r)) r));;
     mret (length orphans)) Q (pruned (clock E k) r) v a).
  pose proof (rec_ok_pruned (clock E k) r Hr) as Hp.
  set (p := pruned (clock E k) r) in *. specialize (HQ k). fold p in HQ.
  rule_step. apply wpr_staged; [|intros x [->| ->]; cbn; apply Hcut; first [by left|by right]].
  intros us Hus. cbn [andthenr]. rule_step. apply wpr_push_all. cbn [andthenr].
  rule_step. apply wpr_generations; [|intros x [->| ->]; cbn; apply Hcut; first [by left|by right]].
  intros gs Hgs. cbn [andthenr]. rule_step.
  apply wpr_drop_all.
  { intros g Hg. apply list_elem_of_In, filter_In in Hg as [_ Hg].
    apply negb_true_iff, bool_decide_eq_false in Hg. apply eq_None_not_Some.
    intros Hu. by apply (ok_booked _ Hp) in Hu. }
  rule_steps. rewrite <- app_assoc. apply HQ. split_and!.
  - intros c [(u & -> & Hu)%list_elem_of_fmap|(g & -> & Hg)%list_elem_of_fmap]%elem_of_app;
      [apply list_elem_of_In, filter_In in Hu as [_ Ht]; by apply bool_decide_eq_true in Ht|].
    apply list_elem_of_In, filter_In in Hg as [Hg Hl]. apply negb_true_iff, bool_decide_eq_false in Hl.
    split; [|done]. by apply Hgs, list_elem_of_In.
  - intros u Hu Ht. apply elem_of_app. left. apply list_elem_of_fmap. exists u. split; [done|].
    apply list_elem_of_In, filter_In. split; [by apply list_elem_of_In, Hus|]. by apply bool_decide_eq_true.
  - intros g Hg Hl. apply elem_of_app. right. apply list_elem_of_fmap. exists g. split; [done|].
    apply list_elem_of_In, filter_In. split; [by apply list_elem_of_In, Hgs|]. by apply negb_true_iff, bool_decide_eq_false.
Qed.

Lemma wpr_recount l (Q : post unit) r v a :
  Q (Ok ()) (with_used (foldl (λ us g, <[g := (true_bytes (items v g) mod two64)%N]> us)
    (used r) l) r) v a →
  (∀ x r', interrupted x → Q x r' v a) →
  wpr (Sh := Sh) (RS := RS) (for_each l (λ g,
    bytes ← call (shelf_bytes g);
    modify_rec (λ r, with_used (<[g := bytes]> (used r)) r))) Q r v a.
Proof.
  intros HQ Hcut. revert r HQ. induction l as [|g l IH]; intros r HQ; simpl.
  - rule_step. simpl in HQ. by destruct r.
  - do 2 rule_step. apply wpr_bytes; [|intros x [->| ->]; cbn; apply Hcut; first [by left|by right]].
    rule_steps. apply IH. done.
Qed.

Lemma clean_staging_obeys r v :
  RecOk r → wpr (Sh := Sh) (RS := RS) (clean_staging E) (obedient None r v anything) r v [].
Proof.
  intros Hr. apply wpr_clean_staging; [done| |].
  - intros k n a Ha. split; [by eapply eff_clean|done].
  - intros x r' a Hx. apply obedient_cut; auto with rules.
Qed.

(** An opening ends in the reconciled record, or was cut short. *)
Definition reconciled r v (_ : unit) r' v' a : Prop :=
  ∃ k, r' = pruned (clock E k) (recounted v r) ∧ v' = v ∧ rubbish r' v a.

Lemma reconcile_obeys r v :
  RecOk r → wpr (Sh := Sh) (RS := RS) (reconcile E) (obedient None r v (reconciled r v)) r v [].
Proof.
  intros Hr. unfold reconcile. do 4 rule_step. apply wpr_recount.
  - cbn [andthenr]. rule_step. apply wpr_clean_staging; [by apply (rec_ok_recounted v)| |].
    + intros k n a Ha. rule_steps. split; [by eapply eff_reconcile|]. by exists k.
    + intros x r' a Hx. apply obedient_andthen_cut; auto with rules.
  - intros x r' Hx. apply obedient_andthen_cut; auto with rules.
Qed.

(** ** What runs outside a transaction *)

(** [putUploadContent] touches the staging of the caller's own upload. *)
Definition staged_by (u : UploadId) (v v' : Shelves) : Prop :=
  v' = v ∨ ∃ c, v' = set_staging <[u := c]> v.

Lemma write_staged u content announced hashed v v0 :
  place_found u v v0 → staged_by u v (MemoryShelf.write u content announced hashed v0).2.
Proof.
  intros Hv. unfold MemoryShelf.write.
  assert (staged_by u v v0 ∧ ∀ c, set_staging <[u := c]> v0 = set_staging <[u := c]> v) as [H0 Hset].
  { destruct Hv as [->|[d ->]]; [by split; [left|]|]. unfold create_place.
    destruct (staging v !! u) eqn:Hu; [by split; [left|]|]. split; [right; by eexists|].
    intros c. unfold set_staging. cbn. by rewrite insert_insert_eq. }
  destruct (staging v0 !! u); [|done].
  destruct (pump _ _ _ _ _) as [[written hasher] bytes]. cbn [snd]. rewrite Hset. right. by eexists.
Qed.

Lemma put_upload_content_obeys c u content r v :
  wpr (Sh := Sh) (RS := RS) (put_upload_content E c u content) (λ _ r' v' a',
    r' = r ∧ a' = [] ∧ staged_by u v v' ∧
    (v' ≠ v → ∃ t, tickets r !! u = Some t ∧ t_owner t = key c)) r v [].
Proof.
  unfold put_upload_content. apply wpr_tombstone; [intros; rule_step; split_and!; try done; by left|].
  intros _. apply wpr_live_ticket; [|intros _; rule_steps; split_and!; try done; by left].
  intros t Ht Ho. do 3 rule_step. rule_step.
  apply (wpr_stage_write (checks_content E (t_request t))).
  - intros v0 Hv. pose proof (write_staged u content (ur_size (t_request t)) (checks_content E (t_request t)) v v0 Hv).
    destruct (MemoryShelf.write _ _ _ _ _) as [[] v']; cbn; rule_steps; split_and!; eauto.
  - intros x v' [->| ->] Hv; cbn; split_and!; eauto.
Qed.

(** [probeWrite] makes a staging place and removes it. *)
Lemma probe_write_obeys c r v :
  wpr (Sh := Sh) (RS := RS) (probe_write c) (λ x r' v' a',
    r' = r ∧ a' = [] ∧
    (v' = v ∨ ∃ u, (v' = cleaned (RemoveStaging u) v ∨ interrupted x ∧ ∃ d, v' = create_place d u v)) ∧
    (x = Ok () → role c = ReadWrite ∧ is_rewriting r = false)) r v [].
Proof.
  unfold probe_write. apply wpr_must_write; [intros Hw|intros _; split_and!; auto; done].
  do 2 rule_step. cbn [andthenr]. destruct (is_rewriting r); [rule_step; split_and!; auto; done|].
  do 3 rule_step. cbn [andthenr].
  assert (∀ d u, cleaned (RemoveStaging u) (create_place d u v) = cleaned (RemoveStaging u) v) as Heq.
  { intros d u'. unfold create_place. destruct (staging v !! u'); [done|]. unfold cleaned, set_staging. cbn.
    by rewrite delete_insert_eq. }
  rule_step. apply wpr_stage_create.
  - intros d. cbn [andthenr]. apply wpr_stage_remove.
    + rewrite Heq. split_and!; eauto.
    + intros x v' Hx Hv. rewrite Heq in Hv. split_and!; [done|done| |by destruct Hx as [->| ->]].
      right. exists u. destruct Hv as [->| ->]; eauto.
  - intros x v' [->| ->] Hv; cbn; split_and!; try done; destruct Hv as [->|[d ->]]; auto;
      right; exists u; right; split; [by left|by exists d|by right|by exists d].
Qed.
End obey.

(** ** What the reading rules leave alone *)

Section quiet.
Context {Sh RS : Type} `{Ext : Externals} `{Shelf : !ItemShelf Sh} `{Lawful : !LawfulShelf Sh}
  `{Random : !RandomSource RS}.
Context (E : Env).

Lemma upload_state_quiet c u : quiet (Sh := Sh) (RS := RS) (upload_state E c u).
Proof. unfold upload_state, tombstone, live_ticket. quiet. Qed.
Lemma reserved_bytes_quiet : quiet (Sh := Sh) (RS := RS) (reserved_bytes E).
Proof. unfold reserved_bytes. quiet. Qed.
End quiet.

#[export] Hint Resolve upload_state_quiet reserved_bytes_quiet : quiet.
