(* ===== verification/Rewrite.v ===== *)
(** The rewrite session ([rewrite.rs]): re-encrypting every item under a
    lease, in a generation staged beside the current one. *)

From S2P Require Import Prelude Errors Random Ids Shelf Records Effects Rules Workspace Upload.

Section Rewrite.
Context {Sh RS : Type} `{Externals} `{ItemShelf Sh} `{RandomSource RS}.
Context (E : Env).

Definition staged_item_ids (caller : Caller) : R Sh RS (list ItemId) :=
  session ← held_session caller;
  call (shelf_ids (staged_generation session)).

Definition staged_item (caller : Caller) (id : ItemId) : R Sh RS StoredItem :=
  session ← held_session caller;
  it ← call (shelf_get (staged_generation session) id);
  lift (ok_or NotFound it).

Definition staged_item_content_from (caller : Caller) (id : ItemId) (offset : N)
    : R Sh RS (list byte) :=
  session ← held_session caller;
  content ← call (open_content_from (staged_generation session) id offset);
  lift (ok_or NotFound content).

Definition staged_item_content (caller : Caller) (id : ItemId) : R Sh RS (list byte) :=
  staged_item_content_from caller id 0.

(** Whether a kind of rewrite fits the seal the workspace has. *)
Definition fits_kind (k : RewriteKind) (prior : option Seal) : outcome ApiError unit :=
  match k, prior with
  | Migrate, None | Rotate, Some _ => Ok ()
  | Migrate, Some _ =>
      Err (InvalidRequest "the workspace is encrypted already; rotate its key instead")
  | Rotate, None =>
      Err (InvalidRequest "the workspace is not encrypted; migrate it instead")
  end.

Definition begin_rewrite (caller : Caller) (request : RewriteRequest) : R Sh RS SessionView :=
  lift (must_write caller);;
  r ← get_rec;
  match state r with
  | Rewriting session =>
      if bool_decide (holder session = key caller)
         && bool_decide (kind session = rr_kind request)
         && bool_decide (seal_key_id (next session) = new_key_id request)
      then renew_lease E (key caller);; open_session_view
      else throw RewriteInProgress
  | Settled prior =>
      lift (fits_kind (rr_kind request) prior);;
      if bool_decide (new_key_id request ∈ ended_rewrites r) then throw RewriteEnded
      else
        let current := seal_key_id <$> prior in
        if negb (bool_decide (current = rr_expected_key_id request)) then throw KeyIdMismatch
        else if bool_decide (current = Some (new_key_id request)) then
          throw (InvalidRequest "the new key is the current one")
        else
          n ← now E;
          modify_rec (λ r,
            with_state (Rewriting {|
              kind := rr_kind request;
              prior := prior;
              next := mkSeal (new_key_id request) (new_header request);
              holder := key caller;
              lease_expires_at := wadd n (lease_secs (limits E));
              staged_generation := next_generation r;
            |}) (with_next_generation (wadd (next_generation r) 1) r));;
          open_session_view
  end.

Definition heartbeat_rewrite (caller : Caller) : R Sh RS SessionView :=
  lift (must_write caller);;
  held_session caller;;
  renew_lease E (key caller);;
  open_session_view.

Definition take_over_rewrite (caller : Caller) : R Sh RS SessionView :=
  lift (must_write caller);;
  r ← get_rec;
  match state r with
  | Settled _ => throw NotFound
  | Rewriting session =>
      runs ← (if bool_decide (holder session = key caller) then mret false
              else n ← now E; mret (n <? lease_expires_at session)%N);
      if (runs : bool) then throw LeaseHeld
      else renew_lease E (key caller);; open_session_view
  end.

Definition commit_rewrite (caller : Caller) (new_key_id : KeyId) : R Sh RS EncryptionView :=
  lift (must_write caller);;
  r ← get_rec;
  match state r with
  | Settled seal =>
      if bool_decide (seal_key_id <$> seal = Some new_key_id) then encryption
      else throw NotFound
  | Rewriting _ =>
      session ← held_session caller;
      if negb (bool_decide (seal_key_id (next session) = new_key_id)) then throw KeyIdMismatch
      else
        staged ← call (shelf_ids (staged_generation session));
        source ← call (shelf_ids (generation r));
        if negb (length staged =? length source) then
          throw (RewriteIncomplete (length staged) (length source))
        else
          let old := generation r in
          modify_rec (λ r, with_used (delete old (used r))
            (with_state (Settled (Some (next session)))
              (with_generation (staged_generation session) r)));;
          push_after (DropGeneration old);;
          drop_rewrite_uploads;;
          encryption
  end.

(** What every abort does. *)
Definition end_aborted (session : Session) : R Sh RS EncryptionView :=
  modify_rec (λ r, with_used (delete (staged_generation session) (used r))
    (with_state (Settled (prior session))
      (with_ended_rewrites ({[seal_key_id (next session)]} ∪ ended_rewrites r) r)));;
  push_after (DropGeneration (staged_generation session));;
  drop_rewrite_uploads;;
  encryption.

Definition abort_rewrite (caller : Caller) (new_key_id : KeyId) : R Sh RS EncryptionView :=
  lift (must_write caller);;
  r ← get_rec;
  match state r with
  | Settled _ => encryption
  | Rewriting _ =>
      session ← held_session caller;
      if negb (bool_decide (seal_key_id (next session) = new_key_id)) then throw KeyIdMismatch
      else end_aborted session
  end.

Definition operator_abort_rewrite (force : bool) : R Sh RS EncryptionView :=
  r ← get_rec;
  match state r with
  | Settled _ => throw NotFound
  | Rewriting session =>
      runs ← (if force then mret false
              else n ← now E; mret (n <? lease_expires_at session)%N);
      if (runs : bool) then throw LeaseHeld else end_aborted session
  end.
End Rewrite.

(** ** What the rules change *)

Section obey.
Context {Sh RS : Type} `{Ext : Externals} `{Shelf : !ItemShelf Sh} `{Lawful : !LawfulShelf Sh}
  `{Random : !RandomSource RS}.
Context (E : Env).
Implicit Types (r : WorkspaceRecord) (v : Shelves).

(** The uploads of a rewrite, which end with it. *)
Definition rewrite_uploads r : list UploadId := uploads_where (in_rewrite ∘ t_request) r.

Lemma elem_of_rewrite_uploads r u :
  u ∈ rewrite_uploads r ↔ ∃ t, tickets r !! u = Some t ∧ in_rewrite (t_request t) = true.
Proof. apply elem_of_uploads_where. Qed.

(** The end of a rule of the session: what happened, then the view of it. *)
Lemma open_session_view_obeys r v r' a s (Q : SessionView → WorkspaceRecord → Shelves → list Cleanup → Prop) :
  effect None r v r' v a → state r' = Rewriting s →
  (∀ view, session_view_of r' v = Some view → Q view r' v a) →
  wpr (Sh := Sh) (RS := RS) open_session_view (obedient None r v Q) r' v a.
Proof.
  intros He Hs HQ. eapply wpr_reads; [apply open_session_view_answers|].
  intros x [->|Hx]; [|by apply obedient_cut; auto with rules].
  destruct (session_view_of r' v) as [view|] eqn:Hv; [split; auto|].
  unfold session_view_of in Hv. by rewrite Hs in Hv.
Qed.

(** The lease, renewed. *)
Definition leased (who : ApiKeyId) (until : N) (s : Session) : Session :=
  mkSession (kind s) (prior s) (next s) who until (staged_generation s).

Definition renewed (c : Caller) (s : Session) (view : SessionView) r' (v' : Shelves) : Prop :=
  ∃ k, state r' = Rewriting (leased (key c) (wadd (clock E k) (lease_secs (limits E))) s) ∧
    session_view_of r' v' = Some view.

Lemma renew_lease_obeys c s r v :
  state r = Rewriting s →
  wpr (Sh := Sh) (RS := RS) (renew_lease E (key c);; open_session_view)
    (obedient None r v (λ view r' v' _, renewed c s view r' v')) r v [].
Proof.
  intros Hs. rule_step. unfold renew_lease. rule_steps. rewrite Hs.
  eapply open_session_view_obeys; [by eapply (eff_lease _ r v s)|done|].
  intros view Hv. by eexists.
Qed.

Lemma begin_rewrite_obeys c q r v :
  wpr (Sh := Sh) (RS := RS) (begin_rewrite E c q) (obedient None r v (λ view r' v' _,
    ∃ s, state r' = Rewriting s ∧ holder s = key c ∧ seal_key_id (next s) = new_key_id q ∧
      kind s = rr_kind q ∧ session_view_of r' v' = Some view)) r v [].
Proof.
  unfold begin_rewrite. apply wpr_must_write; [intros _|auto with rules].
  do 3 rule_step. destruct (state r) as [prior|s] eqn:Hs.
  - do 2 rule_step. destruct (fits_kind _ _) as [[]|e| |] eqn:Hk; cbn; auto with rules;
      [|by destruct (rr_kind q), prior..].
    rule_if Hend; [rule_step; auto with rules|].
    rule_if Hcur; [|rule_step; auto with rules].
    rule_if Hnew; [rule_step; auto with rules|].
    rule_steps. set (s := mkSession _ _ _ _ _ _).
    eapply (open_session_view_obeys r v (open_session s r) [] s); [|done|].
    + apply eff_begin; [done| |done].
      split_and!; [|done|done]. by destruct (rr_kind q) eqn:?, prior; simpl.
    + intros view Hv. by exists s.
  - rule_if Hall; [|rule_step; auto with rules].
    rewrite !andb_true_iff, !bool_decide_eq_true in Hall. destruct Hall as [[Hh Hk] Hn].
    eapply wpr_mono; [by apply (renew_lease_obeys c s)|].
    intros [view|e| |] r' v' a'; try done. intros [He (k & Hs' & Hv)]. split; [done|]. by eexists.
Qed.

Lemma wpr_held_session {A} c (f : Session → R Sh RS A) (Q : post A) r v a :
  (∀ s, state r = Rewriting s → holder s = key c → wpr (f s) Q r v a) →
  (∀ sl, state r = Settled sl → Q (Err NotFound) r v a) →
  (∀ s, state r = Rewriting s → holder s ≠ key c → Q (Err LeaseHeld) r v a) →
  wpr (held_session c ≫= f) Q r v a.
Proof.
  intros Hok Hset Hother. rule_step. unfold held_session. do 3 rule_step.
  destruct (state r) as [sl|s] eqn:Hs; [rule_step; simpl; eauto|].
  case_bool_decide; rule_step; simpl; eauto.
Qed.

Lemma heartbeat_rewrite_obeys c r v :
  wpr (Sh := Sh) (RS := RS) (heartbeat_rewrite E c) (obedient None r v (λ view r' v' _,
    ∃ s, state r = Rewriting s ∧ holder s = key c ∧ renewed c s view r' v')) r v [].
Proof.
  unfold heartbeat_rewrite. apply wpr_must_write; [intros _|auto with rules].
  apply wpr_held_session; [|auto with rules..]. intros s Hs Hh.
  eapply wpr_mono; [by apply (renew_lease_obeys c s)|].
  intros [view|e| |] r' v' a'; try done. intros [He Hv]. split; [done|]. by exists s.
Qed.

Lemma take_over_rewrite_obeys c r v :
  wpr (Sh := Sh) (RS := RS) (take_over_rewrite E c) (obedient None r v (λ view r' v' _,
    ∃ s, state r = Rewriting s ∧
      (holder s = key c ∨ ∃ k, (lease_expires_at s ≤ clock E k)%N) ∧ renewed c s view r' v')) r v [].
Proof.
  unfold take_over_rewrite. apply wpr_must_write; [intros _|auto with rules].
  do 3 rule_step. destruct (state r) as [prior|s] eqn:Hs; [rule_step; auto with rules|].
  assert (holder s = key c ∨ (∃ k, (lease_expires_at s ≤ clock E k)%N) →
    wpr (Sh := Sh) (RS := RS) (renew_lease E (key c);; open_session_view) (obedient None r v (λ view r' v' _,
    ∃ s, state r = Rewriting s ∧
      (holder s = key c ∨ ∃ k, (lease_expires_at s ≤ clock E k)%N) ∧ renewed c s view r' v')) r v []) as Hgo.
  { intros Hor. eapply wpr_mono; [by apply (renew_lease_obeys c s)|].
    intros [view|e| |] r' v' a'; try done. intros [He Hv]. split; [done|]. by exists s. }
  rewrite Hs in Hgo. rule_step. case_bool_decide as Hh.
  - do 2 rule_step. auto.
  - do 5 rule_step. destruct (_ <? _)%N eqn:Hk; [rule_step; auto with rules|].
    apply Hgo. right. exists k. by apply N.ltb_ge.
Qed.

Lemma drop_rewrite_uploads_obeys {A} r v r' a (f : unit → R Sh RS A) Q :
  wpr (f ()) Q (drop_tickets (rewrite_uploads r') r') v (a ++ (RemoveStaging <$> rewrite_uploads r')) →
  wpr (drop_rewrite_uploads ≫= f) (λ x r'' v'' a'', Q x r'' v'' a'') r' v a.
Proof.
  intros Hf. rule_step. unfold drop_rewrite_uploads. do 3 rule_step. by apply wpr_forfeit_all.
Qed.

(** The rewrite's outcome: the staged generation is the current one, under
    the new seal, with as many items as there were. *)
Definition rewritten r v s r' v' : Prop :=
  state r' = Settled (Some (next s)) ∧ generation r' = staged_generation s ∧
  size (items v' (generation r')) = size (items v (generation r)).

Lemma commit_rewrite_obeys c k r v :
  wpr (Sh := Sh) (RS := RS) (commit_rewrite c k) (obedient None r v (λ view r' v' _,
    view = encryption_of r' v' ∧
    ((∃ sl, state r = Settled (Some sl) ∧ seal_key_id sl = k ∧ r' = r ∧ v' = v) ∨
     (∃ s, state r = Rewriting s ∧ holder s = key c ∧ seal_key_id (next s) = k ∧ rewritten r v s r' v')))) r v [].
Proof.
  unfold commit_rewrite. apply wpr_must_write; [intros _|auto with rules].
  do 3 rule_step. destruct (state r) as [sl|s0] eqn:Hs.
  - case_bool_decide as Hk; [|rule_step; auto with rules].
    apply encryption_obeys; [constructor|]. split; [done|]. left.
    destruct sl as [sl|]; simplify_eq/=. by exists sl.
  - apply wpr_held_session; [|auto with rules..]. intros s Hs' Hh.
    rule_if Hk; [|rule_step; auto with rules].
    rule_step. apply wpr_ids; [|intros x Hx; apply obedient_andthen_cut; auto with rules].
    cbn [andthenr]. rule_step.
    apply wpr_ids; [|intros x Hx; apply obedient_andthen_cut; auto with rules]. cbn [andthenr].
    rewrite !length_reverse, !length_btree_keys.
    destruct (size _ =? size _) eqn:Hsz; cbn [negb]; [|rule_step; auto with rules].
    apply Nat.eqb_eq in Hsz.
    do 6 rule_step. apply (drop_rewrite_uploads_obeys r v (committed s r)).
    assert (rewrite_uploads (committed s r) = rewrite_uploads r) as Hu by done. rewrite Hu.
    apply encryption_obeys.
    + apply eff_commit; [congruence|congruence|]. apply elem_of_rewrite_uploads.
    + split; [done|]. right. exists s. split_and!; try done; congruence.
Qed.

Lemma end_aborted_obeys s r v (Q : EncryptionView → WorkspaceRecord → Shelves → list Cleanup → Prop) :
  state r = Rewriting s →
  (∀ r', state r' = Settled (prior s) → generation r' = generation r →
    seal_key_id (next s) ∈ ended_rewrites r' → (∀ a, Q (encryption_of r' v) r' v a)) →
  wpr (Sh := Sh) (RS := RS) (end_aborted s) (obedient None r v Q) r v [].
Proof.
  intros Hs HQ. unfold end_aborted. do 6 rule_step.
  apply (drop_rewrite_uploads_obeys r v (aborted s r)).
  assert (rewrite_uploads (aborted s r) = rewrite_uploads r) as Hu by done. rewrite Hu.
  apply encryption_obeys.
  - apply eff_abort; [done|]. apply elem_of_rewrite_uploads.
  - apply HQ; [done|done|]. simpl. set_solver.
Qed.

(** What an abort leaves: the workspace as before the rewrite. *)
Definition given_up r s (view : EncryptionView) r' v' : Prop :=
  view = encryption_of r' v' ∧ state r' = Settled (prior s) ∧ generation r' = generation r ∧
  seal_key_id (next s) ∈ ended_rewrites r'.

Lemma abort_rewrite_obeys c k r v :
  wpr (Sh := Sh) (RS := RS) (abort_rewrite c k) (obedient None r v (λ view r' v' _,
    (is_rewriting r = false ∧ view = encryption_of r v ∧ r' = r ∧ v' = v) ∨
    (∃ s, state r = Rewriting s ∧ holder s = key c ∧ seal_key_id (next s) = k ∧ v' = v ∧
      given_up r s view r' v'))) r v [].
Proof.
  unfold abort_rewrite. apply wpr_must_write; [intros _|auto with rules].
  do 3 rule_step. destruct (state r) as [sl|s0] eqn:Hs.
  - apply encryption_obeys; [constructor|]. left. unfold is_rewriting. by rewrite Hs.
  - apply wpr_held_session; [|auto with rules..]. intros s Hs' Hh.
    rule_if Hk; [|rule_step; auto with rules].
    apply end_aborted_obeys; [done|]. intros r' H1 H2 H3. right. exists s.
    split_and!; try done; congruence.
Qed.

Lemma operator_abort_rewrite_obeys force r v :
  wpr (Sh := Sh) (RS := RS) (operator_abort_rewrite E force) (obedient None r v (λ view r' v' _,
    ∃ s, state r = Rewriting s ∧
      (force = true ∨ ∃ k, (lease_expires_at s ≤ clock E k)%N) ∧ v' = v ∧
      given_up r s view r' v')) r v [].
Proof.
  unfold operator_abort_rewrite. do 3 rule_step.
  destruct (state r) as [sl|s] eqn:Hs; [rule_step; auto with rules|]. rule_step.
  assert (force = true ∨ (∃ k, (lease_expires_at s ≤ clock E k)%N) →
    wpr (Sh := Sh) (RS := RS) (end_aborted s) (obedient None r v (λ view r' v' _,
    ∃ s, state r = Rewriting s ∧
      (force = true ∨ ∃ k, (lease_expires_at s ≤ clock E k)%N) ∧ v' = v ∧
      given_up r s view r' v')) r v []) as Hgo.
  { intros Hor. apply end_aborted_obeys; [done|]. intros r' H1 H2 H3. by exists s. }
  rewrite Hs in Hgo. destruct force.
  - do 2 rule_step. apply Hgo. by left.
  - do 5 rule_step. destruct (_ <? _)%N eqn:Hk; [rule_step; auto with rules|].
    apply Hgo. right. exists k. by apply N.ltb_ge.
Qed.
End obey.

(** ** What the reading rules leave alone *)

Section quiet.
Context {Sh RS : Type} `{Ext : Externals} `{Shelf : !ItemShelf Sh} `{Lawful : !LawfulShelf Sh}
  `{Random : !RandomSource RS}.

Lemma staged_item_ids_quiet c : quiet (Sh := Sh) (RS := RS) (staged_item_ids c).
Proof. unfold staged_item_ids, held_session. quiet. Qed.
Lemma staged_item_quiet c id : quiet (Sh := Sh) (RS := RS) (staged_item c id).
Proof. unfold staged_item, held_session. quiet. Qed.
Lemma staged_item_content_from_quiet c id n :
  quiet (Sh := Sh) (RS := RS) (staged_item_content_from c id n).
Proof. unfold staged_item_content_from, held_session. quiet. Qed.
End quiet.

#[export] Hint Resolve staged_item_ids_quiet staged_item_quiet staged_item_content_from_quiet : quiet.
