(* ===== verification/Ledger.v ===== *)
(** What a workspace's engine remembers between requests ([ledger/mod.rs] and
    [ledger/memory.rs]): the trait, what a ledger promises, and the ledger in
    memory. *)

From S2P Require Import Prelude Errors Ids Shelf Records.

(** A rule reads and changes the record it is given, and whatever it closes
    over, [X]: what it changed of the record counts only when it succeeds. *)
Definition LedgerRule (T X : Type) : Type :=
  WorkspaceRecord → X → outcome ApiError T * WorkspaceRecord * X.

Class Ledger (L : Type) := {
  ledger_create : WorkspaceId → M ApiError L unit;
  ledger_load : WorkspaceId → M ApiError L WorkspaceRecord;
  transact : ∀ {T X : Type}, WorkspaceId → LedgerRule T X → M ApiError (L * X) T;
}.

(** ** What a ledger promises

    [records] is what it holds.  Any step may be cut short: a creation or a
    commit is then done or not done, a rule that was not run changed nothing. *)

Abbreviation Records := (gmap WorkspaceId WorkspaceRecord) (only parsing).

(** [records.entry(workspace).or_default()] *)
Definition created_in (w : WorkspaceId) (m : Records) : Records :=
  match m !! w with Some _ => m | None => <[w := default_record]> m end.

(** What [transact] does where the rule was run. *)
Definition transacted {T X} (w : WorkspaceId) (m : Records) (ran : outcome ApiError T * WorkspaceRecord * X)
    (y : outcome ApiError T) (m' : Records) (x' : X) : Prop :=
  let '(z, r', x1) := ran in
  x' = x1 ∧
  match z with
  | Ok t =>
      (y = Ok t ∧ m' = <[w := r']> m) ∨ (interrupted y ∧ (m' = m ∨ m' = <[w := r']> m))
  | _ => y = z ∧ m' = m
  end.

Class LawfulLedger (L : Type) `{Ledger L} := {
  records : L → Records;
  create_law w l :
    let '(y, l') := ledger_create w l in
    (y = Ok () ∧ records l' = created_in w (records l)) ∨
    (interrupted y ∧ (records l' = records l ∨ records l' = created_in w (records l)));
  load_law w l :
    let '(y, l') := ledger_load w l in
    records l' = records l ∧ (y = ok_or NotFound (records l !! w) ∨ interrupted y);
  transact_law {T X} w (rule : LedgerRule T X) l x :
    let '(y, (l', x')) := transact w rule (l, x) in
    (interrupted y ∧ records l' = records l ∧ x' = x) ∨
    match records l !! w with
    | None => y = Err NotFound ∧ records l' = records l ∧ x' = x
    | Some r => transacted w (records l) (rule r x) y (records l') x'
    end;
}.

(** ** The ledger in memory *)

Module MemoryLedger.
Definition create (w : WorkspaceId) : M ApiError Records unit := λ m, (Ok (), created_in w m).

Definition load (w : WorkspaceId) : M ApiError Records WorkspaceRecord := λ m,
  (ok_or NotFound (m !! w), m).

Definition transact {T X} (w : WorkspaceId) (rule : LedgerRule T X) : M ApiError (Records * X) T :=
  λ s, let '(m, x) := s in
    match m !! w with
    | None => (Err NotFound, (m, x))
    | Some r =>
        let '(answer, record, x) := rule r x in
        match answer with
        | Ok _ => (answer, (<[w := record]> m, x))
        | _ => (answer, (m, x))
        end
    end.
End MemoryLedger.

#[export] Instance memory_ledger : Ledger Records := {|
  ledger_create := MemoryLedger.create;
  ledger_load := MemoryLedger.load;
  transact T X := MemoryLedger.transact;
|}.

#[export] Instance memory_ledger_lawful : LawfulLedger Records.
Proof.
  unshelve econstructor; [exact (λ m, m)|..].
  - intros w m. by left.
  - intros w m. cbn. split; [done|by left].
  - intros T X w rule m x. simpl. unfold MemoryLedger.transact.
    destruct (m !! w) as [r|]; [|by right]. unfold transacted.
    destruct (rule r x) as [[z r'] x']. destruct z; right; auto.
Defined.
