(* ===== verification/Engine.v ===== *)
(** One workspace at work ([Engine] of [workspace.rs]): its shelf, its record
    in the ledger, and the rules between them.  Each operation is one
    transaction, followed by the clean-ups it asked for. *)

From S2P Require Import Prelude Errors Random Ids Shelf Records Effects Rules Workspace Upload Rewrite Ledger.

Record Engine (Sh L RS : Type) := mkEngine {
  e_shelf : Sh;
  e_ledger : L;
  e_rng : RS;
  e_ticks : nat;
  e_passed : N;
}.
Arguments mkEngine {Sh L RS}.
Arguments e_shelf {Sh L RS}.
Arguments e_ledger {Sh L RS}.
Arguments e_rng {Sh L RS}.
Arguments e_ticks {Sh L RS}.
Arguments e_passed {Sh L RS}.

(** What a rule's closure holds besides the record: the shelf, the random
    source, the clock, and [after], where it leaves its clean-ups. *)
Record Ambient (Sh RS : Type) := mkAmbient {
  a_shelf : Sh;
  a_rng : RS;
  a_ticks : nat;
  a_passed : N;
  a_after : list Cleanup;
}.
Arguments mkAmbient {Sh RS}.
Arguments a_shelf {Sh RS}.
Arguments a_rng {Sh RS}.
Arguments a_ticks {Sh RS}.
Arguments a_passed {Sh RS}.
Arguments a_after {Sh RS}.

Module Engine.
Section Engine.
Context {Sh L RS : Type} `{Externals} `{ItemShelf Sh} `{Ledger L} `{RandomSource RS}.
Context (w : WorkspaceId) (E : Env).

Definition Do (A : Type) : Type := M ApiError (Engine Sh L RS) A.

(** The closure that [write] hands to the ledger. *)
Definition in_transaction {T} (rule : R Sh RS T) : LedgerRule T (Ambient Sh RS) := λ record x,
  let '(y, s) := rule (mkSt record (a_shelf x) (a_rng x) [] (a_ticks x) (a_passed x)) in
  (y, rec s, mkAmbient (shelf s) (rng s) (ticks s) (passed s)
    (match y with Ok _ => after s | _ => a_after x end)).

Definition fault_point (name : string) : Do unit := λ e,
  let '(x, n) := pass E name (e_passed e) in
  (x, mkEngine (e_shelf e) (e_ledger e) (e_rng e) (e_ticks e) n).

(** One clean-up: a failure is the janitor's to finish. *)
Definition clean_up (c : Cleanup) : Do unit := λ e,
  let '(y, sh) := match c with
    | DropGeneration g => drop_generation g (e_shelf e)
    | RemoveStaging u => stage_remove u (e_shelf e)
    end in
  let e := mkEngine sh (e_ledger e) (e_rng e) (e_ticks e) (e_passed e) in
  match y with
  | Ok _ | Err _ => fault_point "engine: between clean-ups" e
  | Killed => (Killed, e)
  | Spinning => (Spinning, e)
  end.

(** The transaction of [write]: the answer, and what [after] then holds. *)
Definition transaction {T} (rule : R Sh RS T) : Do (T * list Cleanup) := λ e,
  let '(y, (l, x)) := transact w (in_transaction rule)
    (e_ledger e, mkAmbient (e_shelf e) (e_rng e) (e_ticks e) (e_passed e) []) in
  (recast y (λ t, Ok (t, a_after x)), mkEngine (a_shelf x) l (a_rng x) (a_ticks x) (a_passed x)).

Definition write {T} (rule : R Sh RS T) : Do T :=
  answer ← transaction rule;
  fault_point "engine: after the commit";;
  for_each answer.2 clean_up;;
  mret answer.1.

Definition read {T} (rule : R Sh RS T) : Do T := λ e,
  let '(loaded, l) := ledger_load w (e_ledger e) in
  let e := mkEngine (e_shelf e) l (e_rng e) (e_ticks e) (e_passed e) in
  match loaded with
  | Ok record =>
      let '(y, s) := rule (mkSt record (e_shelf e) (e_rng e) [] (e_ticks e) (e_passed e)) in
      (y, mkEngine (shelf s) l (rng s) (ticks s) (passed s))
  | Err x => (Err x, e)
  | Killed => (Killed, e)
  | Spinning => (Spinning, e)
  end.

Definition create : Do unit := λ e,
  let '(y, l) := ledger_create w (e_ledger e) in
  (y, mkEngine (e_shelf e) l (e_rng e) (e_ticks e) (e_passed e)).

Definition open : Do unit :=
  create;;
  write (reconcile E).

Definition open_without_repair : Do unit := create.

(** ** The operations that only read *)
Definition encryption : Do EncryptionView := read Rules.encryption.
Definition item_ids (p : Partition) : Do (list ItemId) := read (Workspace.item_ids p).
Definition item (p : Partition) (id : ItemId) : Do (option StoredItem) := read (Workspace.item p id).
Definition item_ids_after (p : Partition) (bound : option ItemId) : Do (list ItemId) :=
  read (Workspace.item_ids_after p bound).
Definition items_after (p : Partition) (bound : option ItemId) : Do (list (ItemId * StoredItem)) :=
  read (Workspace.items_after p bound).
Definition resolve_item (input : string) : Do Resolved := read (Workspace.resolve_item input).
Definition item_content_from (p : Partition) (id : ItemId) (offset : N) : Do (option (list byte)) :=
  read (Workspace.item_content_from p id offset).
Definition item_content (p : Partition) (id : ItemId) : Do (option (list byte)) :=
  read (Workspace.item_content p id).
Definition staged_item_content (c : Caller) (id : ItemId) : Do (list byte) :=
  read (Rewrite.staged_item_content c id).
Definition find_by_content_key (ck : string) : Do (option ItemId) :=
  read (Workspace.find_by_content_key ck).
Definition used_bytes : Do N := read (gets (Records.used_bytes ∘ rec)).
Definition live_generations : Do (list N) := read (gets (Records.live_generations ∘ rec)).
Definition reserved_bytes : Do N := read (Upload.reserved_bytes E).
Definition pending_uploads : Do nat := read (gets (Records.pending_uploads ∘ rec)).
Definition session_view : Do (option SessionView) := read Rules.session_view.
Definition staged_item_ids (c : Caller) : Do (list ItemId) := read (Rewrite.staged_item_ids c).
Definition staged_item (c : Caller) (id : ItemId) : Do StoredItem := read (Rewrite.staged_item c id).
Definition upload_state (c : Caller) (u : UploadId) : Do UploadState := read (Upload.upload_state E c u).
Definition staged_item_content_from (c : Caller) (id : ItemId) (offset : N) : Do (list byte) :=
  read (Rewrite.staged_item_content_from c id offset).

(** ** The operations that change the shelf and not the record *)
Definition put_upload_content (c : Caller) (u : UploadId) (content : Reader) : Do unit :=
  read (Upload.put_upload_content E c u content).
Definition probe_write (c : Caller) : Do unit := read (Upload.probe_write c).

(** ** The operations that change the record *)
Definition delete_item (c : Caller) (p : Partition) (id : ItemId) (expected : option KeyId) : Do StoredItem :=
  write (Workspace.delete_item c p id expected).
Definition enable_encryption (c : Caller) (k : KeyId) (header : list byte) : Do EncryptionView :=
  write (Workspace.enable_encryption c k header).
Definition fresh_start (c : Caller) (k : KeyId) (header : list byte) : Do EncryptionView :=
  write (Workspace.fresh_start c k header).
Definition replace_header (c : Caller) (expected : KeyId) (header : list byte) : Do EncryptionView :=
  write (Workspace.replace_header c expected header).
Definition begin_upload (c : Caller) (q : UploadRequest) : Do Begun := write (Upload.begin_upload E c q).
Definition commit_upload (c : Caller) (u : UploadId) : Do PutOutcome := write (Upload.commit_upload E c u).
Definition abort_upload (c : Caller) (u : UploadId) : Do unit := write (Upload.abort_upload c u).
Definition begin_rewrite (c : Caller) (q : RewriteRequest) : Do SessionView :=
  write (Rewrite.begin_rewrite E c q).
Definition heartbeat_rewrite (c : Caller) : Do SessionView := write (Rewrite.heartbeat_rewrite E c).
Definition take_over_rewrite (c : Caller) : Do SessionView := write (Rewrite.take_over_rewrite E c).
Definition commit_rewrite (c : Caller) (k : KeyId) : Do EncryptionView := write (Rewrite.commit_rewrite c k).
Definition abort_rewrite (c : Caller) (k : KeyId) : Do EncryptionView := write (Rewrite.abort_rewrite c k).
Definition clean_staging : Do nat := write (Upload.clean_staging E).
Definition operator_abort_rewrite (force : bool) : Do EncryptionView :=
  write (Rewrite.operator_abort_rewrite E force).
End Engine.
End Engine.

(** ** What an operation does to the record and the shelves *)

(** A transaction is refused, or cut short, or stored and cleaned up after, all
    but [left]; one that was cut short may have been stored. *)
Inductive ran {T} (d : option (Partition * ItemId)) (Q : T → WorkspaceRecord → Shelves → list Cleanup → Prop) (r : WorkspaceRecord) (v : Shelves)
    : outcome ApiError T → WorkspaceRecord → Shelves → list Cleanup → Prop :=
| ran_refused e : ran d Q r v (Err e) r v []
| ran_cut x v' : interrupted x → torn d r v v' → ran d Q r v x r v' []
| ran_stored x y r' v1 a v' left :
    effect d r v r' v1 a → Q y r' v1 a → swept a v1 v' left → x = Ok y ∨ interrupted x →
    ran d Q r v x r' v' left
| ran_spinning : ran d Q r v Spinning r v [].

(** The same without the answer. *)
Inductive stepped (d : option (Partition * ItemId)) (r : WorkspaceRecord) (v : Shelves) : WorkspaceRecord → Shelves → Prop :=
| step_torn v' : torn d r v v' → stepped d r v r v'
| step_effect r' v1 a v' left : effect d r v r' v1 a → swept a v1 v' left → stepped d r v r' v'.

(** A call of either kind: what runs outside a transaction changes the staging
    of an upload, or nothing. *)
Inductive did {T} (d : option (Partition * ItemId)) (Q : T → WorkspaceRecord → Shelves → list Cleanup → Prop)
    (r : WorkspaceRecord) (v : Shelves)
    : outcome ApiError T → WorkspaceRecord → Shelves → list Cleanup → Prop :=
| did_write x r' v' left : ran d Q r v x r' v' left → did d Q r v x r' v' left
| did_outside x v' :
    gens v' = gens v → (∀ u, is_Some (staging v' !! u) → is_Some (staging v !! u) ∨ is_Some (tickets r !! u)) →
    did d Q r v x r v' [].

Lemma ran_stepped {T} d (Q : T → WorkspaceRecord → Shelves → list Cleanup → Prop) r v x r' v' left :
  ran d Q r v x r' v' left → stepped d r v r' v'.
Proof.
  intros []; [by apply step_torn, torn_refl|by apply step_torn|by eapply step_effect|
    by apply step_torn, torn_refl].
Qed.

Lemma did_stepped {T} d (Q : T → WorkspaceRecord → Shelves → list Cleanup → Prop) r v x r' v' left :
  did d Q r v x r' v' left → stepped d r v r' v'.
Proof. intros []; [by eapply ran_stepped|apply step_torn, torn_staging; intros; by apply items_gens]. Qed.

Section engine_facts.
Context {Sh L RS : Type} `{Ext : Externals} `{Shelf : !ItemShelf Sh} `{Lawful : !LawfulShelf Sh}
  `{Led : !Ledger L} `{LawfulLed : !LawfulLedger L} `{Random : !RandomSource RS}.
Context (w : WorkspaceId) (E : Env).
Implicit Types (e : Engine Sh L RS) (r : WorkspaceRecord) (v : Shelves).

(** What an engine can see of its workspace. *)
Definition record_of e : option WorkspaceRecord := records (e_ledger e) !! w.
Definition shelves_of e : Shelves := view (e_shelf e).

(** No fault is injected, and removals do not fail. *)
Definition steady : Prop := fault E = None ∧
  (∀ u (sh : Sh), (stage_remove u sh).1 = Ok ()) ∧ (∀ g (sh : Sh), (drop_generation g sh).1 = Ok ()).

Lemma fault_point_quiet name e :
  ((Engine.fault_point E name e).1 = Ok () ∨ fault E ≠ None ∧ (Engine.fault_point E name e).1 = Killed) ∧
  e_shelf (Engine.fault_point E name e).2 = e_shelf e ∧
  e_ledger (Engine.fault_point E name e).2 = e_ledger e.
Proof.
  unfold Engine.fault_point. pose proof (pass_cases E name (e_passed e)) as Hp.
  by destruct (pass E name (e_passed e)) as [x n].
Qed.

Lemma clean_up_swept c e :
  let '(y, e') := Engine.clean_up E c e in
  (y = Ok () ∨ y = Killed) ∧ e_ledger e' = e_ledger e ∧
  (shelves_of e' = cleaned c (shelves_of e) ∨ shelves_of e' = shelves_of e ∧ ¬ steady).
Proof.
  unfold Engine.clean_up.
  assert (obeys view (match c with
      | DropGeneration g => drop_generation g (e_shelf e)
      | RemoveStaging u => stage_remove u (e_shelf e)
      end) (Ok (), cleaned c (shelves_of e))
      (undone_or_done (shelves_of e) ((Ok () : outcome ApiError unit), cleaned c (shelves_of e)))) as Hobeys
    by (destruct c as [g|u]; [apply drop_generation_law|apply stage_remove_law]).
  destruct (match c with DropGeneration _ => _ | RemoveStaging _ => _ end) as [y sh] eqn:Hop.
  unfold obeys in Hobeys; simpl in Hobeys. set (e1 := mkEngine sh _ _ _ _).
  assert (view sh = cleaned c (shelves_of e) ∨ view sh = shelves_of e ∧ ¬ steady) as Hv.
  { destruct Hobeys as [[_ ->]|[Hi [->| ->]]]; auto. right. split; [done|].
    intros (_ & Hu & Hg).
    assert (y = Ok ()) as -> by (destruct c as [g|u]; [pose proof (Hg g (e_shelf e)) as H1|pose proof (Hu u (e_shelf e)) as H1]; rewrite Hop in H1; exact H1).
    by destruct Hi. }
  destruct (fault_point_quiet "engine: between clean-ups" e1) as (Hx & Hs & Hl).
  assert (y = Ok () ∨ interrupted y) as Hy by (destruct Hobeys as [[-> _]|[? _]]; auto).
  destruct (Engine.fault_point E "engine: between clean-ups" e1) as [x e2]. simpl in *.
  destruct Hy as [->|[->| ->]]; [| |by auto];
    (split; [destruct Hx as [->|[_ ->]]; auto|]; unfold shelves_of; rewrite Hs, Hl; auto).
Qed.

Lemma clean_ups_swept a e :
  let '(y, e') := for_each a (Engine.clean_up E) e in
  (y = Ok () ∨ y = Killed) ∧ e_ledger e' = e_ledger e ∧
  ∃ left, swept a (shelves_of e) (shelves_of e') left ∧ (steady → y = Ok () → left = []).
Proof.
  revert e. induction a as [|c a IH]; intros e; simpl.
  { split_and!; auto. exists []. split; [constructor|done]. }
  pose proof (clean_up_swept c e) as Hc. unfold mbind, M_bind.
  destruct (Engine.clean_up E c e) as [y e1]. destruct Hc as ([->| ->] & Hl & Hs).
  - specialize (IH e1). destruct (for_each a _ e1) as [y e2].
    destruct IH as (Hy & Hl' & left & Hs' & Hst).
    split_and!; [done|congruence|]. destruct Hs as [Hs|[Hs Hn]]; rewrite Hs in Hs'.
    + exists left. split; [by constructor|done].
    + exists (c :: left). split; [by constructor|done].
  - split_and!; [auto|done|]. destruct Hs as [Hs|[Hs _]]; rewrite Hs.
    + exists a. split; [do 2 constructor|done].
    + exists (c :: a). split; [constructor|done].
Qed.

(** The one run of a rule that a call makes: on the record that was loaded, the
    clock as it stands. *)
Definition starting (r : WorkspaceRecord) e : St Sh RS :=
  mkSt r (e_shelf e) (e_rng e) [] (e_ticks e) (e_passed e).
Definition ran_at {T} (rule : R Sh RS T) (P : post T) r e : Prop :=
  let '(x, s) := rule (starting r e) in P x (rec s) (view (shelf s)) (after s).

Lemma wpr_ran_at {T} (rule : R Sh RS T) (P : post T) r e :
  wpr rule P r (shelves_of e) [] → ran_at rule P r e.
Proof.
  intros Hrule. specialize (Hrule (starting r e) eq_refl eq_refl eq_refl). unfold ran_at.
  by destruct (rule (starting r e)).
Qed.

Lemma ran_at_and {T} (rule : R Sh RS T) (P Q : post T) r e :
  ran_at rule P r e → ran_at rule Q r e → ran_at rule (λ x r' v' a', P x r' v' a' ∧ Q x r' v' a') r e.
Proof. unfold ran_at. by destruct (rule (starting r e)). Qed.

(** The transaction alone: not run; run and not stored; or stored. *)
Lemma transaction_cases {T} (rule : R Sh RS T) (P : post T) e r :
  record_of e = Some r →
  ran_at rule P r e →
  let '(x, e') := Engine.transaction w rule e in
  (interrupted x ∧ records (e_ledger e') = records (e_ledger e) ∧ shelves_of e' = shelves_of e) ∨
  (∃ z r1 a1, P z r1 (shelves_of e') a1 ∧ records (e_ledger e') = records (e_ledger e) ∧
    match z with Ok _ => interrupted x | _ => recast x (λ y, Ok y.1) = z end) ∨
  (∃ y r1 a1, P (Ok y) r1 (shelves_of e') a1 ∧
    records (e_ledger e') = <[w := r1]> (records (e_ledger e)) ∧ (x = Ok (y, a1) ∨ interrupted x)).
Proof.
  intros Hr Hrule. unfold Engine.transaction, record_of in *.
  set (x0 := mkAmbient _ _ _ _ _).
  pose proof (transact_law w (Engine.in_transaction rule) (e_ledger e) x0) as Hlaw.
  destruct (transact w _ _) as [y [l x]]. simpl.
  destruct Hlaw as [(Hi & Hl & ->)|Hlaw].
  { left. destruct Hi as [->| ->]; simpl; auto with rules. }
  rewrite Hr in Hlaw. unfold transacted, Engine.in_transaction in Hlaw. unfold ran_at, starting in Hrule.
  simpl in Hlaw, Hrule. destruct (rule _) as [z s]. destruct Hlaw as [-> Hlaw].
  right. destruct z as [t|z| |];
    [|destruct Hlaw as [-> Hl]; left; eexists _, (rec s), (after s); by split_and!..].
  destruct Hlaw as [[-> Hl]|[Hi [Hl|Hl]]].
  - right. exists t, (rec s), (after s). simpl. by split_and!; auto.
  - left. exists (Ok t), (rec s), (after s). split_and!; [done|done|].
    destruct Hi as [->| ->]; simpl; auto with rules.
  - right. exists t, (rec s), (after s). split_and!; [done|done|right].
    destruct Hi as [->| ->]; simpl; auto with rules.
Qed.

(** A call of [write], whatever is known of its rule. *)
Lemma write_cases_at {T} (rule : R Sh RS T) (P : post T) e r :
  record_of e = Some r →
  ran_at rule P r e →
  let '(x, e') := Engine.write w E rule e in
  (interrupted x ∧ records (e_ledger e') = records (e_ledger e) ∧ shelves_of e' = shelves_of e) ∨
  (∃ z r1 a1, P z r1 (shelves_of e') a1 ∧ records (e_ledger e') = records (e_ledger e) ∧
    match z with Ok _ => interrupted x | _ => x = z end) ∨
  (∃ y r1 v1 a1 left, P (Ok y) r1 v1 a1 ∧
    records (e_ledger e') = <[w := r1]> (records (e_ledger e)) ∧
    swept a1 v1 (shelves_of e') left ∧ (x = Ok y ∨ interrupted x) ∧ (steady → is_ok x → left = [])).
Proof.
  intros Hr Hrule. unfold Engine.write, mbind, M_bind.
  pose proof (transaction_cases rule P e r Hr Hrule) as Ht.
  assert (∀ r1 a1 e1, records (e_ledger e1) = <[w := r1]> (records (e_ledger e)) →
    ∀ y, P (Ok y) r1 (shelves_of e1) a1 → ∀ x : outcome ApiError T, interrupted x →
    ∃ y r1 v1 a1 left, P (Ok y) r1 v1 a1 ∧
    records (e_ledger e1) = <[w := r1]> (records (e_ledger e)) ∧
    swept a1 v1 (shelves_of e1) left ∧ (x = Ok y ∨ interrupted x) ∧ (steady → is_ok x → left = [])) as Hcut.
  { intros r1 a1 e1 Hl y HP x Hx. exists y, r1, (shelves_of e1), a1, a1. split_and!; auto; [constructor|].
    by destruct Hx as [->| ->]. }
  destruct (Engine.transaction w rule e) as [[[y a]|x| |] e1].
  2: { destruct Ht as [([?|?] & ?)|[(z & r1 & a1 & HP & Hl & Hz)|(y & r1 & a1 & HP & Hl & [|[?|?]])]]; simplify_eq/=;
    [left; auto with rules|right; left|right; right; eauto with rules].
    exists z, r1, a1. destruct z; split_and!; try done. destruct Hz as [|]; simplify_eq; auto with rules. }
  2: { destruct Ht as [([?|?] & ?)|[(z & r1 & a1 & HP & Hl & Hz)|(y & r1 & a1 & HP & Hl & [|[?|?]])]]; simplify_eq/=;
    [left; auto with rules|right; left|right; right; eauto with rules].
    exists z, r1, a1. destruct z; split_and!; try done. auto with rules. }
  2: { destruct Ht as [([?|?] & ?)|[(z & r1 & a1 & HP & Hl & Hz)|(y & r1 & a1 & HP & Hl & [|[?|?]])]]; simplify_eq/=.
    right; left. exists z, r1, a1. destruct z; split_and!; try done. by destruct Hz. }
  destruct Ht as [([?|?] & _)|[(z & r1 & a1 & HP & Hl & Hz)|(y' & r1 & a1 & HP & Hl & [Hy|[?|?]])]]; simplify_eq/=.
  { by destruct z; [destruct Hz| | |]. }
  destruct (fault_point_quiet "engine: after the commit" e1) as (Hx & Hs & Hled).
  destruct (Engine.fault_point E "engine: after the commit" e1) as [x e2]. simpl in *.
  assert (shelves_of e2 = shelves_of e1) as Hv by (unfold shelves_of; by rewrite Hs).
  rewrite <- Hled in Hl. rewrite <- Hv in HP.
  destruct Hx as [->|[_ ->]]; [|right; right; eauto with rules].
  pose proof (clean_ups_swept a1 e2) as Hc. destruct (for_each a1 _ e2) as [z e3].
  destruct Hc as (Hz & Hl' & left & Hsw & Hst). rewrite <- Hl' in Hl.
  destruct Hz as [->| ->]; right; right; exists y', r1, (shelves_of e2), a1, left;
    split_and!; auto with rules; done.
Qed.

Lemma write_cases {T} (rule : R Sh RS T) (P : post T) e r :
  record_of e = Some r →
  wpr rule P r (shelves_of e) [] →
  let '(x, e') := Engine.write w E rule e in
  (interrupted x ∧ records (e_ledger e') = records (e_ledger e) ∧ shelves_of e' = shelves_of e) ∨
  (∃ z r1 a1, P z r1 (shelves_of e') a1 ∧ records (e_ledger e') = records (e_ledger e) ∧
    match z with Ok _ => interrupted x | _ => x = z end) ∨
  (∃ y r1 v1 a1 left, P (Ok y) r1 v1 a1 ∧
    records (e_ledger e') = <[w := r1]> (records (e_ledger e)) ∧
    swept a1 v1 (shelves_of e') left ∧ (x = Ok y ∨ interrupted x) ∧ (steady → is_ok x → left = [])).
Proof. intros Hr Hrule. apply (write_cases_at rule P e r Hr). by apply wpr_ran_at. Qed.

Lemma write_ran {T} (rule : R Sh RS T) d Q e r :
  record_of e = Some r →
  wpr rule (obedient d r (shelves_of e) Q) r (shelves_of e) [] →
  let '(x, e') := Engine.write w E rule e in
  ∃ r' left, records (e_ledger e') = <[w := r']> (records (e_ledger e)) ∧
    ran d Q r (shelves_of e) x r' (shelves_of e') left ∧ (steady → is_ok x → left = []).
Proof.
  intros Hr Hrule. pose proof (write_cases rule _ e r Hr Hrule) as Hw.
  destruct (Engine.write w E rule e) as [x e'].
  assert (records (e_ledger e) = <[w := r]> (records (e_ledger e))) as Hid by by rewrite insert_id.
  destruct Hw as [(Hi & Hl & Hv)|[(z & r1 & a1 & HP & Hl & Hz)|(y & r1 & v1 & a1 & left & [He HQ] & Hl & Hs & Hx & Hst)]].
  - exists r, []. rewrite Hl. split_and!; [done| |done]. apply ran_cut; [done|]. rewrite Hv. auto with rules.
  - exists r, []. rewrite Hl. split_and!; [done| |done].
    destruct z as [y|z| |]; subst; simpl in HP.
    + apply ran_cut; [done|]. by eapply effect_torn, HP.
    + destruct HP as [->|[-> Ht]]; [constructor|]. apply ran_cut; auto with rules.
    + apply ran_cut; auto with rules.
    + rewrite HP. apply ran_spinning.
  - exists r1, left. split_and!; [done| |done]. by eapply ran_stored.
Qed.

(** What a transaction answers is what its rule answers, or it was cut short. *)
Lemma write_answers {T} (rule : R Sh RS T) (P : outcome ApiError T → Prop) e r :
  record_of e = Some r →
  wpr rule (λ x _ _ _, P x) r (shelves_of e) [] →
  P (Engine.write w E rule e).1 ∨ interrupted (Engine.write w E rule e).1.
Proof.
  intros Hr Hrule. pose proof (write_cases rule _ e r Hr Hrule) as Hw.
  destruct (Engine.write w E rule e) as [x e'].
  destruct Hw as [(Hi & _)|[(z & r1 & a1 & HP & _ & Hz)|(y & r1 & v1 & a1 & left & HP & _ & _ & [->|Hx] & _)]];
    simpl; auto. destruct z; subst; auto.
Qed.

Lemma write_unknown {T} (rule : R Sh RS T) e :
  record_of e = None →
  let '(x, e') := Engine.write w E rule e in
  (x = Err NotFound ∨ interrupted x) ∧
  records (e_ledger e') = records (e_ledger e) ∧ shelves_of e' = shelves_of e.
Proof.
  intros Hr. unfold Engine.write, mbind, M_bind, Engine.transaction, record_of in *.
  set (x0 := mkAmbient _ _ _ _ _).
  pose proof (transact_law w (Engine.in_transaction rule) (e_ledger e) x0) as Hlaw.
  destruct (transact w _ _) as [y [l x]]. rewrite Hr in Hlaw.
  destruct Hlaw as [([->| ->] & Hl & ->)|(-> & Hl & ->)]; simpl; split_and!; auto;
    right; auto with rules.
Qed.

(** A call of [read], where the rule may change the shelf as [C] says. *)
Lemma read_ran {T} (rule : R Sh RS T) (C : outcome ApiError T → Shelves → Prop) e r :
  record_of e = Some r →
  wpr rule (λ x r' v' a', C x v') r (shelves_of e) [] →
  let '(x, e') := Engine.read w rule e in
  records (e_ledger e') = records (e_ledger e) ∧
  (C x (shelves_of e') ∨ interrupted x ∧ shelves_of e' = shelves_of e).
Proof.
  intros Hr Hrule. unfold Engine.read, record_of in *.
  pose proof (load_law w (e_ledger e)) as Hlaw. rewrite Hr in Hlaw.
  destruct (ledger_load w (e_ledger e)) as [y l]. destruct Hlaw as (Hl & [->|Hi]).
  - simpl. specialize (Hrule (mkSt r (e_shelf e) (e_rng e) [] (e_ticks e) (e_passed e)) eq_refl eq_refl eq_refl).
    destruct (rule _) as [x s]. simpl in *. auto.
  - destruct Hi as [->| ->]; split; auto; right; auto with rules.
Qed.

Lemma read_unknown {T} (rule : R Sh RS T) e :
  record_of e = None →
  let '(x, e') := Engine.read w rule e in
  (x = Err NotFound ∨ interrupted x) ∧
  records (e_ledger e') = records (e_ledger e) ∧ shelves_of e' = shelves_of e.
Proof.
  intros Hr. unfold Engine.read, record_of in *.
  pose proof (load_law w (e_ledger e)) as Hlaw. rewrite Hr in Hlaw.
  destruct (ledger_load w (e_ledger e)) as [y l]. destruct Hlaw as (Hl & [->|[->| ->]]); simpl;
    split_and!; auto; right; auto with rules.
Qed.
End engine_facts.
