(* ===== verification/Operations.v ===== *)
(** Every operation of a workspace as one datatype, so that a history is a
    list of them, and the invariant each keeps: whatever is asked for, in
    whatever order, and wherever the process is killed. *)

From S2P Require Import Prelude Errors Random Ids Shelf Records Effects Rules Workspace Upload Rewrite Ledger Engine.

(** The methods of [Engine], one constructor each; [Restart] is a process
    that died or stopped and whose successor opens the workspace. *)
Inductive Op :=
| Encryption
| ItemIds (p : Partition)
| Item (p : Partition) (id : ItemId)
| ItemIdsAfter (p : Partition) (bound : option ItemId)
| ItemsAfter (p : Partition) (bound : option ItemId)
| ResolveItem (input : string)
| ItemContentFrom (p : Partition) (id : ItemId) (offset : N)
| FindByContentKey (ck : string)
| UsedBytes
| LiveGenerations
| ReservedBytes
| PendingUploads
| ViewSession
| StagedItemIds (c : Caller)
| StagedItem (c : Caller) (id : ItemId)
| StagedItemContentFrom (c : Caller) (id : ItemId) (offset : N)
| StateOfUpload (c : Caller) (u : UploadId)
| PutUploadContent (c : Caller) (u : UploadId) (content : Reader)
| ProbeWrite (c : Caller)
| DeleteItem (c : Caller) (p : Partition) (id : ItemId) (expected : option KeyId)
| EnableEncryption (c : Caller) (k : KeyId) (header : list byte)
| FreshStart (c : Caller) (k : KeyId) (header : list byte)
| ReplaceHeader (c : Caller) (expected : KeyId) (header : list byte)
| BeginUpload (c : Caller) (q : UploadRequest)
| CommitUpload (c : Caller) (u : UploadId)
| AbortUpload (c : Caller) (u : UploadId)
| BeginRewrite (c : Caller) (q : RewriteRequest)
| HeartbeatRewrite (c : Caller)
| TakeOverRewrite (c : Caller)
| CommitRewrite (c : Caller) (k : KeyId)
| AbortRewrite (c : Caller) (k : KeyId)
| OperatorAbortRewrite (force : bool)
| CleanStaging
| Open
| OpenWithoutRepair.

Section exec.
Context {Sh L RS : Type} `{Externals} `{ItemShelf Sh} `{Ledger L} `{RandomSource RS}.
Context (w : WorkspaceId) (E : Env).

Definition ignore {A} (m : Engine.Do (Sh := Sh) (L := L) (RS := RS) A) : Engine.Do unit := m;; mret ().

Definition exec (o : Op) : Engine.Do (Sh := Sh) (L := L) (RS := RS) unit :=
  match o with
  | Encryption => ignore (Engine.encryption w)
  | ItemIds p => ignore (Engine.item_ids w p)
  | Item p id => ignore (Engine.item w p id)
  | ItemIdsAfter p bound => ignore (Engine.item_ids_after w p bound)
  | ItemsAfter p bound => ignore (Engine.items_after w p bound)
  | ResolveItem input => ignore (Engine.resolve_item w input)
  | ItemContentFrom p id offset => ignore (Engine.item_content_from w p id offset)
  | FindByContentKey ck => ignore (Engine.find_by_content_key w ck)
  | UsedBytes => ignore (Engine.used_bytes w)
  | LiveGenerations => ignore (Engine.live_generations w)
  | ReservedBytes => ignore (Engine.reserved_bytes w E)
  | PendingUploads => ignore (Engine.pending_uploads w)
  | ViewSession => ignore (Engine.session_view w)
  | StagedItemIds c => ignore (Engine.staged_item_ids w c)
  | StagedItem c id => ignore (Engine.staged_item w c id)
  | StagedItemContentFrom c id offset => ignore (Engine.staged_item_content_from w c id offset)
  | StateOfUpload c u => ignore (Engine.upload_state w E c u)
  | PutUploadContent c u content => Engine.put_upload_content w E c u content
  | ProbeWrite c => Engine.probe_write w c
  | DeleteItem c p id k => ignore (Engine.delete_item w E c p id k)
  | EnableEncryption c k h => ignore (Engine.enable_encryption w E c k h)
  | FreshStart c k h => ignore (Engine.fresh_start w E c k h)
  | ReplaceHeader c k h => ignore (Engine.replace_header w E c k h)
  | BeginUpload c q => ignore (Engine.begin_upload w E c q)
  | CommitUpload c u => ignore (Engine.commit_upload w E c u)
  | AbortUpload c u => Engine.abort_upload w E c u
  | BeginRewrite c q => ignore (Engine.begin_rewrite w E c q)
  | HeartbeatRewrite c => ignore (Engine.heartbeat_rewrite w E c)
  | TakeOverRewrite c => ignore (Engine.take_over_rewrite w E c)
  | CommitRewrite c k => ignore (Engine.commit_rewrite w E c k)
  | AbortRewrite c k => ignore (Engine.abort_rewrite w E c k)
  | OperatorAbortRewrite force => ignore (Engine.operator_abort_rewrite w E force)
  | CleanStaging => ignore (Engine.clean_staging w E)
  | Open => Engine.open w E
  | OpenWithoutRepair => Engine.open_without_repair w
  end.
End exec.

(** The item an operation is asked to delete, if that is what it is. *)
Definition deletes (o : Op) : option (Partition * ItemId) :=
  match o with DeleteItem _ p id _ => Some (p, id) | _ => None end.

(** ** The invariant *)

(** A workspace's record and shelves fit each other; a workspace without a
    record has nothing on its shelf. *)
Definition Sound (m : option WorkspaceRecord) (v : Shelves) : Prop :=
  match m with
  | Some r => RecOk r ∧ ShelfOk r v
  | None => ∀ g, items v g = ∅
  end.

Lemma default_sound v : (∀ g, items v g = ∅) → Sound (Some default_record) v.
Proof.
  intros Hv. split; split; unfold live_generations, keyed; simpl; try done.
  - intros g ->%list_elem_of_singleton. lia.
  - apply NoDup_singleton.
  - intros g [x Hx]. by rewrite lookup_empty in Hx.
  - intros g k _. rewrite Hv. apply sound_empty.
Qed.

Lemma stepped_sound d r v r' v' :
  has_room r → RecOk r → ShelfOk r v → stepped d r v r' v' → RecOk r' ∧ ShelfOk r' v'.
Proof.
  intros Hroom Hr Hv [v1 Ht|r1 v1 a v2 left He Hs].
  - split; [done|]. by eapply torn_shelf_ok.
  - split; [by eapply effect_rec_ok|]. eapply swept_shelf_ok; [done|]. by eapply effect_shelf_ok.
Qed.

(** Nothing that the record points to afterwards is lost, but an item that
    was to be deleted. *)
Lemma stepped_kept d r v r' v' :
  RecOk r → stepped d r v r' v' →
  kept r' v v' ∨
  ∃ p g id, d = Some (p, id) ∧ generation_of r p = Some g ∧ is_Some (items v g !! id) ∧
    kept_but g id r' v v'.
Proof.
  intros Hr [v1 Ht|r1 v1 a v2 left He Hs].
  - destruct (torn_kept _ _ _ _ Ht) as [(p & g & id & Hd & Hg & Hi & ->)|Hk]; [right|by left].
    exists p, g, id. split_and!; [done..|]. apply take_out_kept.
  - pose proof (effect_safe _ _ _ _ _ _ Hr He) as Hsafe.
    pose proof (swept_kept _ _ _ _ _ Hs Hsafe) as Hk'.
    destruct (effect_kept _ _ _ _ _ _ He) as [(p & g & id & Hd & Hg & Hi & -> & ->)|Hk].
    + right. exists p, g, id. split_and!; [done..|]. inversion Hs; subst. apply take_out_kept.
    + left. intros g Hg. etrans; [by apply Hk|by apply Hk'].
Qed.

Lemma ran_ignore {T} d (Q : T → WorkspaceRecord → Shelves → list Cleanup → Prop) r v x r' v' left :
  ran d Q r v x r' v' left → ran d anything r v (recast x (λ _, Ok ())) r' v' left.
Proof.
  intros [e|x' v1 Hi Ht|x' y r1 v1 a v2 left' He HQ Hs Hx|]; simpl.
  - apply ran_refused.
  - apply ran_cut; [|done]. destruct Hi as [->| ->]; [by left|by right].
  - eapply ran_stored with (y := ()); [done..|].
    destruct Hx as [->|[->| ->]]; simpl; auto with rules.
  - apply ran_spinning.
Qed.

Section steps.
Context {Sh L RS : Type} `{Ext : Externals} `{Shelf : !ItemShelf Sh} `{Lawful : !LawfulShelf Sh}
  `{Led : !Ledger L} `{LawfulLed : !LawfulLedger L} `{Random : !RandomSource RS}.
Context (w : WorkspaceId) (E : Env).
Implicit Types (e : Engine Sh L RS).

(** What one call does, wherever it ends: the record, created if need be,
    and the shelves make one step, and no other workspace is touched. *)
Definition engine_ran (d : option (Partition * ItemId)) e (ran_to : outcome ApiError unit * Engine Sh L RS) : Prop :=
  let '(x, e') := ran_to in
  ∃ m, (m = records (e_ledger e) ∨ m = created_in w (records (e_ledger e))) ∧
    match m !! w with
    | Some r => ∃ r' left, records (e_ledger e') = <[w := r']> m ∧
        did d anything r (shelves_of e) x r' (shelves_of e') left ∧
        (steady (Sh := Sh) E → is_ok x → left = [])
    | None => (x = Err NotFound ∨ interrupted x) ∧ records (e_ledger e') = m ∧ shelves_of e' = shelves_of e
    end.

Lemma ignore_ran {A} (m : Engine.Do (Sh := Sh) (L := L) (RS := RS) A) e :
  ignore m e = (recast (m e).1 (λ _, Ok ()), (m e).2).
Proof. unfold ignore, mbind, M_bind. by destruct (m e) as [[]]. Qed.

Lemma write_step {T} (rule : R Sh RS T) d (Q : WorkspaceRecord → T → WorkspaceRecord → Shelves → list Cleanup → Prop) e :
  (∀ r, record_of w e = Some r →
    wpr rule (obedient d r (shelves_of e) (Q r)) r (shelves_of e) []) →
  engine_ran d e (ignore (Engine.write w E rule) e).
Proof.
  intros Hrule. rewrite ignore_ran. exists (records (e_ledger e)). split; [by left|].
  unfold record_of in Hrule. destruct (records (e_ledger e) !! w) as [r|] eqn:Hr.
  - pose proof (write_ran w E rule d (Q r) e r Hr (Hrule r eq_refl)) as Hw.
    destruct (Engine.write w E rule e) as [x e']. destruct Hw as (r' & left & Hl & Hran & Hst).
    exists r', left. simpl. split_and!; [done|by eapply did_write, ran_ignore|]. destruct x; auto.
  - pose proof (write_unknown w E rule e Hr) as Hw.
    destruct (Engine.write w E rule e) as [x e'], Hw as ([->|[->| ->]] & ? & ?); simpl;
      auto with rules.
Qed.

(** An operation that changes the staging at most. *)
Definition staging_only (r : WorkspaceRecord) v v' : Prop :=
  gens v' = gens v ∧ ∀ u, is_Some (staging v' !! u) → is_Some (staging v !! u) ∨ is_Some (tickets r !! u).

Lemma read_step {T} (rule : R Sh RS T) d e :
  (∀ r, record_of w e = Some r →
    wpr rule (λ x _ v' _, staging_only r (shelves_of e) v' ∨ interrupted x ∧ gens v' = gens (shelves_of e))
      r (shelves_of e) []) →
  engine_ran d e (ignore (Engine.read w rule) e).
Proof.
  intros Hrule. rewrite ignore_ran. exists (records (e_ledger e)). split; [by left|].
  unfold record_of in Hrule. destruct (records (e_ledger e) !! w) as [r|] eqn:Hr.
  - pose proof (read_ran w rule (λ x v', staging_only r (shelves_of e) v' ∨
      interrupted x ∧ gens v' = gens (shelves_of e)) e r Hr (Hrule r eq_refl)) as Hw.
    destruct (Engine.read w rule e) as [x e']. destruct Hw as (Hl & Hv).
    exists r, []. simpl. split_and!; [by rewrite Hl, insert_id| |done].
    destruct Hv as [[[Hg Hs]|[Hi Hg]]|[Hi ->]].
    + by apply did_outside.
    + apply did_write, ran_cut; [destruct Hi as [->| ->]; simpl; auto with rules|apply torn_staging; intros; by apply items_gens].
    + apply did_outside; [done|by left].
  - pose proof (read_unknown w rule e Hr) as Hw.
    destruct (Engine.read w rule e) as [x e'], Hw as ([->|[->| ->]] & ? & ?); simpl; auto with rules.
Qed.

Lemma quiet_step {T} (rule : R Sh RS T) d e :
  quiet rule → engine_ran d e (ignore (Engine.read w rule) e).
Proof.
  intros Hq. apply read_step. intros r _. eapply wpr_mono; [apply Hq|].
  intros x r' v' a' (_ & -> & _). left. split; [done|by left].
Qed.

Lemma create_step d e : engine_ran d e (Engine.create w e).
Proof.
  unfold Engine.create. pose proof (create_law w (e_ledger e)) as Hc.
  destruct (ledger_create w (e_ledger e)) as [y l]. simpl.
  assert (records l = records (e_ledger e) ∨ records l = created_in w (records (e_ledger e))) as Hl
    by (destruct Hc as [[_ ?]|[_ ?]]; auto).
  exists (records l). split; [done|]. destruct (records l !! w) as [r|] eqn:Hr.
  - exists r, []. split_and!; [by rewrite insert_id| |done]. apply did_outside; [done|by left].
  - split_and!; [|done|done]. destruct Hc as [[-> Hc]|[Hi _]]; [|by right].
    rewrite Hc in Hr. unfold created_in in Hr. destruct (records (e_ledger e) !! w) eqn:Hr'; [congruence|].
    by rewrite lookup_insert_eq in Hr.
Qed.

Lemma open_step e :
  Sound (record_of w e) (shelves_of e) → engine_ran None e (Engine.open w E e).
Proof.
  intros Hsound. pose proof (create_step None e) as Hc. unfold Engine.open, mbind, M_bind.
  pose proof (create_law w (e_ledger e)) as Hlaw. unfold Engine.create in *.
  destruct (ledger_create w (e_ledger e)) as [y l]. simpl in *.
  destruct y as [[]|x| |]; try exact Hc.
  destruct Hlaw as [[_ Hl]|[[|] _]]; [|done..].
  set (e1 := mkEngine _ _ _ _ _).
  assert (∃ r, records l !! w = Some r ∧ RecOk r) as (r & Hr & Hok).
  { rewrite Hl. unfold record_of, created_in in *.
    destruct (records (e_ledger e) !! w) as [r|] eqn:Hr; rewrite ?Hr in Hsound;
      [exists r; by destruct Hsound|].
    exists default_record. rewrite lookup_insert_eq. split; [done|].
    by destruct (default_sound _ Hsound). }
  pose proof (write_ran w E (reconcile E) None (reconciled E r (shelves_of e1)) e1 r Hr
    (reconcile_obeys E r _ Hok)) as Hw.
  destruct (Engine.write w E (reconcile E) e1) as [x e']. destruct Hw as (r' & left & Hl' & Hran & Hst).
  exists (records l). split; [by right|]. rewrite Hr.
  exists r', left. split_and!; [done| |done]. apply ran_ignore in Hran.
  apply did_write. by destruct x as [[]| | |].
Qed.

Lemma ignore_unit (m : Engine.Do (Sh := Sh) (L := L) (RS := RS) unit) e : ignore m e = m e.
Proof. unfold ignore, mbind, M_bind. by destruct (m e) as [[[]| | |]]. Qed.

Lemma exec_step o e :
  Sound (record_of w e) (shelves_of e) → engine_ran (deletes o) e (exec w E o e).
Proof.
  intros Hsound. destruct o; unfold exec, deletes.
  all: try (apply quiet_step; eauto with quiet; fail).
  - rewrite <- ignore_unit. apply read_step. intros r _.
    eapply wpr_mono; [apply put_upload_content_obeys|].
    intros x r' v' a' (_ & _ & Hs & Ht); left. destruct Hs as [->|[ct ->]]; [split; [done|by left]|].
    split; [done|]. intros u'. simpl. rewrite lookup_insert_is_Some'. intros [<-|]; [|by left].
    destruct (staging (shelves_of e) !! u) as [ct'|] eqn:Hu; [left; by eexists|right].
    destruct Ht as (t & Ht & _); [|by eexists]. intros Heq. apply (f_equal staging) in Heq. cbn in Heq.
    rewrite <- Heq, lookup_insert_eq in Hu. done.
  - rewrite <- ignore_unit. apply read_step. intros r _.
    eapply wpr_mono; [apply probe_write_obeys|].
    intros x r' v' a' (_ & _ & [->|(u & [->|[Hx [dg ->]]])] & _); [left; split; [done|by left]| |].
    + left. split; [done|]. intros u'. rewrite cleaned_staging. intros []. by left.
    + right. by rewrite gens_create_place.
  - eapply write_step. intros r _. apply delete_item_obeys.
  - eapply write_step. intros r _. apply enable_encryption_obeys.
  - eapply write_step. intros r _. apply fresh_start_obeys.
  - eapply write_step. intros r _. apply replace_header_obeys.
  - eapply write_step. intros r _. apply begin_upload_obeys.
  - apply (write_step _ _ (λ r, commit_post c u r (shelves_of e))). intros r _. apply commit_upload_obeys.
  - rewrite <- ignore_unit. eapply write_step. intros r _. apply abort_upload_obeys.
  - eapply write_step. intros r _. apply begin_rewrite_obeys.
  - eapply (write_step _ _ (λ r view r' v' _, ∃ s, state r = Rewriting s ∧ holder s = key c ∧
      renewed E c s view r' v')). intros r _. apply heartbeat_rewrite_obeys.
  - eapply (write_step _ _ (λ r view r' v' _, _)). intros r _. eapply take_over_rewrite_obeys.
  - eapply (write_step _ _ (λ r view r' v' _, _)). intros r _. eapply commit_rewrite_obeys.
  - eapply (write_step _ _ (λ r view r' v' _, _)). intros r _. eapply abort_rewrite_obeys.
  - eapply (write_step _ _ (λ r view r' v' _, _)). intros r _. eapply operator_abort_rewrite_obeys.
  - eapply write_step. intros r Hr. apply clean_staging_obeys.
    rewrite Hr in Hsound. apply Hsound.
  - by apply open_step.
  - apply create_step.
Qed.
End steps.
