(* ===== verification/Demo.v ===== *)
(** A concrete world for the witnesses: the shelf and the ledger in memory,
    SplitMix64, a clock that stands still, and stand-ins for the third-party
    code. *)

From S2P Require Import Prelude Errors Random Ids Shelf Records Effects Rules Workspace Upload Rewrite Ledger Engine Operations.

Module Demo.
Definition char_of (b : byte) : ascii := ascii_of_N (Byte.to_N b).
Definition byte_of (c : ascii) : byte := default Byte.x00 (Byte.of_N (N_of_ascii c)).

(** A "digest": the first 32 bytes, padded.  A "document": a digest in
    hexadecimal, then as many bytes as the size it announces. *)
#[export] Instance externals : Externals := {|
  sha256 bytes := take 32 (bytes ++ replicate 32 Byte.x00);
  json := list byte;
  json_from_slice bytes := if 64 <=? length bytes then Some bytes else None;
  json_str doc field :=
    if String.eqb field "sha256"
    then Some (string_of_list_ascii (map char_of (take 64 doc))) else None;
  json_u64 doc field :=
    if String.eqb field "size" then Some (N.of_nat (length (drop 64 doc))) else None;
|}.

#[export] Instance externals_lawful : LawfulExternals.
Proof.
  split. intros bytes. change (length (take 32 (bytes ++ replicate 32 Byte.x00)) = 32).
  rewrite length_take, length_app, length_replicate. lia.
Qed.

Definition w : WorkspaceId := mkChecked "00112233445566aa" eq_refl.
Definition w' : WorkspaceId := mkChecked "00112233445566bb" eq_refl.
Definition alice : Caller := mkCaller (mkApiKeyId "alice") ReadWrite.
Definition bob : Caller := mkCaller (mkApiKeyId "bob") ReadWrite.
Definition reader : Caller := mkCaller (mkApiKeyId "reader") ReadOnly.
Definition k1 : KeyId := mkChecked "aa01" eq_refl.
Definition k2 : KeyId := mkChecked "bb02" eq_refl.

(** Content of three bytes, and the ids and meta that fit it. *)
Definition content : list byte := [Byte.x61; Byte.x62; Byte.x63].
Definition item1 : ItemId := mkChecked "00000001-616263000000" eq_refl.
Definition item2 : ItemId := mkChecked "00000002-616263000000" eq_refl.
Definition item3 : ItemId := mkChecked "00000003-646566000000" eq_refl.
Definition meta_of (content : list byte) : list byte :=
  map byte_of (list_ascii_of_string (hex (sha256 content))) ++ content.

Definition plain_request (id : ItemId) : UploadRequest :=
  mkUploadRequest id (meta_of content) 3 None false.
Definition sealed_request (id : ItemId) (k : KeyId) : UploadRequest :=
  mkUploadRequest id [] 3 (Some k) false.
Definition staged_request (id : ItemId) (k : KeyId) : UploadRequest :=
  mkUploadRequest id [] 3 (Some k) true.

(** The server as it is built, with the clock at [t]; and under the kill
    harness, dying at its [skip]th pass through a point. *)
Definition env (t : N) : Env := mkEnv (λ _, t) default_limits 4 None.
Definition env_kill (t : N) (point : string) (skip : N) : Env :=
  mkEnv (λ _, t) default_limits 4 (Some (point, skip)).

Abbreviation Server := (Engine Shelves Records SeededRandom) (only parsing).

Definition start : Server := mkEngine no_shelves ∅ (SeededRandom.new 7) 0 0.

Fixpoint play (e : Server) (calls : list (Env * Op)) : Server :=
  match calls with
  | [] => e
  | (E, o) :: calls => play (exec w E o e).2 calls
  end.

(** The ids the source mints, in order. *)
Definition minted (n : nat) : UploadId :=
  (UploadId.generate (Nat.iter n (λ rng : SeededRandom, (UploadId.generate rng).2) (SeededRandom.new 7))).1.
Definition u1 : UploadId := minted 0.
Definition u2 : UploadId := minted 1.

Definition opened : Server := play start [(env 1000, Open)].
Definition asked : Server := play opened [(env 1000, BeginUpload alice (plain_request item1))].
Definition sent : Server := play asked [(env 1001, PutUploadContent alice u1 [Data content])].
Definition stored : Server := play sent [(env 1002, CommitUpload alice u1)].
Definition killed : Server :=
  play sent [(env_kill 1002 "upload: after the publish" 0, CommitUpload alice u1)].
Definition sealed : Server := play stored [(env 1003, FreshStart alice k1 [])].
Definition rewriting : Server :=
  play opened [(env 1003, EnableEncryption alice k1 []);
    (env 1004, BeginRewrite alice (mkRewriteRequest Rotate (Some k1) k2 []))].

Definition the_record (e : Server) : WorkspaceRecord := default default_record (record_of w e).
End Demo.
