(* ===== verification/Safety.v ===== *)
(** What a workspace guarantees over its whole life: theorems about every
    history of operations, kills and restarts. *)

From S2P Require Import Prelude Errors Random Ids Shelf Records Effects Rules Workspace Upload Rewrite Ledger Engine Operations Demo.

(** ** Histories

    Any operation may come next, with any clock, limits and fault plan: a
    fault that fires is a kill, whatever the process was doing.  A restart
    keeps the shelf and the ledger and nothing else.  [has_room] is the bound
    on generation numbers, 2^64 - 1 of them. *)
Definition room_in (m : option WorkspaceRecord) : Prop :=
  match m with Some r => has_room r | None => True end.

Inductive reach {Sh L RS : Type} `{Ext : Externals} `{Shelf : !ItemShelf Sh} `{Lawful : !LawfulShelf Sh}
    `{Led : !Ledger L} `{LawfulLed : !LawfulLedger L} `{Random : !RandomSource RS}
    (w : WorkspaceId) : Engine Sh L RS → Prop :=
| reach_new e :
    record_of w e = None → (∀ g, items (shelves_of e) g = ∅) → reach w e
| reach_exec e E o :
    reach w e → room_in (record_of w e) → reach w (exec w E o e).2
| reach_restart e e' :
    reach w e → e_shelf e' = e_shelf e → e_ledger e' = e_ledger e → reach w e'.

Section facts.
Context {Sh L RS : Type} `{Ext : Externals} `{Shelf : !ItemShelf Sh} `{Lawful : !LawfulShelf Sh}
  `{Led : !Ledger L} `{LawfulLed : !LawfulLedger L} `{Random : !RandomSource RS}.
Context (w : WorkspaceId).
Implicit Types (e : Engine Sh L RS).

(** The record a call starts from: the workspace's, or a new one. *)
Definition starts_from e : WorkspaceRecord := default default_record (record_of w e).

Lemma starts_sound e :
  Sound (record_of w e) (shelves_of e) → RecOk (starts_from e) ∧ ShelfOk (starts_from e) (shelves_of e).
Proof.
  unfold starts_from. destruct (record_of w e); [done|]. apply default_sound.
Qed.

Lemma starts_room e : room_in (record_of w e) → has_room (starts_from e).
Proof. unfold starts_from. by destruct (record_of w e). Qed.

Lemma created_lookup m r :
  (m = records (e_ledger r) ∨ m = created_in w (records (e_ledger r))) →
  ∀ r0, m !! w = Some r0 → r0 = starts_from (r : Engine Sh L RS).
Proof.
  unfold starts_from, record_of, created_in. intros [->| ->] r0 H0; [by rewrite H0|].
  destruct (records (e_ledger r) !! w) as [r1|] eqn:H1; simpl; [congruence|].
  rewrite lookup_insert_eq in H0. congruence.
Qed.

(** What a call left, where there is a record afterwards ... *)
Lemma engine_ran_some E d e x e' r' :
  engine_ran w E d e (x, e') → record_of w e' = Some r' →
  ∃ left, did d anything (starts_from e) (shelves_of e) x r' (shelves_of e') left ∧
    (steady (Sh := Sh) E → is_ok x → left = []).
Proof.
  intros (m & Hm & Hran) Hr'. destruct (m !! w) as [r|] eqn:Hr.
  - destruct Hran as (r1 & left & Hl & Hran & Hst). unfold record_of in Hr'.
    rewrite Hl, lookup_insert_eq in Hr'. injection Hr' as ->.
    apply (created_lookup m e Hm) in Hr as ->. eauto.
  - destruct Hran as (_ & Hl & _). unfold record_of in Hr'. congruence.
Qed.

(** ... and where there is none. *)
Lemma engine_ran_none E d e x e' :
  engine_ran w E d e (x, e') → record_of w e' = None →
  record_of w e = None ∧ shelves_of e' = shelves_of e.
Proof.
  intros (m & Hm & Hran) Hr'. unfold record_of in *. destruct (m !! w) as [r|] eqn:Hr.
  - destruct Hran as (r1 & left & Hl & _). by rewrite Hl, lookup_insert_eq in Hr'.
  - destruct Hran as (_ & Hl & Hv). split; [|done]. unfold created_in in Hm.
    destruct (records (e_ledger e) !! w) eqn:H0; [|done]. destruct Hm; congruence.
Qed.

Lemma exec_sound E o e :
  Sound (record_of w e) (shelves_of e) → room_in (record_of w e) →
  Sound (record_of w (exec w E o e).2) (shelves_of (exec w E o e).2).
Proof.
  intros Hs Hroom. pose proof (exec_step w E o e Hs) as Hran.
  destruct (exec w E o e) as [x e']; cbn [snd].
  destruct (record_of w e') as [r'|] eqn:Hr'.
  - destruct (engine_ran_some _ _ _ _ _ _ Hran Hr') as (left & Hrn & _).
    destruct (starts_sound e Hs) as [Hok Hv].
    eapply stepped_sound; [by apply starts_room|done|done|]. by eapply did_stepped.
  - destruct (engine_ran_none _ _ _ _ _ Hran Hr') as [Hn ->]. by rewrite Hn in Hs.
Qed.

Lemma reach_sound e : reach w e → Sound (record_of w e) (shelves_of e).
Proof.
  induction 1 as [e Hn Hv|e E o Hr IH Hroom|e e' Hr IH Hsh Hl].
  - by rewrite Hn.
  - by apply exec_sound.
  - unfold record_of, shelves_of in *. by rewrite Hsh, Hl.
Qed.
End facts.

(** What an answered transaction did. *)
Lemma ran_ok {T} d (Q : T → WorkspaceRecord → Shelves → list Cleanup → Prop) r v y r' v' left :
  ran d Q r v (Ok y) r' v' left → ∃ v1 a, effect d r v r' v1 a ∧ Q y r' v1 a ∧ swept a v1 v' left.
Proof.
  inversion 1 as [|? ? [|] _|? y' ? v1 a ? ? He HQ Hs Hx|]; subst; try done.
  destruct Hx as [[= ->]|[|]]; [|done..]. by exists v1, a.
Qed.

Lemma fits_swept r a v v' left :
  swept a v v' left → Forall (safe_cleanup r) a → fits r v' → fits r v.
Proof.
  intros Hs Ha. unfold fits. induction Hs as [|c a v v' left Hs IH|c a v v' left Hs IH]; [done|..];
    apply Forall_cons in Ha as [Hc Ha]; intros Hf; [|by apply IH].
  specialize (IH Ha Hf). erewrite list_fmap_ext; [exact IH|].
  intros i g Hg. cbn. by rewrite (cleaned_items r) by (done || by eapply list_elem_of_lookup_2).
Qed.

Lemma did_tidy {T} d (Q : T → WorkspaceRecord → Shelves → list Cleanup → Prop) r v x r' v' left :
  RecOk r → ShelfOk r v → fits r v → fits r' v' → Tidy r v [] → ¬ interrupted x →
  did d Q r v x r' v' left → Tidy r' v' left.
Proof.
  intros Hok Hv Hf Hf' Ht Hx Hdid. revert Hf' Hx. destruct Hdid as [x r1 v1 left Hran|x v1 Hg Hs].
  - destruct Hran as [e|x v2 Hi|x y r2 v2 a v3 left He HQ Hs Hor|]; intros Hf' Hx;
      [exact Ht|by destruct Hx| |exact Ht].
    pose proof (effect_safe _ _ _ _ _ _ Hok He) as Hsafe.
    pose proof (fits_swept _ _ _ _ _ Hs Hsafe Hf') as Hf1.
    rewrite <- (app_nil_r left). eapply swept_tidy; [exact Hs|done|]. rewrite app_nil_r.
    by eapply effect_tidy.
  - intros _ _. destruct Ht as [Hb Hst Hgen]. split.
    + intros g. rewrite (items_gens v v1) by done. apply Hb.
    + intros u Hu. destruct (Hs u Hu); [by apply Hst|by left].
    + intros g. rewrite (items_gens v v1) by done. apply Hgen.
Qed.

Section opened.
Context {Sh L RS : Type} `{Ext : Externals} `{Shelf : !ItemShelf Sh} `{Lawful : !LawfulShelf Sh}
  `{Led : !Ledger L} `{LawfulLed : !LawfulLedger L} `{Random : !RandomSource RS}.
Context (w : WorkspaceId).
Implicit Types (e : Engine Sh L RS).

Lemma opened E e e' :
  RecOk (starts_from w e) → Engine.open w E e = (Ok (), e') →
  ∃ r' left, record_of w e' = Some r' ∧
    ran None (reconciled E (starts_from w e) (shelves_of e)) (starts_from w e) (shelves_of e) (Ok ()) r'
      (shelves_of e') left ∧ (steady (Sh := Sh) E → left = []).
Proof.
  intros Hok. unfold Engine.open, mbind, M_bind, Engine.create.
  pose proof (create_law w (e_ledger e)) as Hlaw.
  destruct (ledger_create w (e_ledger e)) as [[[]|x| |] l]; try done.
  destruct Hlaw as [[_ Hl]|[[|] _]]; [|done..]. set (e1 := mkEngine _ _ _ _ _). intros Hw.
  assert (record_of w e1 = Some (starts_from w e)) as Hr.
  { unfold starts_from, record_of in *. simpl. rewrite Hl. unfold created_in.
    destruct (records (e_ledger e) !! w) eqn:H0; [done|]. by rewrite lookup_insert_eq. }
  pose proof (write_ran w E (reconcile E) None (reconciled E (starts_from w e) (shelves_of e1)) e1 _ Hr
    (reconcile_obeys E _ _ Hok)) as Hran.
  rewrite Hw in Hran. destruct Hran as (r' & left & Hl' & Hran & Hst).
  exists r', left. split_and!; [|done|auto]. unfold record_of. by rewrite Hl', lookup_insert_eq.
Qed.
End opened.

(** ** A history, for the witnesses *)

Module History.
Import Demo.

Definition room_inb (m : option WorkspaceRecord) : bool :=
  match m with Some r => (next_generation r <? u64_max)%N | None => true end.

Fixpoint roomy (e : Server) (calls : list (Env * Op)) : bool :=
  match calls with
  | [] => true
  | (E, o) :: calls => room_inb (record_of w e) && roomy (exec w E o e).2 calls
  end.

Lemma reach_play e calls : reach w e → roomy e calls = true → reach w (play e calls).
Proof.
  revert e. induction calls as [|[E o] calls IH]; intros e He Hr; simpl in *; [done|].
  apply andb_true_iff in Hr as [Hroom Hr]. apply IH; [|done]. apply reach_exec; [done|].
  unfold room_in, room_inb, has_room in *. destruct (record_of w e); [|done]. by apply N.ltb_lt.
Qed.

Lemma start_reached : reach w start.
Proof. by apply reach_new. Qed.
Lemma opened_reached : reach w opened.
Proof. by apply reach_play; [apply start_reached|vm_compute]. Qed.
Lemma asked_reached : reach w asked.
Proof. by apply reach_play; [apply opened_reached|vm_compute]. Qed.
Lemma sent_reached : reach w sent.
Proof. by apply reach_play; [apply asked_reached|vm_compute]. Qed.
Lemma stored_reached : reach w stored.
Proof. by apply reach_play; [apply sent_reached|vm_compute]. Qed.
Lemma killed_reached : reach w killed.
Proof. by apply reach_play; [apply sent_reached|vm_compute]. Qed.
Lemma rewriting_reached : reach w rewriting.
Proof. by apply reach_play; [apply opened_reached|vm_compute]. Qed.

Definition tidyb (r : WorkspaceRecord) (v : Shelves) : bool :=
  forallb (λ g, used_of r g =? true_bytes (items v g))%N (live_generations r)
  && bool_decide (map_Forall (λ u _, is_Some (tickets r !! u)) (staging v))
  && bool_decide (map_Forall (λ g its, its = ∅ ∨ g ∈ live_generations r) (gens v)).

Lemma tidyb_ok r v : tidyb r v = true → Tidy r v [].
Proof.
  unfold tidyb. rewrite !andb_true_iff, !bool_decide_eq_true, forallb_forall.
  intros [[Hb Hs] Hg]. split.
  - intros g Hin. by apply N.eqb_eq, Hb, list_elem_of_In.
  - intros u [c Hc]. left. by apply (Hs u c).
  - intros g Hne. left. unfold items in Hne. destruct (gens v !! g) as [its|] eqn:Hi; [|done].
    by destruct (Hg g its Hi).
Qed.

(** The record a call left, where there is one. *)
Lemma the_record_some e : is_Some (record_of w e) → record_of w e = Some (the_record e).
Proof. unfold the_record. by intros [r ->]. Qed.
End History.

(** ** The theorems *)

Section safety.
Context {Sh L RS : Type} `{Ext : Externals} `{Shelf : !ItemShelf Sh} `{Lawful : !LawfulShelf Sh}
  `{Led : !Ledger L} `{LawfulLed : !LawfulLedger L} `{Random : !RandomSource RS}.
Context (w : WorkspaceId).
Implicit Types (e : Engine Sh L RS).

(** C1: After any sequence of operations, with any clocks, limits and fault
    plans, killed and restarted anywhere: the record is well formed, and its
    shelves fit it.  Every live generation holds items under its own data key
    and no content twice, and generations that are yet to come hold nothing; a
    workspace without a record holds nothing at all. *)
Theorem every_history_is_sound e :
  reach w e →
  match record_of w e with
  | Some r => RecOk r ∧ ShelfOk r (shelves_of e)
  | None => ∀ g, items (shelves_of e) g = ∅
  end.
Proof. apply reach_sound. Qed.

(** C2: Whatever an operation does, and however it ends, an item of a
    generation that the record points to afterwards is still there, with its
    content and envelope; unless the operation was asked to delete just that
    item of just that partition. *)
Theorem nothing_is_lost E o e x e' r' g id it :
  reach w e → exec w E o e = (x, e') → record_of w e' = Some r' →
  g ∈ live_generations r' → items (shelves_of e) g !! id = Some it →
  items (shelves_of e') g !! id = Some it ∨
  ∃ p, deletes o = Some (p, id) ∧ generation_of (starts_from w e) p = Some g.
Proof.
  intros Hreach Hx Hr' Hg Hi. pose proof (reach_sound w e Hreach) as Hs.
  pose proof (exec_step w E o e Hs) as Hran. rewrite Hx in Hran.
  destruct (engine_ran_some w _ _ _ _ _ _ Hran Hr') as (left & Hrn & _).
  destruct (starts_sound w e Hs) as [Hok _].
  destruct (stepped_kept _ _ _ _ _ Hok (did_stepped _ _ _ _ _ _ _ _ Hrn)) as [Hk|Hk].
  - left. by eapply lookup_weaken, Hk.
  - destruct Hk as (p & g' & id' & Hd & Hg' & _ & Hk). destruct (Hk g Hg) as [Hsub|[-> Heq]].
    + left. by eapply lookup_weaken.
    + destruct (decide (id' = id)) as [<-|Hne]; [right; by exists p|left].
      by rewrite Heq, lookup_delete_ne.
Qed.

(** C5: Opening a workspace repairs it, whatever went before: the books of
    the live generations are counted anew from the shelf, expired uploads and
    outcomes are forgotten, and nothing is left on the shelf that the record
    does not point to, but for what a removal that failed leaves to the next
    time. *)
Theorem opening_repairs E e e' :
  reach w e → fits (starts_from w e) (shelves_of e) →
  Engine.open w E e = (Ok (), e') →
  ∃ r' left k, record_of w e' = Some r' ∧
    r' = pruned (clock E k) (recounted (shelves_of e) (starts_from w e)) ∧
    Tidy r' (shelves_of e') left ∧ (steady (Sh := Sh) E → left = []).
Proof.
  intros Hreach Hfits Hopen. destruct (starts_sound w e (reach_sound w e Hreach)) as [Hok Hv].
  destruct (opened w E e e' Hok Hopen) as (r' & left & Hr' & Hran & Hst).
  apply ran_ok in Hran as (v1 & a & He & (k & -> & -> & Hrub) & Hsw).
  exists (pruned (clock E k) (recounted (shelves_of e) (starts_from w e))), left, k. split_and!; [done|done| |auto].
  assert (left = left ++ []) as -> by by rewrite app_nil_r.
  eapply swept_tidy; [exact Hsw|by eapply effect_safe|]. rewrite app_nil_r.
  by apply reconciled_tidy.
Qed.

(** C6: A call that is answered, with a refusal or not, leaves the books equal
    to what is on the shelf, and no rubbish but that of clean-ups that failed;
    none when none can fail. *)
Theorem calls_keep_the_books E o e x e' r r' :
  reach w e → record_of w e = Some r → fits r (shelves_of e) → Tidy r (shelves_of e) [] →
  exec w E o e = (x, e') → ¬ interrupted x → 
  record_of w e' = Some r' → fits r' (shelves_of e') →
  ∃ left, Tidy r' (shelves_of e') left ∧ (steady (Sh := Sh) E → is_ok x → left = []).
Proof.
  intros Hreach Hr Hfits Ht Hx Hcut Hr' Hfits'. pose proof (reach_sound w e Hreach) as Hs.
  pose proof (exec_step w E o e Hs) as Hran. rewrite Hx in Hran.
  destruct (engine_ran_some w _ _ _ _ _ _ Hran Hr') as (left & Hdid & Hst). exists left. split; [|done].
  unfold starts_from in *. rewrite Hr in *. destruct Hs as [Hok Hv]. simpl in Hdid.
  by eapply did_tidy.
Qed.

(** No operation changes the record of another workspace. *)
Theorem other_workspaces_are_untouched E o e w' :
  reach w e → w' ≠ w →
  records (e_ledger (exec w E o e).2) !! w' = records (e_ledger e) !! w'.
Proof.
  intros Hreach Hne. pose proof (exec_step w E o e (reach_sound w e Hreach)) as Hran.
  destruct (exec w E o e) as [x e']. destruct Hran as (m & Hm & Hran). cbn [snd].
  assert (m !! w' = records (e_ledger e) !! w') as <-.
  { unfold created_in in Hm. destruct Hm as [->| ->]; [done|].
    destruct (records (e_ledger e) !! w); [done|]. by rewrite lookup_insert_ne. }
  destruct (m !! w) as [r|]; [|by destruct Hran as (_ & -> & _)].
  destruct Hran as (r' & left & -> & _). by rewrite lookup_insert_ne.
Qed.
End safety.

(** ** Witnesses *)

Section witnesses.
Import Demo History.

(** A workspace whose upload was killed between the publish and the record. *)
Lemma every_history_is_sound_witness :
  match record_of w killed with
  | Some r => RecOk r ∧ ShelfOk r (shelves_of killed)
  | None => ∀ g, items (shelves_of killed) g = ∅
  end.
Proof. apply (every_history_is_sound w killed). apply killed_reached. Defined.

(** The item survives the clean-up that follows its upload. *)
Lemma nothing_is_lost_witness :
  items (shelves_of (exec w (env 1010) CleanStaging stored).2) 0%N !! item1 = items (shelves_of stored) 0%N !! item1.
Proof.
  assert (∃ it, items (shelves_of stored) 0%N !! item1 = Some it) as [it Hit].
  { apply (bool_decide_unpack (is_Some _)). vm_compute. exact I. }
  destruct (nothing_is_lost w (env 1010) CleanStaging stored
    (exec w (env 1010) CleanStaging stored).1 (exec w (env 1010) CleanStaging stored).2
    (the_record (exec w (env 1010) CleanStaging stored).2) 0%N item1 it) as [H|(p & H & _)].
  - apply stored_reached.
  - apply surjective_pairing.
  - apply the_record_some. apply (bool_decide_unpack (is_Some _)). vm_compute. exact I.
  - apply (bool_decide_unpack _). vm_compute. exact I.
  - exact Hit.
  - rewrite H, Hit. reflexivity.
  - discriminate H.
Defined.

(** The opening after the kill books the item that was published. *)
Lemma opening_repairs_witness :
  ∃ r' left k, record_of w (Engine.open w (env 2000) killed).2 = Some r' ∧
    r' = pruned (clock (env 2000) k) (recounted (shelves_of killed) (starts_from w killed)) ∧
    Tidy r' (shelves_of (Engine.open w (env 2000) killed).2) left ∧
    (steady (Sh := Shelves) (env 2000) → left = []).
Proof.
  apply (opening_repairs w (env 2000) killed).
  - apply killed_reached.
  - unfold fits. vm_compute. reflexivity.
  - apply fst_is. vm_compute. reflexivity.
Defined.

(** A fresh start sets the item aside, and the books are right after it. *)
Lemma calls_keep_the_books_witness :
  let e' := (exec w (env 1003) (FreshStart alice k1 []) stored).2 in
  ∃ left, Tidy (the_record e') (shelves_of e') left ∧
    (steady (Sh := Shelves) (env 1003) → is_ok (exec w (env 1003) (FreshStart alice k1 []) stored).1 → left = []).
Proof.
  intros e'. apply (calls_keep_the_books w (env 1003) (FreshStart alice k1 []) stored _ e' (the_record stored)).
  - apply stored_reached.
  - apply the_record_some, (bool_decide_unpack (is_Some _)). vm_compute. exact I.
  - unfold fits. vm_compute. reflexivity.
  - apply tidyb_ok. vm_compute. reflexivity.
  - apply surjective_pairing.
  - intros [H|H]; vm_compute in H; discriminate H.
  - apply the_record_some, (bool_decide_unpack (is_Some _)). vm_compute. exact I.
  - unfold fits. vm_compute. reflexivity.
Defined.

Lemma other_workspaces_are_untouched_witness :
  records (e_ledger (exec w (env 1003) (FreshStart alice k1 []) stored).2) !! w' =
    records (e_ledger stored) !! w'.
Proof.
  apply (other_workspaces_are_untouched w (env 1003) (FreshStart alice k1 []) stored w').
  - apply stored_reached.
  - apply (bool_decide_unpack (w' ≠ w)). vm_compute. exact I.
Defined.
End witnesses.
