(* ===== verification/Totality.v ===== *)
(** Every call is answered: over a shelf and a ledger that do not fail of
    themselves, as those in memory, and with no fault injected, no operation is
    cut short; and the one loop of the rules that has no bound of its own ends,
    because ids do not repeat. *)

From S2P Require Import Prelude Errors Random Ids Shelf Records Effects Rules Workspace Upload Rewrite Ledger Engine Operations Demo Safety.

(** An answer, well or with a refusal.  [spins] says whether the search for a
    new id may still be going on when its fuel is spent. *)
Definition answered {A} (spins : bool) (x : outcome ApiError A) : Prop :=
  match x with
  | Ok _ => True
  | Err e => e ≠ ServiceUnavailable
  | Killed => False
  | Spinning => spins = true
  end.

Definition unfailing {S A} (spins : bool) (m : M ApiError S A) : Prop :=
  ∀ s, answered spins (m s).1.

Section monad.
Context {S : Type} (b : bool).

Lemma unfailing_bind {A B} (m : M ApiError S A) (f : A → M ApiError S B) :
  unfailing b m → (∀ y, unfailing b (f y)) → unfailing b (m ≫= f).
Proof.
  intros Hm Hf s. specialize (Hm s). unfold mbind, M_bind.
  destruct (m s) as [[y|e| |] s']; try done. apply Hf.
Qed.
Lemma unfailing_ret {A} (y : A) : unfailing (S := S) b (mret y).
Proof. done. Qed.
Lemma unfailing_throw {A} e : e ≠ ServiceUnavailable → unfailing (S := S) (A := A) b (throw e).
Proof. intros He s. exact He. Qed.
Lemma unfailing_lift {A} (x : outcome ApiError A) : answered b x → unfailing (S := S) b (lift x).
Proof. intros Hx s. exact Hx. Qed.
Lemma unfailing_gets {A} (f : S → A) : unfailing b (gets f).
Proof. done. Qed.
Lemma unfailing_for_each {A} (l : list A) (f : A → M ApiError S unit) :
  (∀ x, unfailing b (f x)) → unfailing b (for_each l f).
Proof. intros Hf. induction l as [|x l IH]; [apply unfailing_ret|]. by apply unfailing_bind. Qed.
End monad.

Lemma answered_ok_or {A} b e (x : option A) : e ≠ ServiceUnavailable → answered b (ok_or e x).
Proof. by destruct x. Qed.
Lemma answered_must_write b c : answered b (must_write c).
Proof. unfold must_write. by destruct (role c). Qed.
Lemma answered_fits_kind b k sl : answered b (fits_kind k sl).
Proof. by destruct k, sl. Qed.

Create HintDb unfailing discriminated.
#[export] Hint Resolve unfailing_ret unfailing_throw unfailing_lift unfailing_gets
  answered_ok_or answered_must_write answered_fits_kind : unfailing.
#[export] Hint Extern 1 (_ ≠ ServiceUnavailable) => discriminate : unfailing.
#[export] Hint Extern 1 (answered true Spinning) => reflexivity : unfailing.

Ltac unfailing :=
  repeat first
    [ progress eauto with unfailing
    | apply unfailing_bind; [|intros ?]
    | apply unfailing_for_each; intros ?
    | match goal with
      | |- unfailing _ (match ?x with _ => _ end) => destruct x
      | |- unfailing _ (let '_ := ?x in _) => destruct x
      end ].

(** ** A shelf and a ledger that never fail of themselves

    The class of a shelf every step of which is answered, and of a ledger that
    answers what its contract says and is never cut short. *)
Class CalmShelf (Sh : Type) `{ItemShelf Sh} : Prop := {
  calm_create_place u : unfailing false (stage_create (Sh := Sh) u);
  calm_write u content n : unfailing false (stage_write (Sh := Sh) u content n);
  calm_write_hashed u content n : unfailing false (stage_write_hashed (Sh := Sh) u content n);
  calm_digest u : unfailing false (stage_digest (Sh := Sh) u);
  calm_size u : unfailing false (stage_size (Sh := Sh) u);
  calm_stage_remove u : unfailing false (stage_remove (Sh := Sh) u);
  calm_staged : unfailing false (staged (Sh := Sh));
  calm_publish u g id e : unfailing false (publish (Sh := Sh) u g id e);
  calm_get g id : unfailing false (shelf_get (Sh := Sh) g id);
  calm_open g id n : unfailing false (open_content_from (Sh := Sh) g id n);
  calm_ids g : unfailing false (shelf_ids (Sh := Sh) g);
  calm_remove g id : unfailing false (shelf_remove (Sh := Sh) g id);
  calm_drop g : unfailing false (drop_generation (Sh := Sh) g);
  calm_generations : unfailing false (generations (Sh := Sh));
  calm_bytes g : unfailing false (shelf_bytes (Sh := Sh) g);
}.

Class CalmLedger (L : Type) `{LawfulLedger L} : Prop := {
  calm_create w (l : L) : (ledger_create w l).1 = Ok ();
  calm_load w (l : L) : (ledger_load w l).1 = ok_or NotFound (records l !! w);
  calm_transact {T X} w (rule : LedgerRule T X) (l : L) (x : X) :
    (transact w rule (l, x)).1 = match records l !! w with None => Err NotFound | Some r => (rule r x).1.1 end;
}.

Lemma answered_false {A} b (x : outcome ApiError A) : answered false x → answered b x.
Proof. by destruct x. Qed.

Lemma unfailing_false {S A} b (m : M ApiError S A) : unfailing false m → unfailing b m.
Proof. intros Hm s. apply answered_false, Hm. Qed.

(** Where nothing fails: no fault is injected, and shelf and ledger are calm. *)
Definition calm (Sh L : Type) `{ItemShelf Sh} `{LawfulLedger L} (E : Env) : Prop :=
  fault E = None ∧ CalmShelf Sh ∧ CalmLedger L.

(** The shelf and the ledger in memory. *)
Lemma answered_pump announced content sum hasher bytes :
  answered false (pump_from announced (λ piece bytes, (Ok (), bytes ++ piece)) content sum hasher bytes).1.1.
Proof.
  revert sum hasher bytes. induction content as [|[[|x piece]| |] content IH]; intros; cbn; try done.
  destruct (_ <? _)%N; [done|]. apply IH.
Qed.

Lemma unfailing_memory_write `{Externals} u content announced hashed :
  unfailing false (MemoryShelf.write u content announced hashed).
Proof.
  intros sh. unfold MemoryShelf.write, pump. destruct (staging sh !! u) as [c|]; [|done].
  pose proof (answered_pump announced content 0 (if hashed then Some [] else None) []) as Hp.
  by destruct (pump_from _ _ _ _ _ _) as [[written hasher] bytes].
Qed.

#[export] Instance memory_shelf_calm `{Externals} : CalmShelf Shelves.
Proof.
  split; intros; try done; try apply unfailing_memory_write; intros sh; cbn.
  - unfold MemoryShelf.stage_create. by case_match.
  - unfold MemoryShelf.publish. repeat (case_match; try done).
  - unfold MemoryShelf.remove. by case_match.
Qed.

#[export] Instance memory_ledger_calm : CalmLedger Records.
Proof.
  split; [done..|]. intros T X w rule m x. cbn. unfold MemoryLedger.transact.
  destruct (m !! w) as [r|]; [|done]. by destruct (rule r x) as [[[y|e| |] r'] x'].
Qed.

(** ** The rules over a calm shelf *)

Section rules.
Context {Sh RS : Type} (b : bool) `{Ext : Externals} `{Shelf : !ItemShelf Sh} `{Calm : !CalmShelf Sh}
  `{Random : !RandomSource RS}.
Context (E : Env) (Hfault : fault E = None).

Lemma unfailing_get_rec : unfailing (S := St Sh RS) b get_rec.
Proof. done. Qed.
Lemma unfailing_modify_rec f : unfailing (S := St Sh RS) b (modify_rec f).
Proof. done. Qed.
Lemma unfailing_push_after c : unfailing (S := St Sh RS) b (push_after c).
Proof. done. Qed.
Lemma unfailing_now : unfailing (S := St Sh RS) b (now E).
Proof. done. Qed.
Lemma unfailing_new_upload_id : unfailing (S := St Sh RS) b new_upload_id.
Proof. intros s. unfold new_upload_id. by destruct (UploadId.generate _). Qed.
Lemma unfailing_point name : unfailing (S := St Sh RS) b (point E name).
Proof. intros s. unfold point, pass. by rewrite Hfault. Qed.

Lemma unfailing_call {A} (op : M ApiError Sh A) :
  unfailing b op → unfailing (S := St Sh RS) b (call op).
Proof. intros Hop s. unfold call. specialize (Hop (shelf s)). by destruct (op (shelf s)). Qed.

Lemma unfailing_ids g : unfailing b (shelf_ids (Sh := Sh) g).
Proof. apply unfailing_false, calm_ids. Qed.
Lemma unfailing_get g id : unfailing b (shelf_get (Sh := Sh) g id).
Proof. apply unfailing_false, calm_get. Qed.
Lemma unfailing_open g id n : unfailing b (open_content_from (Sh := Sh) g id n).
Proof. apply unfailing_false, calm_open. Qed.
Lemma unfailing_bytes g : unfailing b (shelf_bytes (Sh := Sh) g).
Proof. apply unfailing_false, calm_bytes. Qed.
Lemma unfailing_staged : unfailing b (staged (Sh := Sh)).
Proof. apply unfailing_false, calm_staged. Qed.
Lemma unfailing_generations : unfailing b (generations (Sh := Sh)).
Proof. apply unfailing_false, calm_generations. Qed.
Lemma unfailing_stage_size u : unfailing b (stage_size (Sh := Sh) u).
Proof. apply unfailing_false, calm_size. Qed.
Lemma unfailing_stage_digest u : unfailing b (stage_digest (Sh := Sh) u).
Proof. apply unfailing_false, calm_digest. Qed.
Lemma unfailing_stage_remove u : unfailing b (stage_remove (Sh := Sh) u).
Proof. apply unfailing_false, calm_stage_remove. Qed.
Lemma unfailing_drop_generation g : unfailing b (drop_generation (Sh := Sh) g).
Proof. apply unfailing_false, calm_drop. Qed.
Lemma unfailing_stage_create u : unfailing b (stage_create (Sh := Sh) u).
Proof. apply unfailing_false, calm_create_place. Qed.
Lemma unfailing_remove g id : unfailing b (shelf_remove (Sh := Sh) g id).
Proof. apply unfailing_false, calm_remove. Qed.
Lemma unfailing_publish u g id e : unfailing b (publish (Sh := Sh) u g id e).
Proof. apply unfailing_false, calm_publish. Qed.
Lemma unfailing_stage_write u content n : unfailing b (stage_write (Sh := Sh) u content n).
Proof. apply unfailing_false, calm_write. Qed.
Lemma unfailing_stage_write_hashed u content n : unfailing b (stage_write_hashed (Sh := Sh) u content n).
Proof. apply unfailing_false, calm_write_hashed. Qed.
End rules.

#[export] Hint Resolve unfailing_get_rec unfailing_modify_rec unfailing_push_after unfailing_now
  unfailing_new_upload_id unfailing_point unfailing_call unfailing_ids unfailing_get unfailing_open
  unfailing_bytes unfailing_staged unfailing_generations unfailing_stage_size unfailing_stage_digest
  unfailing_stage_remove unfailing_drop_generation unfailing_stage_create unfailing_remove
  unfailing_publish unfailing_stage_write unfailing_stage_write_hashed : unfailing.

Section rule_by_rule.
Context {Sh RS : Type} `{Ext : Externals} `{Shelf : !ItemShelf Sh} `{Calm : !CalmShelf Sh}
  `{Random : !RandomSource RS}.
Context (E : Env) (Hfault : fault E = None).

Lemma unfailing_find_in b g ck : unfailing (S := St Sh RS) b (find_in g ck).
Proof. unfold find_in. unfailing. Qed.
Hint Resolve unfailing_find_in : unfailing.
Lemma unfailing_check_writable b k : unfailing (S := St Sh RS) b (check_writable k).
Proof. unfold check_writable. unfailing. Qed.
Hint Resolve unfailing_check_writable : unfailing.
Lemma unfailing_held_session b c : unfailing (S := St Sh RS) b (held_session c).
Proof. unfold held_session. unfailing. Qed.
Hint Resolve unfailing_held_session : unfailing.
Lemma unfailing_add_used b g n : unfailing (S := St Sh RS) b (add_used g n).
Proof. unfold add_used. unfailing. Qed.
Hint Resolve unfailing_add_used : unfailing.
Lemma unfailing_rewrite_target b c k : unfailing (S := St Sh RS) b (rewrite_target c k).
Proof. unfold rewrite_target. unfailing. Qed.
Hint Resolve unfailing_rewrite_target : unfailing.
Lemma unfailing_session_view b : unfailing (S := St Sh RS) b (session_view).
Proof. unfold session_view. unfailing. Qed.
Hint Resolve unfailing_session_view : unfailing.
Lemma unfailing_open_session_view b : unfailing (S := St Sh RS) b (open_session_view).
Proof. unfold open_session_view. unfailing. Qed.
Hint Resolve unfailing_open_session_view : unfailing.
Lemma unfailing_renew_lease b k : unfailing (S := St Sh RS) b (renew_lease E k).
Proof. unfold renew_lease. unfailing. Qed.
Hint Resolve unfailing_renew_lease : unfailing.
Lemma unfailing_encryption b : unfailing (S := St Sh RS) b (encryption).
Proof. unfold encryption. unfailing. Qed.
Hint Resolve unfailing_encryption : unfailing.
Lemma unfailing_item_ids b p : unfailing (S := St Sh RS) b (item_ids p).
Proof. unfold item_ids. unfailing. Qed.
Hint Resolve unfailing_item_ids : unfailing.
Lemma unfailing_item_ids_after b p bound : unfailing (S := St Sh RS) b (item_ids_after p bound).
Proof. unfold item_ids_after. unfailing. Qed.
Hint Resolve unfailing_item_ids_after : unfailing.
Lemma unfailing_item b p id : unfailing (S := St Sh RS) b (item p id).
Proof. unfold item. unfailing. Qed.
Hint Resolve unfailing_item : unfailing.
Lemma unfailing_items_of b p ids : unfailing (S := St Sh RS) b (items_of p ids).
Proof. induction ids as [|id ids IH]; cbn; unfailing. Qed.
Hint Resolve unfailing_items_of : unfailing.
Lemma unfailing_items_after b p bound : unfailing (S := St Sh RS) b (items_after p bound).
Proof. unfold items_after. unfailing. Qed.
Hint Resolve unfailing_items_after : unfailing.
Lemma unfailing_resolve_item b i : unfailing (S := St Sh RS) b (resolve_item i).
Proof. unfold resolve_item. unfailing. Qed.
Hint Resolve unfailing_resolve_item : unfailing.
Lemma unfailing_item_content_from b p id n : unfailing (S := St Sh RS) b (item_content_from p id n).
Proof. unfold item_content_from. unfailing. Qed.
Hint Resolve unfailing_item_content_from : unfailing.
Lemma unfailing_find_by_content_key b ck : unfailing (S := St Sh RS) b (find_by_content_key ck).
Proof. unfold find_by_content_key. unfailing. Qed.
Hint Resolve unfailing_find_by_content_key : unfailing.
Lemma unfailing_delete_item b c p id k : unfailing (S := St Sh RS) b (delete_item c p id k).
Proof. unfold delete_item. unfailing. Qed.
Hint Resolve unfailing_delete_item : unfailing.
Lemma unfailing_settle b c k : unfailing (S := St Sh RS) b (settle c k).
Proof. unfold settle. unfailing. Qed.
Hint Resolve unfailing_settle : unfailing.
Lemma unfailing_enable_encryption b c k h : unfailing (S := St Sh RS) b (enable_encryption c k h).
Proof. unfold enable_encryption. unfailing. Qed.
Hint Resolve unfailing_enable_encryption : unfailing.
Lemma unfailing_fresh_start b c k h : unfailing (S := St Sh RS) b (fresh_start c k h).
Proof. unfold fresh_start. unfailing. Qed.
Hint Resolve unfailing_fresh_start : unfailing.
Lemma unfailing_replace_header b c k h : unfailing (S := St Sh RS) b (replace_header c k h).
Proof. unfold replace_header. unfailing. Qed.
Hint Resolve unfailing_replace_header : unfailing.
Lemma unfailing_reserved_bytes b : unfailing (S := St Sh RS) b (reserved_bytes E).
Proof. unfold reserved_bytes. unfailing. Qed.
Hint Resolve unfailing_reserved_bytes : unfailing.
Lemma unfailing_upload_target b c q : unfailing (S := St Sh RS) b (upload_target c q).
Proof. unfold upload_target. unfailing. Qed.
Hint Resolve unfailing_upload_target : unfailing.
Lemma unfailing_forfeit b u : unfailing (S := St Sh RS) b (forfeit u).
Proof. unfold forfeit. unfailing. Qed.
Hint Resolve unfailing_forfeit : unfailing.
Lemma unfailing_fresh_upload_id n : unfailing (S := St Sh RS) true (fresh_upload_id n).
Proof. induction n as [|n IH]; cbn; unfailing. Qed.
Hint Resolve unfailing_fresh_upload_id : unfailing.
Lemma unfailing_begin_upload c q : unfailing (S := St Sh RS) true (begin_upload E c q).
Proof. unfold begin_upload. unfailing. Qed.
Hint Resolve unfailing_begin_upload : unfailing.
Lemma unfailing_check_plaintext b u q : unfailing (S := St Sh RS) b (check_plaintext u q).
Proof. unfold check_plaintext. unfailing. Qed.
Hint Resolve unfailing_check_plaintext : unfailing.
Lemma unfailing_live_ticket b c u : unfailing (S := St Sh RS) b (live_ticket E c u).
Proof. unfold live_ticket. unfailing. Qed.
Hint Resolve unfailing_live_ticket : unfailing.
Lemma unfailing_tombstone b c u : unfailing (S := St Sh RS) b (tombstone E c u).
Proof. unfold tombstone. unfailing. Qed.
Hint Resolve unfailing_tombstone : unfailing.
Lemma unfailing_upload_state b c u : unfailing (S := St Sh RS) b (upload_state E c u).
Proof. unfold upload_state. unfailing. Qed.
Hint Resolve unfailing_upload_state : unfailing.
Lemma unfailing_put_upload_content b c u content : unfailing (S := St Sh RS) b (put_upload_content E c u content).
Proof. unfold put_upload_content. unfailing. Qed.
Hint Resolve unfailing_put_upload_content : unfailing.
Lemma unfailing_finish_upload b u t id made : unfailing (S := St Sh RS) b (finish_upload E u t id made).
Proof. unfold finish_upload. unfailing. Qed.
Hint Resolve unfailing_finish_upload : unfailing.
Lemma unfailing_finish_unrecorded b u t g : unfailing (S := St Sh RS) b (finish_unrecorded E u t g).
Proof. unfold finish_unrecorded. unfailing. Qed.
Hint Resolve unfailing_finish_unrecorded : unfailing.
Lemma unfailing_publish_or_find b u t g : unfailing (S := St Sh RS) b (publish_or_find E u t g).
Proof. unfold publish_or_find. unfailing. Qed.
Hint Resolve unfailing_publish_or_find : unfailing.
Lemma unfailing_commit_upload b c u : unfailing (S := St Sh RS) b (commit_upload E c u).
Proof. unfold commit_upload. unfailing. Qed.
Hint Resolve unfailing_commit_upload : unfailing.
Lemma unfailing_abort_upload b c u : unfailing (S := St Sh RS) b (abort_upload c u).
Proof. unfold abort_upload. unfailing. Qed.
Hint Resolve unfailing_abort_upload : unfailing.
Lemma unfailing_probe_write b c : unfailing (S := St Sh RS) b (probe_write c).
Proof. unfold probe_write. unfailing. Qed.
Hint Resolve unfailing_probe_write : unfailing.
Lemma unfailing_drop_rewrite_uploads b : unfailing (S := St Sh RS) b (drop_rewrite_uploads).
Proof. unfold drop_rewrite_uploads. unfailing. Qed.
Hint Resolve unfailing_drop_rewrite_uploads : unfailing.
Lemma unfailing_clean_staging b : unfailing (S := St Sh RS) b (clean_staging E).
Proof. unfold clean_staging. unfailing. Qed.
Hint Resolve unfailing_clean_staging : unfailing.
Lemma unfailing_reconcile b : unfailing (S := St Sh RS) b (reconcile E).
Proof. unfold reconcile. unfailing. Qed.
Hint Resolve unfailing_reconcile : unfailing.
Lemma unfailing_staged_item_ids b c : unfailing (S := St Sh RS) b (staged_item_ids c).
Proof. unfold staged_item_ids. unfailing. Qed.
Hint Resolve unfailing_staged_item_ids : unfailing.
Lemma unfailing_staged_item b c id : unfailing (S := St Sh RS) b (staged_item c id).
Proof. unfold staged_item. unfailing. Qed.
Hint Resolve unfailing_staged_item : unfailing.
Lemma unfailing_staged_item_content_from b c id n : unfailing (S := St Sh RS) b (staged_item_content_from c id n).
Proof. unfold staged_item_content_from. unfailing. Qed.
Hint Resolve unfailing_staged_item_content_from : unfailing.
Lemma unfailing_begin_rewrite b c q : unfailing (S := St Sh RS) b (begin_rewrite E c q).
Proof. unfold begin_rewrite. unfailing. Qed.
Hint Resolve unfailing_begin_rewrite : unfailing.
Lemma unfailing_heartbeat_rewrite b c : unfailing (S := St Sh RS) b (heartbeat_rewrite E c).
Proof. unfold heartbeat_rewrite. unfailing. Qed.
Hint Resolve unfailing_heartbeat_rewrite : unfailing.
Lemma unfailing_take_over_rewrite b c : unfailing (S := St Sh RS) b (take_over_rewrite E c).
Proof. unfold take_over_rewrite. unfailing. Qed.
Hint Resolve unfailing_take_over_rewrite : unfailing.
Lemma unfailing_commit_rewrite b c k : unfailing (S := St Sh RS) b (commit_rewrite c k).
Proof. unfold commit_rewrite. unfailing. Qed.
Hint Resolve unfailing_commit_rewrite : unfailing.
Lemma unfailing_end_aborted b s : unfailing (S := St Sh RS) b (end_aborted s).
Proof. unfold end_aborted. unfailing. Qed.
Hint Resolve unfailing_end_aborted : unfailing.
Lemma unfailing_abort_rewrite b c k : unfailing (S := St Sh RS) b (abort_rewrite c k).
Proof. unfold abort_rewrite. unfailing. Qed.
Hint Resolve unfailing_abort_rewrite : unfailing.
Lemma unfailing_operator_abort_rewrite b force : unfailing (S := St Sh RS) b (operator_abort_rewrite E force).
Proof. unfold operator_abort_rewrite. unfailing. Qed.
Hint Resolve unfailing_operator_abort_rewrite : unfailing.
End rule_by_rule.

#[export] Hint Resolve unfailing_find_in unfailing_check_writable unfailing_held_session unfailing_add_used
  unfailing_rewrite_target unfailing_session_view unfailing_open_session_view unfailing_renew_lease
  unfailing_encryption unfailing_item_ids unfailing_item_ids_after unfailing_item
  unfailing_items_of unfailing_items_after unfailing_resolve_item unfailing_item_content_from
  unfailing_find_by_content_key unfailing_delete_item unfailing_settle unfailing_enable_encryption
  unfailing_fresh_start unfailing_replace_header unfailing_reserved_bytes unfailing_upload_target
  unfailing_forfeit unfailing_fresh_upload_id unfailing_begin_upload unfailing_check_plaintext
  unfailing_live_ticket unfailing_tombstone unfailing_upload_state unfailing_put_upload_content
  unfailing_finish_upload unfailing_finish_unrecorded unfailing_publish_or_find unfailing_commit_upload
  unfailing_abort_upload unfailing_probe_write unfailing_drop_rewrite_uploads unfailing_clean_staging
  unfailing_reconcile unfailing_staged_item_ids unfailing_staged_item unfailing_staged_item_content_from
  unfailing_begin_rewrite unfailing_heartbeat_rewrite unfailing_take_over_rewrite unfailing_commit_rewrite
  unfailing_end_aborted unfailing_abort_rewrite unfailing_operator_abort_rewrite : unfailing.

(** ** The engine over a calm shelf and a calm ledger *)

Section engine.
Context {Sh L RS : Type} `{Ext : Externals} `{Shelf : !ItemShelf Sh} `{CalmSh : !CalmShelf Sh}
  `{Led : !Ledger L} `{LawfulLed : !LawfulLedger L} `{CalmL : !CalmLedger L} `{Random : !RandomSource RS}.
Context (w : WorkspaceId) (E : Env) (Hfault : fault E = None) (b : bool).

Lemma unfailing_fault_point name : unfailing (S := Engine Sh L RS) b (Engine.fault_point E name).
Proof. intros e. unfold Engine.fault_point, pass. by rewrite Hfault. Qed.

Lemma unfailing_clean_up c : unfailing (S := Engine Sh L RS) b (Engine.clean_up E c).
Proof.
  intros e. unfold Engine.clean_up.
  assert (∀ x : outcome ApiError unit * Sh, answered b x.1 → answered b
    (let '(y, sh) := x in
     let e := mkEngine sh (e_ledger e) (e_rng e) (e_ticks e) (e_passed e) in
     match y with
     | Ok _ | Err _ => Engine.fault_point E "engine: between clean-ups" e
     | Killed => (Killed, e)
     | Spinning => (Spinning, e)
     end).1) as H by (intros [[] sh]; cbn; auto; intros _; apply unfailing_fault_point).
  apply H. destruct c; [apply (unfailing_drop_generation b)|apply (unfailing_stage_remove b)]; apply CalmSh.
Qed.

Lemma unfailing_transaction {T} (rule : R Sh RS T) :
  unfailing b rule → unfailing (S := Engine Sh L RS) b (Engine.transaction w rule).
Proof.
  intros Hrule e. unfold Engine.transaction. set (x0 := mkAmbient _ _ _ _ _).
  pose proof (calm_transact w (Engine.in_transaction rule) (e_ledger e) x0) as Hc.
  destruct (transact w _ _) as [y [l x]]. cbn in Hc |- *. rewrite Hc.
  destruct (records (e_ledger e) !! w) as [r|]; [|done]. unfold Engine.in_transaction.
  match goal with |- context [rule ?s] => specialize (Hrule s); destruct (rule s) as [[z|err| |] s'] end;
    exact Hrule.
Qed.

Lemma unfailing_engine_write {T} (rule : R Sh RS T) :
  unfailing b rule → unfailing (S := Engine Sh L RS) b (Engine.write w E rule).
Proof.
  intros Hrule. apply unfailing_bind; [by apply unfailing_transaction|]. intros y.
  apply unfailing_bind; [apply unfailing_fault_point|]. intros _.
  apply unfailing_bind; [|intros; apply unfailing_ret]. apply unfailing_for_each, unfailing_clean_up.
Qed.

Lemma unfailing_engine_read {T} (rule : R Sh RS T) :
  unfailing b rule → unfailing (S := Engine Sh L RS) b (Engine.read w rule).
Proof.
  intros Hrule e. unfold Engine.read. pose proof (calm_load w (e_ledger e)) as Hc.
  destruct (ledger_load w (e_ledger e)) as [y l]. cbn in Hc. rewrite Hc.
  destruct (records (e_ledger e) !! w) as [r|]; [|done]. cbn [ok_or].
  match goal with |- context [rule ?s] => specialize (Hrule s); destruct (rule s) as [[z|err| |] s'] end;
    exact Hrule.
Qed.

Lemma unfailing_create : unfailing (S := Engine Sh L RS) b (Engine.create w).
Proof.
  intros e. unfold Engine.create. pose proof (calm_create w (e_ledger e)) as Hc.
  destruct (ledger_create w (e_ledger e)) as [y l]. cbn in Hc |- *. by rewrite Hc.
Qed.

Lemma unfailing_ignore {A} (m : Engine.Do (Sh := Sh) (L := L) (RS := RS) A) :
  unfailing b m → unfailing b (ignore m).
Proof. intros Hm. apply unfailing_bind; [done|]. intros. apply unfailing_ret. Qed.
End engine.

#[export] Hint Resolve unfailing_engine_write unfailing_engine_read unfailing_create
  unfailing_ignore : unfailing.

(** ** New ids *)

(** The first [n] ids a source mints. *)
Fixpoint candidates {RS} `{RandomSource RS} (n : nat) (rng : RS) : list UploadId :=
  match n with
  | O => []
  | S n => (UploadId.generate rng).1 :: candidates n (UploadId.generate rng).2
  end.

(** A source that mints no id twice among [horizon] in a row. *)
Class NonRepeating (RS : Type) `{RandomSource RS} := {
  horizon : N;
  candidates_distinct n (rng : RS) : (N.of_nat n ≤ horizon)%N → NoDup (candidates n rng);
}.

Lemma length_candidates {RS} `{RandomSource RS} n (rng : RS) : length (candidates n rng) = n.
Proof. revert rng. induction n as [|n IH]; intros; simpl; [done|]. by rewrite IH. Qed.

(** Whether an id is in use, which is what the search asks. *)
Definition known (r : WorkspaceRecord) : gset UploadId := dom (tickets r) ∪ dom (tombstones r).

Lemma some_candidate_is_new {RS} `{NonRepeating RS} (r : WorkspaceRecord) n (rng : RS) :
  size (tickets r) + size (tombstones r) < n → (N.of_nat n ≤ horizon)%N →
  ∃ u, u ∈ candidates n rng ∧ u ∉ known r.
Proof.
  intros Hn Hh. pose proof (candidates_distinct n rng Hh) as Hnd.
  destruct (decide (Exists (λ u, u ∉ known r) (candidates n rng))) as [Hx|Hx].
  { apply Exists_exists in Hx as (u & ? & ?). by exists u. }
  apply not_Exists_Forall in Hx; [|apply _].
  assert (list_to_set (C := gset UploadId) (candidates n rng) ⊆ known r) as Hsub.
  { intros u Hu. apply elem_of_list_to_set in Hu. rewrite Forall_forall in Hx.
    apply dec_stable. by apply Hx. }
  apply subseteq_size in Hsub. rewrite size_list_to_set, length_candidates in Hsub by done.
  pose proof (size_union_alt (dom (tickets r)) (dom (tombstones r))) as Hu.
  pose proof (subseteq_size (dom (tombstones r) ∖ dom (tickets r)) (dom (tombstones r)) ltac:(set_solver)).
  unfold known in Hsub. rewrite Hu, !size_dom in *. lia.
Qed.

(** ** The seeded source does not repeat itself *)

(** An id is two words of the source, the first of which differs from every
    other one's: the states in between are all different. *)
Lemma generate_words (self : SeededRandom) :
  text (UploadId.generate self).1 =
    hex (SeededRandom.le_bytes 8 (mix (wadd (seed self) gamma)) ++
         SeededRandom.le_bytes 8 (mix (wadd (wadd (seed self) gamma) gamma))) ∧
  seed (UploadId.generate self).2 = wadd (wadd (seed self) gamma) gamma.
Proof.
  change (text (UploadId.generate self).1) with (hex (SeededRandom.fill_chunks 16 16 self).1).
  change (UploadId.generate self).2 with (SeededRandom.fill_chunks 16 16 self).2.
  rewrite (fill_chunks_step 15 15), next_mix. cbn [fst snd Nat.min Nat.sub].
  rewrite (fill_chunks_step 14 7), next_mix. cbn [fst snd seed]. by rewrite app_nil_r.
Qed.

Lemma candidate_word n (self : SeededRandom) u :
  u ∈ candidates n self → ∃ i word, (i < N.of_nat n)%N ∧
    text u = hex (SeededRandom.le_bytes 8 (mix ((seed self + (2 * i + 1) * gamma) mod two64)) ++ word).
Proof.
  revert self. induction n as [|n IH]; intros self Hu; [by apply elem_of_nil in Hu|].
  cbn [candidates] in Hu. destruct (generate_words self) as [Hw Hs].
  apply elem_of_cons in Hu as [->|Hu].
  - exists 0%N. eexists. split; [lia|]. rewrite Hw. unfold wadd. by rewrite N.mul_1_l.
  - apply IH in Hu as (i & word & Hi & Htext). exists (i + 1)%N, word. split; [lia|].
    rewrite Htext, Hs. do 4 f_equal. rewrite wadd_wadd, N.Div0.add_mod_idemp_l. f_equal. unfold gamma. lia.
Qed.

(** The steps of the state differ, as [gamma] is odd. *)
Lemma steps_distinct s i j :
  (i < two64)%N → (j < two64)%N →
  ((s + i * gamma) mod two64 = (s + j * gamma) mod two64)%N → i = j.
Proof.
  intros Hi Hj Heq. apply (wmul_inj gamma 0xf1de83e19937733d); [by vm_compute|done..|].
  unfold wmul.
  assert (∀ k, ((s + k * gamma + (two64 - s mod two64)) mod two64 = (k * gamma) mod two64)%N) as Hsub.
  { intros k. pose proof (N.mod_upper_bound s two64 ltac:(done)).
    pose proof (N.div_mod s two64 ltac:(done)) as Hs. rewrite Hs at 1.
    clear Hs. revert H. generalize (s mod two64)%N, (s `div` two64)%N, (k * gamma)%N. intros m d x Hm.
    replace (two64 * d + m + x + (two64 - m))%N with (x + (d + 1) * two64)%N by (unfold two64 in *; lia).
    apply N.Div0.mod_add. }
  rewrite <- (Hsub i), <- (Hsub j).
  rewrite <- N.Div0.add_mod_idemp_l, Heq. by rewrite N.Div0.add_mod_idemp_l.
Qed.

#[export] Instance seeded_non_repeating : NonRepeating SeededRandom.
Proof.
  refine {| horizon := 2 ^ 62 |}. intros n. induction n as [|n IH]; intros self Hn; [constructor|].
  cbn [candidates]. constructor; [|apply IH; lia]. intros Hin.
  apply candidate_word in Hin as (i & word & Hi & Htext).
  destruct (generate_words self) as [Hw Hs]. rewrite Hw, Hs in Htext.
  apply (inj hex) in Htext. apply app_inj_1 in Htext as [Heq _]; [|by rewrite !length_le_bytes].
  apply le_bytes_inj in Heq; [|exact (mix_lt _)..].
  apply mix_inj in Heq; [|by apply N.mod_upper_bound..].
  rewrite wadd_wadd, N.Div0.add_mod_idemp_l in Heq. unfold wadd in Heq.
  replace (seed self + gamma + gamma + (2 * i + 1) * gamma)%N
    with (seed self + (2 * i + 3) * gamma)%N in Heq by (unfold gamma; lia).
  replace (seed self + gamma)%N with (seed self + 1 * gamma)%N in Heq by lia.
  apply steps_distinct in Heq; unfold two64; lia.
Defined.

Section fresh.
Context {Sh RS : Type} `{Ext : Externals} `{Shelf : !ItemShelf Sh} `{Lawful : !LawfulShelf Sh}
  `{Random : !RandomSource RS} `{Unique : !NonRepeating RS}.
Context (E : Env).
Implicit Types (r : WorkspaceRecord) (v : Shelves).

(** The search ends with the first candidate that is new. *)
Lemma fresh_upload_id_finds n (s : St Sh RS) :
  (∃ u, u ∈ candidates n (rng s) ∧ u ∉ known (rec s)) →
  ∃ u s', fresh_upload_id n s = (Ok u, s') ∧ u ∉ known (rec s) ∧
    rec s' = rec s ∧ shelf s' = shelf s ∧ after s' = after s.
Proof.
  revert s. induction n as [|n IH]; intros s (u & Hin & Hnew); [by apply elem_of_nil in Hin|].
  cbn [candidates fresh_upload_id] in *. unfold mbind, M_bind, new_upload_id at 1.
  destruct (UploadId.generate (rng s)) as [u0 rng0] eqn:Hg. cbn [fst snd] in Hin.
  unfold get_rec, gets. cbn [rec]. set (s1 := mkSt _ _ rng0 _ _ _).
  assert (is_Some (tickets (rec s) !! u0) ∨ is_Some (tombstones (rec s) !! u0) ↔ u0 ∈ known (rec s)) as Hknown
    by (unfold known; by rewrite elem_of_union, !elem_of_dom).
  destruct (bool_decide (is_Some (tickets (rec s) !! u0)) || bool_decide (is_Some (tombstones (rec s) !! u0)))
    eqn:Hk.
  - rewrite orb_true_iff, !bool_decide_eq_true in Hk. apply (IH s1). exists u. split; [|done].
    apply elem_of_cons in Hin as [->|Hin]; [|done]. destruct Hnew. by apply Hknown.
  - rewrite orb_false_iff, !bool_decide_eq_false in Hk. exists u0, s1. split_and!; try done.
    rewrite <- Hknown. tauto.
Qed.

Lemma wpr_fresh_found n (Q : post UploadId) r v a :
  size (tickets r) + size (tombstones r) < n → (N.of_nat n ≤ horizon)%N →
  (∀ u, tickets r !! u = None → tombstones r !! u = None → Q (Ok u) r v a) →
  wpr (Sh := Sh) (RS := RS) (fresh_upload_id n) Q r v a.
Proof.
  intros Hn Hh HQ s <- <- <-.
  destruct (fresh_upload_id_finds n s) as (u & s' & -> & Hnew & Hr & Hs & Ha);
    [by apply some_candidate_is_new|]. cbn. rewrite Hr, Hs, Ha.
  unfold known in Hnew. rewrite not_elem_of_union, !not_elem_of_dom in Hnew. destruct Hnew. by apply HQ.
Qed.

Lemma begin_upload_ends c q r v :
  size (tickets r) + size (tombstones r) < fuel E → (N.of_nat (fuel E) ≤ horizon)%N →
  wpr (Sh := Sh) (RS := RS) (begin_upload E c q) (λ x _ _ _, x ≠ Spinning) r v [].
Proof.
  intros Hn Hh. unfold begin_upload. apply wpr_must_write; [intros _|done].
  apply wpr_upload_target; [|done]. intros g _ _.
  destruct (match max_item_bytes (limits E) with Some _ => _ | None => _ end); [by rule_step|].
  rule_step. eapply wpr_reads; [apply find_in_answers|].
  intros x [->|[->| ->]]; [|done..]. cbn [andthenr]. destruct (oldest_with _ _) as [id|].
  { do 4 rule_step. apply wpr_forfeit_all. by rule_steps. }
  do 6 rule_step. destruct (List.find _ _) as [[u t]|].
  { rule_step. apply wpr_stage_create; [|by intros x v' [->| ->]]. by rule_steps. }
  destruct (quota_bytes _ <? _)%N; [by rule_step|]. rule_step. apply wpr_fresh_found; [done|done|].
  intros u _ _. cbn [andthenr]. rule_step. apply wpr_stage_create; [|by intros x v' [->| ->]].
  by rule_steps.
Qed.
End fresh.

Section theorems.
Context {Sh L RS : Type} `{Ext : Externals} `{Shelf : !ItemShelf Sh} `{Lawful : !LawfulShelf Sh}
  `{Led : !Ledger L} `{LawfulLed : !LawfulLedger L} `{Random : !RandomSource RS} `{Unique : !NonRepeating RS}.
Context (w : WorkspaceId).
Implicit Types (e : Engine Sh L RS).

(** The search has rounds enough: more than there are uploads and outcomes that
    are remembered, and not more than the source has ids. *)
Definition rounds_enough E e : Prop :=
  (∀ r, record_of w e = Some r → size (tickets r) + size (tombstones r) < fuel E) ∧
  (N.of_nat (fuel E) ≤ horizon)%N.

(** The search for a new upload id ends: with a source that does not
    repeat itself, at most as many rounds are needed as there are uploads and
    remembered outcomes, and one more. *)
Lemma begin_upload_found E c q e : rounds_enough E e → (Engine.begin_upload w E c q e).1 ≠ Spinning.
Proof.
  intros [Hn Hh]. unfold Engine.begin_upload. destruct (record_of w e) as [r|] eqn:Hr.
  - destruct (write_answers w E (begin_upload E c q) (λ x, x ≠ Spinning) e r Hr) as [H|[H|H]];
      [apply begin_upload_ends; auto|done|by rewrite H..].
  - pose proof (write_unknown w E (begin_upload E c q) e Hr) as Hw.
    destruct (Engine.write w E _ e) as [x e']. by destruct Hw as ([->|[->| ->]] & _).
Qed.

(** What may still be looking for an id is [beginUpload] alone. *)
Lemma other_calls_answered E o e :
  calm Sh L E → answered (match o with BeginUpload _ _ => true | _ => false end) (exec w E o e).1.
Proof.
  intros (Hf & Hsh & Hl). revert e. change (unfailing (match o with BeginUpload _ _ => true | _ => false end) (exec w E o)).
  destruct o; unfold exec; try apply unfailing_ignore;
    try (apply unfailing_engine_read; unfailing);
    try (apply unfailing_engine_write; [done|]; unfailing).
  - apply unfailing_bind; [apply unfailing_create|]. intros _.
    apply unfailing_engine_write; [done|]. unfailing.
  - apply unfailing_create.
Qed.

(** C15: Where no fault is injected, neither the shelf nor the ledger fails of
    itself and the source of ids does not repeat itself, every operation comes
    to an answer of its own: none is cut short, none gives
    [SERVICE_UNAVAILABLE], and the one loop of the engine without a bound, the
    search for a free upload id, ends: it takes no more rounds than there are
    uploads and remembered outcomes, and one more. *)
Theorem every_call_is_answered E o e :
  calm Sh L E → rounds_enough E e → answered false (exec w E o e).1.
Proof.
  intros Hcalm Hn. pose proof (other_calls_answered E o e Hcalm) as Ha.
  destruct o; try exact Ha. cbn in *. rewrite ignore_ran in *. cbn in *.
  pose proof (begin_upload_found E c q e Hn). by destruct (Engine.begin_upload w E c q e).1.
Qed.
End theorems.

(** ** Witnesses *)

Section witnesses.
Import Demo History.

(** A second upload beside the one that is open, four rounds being allowed. *)
Lemma every_call_is_answered_witness :
  answered false (exec w (env 1003) (BeginUpload bob (plain_request item3)) sent).1.
Proof.
  apply (every_call_is_answered w (env 1003) (BeginUpload bob (plain_request item3)) sent).
  - split; [reflexivity|]. split; [exact memory_shelf_calm|exact memory_ledger_calm].
  - split; [|vm_compute; discriminate]. intros r Hr.
    assert (r = the_record sent) as -> by (unfold the_record; rewrite Hr; reflexivity). vm_compute. lia.
Defined.
End witnesses.
