(* ===== verification/Replays.v ===== *)
(** Requests that are sent again, and commits that were killed: what makes it
    safe for a client to repeat what it is not sure of. *)

From S2P Require Import Prelude Errors Random Ids Shelf Records Effects Rules Workspace Upload Rewrite Ledger Engine Operations Demo Safety Totality.

(** ** What an effect does to the outcomes that are remembered *)

(** An outcome is never changed: it is kept, or forgotten once it expired. *)
Lemma effect_outcomes d r v r' v' a u st :
  RecOk r → effect d r v r' v' a → tombstones r !! u = Some st →
  tombstones r' !! u = Some st ∨ tombstones r' !! u = None.
Proof.
  intros Hr He Hu.
  assert (∀ r0 u0 t st', tombstones r0 = tombstones r → tickets r !! u0 = Some t →
    tombstones (ended u0 st' r0) !! u = Some st) as Hended.
  { intros r0 u0 t st' Heq Ht. simpl. rewrite Heq, lookup_insert_ne; [done|]. intros <-.
    by rewrite (ok_disjoint _ Hr u0) in Hu by by eexists. }
  assert (∀ n r0, tombstones r0 = tombstones r →
    tombstones (pruned n r0) !! u = Some st ∨ tombstones (pruned n r0) !! u = None) as Hpruned.
  { intros n r0 Heq. simpl. rewrite Heq. destruct (filter _ _ !! u) as [st'|] eqn:Hf; [|by right].
    apply map_lookup_filter_Some in Hf as [Hf _]. left. congruence. }
  destruct He; subst; try (by left; eauto); by eauto.
Qed.

Lemma effect_ended_rewrites d r v r' v' a :
  effect d r v r' v' a → ended_rewrites r ⊆ ended_rewrites r'.
Proof. intros []; subst; simpl; set_solver. Qed.

Lemma did_outcomes {T} d (Q : T → WorkspaceRecord → Shelves → list Cleanup → Prop) r v x r' v' left u st :
  RecOk r → did d Q r v x r' v' left → tombstones r !! u = Some st →
  tombstones r' !! u = Some st ∨ tombstones r' !! u = None.
Proof. intros Hr [? ? ? ? []|]; [..|by left]; eauto using effect_outcomes. Qed.

Lemma did_ended_rewrites {T} d (Q : T → WorkspaceRecord → Shelves → list Cleanup → Prop) r v x r' v' left :
  did d Q r v x r' v' left → ended_rewrites r ⊆ ended_rewrites r'.
Proof. intros [? ? ? ? []|]; eauto using effect_ended_rewrites. Qed.

Section replays.
Context {Sh L RS : Type} `{Ext : Externals} `{Shelf : !ItemShelf Sh} `{Lawful : !LawfulShelf Sh}
  `{Led : !Ledger L} `{LawfulLed : !LawfulLedger L} `{Random : !RandomSource RS}.
Context (w : WorkspaceId).
Implicit Types (e : Engine Sh L RS) (r : WorkspaceRecord) (v : Shelves).

(** A remembered outcome is the answer, whatever else there is. *)
Lemma commit_remembered E c u r v st :
  tombstones r !! u = Some st → s_owner st = key c → (∀ k, (clock E k < s_expires_at st)%N) →
  wpr (Sh := Sh) (RS := RS) (commit_upload E c u)
    (λ x r' v' a, x = Ok (s_outcome st) ∧ r' = r ∧ v' = v ∧ a = []) r v [].
Proof.
  intros Hu Ho Hk. unfold commit_upload. apply wpr_tombstone.
  - intros st' Hu' _. assert (st' = st) as -> by congruence. by rule_step.
  - intros Hgone. destruct (Hgone st Hu Ho) as [k Hle]. specialize (Hk k). lia.
Qed.

(** A commit whose outcome is remembered gives it again, or is cut short, and
    changes neither the record nor the shelves. *)
Lemma commit_again E c u e r st :
  record_of w e = Some r → tombstones r !! u = Some st → s_owner st = key c →
  (∀ k, (clock E k < s_expires_at st)%N) →
  let '(x, e') := Engine.commit_upload w E c u e in
  (x = Ok (s_outcome st) ∨ interrupted x) ∧ record_of w e' = Some r ∧ shelves_of e' = shelves_of e.
Proof.
  intros Hr Hst Ho Hk.
  pose proof (write_cases w E _ _ e r Hr (commit_remembered E c u r (shelves_of e) st Hst Ho Hk)) as Hw.
  unfold Engine.commit_upload, record_of in *. destruct (Engine.write w E _ e) as [x e'].
  destruct Hw as [(Hi & -> & ->)|[(z & r1 & a1 & (-> & -> & -> & _) & -> & Hi)|
    (y & r1 & v1 & a1 & left & (Hy & -> & -> & ->) & -> & Hs & Hx & _)]]; [by auto..|].
  rewrite lookup_insert_eq. injection Hy as ->. split_and!; [done..|]. by inversion Hs.
Qed.

(** Where nothing fails, a commit is not cut short. *)
Lemma calm_commit_answers E c u e : interrupted (Engine.commit_upload w E c u e).1 → ¬ calm Sh L E.
Proof.
  intros Hi (Hf & Hsh & Hl).
  assert (unfailing false (Engine.commit_upload (Sh := Sh) (L := L) (RS := RS) w E c u)) as H
    by (apply unfailing_engine_write; [done|]; unfailing).
  specialize (H e). by destruct Hi as [Hi|Hi]; rewrite Hi in H.
Qed.

(** C7: A commit that was answered is answered the same whenever it is sent
    again, by the same key and while the outcome is kept: from any later state
    that still holds the outcome, and without any further change of the record
    or of the shelves, so that nothing is published, staged or removed again.
    It may be cut short, but not where neither shelf nor ledger fails and no
    fault is injected. *)
Theorem commit_replays E c u e e' out :
  is_Some (record_of w e) → Engine.commit_upload w E c u e = (Ok out, e') →
  ∃ r' st, record_of w e' = Some r' ∧ tombstones r' !! u = Some st ∧ s_outcome st = out ∧
    ∀ E' e2 r2, record_of w e2 = Some r2 → tombstones r2 !! u = Some st →
      (∀ k, (clock E' k < s_expires_at st)%N) →
      ((Engine.commit_upload w E' c u e2).1 = Ok out ∨
       interrupted (Engine.commit_upload w E' c u e2).1 ∧ ¬ calm Sh L E') ∧
      record_of w (Engine.commit_upload w E' c u e2).2 = Some r2 ∧
      shelves_of (Engine.commit_upload w E' c u e2).2 = shelves_of e2.
Proof.
  intros [r Hr] Hx.
  pose proof (write_ran w E (commit_upload E c u) None (commit_post c u r (shelves_of e)) e r Hr
    (commit_upload_obeys E c u r (shelves_of e))) as Hw.
  unfold Engine.commit_upload in Hx. rewrite Hx in Hw. destruct Hw as (r' & left & Hl & Hran & _).
  apply ran_ok in Hran as (v1 & a & _ & Hpost & _).
  assert (∃ st, tombstones r' !! u = Some st ∧ s_owner st = key c ∧ s_outcome st = out) as (st & Hst & Ho & Hout)
    by (destruct Hpost as [(st & ? & ? & ? & -> & _)|(t & g & st & ?)]; exists st; naive_solver).
  exists r', st. split_and!; [unfold record_of; by rewrite Hl, lookup_insert_eq|done..|].
  intros E' e2 r2 Hr2 Hst2 Hk. pose proof (commit_again E' c u e2 r2 st Hr2 Hst2 Ho Hk) as Hagain.
  rewrite Hout in Hagain. pose proof (calm_commit_answers E' c u e2) as Hcalm.
  destruct (Engine.commit_upload w E' c u e2) as [x e3]. destruct Hagain as (Hx2 & ? & ?). cbn in *. tauto.
Qed.

(** A publish that was not recorded, as the shelves and the record show it. *)
Definition unrecorded c u r v : Prop :=
  ∃ t g content en, tickets r !! u = Some t ∧ t_owner t = key c ∧ may_upload c r (t_request t) ∧
    target r (t_request t) = Some g ∧ len64 content = ur_size (t_request t) ∧
    staging v !! u = None ∧ items v g !! ur_id (t_request t) = Some (content, en).

(** A killed commit whose record is as before did nothing, or published. *)
Lemma killed_commit_published E c u e r :
  record_of w e = Some r → record_of w (Engine.commit_upload w E c u e).2 = Some r →
  ¬ same_items (shelves_of e) (shelves_of (Engine.commit_upload w E c u e).2) →
  unrecorded c u r (shelves_of (Engine.commit_upload w E c u e).2).
Proof.
  intros Hr. unfold Engine.commit_upload.
  pose proof (write_cases w E (commit_upload E c u) _ e r Hr
    (wpr_and _ _ _ _ _ _ (commit_upload_shelf E c u r (shelves_of e))
      (commit_upload_obeys E c u r (shelves_of e)))) as Hw.
  destruct (Engine.write w E (commit_upload E c u) e) as [x e1]. cbn [snd]. intros Hr1 Hne.
  assert (∀ v', published c u r (shelves_of e) v' → unrecorded c u r v') as Hpub.
  { intros v' (t & g & content & en & Ht & Ho & Hmay & Hg & Hu & Hsz & Hi & ->).
    exists t, g, content.1, en. split_and!; try done; [apply lookup_delete_eq|].
    by rewrite items_move_in, decide_True, lookup_insert_eq. }
  destruct Hw as [(_ & _ & Hv)|[(z & r1 & a1 & [[Hv|Hp] _] & _)|
    (y & r1 & v1 & a1 & left & [[Hv|Hp] [_ Hpost]] & Hl & Hs & _)]]; [destruct Hne; by rewrite Hv|done|by apply Hpub|..].
  - unfold record_of in Hr1. rewrite Hl, lookup_insert_eq in Hr1. injection Hr1 as ->.
    destruct Hpost as [(st & _ & _ & _ & _ & _ & ->)|(t & g & st & Ht & _ & _ & Ht' & _)]; [|congruence].
    inversion Hs; subst. done.
  - unfold record_of in Hr1. rewrite Hl, lookup_insert_eq in Hr1. injection Hr1 as ->.
    destruct Hpost as [(st & _ & _ & _ & _ & _ & ->)|(t' & g' & st & _ & _ & _ & Ht' & _)].
    + inversion Hs; subst. by apply Hpub.
    + destruct Hp as (t & g & content & en & Ht & _). congruence.
Qed.

(** C8: A commit that was killed after it had published, and before it was
    recorded, is completed by sending it again to the next process: the answer
    is the one the killed commit would have given, [created], though it finds
    nothing staged. *)
Theorem killed_commit_is_completed E E1 E2 c u e e' e2 r :
  reach w e → room_in (record_of w e) → record_of w e = Some r →
  record_of w (Engine.commit_upload w E c u e).2 = Some r →
  ¬ same_items (shelves_of e) (shelves_of (Engine.commit_upload w E c u e).2) →
  e_shelf e' = e_shelf (Engine.commit_upload w E c u e).2 →
  e_ledger e' = e_ledger (Engine.commit_upload w E c u e).2 →
  Engine.open w E1 e' = (Ok (), e2) →
  (∀ t k, tickets r !! u = Some t → clock E1 k < t_expires_at t)%N →
  (∀ t k, tickets r !! u = Some t → clock E2 k < t_expires_at t)%N →
  ∃ t, tickets r !! u = Some t ∧
    ((Engine.commit_upload w E2 c u e2).1 =
       Ok (mkPutOutcome (ur_id (t_request t)) true (in_rewrite (t_request t))) ∨
     interrupted (Engine.commit_upload w E2 c u e2).1).
Proof.
  intros Hreach Hroom Hr Hr1 Hne Hsh Hl Hopen Hk1 Hk2.
  pose proof (killed_commit_published E c u e r Hr Hr1 Hne) as (t & g & content & en & Ht & Ho & Hmay & Hg & Hsz & Hu & Hi).
  pose proof (reach_sound w e Hreach) as Hok. rewrite Hr in Hok. destruct Hok as [Hok _].
  assert (record_of w e' = Some r) as Hr' by (unfold record_of in *; by rewrite Hl).
  assert (starts_from w e' = r) as Hstart by (unfold starts_from; by rewrite Hr').
  assert (shelves_of e' = shelves_of (Engine.commit_upload w E c u e).2) as Hv' by (unfold shelves_of; by rewrite Hsh).
  destruct (opened w E1 e' e2) as (r2 & left & Hr2 & Hran & _); [by rewrite Hstart|done|].
  rewrite Hstart in Hran. apply ran_ok in Hran as (v1 & a & He & (k & -> & -> & _) & Hsw).
  pose proof (effect_safe _ _ _ _ _ _ Hok He) as Hsafe. rewrite Hv' in *.
  set (r2 := pruned (clock E1 k) _) in *.
  assert (tickets r2 !! u = Some t) as Ht2 by (apply map_lookup_filter_Some; split; [done|]; by apply Hk1).
  exists t. split; [done|].
  destruct (write_answers w E2 (commit_upload E2 c u)
    (λ x, interrupted x ∨ x = Ok (mkPutOutcome (ur_id (t_request t)) true (in_rewrite (t_request t)))) e2 r2 Hr2)
    as [[|]|]; auto.
  eapply wpr_mono; [eapply (commit_upload_completes E2 c u r2 (shelves_of e2) t g content en)|].
  - done.
  - done.
  - exact Hmay.
  - exact Hg.
  - apply map_lookup_filter_None_2. left. apply (ok_disjoint _ Hok). by eexists.
  - done.
  - apply eq_None_not_Some. intros Hs. apply (swept_staging _ _ _ _ _ Hsw) in Hs.
    rewrite Hu in Hs. by destruct Hs.
  - eapply lookup_weaken; [exact Hi|]. apply (swept_kept _ _ _ _ _ Hsw Hsafe).
    by apply (target_live r (t_request t)).
  - intros k'. by apply Hk2.
  - intros x r' v' a' (_ & [?|[? _]]); auto.
Qed.
End replays.

(** ** Witnesses *)

Section witnesses.
Import Demo History.

(** The commit of the first upload, and the same commit a minute later. *)
Lemma commit_replays_witness :
  let e := (Engine.commit_upload w (env 1002) alice u1 sent).2 in
  ((Engine.commit_upload w (env 1062) alice u1 e).1 = Ok (mkPutOutcome item1 true false) ∨
   interrupted (Engine.commit_upload w (env 1062) alice u1 e).1 ∧ ¬ calm Shelves Records (env 1062)) ∧
  record_of w (Engine.commit_upload w (env 1062) alice u1 e).2 = record_of w e ∧
  shelves_of (Engine.commit_upload w (env 1062) alice u1 e).2 = shelves_of e.
Proof.
  assert ((Engine.commit_upload w (env 1002) alice u1 sent).1 = Ok (mkPutOutcome item1 true false)) as Hx
    by (vm_compute; reflexivity).
  assert (is_Some (record_of w sent)) as Hsome
    by (apply (bool_decide_unpack (is_Some _)); vm_compute; exact I).
  assert (s_expires_at <$> tombstones (the_record (Engine.commit_upload w (env 1002) alice u1 sent).2) !! u1
    = Some 87402%N) as He by (vm_compute; reflexivity).
  destruct (commit_replays w (env 1002) alice u1 sent _ _ Hsome (fst_is _ _ Hx))
    as (r & st & Hr & Hst & Hout & Hagain).
  unfold the_record in He. rewrite Hr in He. cbn [from_option] in He. unfold id in He. rewrite Hst in He. injection He as He.
  cbv zeta. rewrite Hr. apply (Hagain (env 1062) _ r Hr Hst). intros k. rewrite He. reflexivity.
Defined.

(** The commit that was killed after its publish, sent to the next process. *)
Lemma killed_commit_is_completed_witness :
  let e := (Engine.commit_upload w (env_kill 1002 "upload: after the publish" 0) alice u1 sent).2 in
  let e2 := (Engine.open w (env 2000) e).2 in
  ∃ t, tickets (the_record sent) !! u1 = Some t ∧
    ((Engine.commit_upload w (env 2001) alice u1 e2).1 =
       Ok (mkPutOutcome (ur_id (t_request t)) true (in_rewrite (t_request t))) ∨
     interrupted (Engine.commit_upload w (env 2001) alice u1 e2).1).
Proof.
  assert ((Engine.open w (env 2000)
    (Engine.commit_upload w (env_kill 1002 "upload: after the publish" 0) alice u1 sent).2).1 = Ok ()) as Hopen
    by (vm_compute; reflexivity).
  intros e e2.
  assert (∀ t, tickets (the_record sent) !! u1 = Some t → t_expires_at t = 87400%N) as Hexp.
  { intros t Ht.
    assert (t_expires_at <$> tickets (the_record sent) !! u1 = Some 87400%N) as He
      by (vm_compute; reflexivity).
    rewrite Ht in He. by injection He. }
  apply (killed_commit_is_completed w (env_kill 1002 "upload: after the publish" 0) (env 2000)
    (env 2001) alice u1 sent e e2 (the_record sent)).
  - apply sent_reached.
  - unfold room_in. vm_compute. reflexivity.
  - apply the_record_some, (bool_decide_unpack (is_Some _)). vm_compute. exact I.
  - apply (bool_decide_unpack _). vm_compute. exact I.
  - intros [Hs _]. apply (f_equal (λ m, bool_decide (is_Some (m !! u1)))) in Hs. revert Hs. vm_compute. discriminate.
  - reflexivity.
  - reflexivity.
  - exact (fst_is _ _ Hopen).
  - intros t k Ht. rewrite (Hexp t Ht). reflexivity.
  - intros t k Ht. rewrite (Hexp t Ht). reflexivity.
Defined.
End witnesses.
