(* ===== verification/Timed.v ===== *)
(** Rules and the clock.  [wpr] leaves open what the clock shows; here a rule's
    looks at it are counted, so that a decision is tied to the very reading it
    was taken on.  A step that never looks is reasoned about as before. *)

From S2P Require Import Prelude Errors Random Ids Shelf Records Effects Rules Workspace Upload Ledger Engine.

Section timed.
Context {Sh RS : Type} `{Ext : Externals} `{Shelf : !ItemShelf Sh} `{Lawful : !LawfulShelf Sh}
  `{Random : !RandomSource RS}.
Context (E : Env).
Implicit Types (r : WorkspaceRecord) (v : Shelves) (a : list Cleanup) (n : nat).

(** [wpr] for a rule that begins with the [n]-th look still to come. *)
Definition wpt {A} (m : R Sh RS A) (Q : post A) r v a n : Prop := ∀ s : St Sh RS,
  rec s = r → view (shelf s) = v → after s = a → ticks s = n →
  Q (m s).1 (rec (m s).2) (view (shelf (m s).2)) (after (m s).2).

(** A rule that does not look at the clock. *)
Definition timeless {A} (m : R Sh RS A) : Prop := ∀ s, ticks (m s).2 = ticks s.

(** What is to be shown after a step: that the rest keeps to [Q], or that the
    step's own end does. *)
Definition andthent {A B} (f : A → R Sh RS B) (Q : post B) n : post A := λ x r v a,
  match x with
  | Ok y => wpt (f y) Q r v a n
  | Err e => Q (Err e) r v a
  | Killed => Q Killed r v a
  | Spinning => Q Spinning r v a
  end.

Lemma wpt_wpr {A} (m : R Sh RS A) (Q : post A) r v a n : wpr m Q r v a → wpt m Q r v a n.
Proof. intros Hm s Hr Hv Ha _. by apply Hm. Qed.

Lemma wpt_bind {A B} (m : R Sh RS A) (f : A → R Sh RS B) Q r v a n :
  timeless m → wpr m (andthent f Q n) r v a → wpt (m ≫= f) Q r v a n.
Proof.
  intros Ht Hm s Hr Hv Ha Hn. specialize (Hm s Hr Hv Ha). specialize (Ht s). unfold mbind, M_bind, andthent in *.
  destruct (m s) as [[y|e| |] s']; simpl in *; try done. apply Hm; congruence.
Qed.

Lemma wpt_now {B} (f : N → R Sh RS B) Q r v a n :
  wpt (f (clock E n)) Q r v a (S n) → wpt (now E ≫= f) Q r v a n.
Proof. intros Hf s <- <- <- <-. by apply Hf. Qed.

Lemma wpt_assoc {A B C} (m : R Sh RS A) (f : A → R Sh RS B) (g : B → R Sh RS C) Q r v a n :
  wpt (m ≫= λ x, f x ≫= g) Q r v a n → wpt ((m ≫= f) ≫= g) Q r v a n.
Proof.
  intros Hm s Hr Hv Ha Hn. specialize (Hm s Hr Hv Ha Hn). unfold mbind, M_bind in *.
  by destruct (m s) as [[]].
Qed.

(** ** The steps that never look *)

Lemma timeless_bind {A B} (m : R Sh RS A) (f : A → R Sh RS B) :
  timeless m → (∀ y, timeless (f y)) → timeless (m ≫= f).
Proof.
  intros Hm Hf s. specialize (Hm s). unfold mbind, M_bind.
  destruct (m s) as [[y|e| |] s']; try done. rewrite <- Hm. apply (Hf y s').
Qed.
Lemma timeless_ret {A} (y : A) : timeless (mret y).
Proof. done. Qed.
Lemma timeless_throw {A} e : timeless (throw (A := A) e).
Proof. done. Qed.
Lemma timeless_lift {A} (x : outcome ApiError A) : timeless (lift x).
Proof. done. Qed.
Lemma timeless_get_rec : timeless get_rec.
Proof. done. Qed.
Lemma timeless_modify_rec f : timeless (modify_rec f).
Proof. done. Qed.
Lemma timeless_push_after c : timeless (push_after c).
Proof. done. Qed.
Lemma timeless_call {A} (op : M ApiError Sh A) : timeless (call op).
Proof. intros s. unfold call. by destruct (op (shelf s)). Qed.
Lemma timeless_point name : timeless (point E name).
Proof. intros s. unfold point. by destruct (pass E name (passed s)). Qed.
Lemma timeless_new_upload_id : timeless new_upload_id.
Proof. intros s. unfold new_upload_id. by destruct (UploadId.generate (rng s)). Qed.
Lemma timeless_for_each {A} (l : list A) (f : A → R Sh RS unit) :
  (∀ x, timeless (f x)) → timeless (for_each l f).
Proof. intros Hf. induction l as [|x l IH]; [done|]. by apply timeless_bind. Qed.
End timed.

Create HintDb timeless discriminated.
#[export] Hint Resolve timeless_ret timeless_throw timeless_lift timeless_get_rec timeless_modify_rec
  timeless_push_after timeless_call timeless_point timeless_new_upload_id : timeless.

Ltac timeless :=
  repeat first
    [ progress eauto with timeless
    | apply timeless_bind; [|intros ?]
    | apply timeless_for_each; intros ?
    | match goal with
      | |- timeless (match ?x with _ => _ end) => destruct x
      end ].

(** One step at a time: a look at the clock shows the next reading, and any
    other step is [rule_step]'s. *)
Ltac timed_step :=
  match goal with
  | |- wpt (mbind _ (now _)) _ _ _ _ _ => apply wpt_now
  | |- wpt (mbind _ (mbind _ _)) _ _ _ _ _ => apply wpt_assoc
  | |- wpt (mbind _ _) _ _ _ _ _ => apply wpt_bind; [timeless|]
  | |- wpt _ _ _ _ _ _ => apply wpt_wpr
  | |- andthent _ _ _ (Ok _) _ _ _ => cbn [andthent]
  | |- andthent _ _ _ (Err _) _ _ _ => cbn [andthent]
  | |- andthent _ _ _ Killed _ _ _ => cbn [andthent]
  | |- andthent _ _ _ Spinning _ _ _ => cbn [andthent]
  | |- wpr (mret _) (andthent _ _ _) _ _ _ => apply wpr_ret; cbn [andthent]
  | |- wpr (throw _) (andthent _ _ _) _ _ _ => apply wpr_throw; cbn [andthent]
  | |- wpr (lift _) (andthent _ _ _) _ _ _ => apply wpr_lift
  | |- wpr get_rec (andthent _ _ _) _ _ _ => apply wpr_get_rec; cbn [andthent]
  | |- wpr (modify_rec _) (andthent _ _ _) _ _ _ => apply wpr_modify_rec; cbn [andthent]
  | |- wpr (push_after _) (andthent _ _ _) _ _ _ => apply wpr_push_after; cbn [andthent]
  end.

Section rules_and_time.
Context {Sh RS : Type} `{Ext : Externals} `{Shelf : !ItemShelf Sh} `{Lawful : !LawfulShelf Sh}
  `{Random : !RandomSource RS}.
Context (E : Env).
Implicit Types (r : WorkspaceRecord) (v : Shelves) (a : list Cleanup) (n : nat).

Lemma timeless_find_in g ck : timeless (Sh := Sh) (RS := RS) (find_in g ck).
Proof. unfold find_in. timeless. Qed.
Lemma timeless_upload_target c q : timeless (Sh := Sh) (RS := RS) (upload_target c q).
Proof. unfold upload_target, rewrite_target, held_session, check_writable. timeless. Qed.
Lemma timeless_fresh_upload_id n : timeless (Sh := Sh) (RS := RS) (fresh_upload_id n).
Proof. induction n as [|n IH]; simpl; timeless. Qed.
Lemma timeless_forfeit u : timeless (Sh := Sh) (RS := RS) (forfeit u).
Proof. unfold forfeit. timeless. Qed.
Lemma timeless_check_plaintext u q : timeless (Sh := Sh) (RS := RS) (check_plaintext u q).
Proof. unfold check_plaintext. timeless. Qed.
Lemma timeless_add_used g k : timeless (Sh := Sh) (RS := RS) (add_used g k).
Proof. unfold add_used. timeless. Qed.
End rules_and_time.

#[export] Hint Resolve timeless_find_in timeless_upload_target timeless_fresh_upload_id timeless_forfeit
  timeless_check_plaintext timeless_add_used : timeless.

Section calls.
Context {Sh L RS : Type} `{Ext : Externals} `{Shelf : !ItemShelf Sh} `{Lawful : !LawfulShelf Sh}
  `{Led : !Ledger L} `{LawfulLed : !LawfulLedger L} `{Random : !RandomSource RS}.

(** A call's first look at the clock is the engine's next. *)
Lemma wpt_ran_at {T} (rule : R Sh RS T) (P : post T) r (e : Engine Sh L RS) :
  wpt rule P r (shelves_of e) [] (e_ticks e) → ran_at rule P r e.
Proof.
  intros Hrule. specialize (Hrule (starting r e) eq_refl eq_refl eq_refl eq_refl). unfold ran_at.
  by destruct (rule (starting r e)).
Qed.
End calls.
