(* ===== verification/Decisions.v ===== *)
(** What each operation decides, branch by branch: which refusal is given and
    why, and what a success does to the record, the shelves and the clean-ups.
    Every theorem here leaves room for a call that was cut short; [Totality]
    shows that without faults none is. *)

From S2P Require Import Prelude Errors Random Ids Shelf Records Effects Rules Workspace Upload Rewrite Ledger Engine Operations Demo Safety.

(** ** Deciding

    A rule is cut short, or ends as [spec] says; a refusal leaves the record
    as it was. *)
Definition decides {T} r (spec : outcome ApiError T → WorkspaceRecord → Shelves → list Cleanup → Prop) : post T :=
  λ x r' v' a', match x with
    | Ok _ => spec x r' v' a'
    | Err _ => interrupted x ∨ spec x r v' []
    | Killed => True
    | Spinning => False
    end.

Lemma decides_cut {T} r (spec : outcome ApiError T → WorkspaceRecord → Shelves → list Cleanup → Prop) x r' v' a' :
  interrupted x → decides r spec x r' v' a'.
Proof. intros [->| ->]; [by left; left|done]. Qed.

Lemma decides_err {T} r (spec : outcome ApiError T → WorkspaceRecord → Shelves → list Cleanup → Prop) e r' v' a' :
  spec (Err e) r v' [] → decides r spec (Err e) r' v' a'.
Proof. by right. Qed.

#[export] Hint Resolve decides_cut decides_err : rules.

Ltac decide_cut := intros ? [->| ->]; cbn [andthenr]; auto with rules.

(** [obedient] and [decides] say the same kind of thing of the shared tail
    that answers with the workspace's encryption. *)
Section tails.
Context {Sh RS : Type} `{Ext : Externals} `{Shelf : !ItemShelf Sh} `{Lawful : !LawfulShelf Sh}
  `{Random : !RandomSource RS}.

Lemma encryption_decides r0 (spec : outcome ApiError EncryptionView → WorkspaceRecord → Shelves → list Cleanup → Prop) r v a :
  spec (Ok (encryption_of r v)) r v a →
  wpr (Sh := Sh) (RS := RS) encryption (decides r0 spec) r v a.
Proof.
  intros Hs. eapply wpr_reads; [apply encryption_answers|].
  intros x [->|Hx]; [done|auto with rules].
Qed.
End tails.

Section decided.
Context {Sh L RS : Type} `{Ext : Externals} `{Shelf : !ItemShelf Sh} `{Lawful : !LawfulShelf Sh}
  `{Led : !Ledger L} `{LawfulLed : !LawfulLedger L} `{Random : !RandomSource RS}.
Context (w : WorkspaceId) (E : Env).
Implicit Types (e : Engine Sh L RS) (r : WorkspaceRecord) (v : Shelves).

(** A call that was cut short, or ends as [spec] says, its clean-ups then
    done, but for [left] of them, which is none when no removal fails. *)
Definition decided {T} (spec : outcome ApiError T → WorkspaceRecord → Shelves → list Cleanup → Prop)
    (ran_to : outcome ApiError T * Engine Sh L RS) : Prop :=
  let '(x, e') := ran_to in
  interrupted x ∨
  ∃ r' v1 a left, spec x r' v1 a ∧ record_of w e' = Some r' ∧
    swept a v1 (shelves_of e') left ∧ (steady (Sh := Sh) E → is_ok x → left = []).

Lemma ran_at_decided {T} (rule : R Sh RS T) spec e r :
  record_of w e = Some r → ran_at rule (decides r spec) r e → decided spec (Engine.write w E rule e).
Proof.
  intros Hr Hrule. pose proof (write_cases_at w E rule _ e r Hr Hrule) as Hw. unfold decided.
  destruct (Engine.write w E rule e) as [x e'].
  destruct Hw as [(Hi & _)|[(z & r1 & a1 & HP & Hl & Hz)|(y & r1 & v1 & a1 & lf & HP & Hl & Hs & Hx & Hst)]];
    [by left|..].
  - destruct z as [y|z| |]; subst; simpl in HP; [by left| |left; auto with rules|done].
    destruct HP as [Hi|HP]; [by left|]. right. exists r, (shelves_of e'), [], [].
    split_and!; [done| |constructor|done]. unfold record_of in *. by rewrite Hl.
  - destruct Hx as [->|Hx]; [|by left]. right. exists r1, v1, a1, lf. split_and!; try done.
    unfold record_of. by rewrite Hl, lookup_insert_eq.
Qed.

Lemma write_decided {T} (rule : R Sh RS T) spec e r :
  record_of w e = Some r →
  wpr rule (decides r spec) r (shelves_of e) [] →
  decided spec (Engine.write w E rule e).
Proof. intros Hr Hrule. by apply (ran_at_decided rule spec e r Hr), wpr_ran_at. Qed.
End decided.

(** ** Items and the encryption of a workspace *)

Section more_specs.
Context `{Ext : Externals}.
Context (E : Env).
Implicit Types (r : WorkspaceRecord) (v : Shelves).

(** Why an ordinary change is refused: the session, or the key. *)
Inductive not_writable (k : option KeyId) r : ApiError → Prop :=
| unwritable_session s : state r = Rewriting s → not_writable k r RewriteInProgress
| unwritable_key sl : state r = Settled sl → seal_key_id <$> sl ≠ k → not_writable k r KeyIdMismatch.

Inductive deleted c p id k r v : outcome ApiError StoredItem → WorkspaceRecord → Shelves → list Cleanup → Prop :=
| deleted_read_only : role c = ReadOnly → deleted c p id k r v (Err ForbiddenRole) r v []
| deleted_not_writable e :
    role c = ReadWrite → not_writable k r e → deleted c p id k r v (Err e) r v []
| deleted_missing sl :
    role c = ReadWrite → state r = Settled sl → seal_key_id <$> sl = k → partition r v p !! id = None →
    deleted c p id k r v (Err NotFound) r v []
| deleted_item sl g it :
    role c = ReadWrite → state r = Settled sl → seal_key_id <$> sl = k →
    generation_of r p = Some g → items v g !! id = Some it →
    deleted c p id k r v (Ok (stored it))
      (with_used (<[g := ssub (used_of r g) (len64 it.1)]> (used r)) r) (take_out g id v) [].

(** [fresh_start]: what was there becomes the plain partition. *)
Inductive started c k h r v : outcome ApiError EncryptionView → WorkspaceRecord → Shelves → list Cleanup → Prop :=
| started_read_only : role c = ReadOnly → started c k h r v (Err ForbiddenRole) r v []
| started_session s :
    role c = ReadWrite → state r = Rewriting s → started c k h r v (Err RewriteInProgress) r v []
| started_other_key sl :
    role c = ReadWrite → state r = Settled (Some sl) → seal_key_id sl ≠ k →
    started c k h r v (Err KeyIdMismatch) r v []
| started_before sl :
    role c = ReadWrite → state r = Settled (Some sl) → seal_key_id sl = k →
    started c k h r v (Ok (encryption_of r v)) r v []
| started_empty :
    role c = ReadWrite → state r = Settled None → partition r v Current = ∅ →
    let r' := with_state (Settled (Some (mkSeal k h))) r in
    started c k h r v (Ok (encryption_of r' v)) r' v []
| started_set_aside :
    role c = ReadWrite → state r = Settled None → partition r v Current ≠ ∅ →
    let r' := set_aside (mkSeal k h) r in
    started c k h r v (Ok (encryption_of r' v)) r' v [].

(** ** The rewrite session *)

Inductive rewrite_begun c q r v : outcome ApiError SessionView → WorkspaceRecord → Shelves → list Cleanup → Prop :=
| rb_read_only : role c = ReadOnly → rewrite_begun c q r v (Err ForbiddenRole) r v []
| rb_again s view k :
    role c = ReadWrite → state r = Rewriting s → holder s = key c → kind s = rr_kind q →
    seal_key_id (next s) = new_key_id q →
    let r' := with_state (Rewriting (leased (key c) (wadd (clock E k) (lease_secs (limits E))) s)) r in
    session_view_of r' v = Some view → rewrite_begun c q r v (Ok view) r' v []
| rb_other s :
    role c = ReadWrite → state r = Rewriting s →
    (holder s = key c → kind s = rr_kind q → seal_key_id (next s) ≠ new_key_id q) →
    rewrite_begun c q r v (Err RewriteInProgress) r v []
| rb_unfit sl e :
    role c = ReadWrite → state r = Settled sl → fits_kind (rr_kind q) sl = Err e →
    rewrite_begun c q r v (Err e) r v []
| rb_ended sl :
    role c = ReadWrite → state r = Settled sl → fits_kind (rr_kind q) sl = Ok () →
    new_key_id q ∈ ended_rewrites r → rewrite_begun c q r v (Err RewriteEnded) r v []
| rb_mismatch sl :
    role c = ReadWrite → state r = Settled sl → fits_kind (rr_kind q) sl = Ok () →
    new_key_id q ∉ ended_rewrites r → seal_key_id <$> sl ≠ rr_expected_key_id q →
    rewrite_begun c q r v (Err KeyIdMismatch) r v []
| rb_same_key sl e :
    role c = ReadWrite → state r = Settled sl → fits_kind (rr_kind q) sl = Ok () →
    new_key_id q ∉ ended_rewrites r → seal_key_id <$> sl = rr_expected_key_id q →
    seal_key_id <$> sl = Some (new_key_id q) →
    e = InvalidRequest "the new key is the current one" → rewrite_begun c q r v (Err e) r v []
| rb_new sl view k :
    role c = ReadWrite → state r = Settled sl → fits_kind (rr_kind q) sl = Ok () →
    new_key_id q ∉ ended_rewrites r → seal_key_id <$> sl = rr_expected_key_id q →
    seal_key_id <$> sl ≠ Some (new_key_id q) →
    let s := mkSession (rr_kind q) sl (mkSeal (new_key_id q) (new_header q)) (key c)
      (wadd (clock E k) (lease_secs (limits E))) (next_generation r) in
    session_view_of (open_session s r) v = Some view →
    rewrite_begun c q r v (Ok view) (open_session s r) v [].

Inductive taken_over c r v : outcome ApiError SessionView → WorkspaceRecord → Shelves → list Cleanup → Prop :=
| to_read_only : role c = ReadOnly → taken_over c r v (Err ForbiddenRole) r v []
| to_settled sl : role c = ReadWrite → state r = Settled sl → taken_over c r v (Err NotFound) r v []
| to_held s k :
    role c = ReadWrite → state r = Rewriting s → holder s ≠ key c → (clock E k < lease_expires_at s)%N →
    taken_over c r v (Err LeaseHeld) r v []
| to_taken s k view :
    role c = ReadWrite → state r = Rewriting s →
    (holder s ≠ key c → ∃ k', (lease_expires_at s ≤ clock E k')%N) →
    let r' := with_state (Rewriting (leased (key c) (wadd (clock E k) (lease_secs (limits E))) s)) r in
    session_view_of r' v = Some view → taken_over c r v (Ok view) r' v [].

(** [commit_rewrite] never looks at the clock: a holder whose lease expired
    still holds the session until another takes it over. *)
Inductive rewrite_ended c k r v : outcome ApiError EncryptionView → WorkspaceRecord → Shelves → list Cleanup → Prop :=
| re_read_only : role c = ReadOnly → rewrite_ended c k r v (Err ForbiddenRole) r v []
| re_before sl :
    role c = ReadWrite → state r = Settled (Some sl) → seal_key_id sl = k →
    rewrite_ended c k r v (Ok (encryption_of r v)) r v []
| re_no_session sl :
    role c = ReadWrite → state r = Settled sl → seal_key_id <$> sl ≠ Some k →
    rewrite_ended c k r v (Err NotFound) r v []
| re_not_holder s :
    role c = ReadWrite → state r = Rewriting s → holder s ≠ key c →
    rewrite_ended c k r v (Err LeaseHeld) r v []
| re_mismatch s :
    role c = ReadWrite → state r = Rewriting s → holder s = key c → seal_key_id (next s) ≠ k →
    rewrite_ended c k r v (Err KeyIdMismatch) r v []
| re_incomplete s :
    role c = ReadWrite → state r = Rewriting s → holder s = key c → seal_key_id (next s) = k →
    size (items v (staged_generation s)) ≠ size (items v (generation r)) →
    rewrite_ended c k r v
      (Err (RewriteIncomplete (size (items v (staged_generation s))) (size (items v (generation r))))) r v []
| re_done s :
    role c = ReadWrite → state r = Rewriting s → holder s = key c → seal_key_id (next s) = k →
    size (items v (staged_generation s)) = size (items v (generation r)) →
    let r' := drop_tickets (rewrite_uploads r) (committed s r) in
    rewrite_ended c k r v (Ok (encryption_of r' v)) r' v
      (DropGeneration (generation r) :: (RemoveStaging <$> rewrite_uploads r)).
End more_specs.

Section decide_rules.
Context {Sh RS : Type} `{Ext : Externals} `{Shelf : !ItemShelf Sh} `{Lawful : !LawfulShelf Sh}
  `{Random : !RandomSource RS}.
Context (E : Env).
Implicit Types (r : WorkspaceRecord) (v : Shelves).

Lemma delete_item_decides c p id k r v :
  wpr (Sh := Sh) (RS := RS) (delete_item c p id k) (decides r (deleted c p id k r v)) r v [].
Proof.
  unfold delete_item. apply wpr_must_write; [intros Hrole|intros; by apply decides_err, deleted_read_only].
  apply wpr_check_writable.
  2: { intros s Hs. apply decides_err, deleted_not_writable; [done|]. by eapply unwritable_session. }
  2: { intros sl Hs Hk. apply decides_err, deleted_not_writable; [done|]. by eapply unwritable_key. }
  intros sl Hs Hk. do 2 rule_step. cbn [andthenr]. do 2 rule_step.
  assert (partition r v p !! id = None → deleted c p id k r v (Err NotFound) r v []) as Hmissing
    by (by eapply deleted_missing).
  destruct (generation_of r p) as [g|] eqn:Hg; cbn [ok_or andthenr];
    [|apply decides_err, Hmissing; unfold partition; rewrite Hg; apply lookup_empty].
  rule_step. apply wpr_remove; [| |intros x v' [->| ->] _; cbn [andthenr]; auto with rules].
  - intros it Hi. rule_steps. by eapply deleted_item.
  - intros Hi. rule_steps. apply decides_err, Hmissing. unfold partition. by rewrite Hg.
Qed.

Lemma fresh_start_decides c k h r v :
  wpr (Sh := Sh) (RS := RS) (fresh_start c k h) (decides r (started c k h r v)) r v [].
Proof.
  unfold fresh_start, settle. rule_step. apply wpr_must_write; [|intros; by apply decides_err, started_read_only].
  intros Hrole. do 2 rule_step. cbn [andthenr]. destruct (state r) as [[sl|]|s] eqn:Hs.
  - case_bool_decide as Hk; rule_step; [|by eapply decides_err, started_other_key].
    cbn [andthenr]. apply encryption_decides. by eapply started_before.
  - rule_step. cbn [andthenr]. do 2 rule_step. cbn [andthenr]. rule_step.
    apply wpr_ids; [|decide_cut]. cbn [andthenr]. destruct (reverse _) eqn:Hi.
    + rule_steps. apply encryption_decides. apply started_empty; [done..|]. by apply ids_nil.
    + rule_steps. apply encryption_decides. apply started_set_aside; [done..|].
      intros He. change (items v (generation r) = ∅) in He. apply ids_nil in He. by rewrite He in Hi.
  - rule_step. by eapply decides_err, started_session.
Qed.

Lemma open_session_view_decides r0 (spec : outcome ApiError SessionView → WorkspaceRecord → Shelves → list Cleanup → Prop) r v a s :
  state r = Rewriting s → (∀ view, session_view_of r v = Some view → spec (Ok view) r v a) →
  wpr (Sh := Sh) (RS := RS) open_session_view (decides r0 spec) r v a.
Proof.
  intros Hs Hspec. eapply wpr_reads; [apply open_session_view_answers|].
  intros x [->|Hx]; [|auto with rules].
  destruct (session_view_of r v) as [view|] eqn:Hv; [by apply Hspec|].
  unfold session_view_of in Hv. by rewrite Hs in Hv.
Qed.

Lemma renew_lease_decides c s r0 spec r v :
  state r = Rewriting s →
  (∀ k view, let r' := with_state (Rewriting (leased (key c) (wadd (clock E k) (lease_secs (limits E))) s)) r in
    session_view_of r' v = Some view → spec (Ok view) r' v []) →
  wpr (Sh := Sh) (RS := RS) (renew_lease E (key c);; open_session_view) (decides r0 spec) r v [].
Proof.
  intros Hs Hspec. rule_step. unfold renew_lease. rule_steps. rewrite Hs.
  eapply open_session_view_decides; [done|]. intros view. apply Hspec.
Qed.

Lemma begin_rewrite_decides c q r v :
  wpr (Sh := Sh) (RS := RS) (begin_rewrite E c q) (decides r (rewrite_begun E c q r v)) r v [].
Proof.
  unfold begin_rewrite. apply wpr_must_write; [intros Hrole|intros; by apply decides_err, rb_read_only].
  do 3 rule_step. destruct (state r) as [sl|s] eqn:Hs.
  - do 2 rule_step. destruct (fits_kind _ _) as [[]|e| |] eqn:Hk; cbn [andthenr];
      [|by eapply decides_err, rb_unfit|by destruct (rr_kind q), sl..].
    rule_if Hend; [rule_step; by eapply decides_err, rb_ended|].
    rule_if Hcur; [|rule_step; by eapply decides_err, rb_mismatch].
    rule_if Hnew; [rule_step; by eapply decides_err, rb_same_key|].
    rule_steps. eapply open_session_view_decides; [done|]. intros view Hv. by eapply rb_new.
  - rule_if Hall.
    + rewrite !andb_true_iff, !bool_decide_eq_true in Hall. destruct Hall as [[Hh Hk] Hn].
      eapply renew_lease_decides; [done|]. intros k view. cbv zeta. intros Hv. by eapply rb_again.
    + rule_step. eapply decides_err, rb_other; [done..|]. intros Hh Hk Hn.
      by rewrite !bool_decide_true in Hall.
Qed.

Lemma take_over_rewrite_decides c r v :
  wpr (Sh := Sh) (RS := RS) (take_over_rewrite E c) (decides r (taken_over E c r v)) r v [].
Proof.
  unfold take_over_rewrite. apply wpr_must_write; [intros Hrole|intros; by apply decides_err, to_read_only].
  do 3 rule_step. destruct (state r) as [sl|s] eqn:Hs; [rule_step; by eapply decides_err, to_settled|].
  assert ((holder s ≠ key c → ∃ k', (lease_expires_at s ≤ clock E k')%N) →
    wpr (Sh := Sh) (RS := RS) (renew_lease E (key c);; open_session_view)
      (decides r (taken_over E c r v)) r v []) as Hgo.
  { intros Hor. eapply renew_lease_decides; [done|]. intros k view. cbv zeta. intros Hv. by eapply to_taken. }
  rule_step. case_bool_decide as Hh.
  - do 2 rule_step. apply Hgo. done.
  - do 5 rule_step. destruct (_ <? _)%N eqn:Hk.
    + rule_step. apply N.ltb_lt in Hk. by eapply decides_err, to_held.
    + apply Hgo. intros _. exists k. by apply N.ltb_ge.
Qed.

Lemma commit_rewrite_decides c k r v :
  wpr (Sh := Sh) (RS := RS) (commit_rewrite c k) (decides r (rewrite_ended c k r v)) r v [].
Proof.
  unfold commit_rewrite. apply wpr_must_write; [intros Hrole|intros; by apply decides_err, re_read_only].
  do 3 rule_step. destruct (state r) as [sl|s0] eqn:Hs.
  - case_bool_decide as Hk; [|rule_step; by eapply decides_err, re_no_session].
    apply encryption_decides. destruct sl as [sl|]; simplify_eq/=. by eapply re_before.
  - apply wpr_held_session; [|congruence|].
    2: { intros s Hs' Hh. by eapply decides_err, re_not_holder. }
    intros s Hs' Hh. rule_if Hk; [|rule_step; by eapply decides_err, re_mismatch].
    rule_step. apply wpr_ids; [|decide_cut]. cbn [andthenr]. rule_step.
    apply wpr_ids; [|decide_cut]. cbn [andthenr]. rewrite !length_reverse, !length_btree_keys.
    rule_if Hsz; [apply negb_true_iff, Nat.eqb_neq in Hsz|apply negb_false_iff, Nat.eqb_eq in Hsz];
      [rule_step; by eapply decides_err, re_incomplete|].
    do 6 rule_step. apply (drop_rewrite_uploads_obeys r v (committed s r)).
    change (rewrite_uploads (committed s r)) with (rewrite_uploads r).
    apply encryption_decides. by eapply re_done.
Qed.
End decide_rules.

(** ** The theorems *)

Section theorems.
Context {Sh L RS : Type} `{Ext : Externals} `{Shelf : !ItemShelf Sh} `{Lawful : !LawfulShelf Sh}
  `{Led : !Ledger L} `{LawfulLed : !LawfulLedger L} `{Random : !RandomSource RS}.
Context (w : WorkspaceId).
Implicit Types (e : Engine Sh L RS) (r : WorkspaceRecord).

(** [deleteItem] is refused to readers, during a rewrite and under another
    key, finds nothing where there is nothing, and otherwise takes the item
    out of its partition and its size off the books, and does nothing else. *)
Theorem delete_item_decided E c p id k e r :
  record_of w e = Some r →
  decided w E (deleted c p id k r (shelves_of e)) (Engine.delete_item w E c p id k e).
Proof. intros Hr. apply (write_decided w E _ _ e r Hr), delete_item_decides. Qed.

(** [freshStart] on a plaintext workspace sets the key, and what the
    workspace held becomes the plain partition; on a workspace under that key
    already it is a replay, and under another, or in a rewrite, refused. *)
Theorem fresh_start_decided E c k h e r :
  record_of w e = Some r →
  decided w E (started c k h r (shelves_of e)) (Engine.fresh_start w E c k h e).
Proof. intros Hr. apply (write_decided w E _ _ e r Hr), fresh_start_decides. Qed.

(** [beginRewrite] opens a session only on a settled workspace, of the
    kind that fits its seal, from the key the caller expects to one that is
    neither the current key nor that of a rewrite that was given up; asked
    again by the holder it renews the lease, and anyone else is refused. *)
Theorem begin_rewrite_decided E c q e r :
  record_of w e = Some r →
  decided w E (rewrite_begun E c q r (shelves_of e)) (Engine.begin_rewrite w E c q e).
Proof. intros Hr. apply (write_decided w E _ _ e r Hr), begin_rewrite_decides. Qed.

(** [takeOverRewrite] hands the session to another key only when its
    lease is seen to have expired, and changes nothing of it but the lease. *)
Theorem take_over_rewrite_decided E c e r :
  record_of w e = Some r →
  decided w E (taken_over E c r (shelves_of e)) (Engine.take_over_rewrite w E c e).
Proof. intros Hr. apply (write_decided w E _ _ e r Hr), take_over_rewrite_decides. Qed.

(** [commitRewrite] swaps the generations only for the holder, for the
    session's key, and when as many items are staged as there are; it then
    drops the old generation and the session's uploads, and is a replay when
    it was done before. *)
Theorem commit_rewrite_decided E c k e r :
  record_of w e = Some r →
  decided w E (rewrite_ended c k r (shelves_of e)) (Engine.commit_rewrite w E c k e).
Proof. intros Hr. apply (write_decided w E _ _ e r Hr), commit_rewrite_decides. Qed.

End theorems.

(** ** Witnesses *)

Section witnesses.
Import Demo History.

Ltac there := apply the_record_some, (bool_decide_unpack (is_Some _)); vm_compute; exact I.

(** The deletion of the item that was stored. *)
Lemma delete_item_decided_witness :
  decided w (env 1003) (deleted alice Current item1 None (the_record stored) (shelves_of stored)) (Engine.delete_item w (env 1003) alice Current item1 None stored).
Proof. apply delete_item_decided. there. Defined.

(** A fresh start of a workspace that holds an item. *)
Lemma fresh_start_decided_witness :
  decided w (env 1003) (started alice k1 [] (the_record stored) (shelves_of stored)) (Engine.fresh_start w (env 1003) alice k1 [] stored).
Proof. apply fresh_start_decided. there. Defined.

(** A rotation of a sealed workspace. *)
Lemma begin_rewrite_decided_witness :
  decided w (env 1004) (rewrite_begun (env 1004) alice (mkRewriteRequest Rotate (Some k1) k2 []) (the_record sealed) (shelves_of sealed)) (Engine.begin_rewrite w (env 1004) alice (mkRewriteRequest Rotate (Some k1) k2 []) sealed).
Proof. apply begin_rewrite_decided. there. Defined.

(** A session whose lease has long expired. *)
Lemma take_over_rewrite_decided_witness :
  decided w (env 9000) (taken_over (env 9000) bob (the_record rewriting) (shelves_of rewriting)) (Engine.take_over_rewrite w (env 9000) bob rewriting).
Proof. apply take_over_rewrite_decided. there. Defined.

(** The end of a rewrite that had nothing to stage. *)
Lemma commit_rewrite_decided_witness :
  decided w (env 1005) (rewrite_ended alice k2 (the_record rewriting) (shelves_of rewriting)) (Engine.commit_rewrite w (env 1005) alice k2 rewriting).
Proof. apply commit_rewrite_decided. there. Defined.

End witnesses.
