(* ===== verification/UploadSpec.v ===== *)
(** What [beginUpload] and [commitUpload] decide, stated without the code's own
    helpers: where an upload may go, what the quota counts, which outcome is
    remembered and which ticket still runs, each as of the very look at the
    clock it was decided on. *)

From S2P Require Import Prelude Errors Random Ids Shelf Records Effects Rules Workspace Upload Rewrite Ledger Engine Operations Demo Safety Totality Replays Timed Decisions.

Section specs.
Context `{Ext : Externals}.
Context (E : Env).
Implicit Types (r : WorkspaceRecord) (v : Shelves) (now : N).

(** Where an upload goes, or why nowhere: outside a rewrite to the generation
    in use, on a settled workspace and under the key the caller says; in a
    rewrite to the staged generation, for the holder of the open session and
    under the session's next key. *)
Definition goes (c : Caller) (q : UploadRequest) r : outcome ApiError N :=
  match in_rewrite q, state r with
  | false, Rewriting _ => Err RewriteInProgress
  | false, Settled sl =>
      if decide (seal_key_id <$> sl = ur_expected_key_id q) then Ok (generation r) else Err KeyIdMismatch
  | true, Settled _ => Err NotFound
  | true, Rewriting s =>
      if decide (holder s ≠ key c) then Err LeaseHeld
      else if decide (Some (seal_key_id (next s)) = ur_expected_key_id q) then Ok (staged_generation s)
      else Err KeyIdMismatch
  end.

Definition too_large (q : UploadRequest) : Prop :=
  ∃ max, max_item_bytes (limits E) = Some max ∧ (max < ur_size q)%N.

(** What an upload's content already has in its place. *)
Definition stored_as v g (q : UploadRequest) : option ItemId :=
  oldest_with (items v g) (ItemId.content_key (ur_id q)).

(** A ticket for the same request that runs at [now]. *)
Definition running c q r now (u : UploadId) (t : Ticket) : Prop :=
  tickets r !! u = Some t ∧ t_owner t = key c ∧ t_request t = q ∧ (now < t_expires_at t)%N.

(** ** What the quota counts *)

(** The bytes the books give a generation, and those that uploads that run at
    [now] were promised, outside a rewrite or in it; without a width. *)
Definition on_the_books r (g : N) : N := default 0%N (used r !! g).
Definition promised now (rewriting : bool) (e : UploadId * Ticket) : bool :=
  bool_decide (now < t_expires_at e.2)%N && Bool.eqb (in_rewrite (t_request e.2)) rewriting.
Definition claims r now (rewriting : bool) : N :=
  Nsum ((λ e : UploadId * Ticket, ur_size (t_request e.2)) <$>
    List.filter (promised now rewriting) (map_to_list (tickets r))).

(** Where an upload outside a rewrite goes, the generation in use and the plain
    partition count together; the staged generation has the quota to itself. *)
Definition booked r (rewriting : bool) (g : N) : N :=
  if rewriting then on_the_books r g
  else (on_the_books r (generation r) + from_option (on_the_books r) 0 (plain r))%N.

(** The same as the machine counts: each sum of a list wraps around, and what is
    added to it stops at the greatest number. *)
Definition counted r now (rewriting : bool) (g : N) : N :=
  N.min u64_max ((if rewriting then booked r true g else booked r false g mod two64)
    + claims r now rewriting mod two64)%N.

(** [begin_upload] at [now], in the order the code decides. *)
Inductive begun now c q r v : outcome ApiError Begun → WorkspaceRecord → Shelves → list Cleanup → Prop :=
| begun_read_only :
    role c = ReadOnly → begun now c q r v (Err ForbiddenRole) r v []
| begun_nowhere e :
    role c = ReadWrite → goes c q r = Err e → begun now c q r v (Err e) r v []
| begun_too_large g :
    role c = ReadWrite → goes c q r = Ok g → too_large q → begun now c q r v (Err ItemTooLarge) r v []
| begun_stored g id us :
    role c = ReadWrite → goes c q r = Ok g → ¬ too_large q → stored_as v g q = Some id →
    (∀ u, u ∈ us ↔ ∃ t, tickets r !! u = Some t ∧ t_owner t = key c ∧ t_request t = q) →
    begun now c q r v (Ok (BegunStored (mkPutOutcome id false (in_rewrite q))))
      (drop_tickets us r) v (RemoveStaging <$> us)
| begun_again g u t note :
    role c = ReadWrite → goes c q r = Ok g → ¬ too_large q → stored_as v g q = None →
    running c q r now u t →
    begun now c q r v (Ok (BegunTicket (mkUploadTicket u (t_expires_at t)))) r (create_place note u v) []
| begun_no_room g :
    role c = ReadWrite → goes c q r = Ok g → ¬ too_large q → stored_as v g q = None →
    (∀ u t, ¬ running c q r now u t) →
    (quota_bytes (limits E) < N.min u64_max (counted r now (in_rewrite q) g + ur_size q))%N →
    begun now c q r v (Err QuotaExceeded) r v []
| begun_new g u note :
    role c = ReadWrite → goes c q r = Ok g → ¬ too_large q → stored_as v g q = None →
    (∀ u t, ¬ running c q r now u t) →
    (N.min u64_max (counted r now (in_rewrite q) g + ur_size q) ≤ quota_bytes (limits E))%N →
    tickets r !! u = None → tombstones r !! u = None →
    let until := ((now + staging_secs (limits E)) mod two64)%N in
    begun now c q r v (Ok (BegunTicket (mkUploadTicket u until)))
      (with_tickets (<[u := mkTicket (key c) q until]> (tickets r)) r) (create_place note u v) [].

(** ** What a commit goes by *)

(** The caller's outcome that is still kept at the [n]-th look, and the caller's
    ticket that still runs at it. *)
Definition remembered c u r (n : nat) (st : Tombstone) : Prop :=
  tombstones r !! u = Some st ∧ s_owner st = key c ∧ (clock E n < s_expires_at st)%N.
Definition holds c u r (n : nat) (t : Ticket) : Prop :=
  tickets r !! u = Some t ∧ t_owner t = key c ∧ (clock E n < t_expires_at t)%N.

(** The clock is looked at for an outcome only where there is one of the
    caller's. *)
Definition after_stone c u r (n : nat) : nat :=
  if decide (s_owner <$> tombstones r !! u = Some (key c)) then S n else n.

(** Whether the server looks into what is staged, and what it finds to be true:
    the size and the digest that [meta] announces are the content's. *)
Definition looked_into (q : UploadRequest) : Prop :=
  check_plaintext_content (limits E) = true ∧ ur_expected_key_id q = None.
Definition as_announced v u (q : UploadRequest) : Prop :=
  ∃ doc digest, json_from_slice (ur_meta q) = Some doc ∧ staging v !! u ≫= snd = Some digest ∧
    json_str doc "sha256" = Some (hex digest) ∧ json_u64 doc "size" = Some (ur_size q) ∧
    ItemId.content_key (ur_id q) = str_take 12 (hex digest).

(** The item of an earlier commit that was not recorded. *)
Definition left_by_a_commit v g (q : UploadRequest) : Prop :=
  ∃ it, items v g !! ur_id q = Some it ∧ len64 it.1 = ur_size q.

(** An upload that ended at the [n]-th look: its ticket goes, its outcome is
    kept for as long as uploads may take. *)
Definition over c u (out : PutOutcome) (n : nat) r : WorkspaceRecord :=
  with_tombstones (<[u := mkTombstone (key c) out ((clock E n + staging_secs (limits E)) mod two64)%N]> (tombstones r))
    (with_tickets (delete u (tickets r)) r).

(** [commit_upload] from the [n]-th look on, in the order the code decides: an
    outcome that is remembered, no ticket, nowhere to go, an earlier commit that
    was not recorded, content that is not as announced, content that is there
    already, content that is new. *)
Inductive finished c u r v n : outcome ApiError PutOutcome → WorkspaceRecord → Shelves → list Cleanup → Prop :=
| finished_before st :
    remembered c u r n st → finished c u r v n (Ok (s_outcome st)) r v []
| finished_unknown :
    (∀ st, ¬ remembered c u r n st) → (∀ t, ¬ holds c u r (after_stone c u r n) t) →
    finished c u r v n (Err NotFound) r v []
| finished_nowhere t e :
    (∀ st, ¬ remembered c u r n st) → holds c u r (after_stone c u r n) t →
    goes c (t_request t) r = Err e → finished c u r v n (Err e) r v []
| finished_unrecorded t g :
    (∀ st, ¬ remembered c u r n st) → holds c u r (after_stone c u r n) t →
    goes c (t_request t) r = Ok g → staging v !! u = None → left_by_a_commit v g (t_request t) →
    let out := mkPutOutcome (ur_id (t_request t)) true (in_rewrite (t_request t)) in
    finished c u r v n (Ok out)
      (over c u out (S (after_stone c u r n))
        (with_used (<[g := (true_bytes (items v g) mod two64)%N]> (used r)) r))
      v [RemoveStaging u]
| finished_nothing_staged t g :
    (∀ st, ¬ remembered c u r n st) → holds c u r (after_stone c u r n) t →
    goes c (t_request t) r = Ok g → staging v !! u = None → ¬ left_by_a_commit v g (t_request t) →
    finished c u r v n (Err ContentMismatch) r v []
| finished_mismatch t g content :
    (∀ st, ¬ remembered c u r n st) → holds c u r (after_stone c u r n) t →
    goes c (t_request t) r = Ok g → staging v !! u = Some content →
    len64 content.1 ≠ ur_size (t_request t) ∨ looked_into (t_request t) ∧ ¬ as_announced v u (t_request t) →
    finished c u r v n (Err ContentMismatch) r v []
| finished_found t g content id :
    (∀ st, ¬ remembered c u r n st) → holds c u r (after_stone c u r n) t →
    goes c (t_request t) r = Ok g → staging v !! u = Some content →
    len64 content.1 = ur_size (t_request t) → (looked_into (t_request t) → as_announced v u (t_request t)) →
    stored_as v g (t_request t) = Some id →
    let out := mkPutOutcome id false (in_rewrite (t_request t)) in
    finished c u r v n (Ok out) (over c u out (S (after_stone c u r n)) r) v [RemoveStaging u]
| finished_published t g content :
    (∀ st, ¬ remembered c u r n st) → holds c u r (after_stone c u r n) t →
    goes c (t_request t) r = Ok g → staging v !! u = Some content →
    len64 content.1 = ur_size (t_request t) → (looked_into (t_request t) → as_announced v u (t_request t)) →
    stored_as v g (t_request t) = None →
    let out := mkPutOutcome (ur_id (t_request t)) true (in_rewrite (t_request t)) in
    finished c u r v n (Ok out)
      (over c u out (S (S (after_stone c u r n)))
        (with_used (<[g := ((on_the_books r g + ur_size (t_request t)) mod two64)%N]> (used r)) r))
      (move_in u g (ur_id (t_request t)) content.1
        (mkEnvelope (ur_meta (t_request t)) (ur_expected_key_id (t_request t))
          (clock E (S (after_stone c u r n)))) v)
      [RemoveStaging u].
End specs.

(** ** The code's helpers say the same *)

Section helpers.
Context `{Ext : Externals}.
Context (E : Env).
Implicit Types (r : WorkspaceRecord) (v : Shelves) (now : N).

Lemma filter_perm {A} (p : A → bool) l l' : l ≡ₚ l' → List.filter p l ≡ₚ List.filter p l'.
Proof.
  induction 1 as [|x l l' H IH|x y l|l l1 l2 H1 IH1 H2 IH2]; simpl; [done|..].
  - destruct (p x); [by constructor|done].
  - destruct (p x), (p y); try done. by constructor.
  - by etrans.
Qed.

Lemma filter_fmap {A B} (p : B → bool) (f : A → B) l :
  List.filter p (f <$> l) = f <$> List.filter (p ∘ f) l.
Proof. induction l as [|x l IH]; [done|]. cbn. destruct (p (f x)); cbn; by rewrite IH. Qed.

Lemma filter_agree {A} (p q : A → bool) l : (∀ x, p x = q x) → List.filter p l = List.filter q l.
Proof. intros Hpq. induction l as [|x l IH]; [done|]. cbn. by rewrite Hpq, IH. Qed.

Lemma ltb_decide (n k : N) : (n <? k)%N = bool_decide (n < k)%N.
Proof. apply eq_bool_prop_intro. rewrite bool_decide_spec. by rewrite Is_true_true, N.ltb_lt. Qed.

Lemma reserved_by_claims r now rewriting :
  reserved_by r now rewriting = (claims r now rewriting mod two64)%N.
Proof.
  unfold reserved_by, claims. rewrite wsum_Nsum. f_equal. apply Nsum_perm.
  unfold btree_values. rewrite filter_fmap, <- list_fmap_compose.
  rewrite (filter_agree _ (promised now rewriting)) by (intros e; unfold promised; cbn; by rewrite ltb_decide).
  apply fmap_Permutation, filter_perm, btree_iter_perm.
Qed.

(** A new ticket adds its own size, if it runs and is of this kind. *)
Lemma claims_insert r u t now rewriting :
  tickets r !! u = None →
  claims (with_tickets (<[u := t]> (tickets r)) r) now rewriting =
    ((if promised now rewriting (u, t) then ur_size (t_request t) else 0) + claims r now rewriting)%N.
Proof.
  intros Hu. unfold claims. simpl tickets.
  rewrite (Nsum_perm _ ((λ e : UploadId * Ticket, ur_size (t_request e.2)) <$>
    List.filter (promised now rewriting) ((u, t) :: map_to_list (tickets r)))).
  - simpl. by destruct (promised now rewriting (u, t)).
  - by apply fmap_Permutation, filter_perm, map_to_list_insert.
Qed.

Lemma held_bytes_counted c q r now g :
  goes c q r = Ok g → held_bytes r now (in_rewrite q) g = counted r now (in_rewrite q) g.
Proof.
  unfold goes, held_bytes, counted. intros Hg. rewrite !reserved_by_claims. unfold sadd.
  destruct (in_rewrite q); [by rewrite N.min_comm|]. rewrite (N.min_comm u64_max). do 2 f_equal.
  destruct (state r) as [sl|s] eqn:Hs; [|done]. unfold used_bytes, staged_bytes, live_generations. rewrite Hs, app_nil_r.
  unfold wsub. rewrite N.sub_0_r, wsum_Nsum, <- N.Div0.add_mod_idemp_r, N.Div0.mod_same, N.add_0_r.
  rewrite N.Div0.mod_mod. unfold booked. f_equal. unfold used_of, on_the_books.
  destruct (plain r); simpl; lia.
Qed.

Lemma quota_as_counted c q r now g :
  goes c q r = Ok g →
  sadd (held_bytes r now (in_rewrite q) g) (ur_size q) =
    N.min u64_max (counted r now (in_rewrite q) g + ur_size q).
Proof. intros Hg. rewrite (held_bytes_counted c q r now g Hg). unfold sadd. apply N.min_comm. Qed.

Lemma running_spec c q r now u t :
  (u, t) ∈ btree_iter (tickets r) →
  (now <? t_expires_at t)%N && is_same_upload c q t = true ↔ running c q r now u t.
Proof.
  rewrite elem_of_btree_iter, andb_true_iff, N.ltb_lt. unfold is_same_upload, running.
  rewrite bool_decide_eq_true. tauto.
Qed.

Lemma checks_content_spec q : checks_content E q = true ↔ looked_into E q.
Proof. unfold checks_content, looked_into. by rewrite andb_true_iff, bool_decide_eq_true. Qed.

Lemma honest_spec v u q : honest v u q = true ↔ as_announced v u q.
Proof.
  unfold honest, as_announced. split.
  - destruct (json_from_slice _) as [doc|]; [|done].
    destruct (staging v !! u ≫= snd) as [digest|]; [|done]. cbn.
    destruct (json_str doc "sha256") as [sha|] eqn:Hs; [|done].
    destruct (json_u64 doc "size") as [size|] eqn:Hz; [|done].
    rewrite !andb_true_iff, N.eqb_eq, !String.eqb_eq. intros [[<- ->] Hk]. by exists doc, digest.
  - intros (doc & digest & -> & -> & Hs & Hz & Hk).
    change (hex <$> Some digest) with (Some (hex digest)). rewrite Hs, Hz, Hk.
    by rewrite N.eqb_refl, !String.eqb_refl.
Qed.

Lemma too_large_spec q :
  match max_item_bytes (limits E) with Some max => (max <? ur_size q)%N | None => false end = true ↔ too_large E q.
Proof.
  unfold too_large. destruct (max_item_bytes (limits E)) as [max|].
  - rewrite N.ltb_lt. naive_solver.
  - naive_solver.
Qed.
End helpers.

Section steps.
Context {Sh RS : Type} `{Ext : Externals} `{Shelf : !ItemShelf Sh} `{Lawful : !LawfulShelf Sh}
  `{Random : !RandomSource RS}.
Context (E : Env).
Implicit Types (r : WorkspaceRecord) (v : Shelves) (n : nat).

Lemma upload_target_goes c q :
  reads (Sh := Sh) (RS := RS) (upload_target c q) (λ r _ x, x = goes c q r).
Proof.
  intros r v a. unfold upload_target, goes. destruct (in_rewrite q).
  - unfold rewrite_target, held_session. do 3 rule_step. cbn [andthenr].
    destruct (state r) as [sl|s]; [by rule_step|]. rule_if Hh.
    + rewrite decide_False by (intros Hne; by apply Hne). rule_step. cbn [andthenr].
      rule_if Hk; rule_step; [by rewrite decide_True|by rewrite decide_False].
    + rule_step. cbn. by rewrite decide_True.
  - unfold check_writable. do 3 rule_step. cbn [andthenr].
    destruct (state r) as [sl|s]; [|by rule_step].
    rule_if Hk; rule_steps; [by rewrite decide_True|by rewrite decide_False].
Qed.

Lemma wpt_tombstone {A} c u (f : option Tombstone → R Sh RS A) (Q : post A) r v a n :
  (∀ st, remembered E c u r n st → wpt (f (Some st)) Q r v a (after_stone c u r n)) →
  ((∀ st, ¬ remembered E c u r n st) → wpt (f None) Q r v a (after_stone c u r n)) →
  wpt (tombstone E c u ≫= f) Q r v a n.
Proof.
  intros Hsome Hnone. unfold tombstone, after_stone, remembered in *. timed_step. timed_step. timed_step.
  destruct (tombstones r !! u) as [st|] eqn:Hst; cbn in Hsome, Hnone.
  2: { timed_step. timed_step. apply Hnone. naive_solver. }
  case_bool_decide as Ho.
  - rewrite decide_True in Hsome, Hnone by congruence. timed_step. timed_step. timed_step. timed_step.
    destruct (N.ltb_spec (clock E n) (s_expires_at st)); [by apply Hsome|]. apply Hnone.
    intros st' ([= <-] & _ & ?). lia.
  - rewrite decide_False in Hsome, Hnone by congruence. timed_step. timed_step. apply Hnone. naive_solver.
Qed.

Lemma wpt_live_ticket {A} c u (f : option Ticket → R Sh RS A) (Q : post A) r v a n :
  (∀ t, holds E c u r n t → wpt (f (Some t)) Q r v a (S n)) →
  ((∀ t, ¬ holds E c u r n t) → ∀ n, wpt (f None) Q r v a n) →
  wpt (live_ticket E c u ≫= f) Q r v a n.
Proof.
  intros Hsome Hnone. unfold live_ticket, holds in *. timed_step. timed_step. timed_step.
  destruct (tickets r !! u) as [t|] eqn:Ht.
  2: { timed_step. timed_step. apply Hnone. naive_solver. }
  case_bool_decide as Ho.
  - timed_step. timed_step. timed_step. timed_step.
    destruct (N.ltb_spec (clock E n) (t_expires_at t)); [by apply Hsome|]. apply Hnone.
    intros t' ([= <-] & _ & ?). lia.
  - timed_step. timed_step. apply Hnone. naive_solver.
Qed.

Lemma wpt_finish_upload c u t id made (Q : post PutOutcome) r v a n :
  t_owner t = key c →
  (let out := mkPutOutcome id made (in_rewrite (t_request t)) in
   Q (Ok out) (over E c u out n r) v (a ++ [RemoveStaging u])) →
  wpt (Sh := Sh) (RS := RS) (finish_upload E u t id made) Q r v a n.
Proof. intros Ho HQ s <- <- <- <-. unfold over in HQ. rewrite <- Ho in HQ. exact HQ. Qed.

Lemma wpt_finish_then {A} c u t id made (f : PutOutcome → R Sh RS A) (Q : post A) r v a n :
  t_owner t = key c →
  (let out := mkPutOutcome id made (in_rewrite (t_request t)) in
   wpt (f out) Q (over E c u out n r) v (a ++ [RemoveStaging u]) (S n)) →
  wpt (Sh := Sh) (RS := RS) (finish_upload E u t id made ≫= f) Q r v a n.
Proof. intros Ho Hf s <- <- <- <-. unfold over in Hf. rewrite <- Ho in Hf. by apply Hf. Qed.
End steps.

Section uploads.
Context {Sh RS : Type} `{Ext : Externals} `{Shelf : !ItemShelf Sh} `{Lawful : !LawfulShelf Sh}
  `{Random : !RandomSource RS}.
Context (E : Env).
Implicit Types (r : WorkspaceRecord) (v : Shelves) (n : nat).

(** The end of a step that was cut short. *)
Ltac cut_short := intros ? [->| ->]; cbn [andthent]; auto with rules.
Ltac cut_shelf := intros ? ? [->| ->] _; cbn [andthent]; auto with rules.

Section begin.
Context `{Unique : !NonRepeating RS}.

Lemma begin_upload_decides c q r v n :
  size (tickets r) + size (tombstones r) < fuel E → (N.of_nat (fuel E) ≤ horizon)%N →
  wpt (Sh := Sh) (RS := RS) (begin_upload E c q) (decides r (begun E (clock E n) c q r v)) r v [] n.
Proof.
  intros Hrounds Hhorizon. unfold begin_upload. timed_step. timed_step. unfold must_write.
  destruct (role c) eqn:Hrole; cbn [andthent]; [|by apply decides_err, begun_read_only].
  timed_step. eapply wpr_reads; [apply upload_target_goes|]. intros x ->.
  destruct (goes c q r) as [g|e| |] eqn:Hg; cbn [andthent];
    [|by apply decides_err, begun_nowhere|exfalso; revert Hg; unfold goes; by repeat case_match..].
  destruct (match max_item_bytes (limits E) with Some _ => _ | None => _ end) eqn:Hmax.
  { apply too_large_spec in Hmax. timed_step. rule_step. by eapply decides_err, begun_too_large. }
  assert (¬ too_large E q) as Hfits by (rewrite <- too_large_spec, Hmax; done).
  timed_step. eapply wpr_reads; [apply find_in_answers|]. intros x [->|Hx]; [|revert x Hx; cut_short].
  cbn [andthent]. fold (stored_as v g q). destruct (stored_as v g q) as [id|] eqn:Hold.
  { do 2 timed_step. apply wpt_wpr. rule_step. apply wpr_forfeit_all. rule_steps. eapply begun_stored; [done..|].
    intros u. setoid_rewrite elem_of_uploads_where. unfold is_same_upload. by setoid_rewrite bool_decide_eq_true. }
  do 3 timed_step. destruct (List.find _ _) as [[u t]|] eqn:Hlive.
  { apply find_Some_spec in Hlive as [Hin Hrun]. apply (running_spec c q r _ u t Hin) in Hrun.
    timed_step. apply wpr_stage_create; [|cut_shelf].
    intros note. cbn [andthent]. timed_step. rule_step. by eapply begun_again. }
  assert (∀ u t, ¬ running c q r (clock E n) u t) as Hnone.
  { intros u t Hrun. assert ((u, t) ∈ btree_iter (tickets r)) as Hin by apply elem_of_btree_iter, Hrun.
    apply (running_spec c q r _ u t Hin) in Hrun. apply (find_None_spec _ _ _ Hlive) in Hin. cbn in Hin. congruence. }
  rewrite (quota_as_counted c q r _ g Hg). destruct (N.ltb_spec (quota_bytes (limits E))
    (N.min u64_max (counted r (clock E n) (in_rewrite q) g + ur_size q))) as [Hq|Hq].
  { timed_step. rule_step. by eapply decides_err, begun_no_room. }
  timed_step. apply wpr_fresh_found; [done..|]. intros u Hu Hu'. cbn [andthent].
  timed_step. apply wpr_stage_create; [|cut_shelf]. intros note. cbn [andthent].
  do 3 timed_step. rule_step. by eapply begun_new.
Qed.
End begin.

Lemma publish_or_find_decides c u t g content r v n :
  let n1 := after_stone c u r n in
  (∀ st, ¬ remembered E c u r n st) → holds E c u r n1 t → goes c (t_request t) r = Ok g →
  staging v !! u = Some content → len64 content.1 = ur_size (t_request t) →
  (looked_into E (t_request t) → as_announced v u (t_request t)) →
  wpt (Sh := Sh) (RS := RS) (out ← publish_or_find E u t g; finish_upload E u t out.1 out.2)
    (decides r (finished E c u r v n)) r v [] (S n1).
Proof.
  intros n1 Hgone Ht Hg Hu Hsz Hhonest. pose proof Ht as (_ & Ho & _). unfold publish_or_find.
  timed_step. timed_step. eapply wpr_reads; [apply find_in_answers|].
  intros x [->|Hx]; [|revert x Hx; cut_short]. cbn [andthent].
  fold (stored_as v g (t_request t)). destruct (stored_as v g (t_request t)) as [id|] eqn:Hold.
  { timed_step. timed_step. cbn. apply (wpt_finish_upload E c); [done|]. by eapply finished_found. }
  pose proof (new_content_fresh _ _ _ (oldest_with_new _ _ _ Hold)) as Hfresh.
  do 4 timed_step. eapply wpr_publish; [done|done| |cut_shelf]. cbn [andthent].
  do 2 timed_step. apply wpr_point; [|done]. cbn [andthent].
  do 2 timed_step. unfold add_used. rule_step. cbn [andthent]. timed_step. timed_step. cbn.
  apply (wpt_finish_upload E c); [done|]. by eapply finished_published.
Qed.

Lemma commit_upload_decides c u r v n :
  wpt (Sh := Sh) (RS := RS) (commit_upload E c u) (decides r (finished E c u r v n)) r v [] n.
Proof.
  unfold commit_upload. apply wpt_tombstone; [intros; timed_step; rule_step; by apply finished_before|].
  intros Hgone. apply wpt_live_ticket.
  2: { intros Hno n'. timed_step. rule_step. cbn [ok_or andthent]. by apply decides_err, finished_unknown. }
  intros t Ht. pose proof Ht as (_ & Ho & _). timed_step. rule_step. cbn [ok_or andthent].
  timed_step. eapply wpr_reads; [apply upload_target_goes|]. intros x ->.
  destruct (goes c (t_request t) r) as [g|e| |] eqn:Hg; cbn [andthent];
    [|by eapply decides_err, finished_nowhere|exfalso; revert Hg; unfold goes; by repeat case_match..].
  timed_step. apply wpr_stage_size; [|cut_short]. cbn [andthent].
  destruct (staging v !! u) as [content|] eqn:Hu; cbn.
  - do 2 timed_step. destruct (bool_decide_reflect (Some (len64 content.1) = Some (ur_size (t_request t)))) as [Hsz|Hsz].
    2: { timed_step. rule_step. eapply decides_err, finished_mismatch; try done. left. congruence. }
    injection Hsz as Hsz. timed_step. destruct (checks_content E (t_request t)) eqn:Hc.
    + apply wpr_check_plaintext; [by rewrite Hu|].
      intros x [->|[->| ->]]; [|cbn [andthent]; auto with rules..].
      destruct (honest v u (t_request t)) eqn:Hh; cbn [andthent].
      * eapply publish_or_find_decides; try done. intros _. by apply honest_spec.
      * eapply decides_err, finished_mismatch; try done. right. rewrite <- honest_spec, Hh.
        split; [by apply checks_content_spec|done].
    + rule_step. cbn [andthent]. eapply publish_or_find_decides; try done.
      intros H. apply checks_content_spec in H. congruence.
  - assert (¬ left_by_a_commit v g (t_request t) →
      wpt (Sh := Sh) (RS := RS) (throw ContentMismatch) (decides r (finished E c u r v n)) r v []
        (S (after_stone c u r n))) as Hbad.
    { intros Hno. timed_step. rule_step. by eapply decides_err, finished_nothing_staged. }
    unfold finish_unrecorded. do 2 timed_step. apply wpr_get; [|cut_short]. cbn [andthent].
    unfold left_by_a_commit in Hbad. destruct (items v g !! _) as [it|] eqn:Hi; cbn.
    2: { do 2 timed_step. cbn. apply Hbad. naive_solver. }
    destruct (N.eqb_spec (len64 it.1) (ur_size (t_request t))) as [Hsz|Hsz].
    2: { do 2 timed_step. cbn. apply Hbad. intros (it' & [= <-] & ?). done. }
    do 2 timed_step. apply wpr_bytes; [|cut_short]. cbn [andthent]. do 3 timed_step.
    apply (wpt_finish_then E c); [done|]. cbn. timed_step. rule_step.
    eapply finished_unrecorded; try done. by exists it.
Qed.
End uploads.

(** ** The theorems *)

Section theorems.
Context {Sh L RS : Type} `{Ext : Externals} `{Shelf : !ItemShelf Sh} `{Lawful : !LawfulShelf Sh}
  `{Led : !Ledger L} `{LawfulLed : !LawfulLedger L} `{Random : !RandomSource RS}.
Context (w : WorkspaceId).
Implicit Types (e : Engine Sh L RS) (r : WorkspaceRecord).

Lemma commit_decided E c u e r :
  record_of w e = Some r →
  decided w E (finished E c u r (shelves_of e) (e_ticks e)) (Engine.commit_upload w E c u e).
Proof. intros Hr. by apply (ran_at_decided w E _ _ e r Hr), wpt_ran_at, commit_upload_decides. Qed.

(** C13: [commitUpload] decides as [finished] says, each time by the look at the
    clock that is due: the remembered outcome, the ticket that runs, where it
    goes, an earlier commit that was not recorded, whether what is staged is as
    announced, content that is there already, and then the item is published
    and booked.  It may be cut short, but not where neither shelf nor ledger
    fails and no fault is injected. *)
Theorem commit_upload_decided E c u e r :
  record_of w e = Some r →
  decided w E (finished E c u r (shelves_of e) (e_ticks e)) (Engine.commit_upload w E c u e) ∧
  (calm Sh L E → ¬ interrupted (Engine.commit_upload w E c u e).1).
Proof.
  intros Hr. split; [by apply commit_decided|]. intros Hcalm Hi. by apply calm_commit_answers in Hi.
Qed.

Section begin.
Context `{Unique : !NonRepeating RS}.

Lemma begin_decided E c q e r :
  record_of w e = Some r → rounds_enough w E e →
  decided w E (begun E (clock E (e_ticks e)) c q r (shelves_of e)) (Engine.begin_upload w E c q e).
Proof.
  intros Hr [Hn Hh]. apply (ran_at_decided w E _ _ e r Hr), wpt_ran_at.
  pose proof (begin_upload_decides E c q r (shelves_of e) (e_ticks e) (Hn r Hr) Hh) as Hd. exact Hd.
Qed.

(** C12: [beginUpload] decides as [begun] says, by what the clock shows at its one
    look: the role, where the upload goes, the size of one item, content that
    is there already (the caller's tickets for it are dropped), a ticket that
    still runs (which is given again), the quota, and then a new ticket with a
    new id.  It may be cut short, but not where neither shelf nor ledger fails
    and no fault is injected; and its search for an id ends. *)
Theorem begin_upload_decided E c q e r :
  record_of w e = Some r → rounds_enough w E e →
  decided w E (begun E (clock E (e_ticks e)) c q r (shelves_of e)) (Engine.begin_upload w E c q e) ∧
  (calm Sh L E → ¬ interrupted (Engine.begin_upload w E c q e).1).
Proof.
  intros Hr Hn. split; [by apply begin_decided|]. intros (Hf & Hsh & Hl) Hi.
  assert (unfailing true (Engine.begin_upload (Sh := Sh) (L := L) (RS := RS) w E c q)) as H
    by (apply unfailing_engine_write; [done|]; unfailing).
  specialize (H e). by destruct Hi as [Hi|Hi]; rewrite Hi in H.
Qed.

(** What the quota bounds, as the call sees it at [now]: in a rewrite the staged
    generation with the rewrite's uploads, otherwise the generation in use and
    the plain partition with the other uploads. *)
Definition held r (now : N) (rewriting : bool) : N :=
  (match state r with
   | Rewriting s => booked r rewriting (staged_generation s)
   | Settled _ => booked r rewriting (generation r)
   end + claims r now rewriting)%N.

Lemma held_with_ticket r u t now rewriting :
  tickets r !! u = None →
  held (with_tickets (<[u := t]> (tickets r)) r) now rewriting =
    ((if promised now rewriting (u, t) then ur_size (t_request t) else 0) + held r now rewriting)%N.
Proof.
  intros Hu. unfold held. rewrite claims_insert by done. unfold booked, on_the_books. cbn.
  destruct (state r), rewriting; lia.
Qed.

(** C14: A new ticket fits the quota, for an ordinary upload and for one of a
    rewrite: what is booked where it goes and what is promised to the uploads
    that run when the call looks at the clock, the new one included, are
    together no more than the quota.  The ticket runs from that look for as
    long as uploads may take.  The sums are true ones: before the call they were
    below the 2^64 that the machine counts to, and the quota is below the
    number at which its sums stop. *)
Theorem tickets_fit_the_quota E c q e e' r t :
  record_of w e = Some r → rounds_enough w E e →
  Engine.begin_upload w E c q e = (Ok (BegunTicket t), e') →
  tickets r !! ticket_upload_id t = None →
  (quota_bytes (limits E) < u64_max)%N →
  let now := clock E (e_ticks e) in
  (held r now (in_rewrite q) < two64)%N →
  ticket_until t = ((now + staging_secs (limits E)) mod two64)%N ∧
  ∃ r', record_of w e' = Some r' ∧
    tickets r' !! ticket_upload_id t = Some (mkTicket (key c) q (ticket_until t)) ∧
    (held r' now (in_rewrite q) ≤ quota_bytes (limits E))%N.
Proof.
  intros Hr Hn Hx Hnew Hquota now Hwidth. pose proof (begin_decided E c q e r Hr Hn) as Hd. rewrite Hx in Hd.
  destruct Hd as [[|]|(r' & v1 & a & left & Hspec & Hr' & _)]; [done..|].
  inversion Hspec as [| | | |g u t' note _ _ _ _ Hrun| |g u note _ Hg _ _ _ Hfits Hu _ until]; subst.
  { cbn in Hnew. destruct Hrun as [Hrun _]. congruence. }
  split; [done|]. eexists. split_and!; [exact Hr'|by apply lookup_insert_eq|].
  fold now in Hfits |- *. rewrite held_with_ticket by done.
  unfold promised. cbn [snd t_request t_expires_at]. rewrite eqb_reflx, andb_true_r.
  unfold held, counted, booked, goes in *. cbn [snd t_request t_expires_at] in *.
  destruct (in_rewrite q), (state r) as [sl|s]; try done; repeat case_decide; simplify_eq;
    case_bool_decide; unfold u64_max, two64 in *; rewrite ?N.mod_small in Hfits by lia; lia.
Qed.
End begin.
End theorems.

(** ** Witnesses *)

Section witnesses.
Import Demo History.

Ltac there := apply the_record_some, (bool_decide_unpack (is_Some _)); vm_compute; exact I.
Ltac rounds := split; [intros r Hr; assert (r = the_record opened) as -> by
  (unfold the_record; rewrite Hr; reflexivity); vm_compute; lia|vm_compute; discriminate].

(** A first upload to an empty workspace. *)
Lemma begin_upload_decided_witness :
  decided w (env 1000) (begun (env 1000) 1000 alice (plain_request item1) (the_record opened) (shelves_of opened))
    (Engine.begin_upload w (env 1000) alice (plain_request item1) opened) ∧
  (calm Shelves Records (env 1000) →
    ¬ interrupted (Engine.begin_upload w (env 1000) alice (plain_request item1) opened).1).
Proof. apply (begin_upload_decided w (env 1000)); [there|rounds]. Defined.

(** The commit of content that was sent. *)
Lemma commit_upload_decided_witness :
  decided w (env 1002) (finished (env 1002) alice u1 (the_record sent) (shelves_of sent) (e_ticks sent))
    (Engine.commit_upload w (env 1002) alice u1 sent) ∧
  (calm Shelves Records (env 1002) → ¬ interrupted (Engine.commit_upload w (env 1002) alice u1 sent).1).
Proof. apply commit_upload_decided. there. Defined.

(** The first ticket of an empty workspace: three bytes are promised. *)
Lemma tickets_fit_the_quota_witness :
  87400%N = ((1000 + staging_secs (limits (env 1000))) mod two64)%N ∧
  ∃ r', record_of w (Engine.begin_upload w (env 1000) alice (plain_request item1) opened).2 = Some r' ∧
    tickets r' !! u1 = Some (mkTicket (key alice) (plain_request item1) 87400) ∧
    (held r' 1000 false ≤ quota_bytes (limits (env 1000)))%N.
Proof.
  assert ((Engine.begin_upload w (env 1000) alice (plain_request item1) opened).1 =
    Ok (BegunTicket (mkUploadTicket u1 87400))) as Hx by (vm_compute; reflexivity).
  apply (tickets_fit_the_quota w (env 1000) alice (plain_request item1) opened _ (the_record opened)
    (mkUploadTicket u1 87400)).
  - there.
  - rounds.
  - exact (fst_is _ _ Hx).
  - apply (bool_decide_unpack _). vm_compute. exact I.
  - reflexivity.
  - vm_compute. reflexivity.
Defined.
End witnesses.
