(* ===== verification/Sessions.v ===== *)
(** What a rewrite session excludes, and what stays true from then on: the
    items it re-encrypts stand still, only its holder stages, and the key of
    a rewrite that was given up is refused for good.  Then what a key that
    only reads cannot do. *)

From S2P Require Import Prelude Errors Random Ids Shelf Records Effects Rules Workspace Upload Rewrite Ledger Engine Operations Demo Safety Replays Timed Decisions UploadSpec.

(** ** The source of a rewrite *)

(** What a rewrite reads: the generations that are not the staged one. *)
Definition sources (r : WorkspaceRecord) : list N := [generation r] ++ option_list (plain r).

Lemma sources_live r g : g ∈ sources r → g ∈ live_generations r.
Proof. unfold sources, live_generations. set_solver. Qed.

Lemma staged_no_source r s g :
  RecOk r → state r = Rewriting s → g ∈ sources r → staged_generation s ≠ g.
Proof.
  intros Hr Hs Hg <-. pose proof (ok_distinct _ Hr) as Hnd. unfold live_generations in Hnd.
  rewrite Hs, app_assoc in Hnd. apply NoDup_app in Hnd as (_ & Hnd & _).
  apply (Hnd _ Hg). by apply list_elem_of_singleton.
Qed.

(** During a rewrite, what goes in goes to the staged generation. *)
Lemma target_rewriting r s q g : state r = Rewriting s → target r q = Some g → g = staged_generation s.
Proof.
  intros Hs. unfold target. rewrite Hs. destruct (in_rewrite q); [|done].
  case_bool_decide; congruence.
Qed.

Lemma effect_frozen d r v r' v' a s g :
  RecOk r → effect d r v r' v' a → state r = Rewriting s → g ∈ sources r → items v' g = items v g.
Proof.
  intros Hr He Hs Hg. pose proof (staged_no_source _ _ _ Hr Hs Hg) as Hne.
  assert (is_rewriting r = true) as Hre by (unfold is_rewriting; by rewrite Hs).
  destruct He; subst; rewrite ?items_create_place; try done; [congruence|].
  rewrite items_move_in, decide_False; [done|].
  match goal with H : target r _ = Some _ |- _ => by apply (target_rewriting r s) in H as -> end.
Qed.

Lemma torn_frozen d r v v' s g :
  RecOk r → torn d r v v' → state r = Rewriting s → g ∈ sources r → items v' g = items v g.
Proof.
  intros Hr [v1 Hv|p g1 id it Hd Hre|u t g1 c e Hu Ht] Hs Hg; [by apply Hv| |].
  - unfold is_rewriting in Hre. by rewrite Hs in Hre.
  - pose proof (staged_no_source _ _ _ Hr Hs Hg) as Hne. rewrite items_move_in, decide_False; [done|].
    by apply (target_rewriting r s) in Ht as ->.
Qed.

Lemma swept_items r a v v' left g :
  swept a v v' left → Forall (safe_cleanup r) a → g ∈ live_generations r → items v' g = items v g.
Proof.
  induction 1 as [a v|c a v v' left Hs IH|c a v v' left Hs IH]; intros Ha Hg; [done|..];
    apply Forall_cons in Ha as [Hc Ha]; [|by apply IH].
  rewrite IH by done. by apply (cleaned_items r).
Qed.

Lemma stepped_frozen d r v r' v' s g :
  RecOk r → stepped d r v r' v' → state r = Rewriting s → g ∈ sources r → g ∈ live_generations r' →
  items v' g = items v g.
Proof.
  intros Hr [v1 Ht|r1 v1 a v2 left He Hs] Hst Hg Hg'; [by eapply torn_frozen|].
  pose proof (effect_safe _ _ _ _ _ _ Hr He) as Hsafe.
  rewrite (swept_items r1 a v1 v2 left) by done. by eapply effect_frozen.
Qed.

(** Where the state goes from an open session: nowhere, or to one of its two
    ends. *)
Lemma effect_session d r v r' v' a s :
  effect d r v r' v' a → state r = Rewriting s →
  (∃ s', state r' = Rewriting s' ∧ next s' = next s ∧ prior s' = prior s ∧
    staged_generation s' = staged_generation s ∧ generation r' = generation r) ∨
  (state r' = Settled (Some (next s)) ∧ generation r' = staged_generation s) ∨
  (state r' = Settled (prior s) ∧ generation r' = generation r ∧
    seal_key_id (next s) ∈ ended_rewrites r').
Proof.
  intros He Hs. destruct He; subst; simplify_eq/=; rewrite ?Hs in *; simplify_eq/=;
    try (left; eexists; split_and!; done); [by right; left|].
  right; right. split_and!; [done..|]. set_solver.
Qed.

(** ** What comes later *)

Section later.
Context {Sh L RS : Type} `{Ext : Externals} `{Shelf : !ItemShelf Sh} `{Lawful : !LawfulShelf Sh}
  `{Led : !Ledger L} `{LawfulLed : !LawfulLedger L} `{Random : !RandomSource RS}.
Context (w : WorkspaceId).
Implicit Types (e : Engine Sh L RS) (r : WorkspaceRecord) (v : Shelves).

Inductive later e : Engine Sh L RS → Prop :=
| later_now : later e e
| later_exec e' E o : later e e' → room_in (record_of w e') → later e (exec w E o e').2
| later_restart e' e'' :
    later e e' → e_shelf e'' = e_shelf e' → e_ledger e'' = e_ledger e' → later e e''.

Lemma later_reach e e' : reach w e → later e e' → reach w e'.
Proof.
  induction 2; eauto using reach_exec, reach_restart.
Qed.

(** One operation on a workspace that has a record. *)
Lemma exec_did E o e r :
  reach w e → record_of w e = Some r →
  ∃ r' left, record_of w (exec w E o e).2 = Some r' ∧
    did (deletes o) anything r (shelves_of e) (exec w E o e).1 r' (shelves_of (exec w E o e).2) left.
Proof.
  intros Hreach Hr. pose proof (exec_step w E o e (reach_sound w e Hreach)) as Hran.
  destruct (exec w E o e) as [x e']. cbn [fst snd].
  destruct (record_of w e') as [r'|] eqn:Hr'.
  - destruct (engine_ran_some w _ _ _ _ _ _ Hran Hr') as (left & Hdid & _). exists r', left.
    split; [done|]. unfold starts_from in Hdid. by rewrite Hr in Hdid.
  - destruct (engine_ran_none w _ _ _ _ _ Hran Hr') as [Hn _]. congruence.
Qed.

Lemma later_ended e e' r k :
  reach w e → later e e' → record_of w e = Some r → k ∈ ended_rewrites r →
  ∃ r', record_of w e' = Some r' ∧ k ∈ ended_rewrites r'.
Proof.
  intros Hreach Hl Hr Hk. induction Hl as [|e' E o Hl IH Hroom|e' e'' Hl IH Hs Hled]; [by exists r|..].
  - destruct IH as (r' & Hr' & Hk'). destruct (exec_did E o e' r') as (r'' & left & Hr'' & Hdid);
      [by eapply later_reach|done|]. exists r''. split; [done|].
    by apply (did_ended_rewrites _ _ _ _ _ _ _ _ Hdid).
  - destruct IH as (r' & Hr' & Hk'). exists r'. split; [|done]. unfold record_of in *. by rewrite Hled.
Qed.
End later.

Section theorems.
Context {Sh L RS : Type} `{Ext : Externals} `{Shelf : !ItemShelf Sh} `{Lawful : !LawfulShelf Sh}
  `{Led : !Ledger L} `{LawfulLed : !LawfulLedger L} `{Random : !RandomSource RS}.
Context (w : WorkspaceId).
Implicit Types (e : Engine Sh L RS) (r : WorkspaceRecord) (v : Shelves).

(** C16: While a rewrite is open, nothing changes what it reads: whatever
    operation is called, and wherever it is killed, the current and the plain
    items are as they were, in every generation the record still points to;
    and the session is still open, or was committed, or given up, as a
    whole. *)
Theorem a_rewrite_reads_what_stands_still E o e r s :
  reach w e → record_of w e = Some r → state r = Rewriting s →
  ∃ r', record_of w (exec w E o e).2 = Some r' ∧
    (∀ g, g ∈ sources r → g ∈ live_generations r' →
      items (shelves_of (exec w E o e).2) g = items (shelves_of e) g) ∧
    ((∃ s', state r' = Rewriting s' ∧ next s' = next s ∧ prior s' = prior s ∧
        staged_generation s' = staged_generation s ∧ generation r' = generation r) ∨
     (state r' = Settled (Some (next s)) ∧ generation r' = staged_generation s) ∨
     (state r' = Settled (prior s) ∧ generation r' = generation r ∧
        seal_key_id (next s) ∈ ended_rewrites r')).
Proof.
  intros Hreach Hr Hs. pose proof (reach_sound w e Hreach) as Hsound. rewrite Hr in Hsound.
  destruct Hsound as [Hok _]. destruct (exec_did w E o e r Hreach Hr) as (r' & left & Hr' & Hdid).
  apply did_stepped in Hdid. exists r'. split_and!; [done| |].
  - intros g Hg Hg'. by eapply stepped_frozen.
  - destruct Hdid as [v1 _|r1 v1 a v2 left' He _]; [|by eapply effect_session].
    left. by exists s.
Qed.

(** Only the holder of a session stages items: whatever becomes of a
    commit by another key, the staged generation is as it was. *)
Theorem only_the_holder_stages E c u e r s :
  record_of w e = Some r → state r = Rewriting s → holder s ≠ key c →
  items (shelves_of (Engine.commit_upload w E c u e).2) (staged_generation s) =
    items (shelves_of e) (staged_generation s).
Proof.
  intros Hr Hs Hne. unfold Engine.commit_upload.
  pose proof (write_cases_at w E (commit_upload E c u) _ e r Hr
    (ran_at_and _ _ _ _ _ (wpr_ran_at _ _ _ _ (commit_upload_shelf E c u r (shelves_of e)))
      (wpt_ran_at _ _ _ _ (commit_upload_decides E c u r (shelves_of e) (e_ticks e))))) as Hw.
  assert (∀ v', same_items (shelves_of e) v' ∨ published c u r (shelves_of e) v' →
    items v' (staged_generation s) = items (shelves_of e) (staged_generation s)) as Hsame.
  { intros v' [[_ Hv]|(t & g & content & en & _ & _ & Hmay & Hg & _)]; [apply Hv|]. exfalso. unfold target in Hg.
    rewrite Hs in Hg. destruct (in_rewrite (t_request t)) eqn:Hin; [|done].
    destruct (Hmay Hin) as (s' & Hs' & Hh). congruence. }
  destruct (Engine.write w E (commit_upload E c u) e) as [x e']. cbn [snd].
  destruct Hw as [(_ & _ & ->)|[(z & r1 & a1 & [Hv _] & _)|(y & r1 & v1 & a1 & left & [Hv Hspec] & _ & Hsw & _)]];
    [done|by apply Hsame|].
  rewrite <- (Hsame _ Hv). apply items_gens. eapply swept_gens; [exact Hsw|].
  intros ch Hch. inversion Hspec; subst; set_solver.
Qed.

(** The key of a rewrite that was given up is refused for good: in every
    later state of the workspace, a rewrite to that key is never begun. *)
Theorem an_ended_key_never_returns e e' r E c q :
  reach w e → record_of w e = Some r → new_key_id q ∈ ended_rewrites r → later w e e' →
  is_ok (Engine.begin_rewrite w E c q e').1 = false.
Proof.
  intros Hreach Hr Hk Hl. destruct (later_ended w e e' r _ Hreach Hl Hr Hk) as (r' & Hr' & Hk').
  pose proof (later_reach w e e' Hreach Hl) as Hreach'.
  pose proof (reach_sound w e' Hreach') as Hok. rewrite Hr' in Hok. destruct Hok as [Hok _].
  pose proof (write_decided w E _ _ e' r' Hr' (begin_rewrite_decides E c q r' (shelves_of e'))) as Hd. fold (Engine.begin_rewrite w E c q e') in Hd.
  destruct (Engine.begin_rewrite w E c q e') as [[y| | |] e2]; try done. exfalso.
  destruct Hd as [[|]|(r2 & v1 & a & left & Hspec & _)]; try done.
  inversion Hspec as [|s view k _ Hs _ _ Hn| | | | | |]; subst; [|done].
  destruct (ok_session _ Hok s Hs) as (_ & _ & Hnot). by rewrite Hn in Hnot.
Qed.
End theorems.

(** ** A key that only reads *)

(** On whose behalf an operation is. *)
Definition caller_of (o : Op) : option Caller :=
  match o with
  | StagedItemIds c | StagedItem c _ | StagedItemContentFrom c _ _ | StateOfUpload c _
  | PutUploadContent c _ _ | ProbeWrite c | DeleteItem c _ _ _ | EnableEncryption c _ _
  | FreshStart c _ _ | ReplaceHeader c _ _ | BeginUpload c _ | CommitUpload c _ | AbortUpload c _
  | BeginRewrite c _ | HeartbeatRewrite c | TakeOverRewrite c | CommitRewrite c _
  | AbortRewrite c _ => Some c
  | _ => None
  end.

Section readers.
Context {Sh L RS : Type} `{Ext : Externals} `{Shelf : !ItemShelf Sh} `{Lawful : !LawfulShelf Sh}
  `{Led : !Ledger L} `{LawfulLed : !LawfulLedger L} `{Random : !RandomSource RS}.
Context (w : WorkspaceId) (E : Env).
Implicit Types (e : Engine Sh L RS) (r : WorkspaceRecord) (v : Shelves).

(** A rule that leaves the record and the shelves alone, asks for no
    clean-up, and so changes nothing. *)
Definition idle {T} (rule : R Sh RS T) r v : Prop :=
  wpr rule (λ _ r' v' a', r' = r ∧ v' = v ∧ a' = []) r v [].

Lemma read_only_idle {T} c (f : unit → R Sh RS T) r v :
  role c = ReadOnly → idle (lift (must_write c) ≫= f) r v.
Proof. intros Hc. apply wpr_must_write; [congruence|done]. Qed.

Lemma quiet_idle {T} (rule : R Sh RS T) r v : quiet rule → idle rule r v.
Proof. intros Hq. eapply wpr_mono; [apply Hq|]. intros x r' v' a' (-> & -> & -> & _). done. Qed.

Lemma idle_write {T} (rule : R Sh RS T) e r :
  record_of w e = Some r → idle rule r (shelves_of e) →
  record_of w (ignore (Engine.write w E rule) e).2 = Some r ∧
  shelves_of (ignore (Engine.write w E rule) e).2 = shelves_of e.
Proof.
  intros Hr Hi. rewrite ignore_ran. cbn [snd].
  pose proof (write_cases w E rule _ e r Hr Hi) as Hw. unfold record_of in *.
  destruct (Engine.write w E rule e) as [x e']. cbn [snd].
  destruct Hw as [(_ & -> & ->)|[(z & r1 & a1 & (_ & -> & _) & -> & _)|
    (y & r1 & v1 & a1 & left & (-> & -> & ->) & -> & Hs & _)]]; [done..|].
  rewrite lookup_insert_eq. by inversion Hs.
Qed.

Lemma idle_read {T} (rule : R Sh RS T) e r :
  record_of w e = Some r → idle rule r (shelves_of e) →
  record_of w (ignore (Engine.read w rule) e).2 = Some r ∧
  shelves_of (ignore (Engine.read w rule) e).2 = shelves_of e.
Proof.
  intros Hr Hi. rewrite ignore_ran. cbn [snd].
  assert (wpr rule (λ x r' v' a', v' = shelves_of e) r (shelves_of e) []) as Hv
    by (eapply wpr_mono; [exact Hi|]; by intros x r' v' a' (_ & ? & _)).
  pose proof (read_ran w rule (λ _ v', v' = shelves_of e) e r Hr Hv) as Hw.
  unfold record_of in *. destruct (Engine.read w rule e) as [x e']. cbn [snd].
  destruct Hw as (-> & [->|[_ ->]]); done.
Qed.

Lemma commit_idle c u r v :
  (∀ t, tickets r !! u = Some t → t_owner t ≠ key c) → idle (commit_upload E c u) r v.
Proof.
  intros Hno. unfold idle, commit_upload. apply wpr_tombstone; [intros; by rule_step|]. intros _.
  apply wpr_live_ticket; [intros t Ht Ho; by destruct (Hno t)|]. intros _. by rule_steps.
Qed.

Lemma put_idle c u content r v :
  (∀ t, tickets r !! u = Some t → t_owner t ≠ key c) →
  idle (put_upload_content E c u content) r v.
Proof.
  intros Hno. unfold idle. eapply wpr_mono; [apply put_upload_content_obeys|].
  intros x r' v' a' (-> & -> & _ & Hv). split_and!; [done| |done].
  apply dec_stable. intros (t & Ht & Ho)%Hv. by destruct (Hno t).
Qed.

Lemma abort_idle c u r v :
  (∀ t, tickets r !! u = Some t → t_owner t ≠ key c) → idle (abort_upload c u) r v.
Proof.
  intros Hno. unfold idle, abort_upload. do 2 rule_step. cbn [andthenr].
  rule_if Hu; [|by rule_step]. destruct (tickets r !! u) as [t|]; [|done]. injection Hu as Hu.
  by destruct (Hno t).
Qed.

(** A key that only reads changes nothing, whatever it asks for: as long
    as it owns no upload, every operation on its behalf leaves the record and
    the shelves as they were. *)
Theorem readers_change_nothing o c e r :
  record_of w e = Some r → caller_of o = Some c → role c = ReadOnly →
  (∀ u t, tickets r !! u = Some t → t_owner t ≠ key c) →
  record_of w (exec w E o e).2 = Some r ∧ shelves_of (exec w E o e).2 = shelves_of e.
Proof.
  intros Hr Hc Hrole Hno.
  assert (∀ T (f : unit → R Sh RS T), idle (lift (must_write c) ≫= f) r (shelves_of e)) as Hro
    by (intros; by apply read_only_idle).
  assert (∀ T (rule : R Sh RS T), quiet rule → idle rule r (shelves_of e)) as Hquiet
    by (intros; by apply quiet_idle).
  destruct o; simplify_eq/=;
    [apply (idle_read _ e r Hr), Hquiet, staged_item_ids_quiet
    |apply (idle_read _ e r Hr), Hquiet, staged_item_quiet
    |apply (idle_read _ e r Hr), Hquiet, staged_item_content_from_quiet
    |apply (idle_read _ e r Hr), Hquiet, upload_state_quiet
    |rewrite <- ignore_unit; apply (idle_read _ e r Hr), put_idle; eauto
    |rewrite <- ignore_unit; apply (idle_read _ e r Hr), Hro
    |apply (idle_write _ e r Hr), Hro
    |apply (idle_write _ e r Hr); unfold idle, enable_encryption; apply wpr_settle; congruence || done
    |apply (idle_write _ e r Hr); unfold idle, fresh_start; apply wpr_settle; congruence || done
    |apply (idle_write _ e r Hr), Hro
    |apply (idle_write _ e r Hr), Hro
    |apply (idle_write _ e r Hr), commit_idle; eauto
    |rewrite <- ignore_unit; apply (idle_write _ e r Hr), abort_idle; eauto
    |apply (idle_write _ e r Hr), Hro
    |apply (idle_write _ e r Hr), Hro
    |apply (idle_write _ e r Hr), Hro
    |apply (idle_write _ e r Hr), Hro
    |apply (idle_write _ e r Hr), Hro].
Qed.
End readers.

(** ** Witnesses *)

Section witnesses.
Import Demo History.

(** A workspace with an item under one key, in a rotation to another. *)
Definition rotating : Server :=
  play sealed [(env 1010, BeginUpload alice (sealed_request item2 k1));
    (env 1011, PutUploadContent alice u2 [Data content]); (env 1012, CommitUpload alice u2);
    (env 1020, BeginRewrite alice (mkRewriteRequest Rotate (Some k1) k2 []))].

(** The same after the rewrite was given up. *)
Definition resumed : Server := play rotating [(env 1030, AbortRewrite alice k2)].

Lemma sealed_reached : reach w sealed.
Proof. by apply reach_play; [apply stored_reached|vm_compute]. Qed.
Lemma rotating_reached : reach w rotating.
Proof. by apply reach_play; [apply sealed_reached|vm_compute]. Qed.
Lemma resumed_reached : reach w resumed.
Proof. by apply reach_play; [apply rotating_reached|vm_compute]. Qed.

Definition the_session (e : Server) : Session :=
  match state (the_record e) with
  | Rewriting s => s
  | Settled _ => mkSession Migrate None (mkSeal k1 []) (mkApiKeyId "") 0 0
  end.

Ltac there := apply the_record_some, (bool_decide_unpack (is_Some _)); vm_compute; exact I.

(** A deletion during the rotation, which is refused. *)
Lemma a_rewrite_reads_what_stands_still_witness :
  ∃ r', record_of w (exec w (env 1025) (DeleteItem alice Current item2 (Some k1)) rotating).2 = Some r' ∧
    ∀ g, g ∈ sources (the_record rotating) → g ∈ live_generations r' →
      items (shelves_of (exec w (env 1025) (DeleteItem alice Current item2 (Some k1)) rotating).2) g =
        items (shelves_of rotating) g.
Proof.
  destruct (a_rewrite_reads_what_stands_still w (env 1025) (DeleteItem alice Current item2 (Some k1))
    rotating (the_record rotating) (the_session rotating)) as (r' & Hr' & Hitems & _).
  - apply rotating_reached.
  - there.
  - vm_compute. reflexivity.
  - exists r'. split; [exact Hr'|exact Hitems].
Defined.

(** Bob commits what is not his to commit. *)
Lemma only_the_holder_stages_witness :
  items (shelves_of (Engine.commit_upload w (env 1025) bob u2 rotating).2)
    (staged_generation (the_session rotating)) =
  items (shelves_of rotating) (staged_generation (the_session rotating)).
Proof.
  apply (only_the_holder_stages w (env 1025) bob u2 rotating (the_record rotating)).
  - there.
  - vm_compute. reflexivity.
  - vm_compute. discriminate.
Defined.

(** The same rotation, asked for again after it was given up. *)
Lemma an_ended_key_never_returns_witness :
  is_ok (Engine.begin_rewrite w (env 1040) alice (mkRewriteRequest Rotate (Some k1) k2 [])
    (exec w (env 1035) CleanStaging resumed).2).1 = false.
Proof.
  apply (an_ended_key_never_returns w resumed _ (the_record resumed)).
  - apply resumed_reached.
  - there.
  - apply (bool_decide_unpack _). vm_compute. exact I.
  - apply later_exec; [apply later_now|]. unfold room_in. vm_compute. reflexivity.
Defined.

(** A reader asks for a deletion. *)
Lemma readers_change_nothing_witness :
  record_of w (exec w (env 1003) (DeleteItem reader Current item1 None) stored).2 = Some (the_record stored) ∧
  shelves_of (exec w (env 1003) (DeleteItem reader Current item1 None) stored).2 = shelves_of stored.
Proof.
  apply (readers_change_nothing w (env 1003) (DeleteItem reader Current item1 None) reader).
  - there.
  - reflexivity.
  - reflexivity.
  - intros u t Ht. exfalso. assert (size (tickets (the_record stored)) = 0) as He by (vm_compute; reflexivity).
    apply map_size_empty_inv in He.
    rewrite He, lookup_empty in Ht. discriminate Ht.
Defined.
End witnesses.
