(* ===== verification/Reading.v ===== *)
(** What readers see: the ids of a partition, newest first; its items and
    their content; the prefix of an id that a user types; and what streaming
    content into a shelf takes and refuses. *)

From S2P Require Import Prelude Text Errors Random Ids Shelf Records Effects Rules Workspace Upload Rewrite Ledger Engine Operations Demo Safety Decisions UploadSpec.

(** ** Answers of reading operations *)

Section answers.
Context {Sh RS : Type} `{Ext : Externals} `{Shelf : !ItemShelf Sh} `{Lawful : !LawfulShelf Sh}
  `{Random : !RandomSource RS}.
Implicit Types (r : WorkspaceRecord) (v : Shelves).

(** Newer than the bound, if there is one. *)
Definition newer (bound : option ItemId) (id : ItemId) : Prop :=
  match bound with Some bound => key_lt bound id | None => True end.
#[export] Instance newer_dec bound id : Decision (newer bound id).
Proof. destruct bound; simpl; apply _. Defined.

Definition newer_ids r v p bound : list ItemId := filter (newer bound) (ids_of r v p).

Lemma list_filter_bool {A} (P : A → Prop) `{∀ x, Decision (P x)} l :
  List.filter (λ x, bool_decide (P x)) l = filter P l.
Proof.
  induction l as [|x l IH]; [done|]. cbn [List.filter].
  destruct (decide (P x)) as [HP|HP];
    [rewrite filter_cons_True, bool_decide_true by done|rewrite filter_cons_False, bool_decide_false by done];
    by rewrite IH.
Qed.

Lemma filter_all {A} (l : list A) : filter (λ _, True) l = l.
Proof. induction l as [|x l IH]; [done|]. rewrite filter_cons_True by done. by rewrite IH. Qed.

Lemma item_ids_after_answers p bound :
  reads (Sh := Sh) (RS := RS) (item_ids_after p bound) (answers (λ r v, Ok (newer_ids r v p bound))).
Proof.
  intros r v a. unfold item_ids_after. rule_step. eapply wpr_reads; [apply item_ids_answers|].
  intros x [->|Hx]; [|revert x Hx; cut_query]. cbn [andthenr]. unfold answers, newer_ids.
  destruct bound as [bound|]; rule_step; split_and!; try done; left; f_equal.
  - by apply (list_filter_bool (key_lt bound)).
  - symmetry. apply (filter_all (ids_of r v p)).
Qed.

(** The items with the ids of [l], in that order. *)
Definition with_items r v p (l : list ItemId) : list (ItemId * StoredItem) :=
  omap (λ id, (λ it, (id, stored it)) <$> partition r v p !! id) l.

Lemma items_of_answers p l :
  reads (Sh := Sh) (RS := RS) (items_of p l) (answers (λ r v, Ok (with_items r v p l))).
Proof.
  induction l as [|id l IH]; intros r v a; cbn [items_of]; [rule_step; unfold answers; auto|].
  rule_step. eapply wpr_reads; [apply item_answers|].
  intros x [->|Hx]; [|revert x Hx; cut_query]. cbn [andthenr].
  rule_step. eapply wpr_reads; [apply IH|].
  intros x [->|Hx]; [|revert x Hx; cut_query]. cbn [andthenr]. rule_step.
  split_and!; [done..|]. left. unfold with_items. cbn. by destruct (partition r v p !! id).
Qed.

Lemma items_after_answers p bound :
  reads (Sh := Sh) (RS := RS) (items_after p bound)
    (answers (λ r v, Ok (with_items r v p (newer_ids r v p bound)))).
Proof.
  intros r v a. unfold items_after. rule_step. eapply wpr_reads; [apply item_ids_after_answers|].
  intros x [->|Hx]; [|revert x Hx; cut_query]. cbn [andthenr]. apply items_of_answers.
Qed.

(** ** Typed prefixes *)

(** What a user typed, as it is compared. *)
Definition normal (input : string) : string := to_ascii_lowercase (trim input).

(** With a dash, a prefix of the id; without, of its content key. *)
Definition matching (typed : string) (id : ItemId) : bool :=
  if negb (count_bytes "-" typed =? 0) then String.prefix typed (text id)
  else String.prefix typed (ItemId.content_key id).

Definition resolved r v (input : string) : Resolved :=
  if negb (well_formed_prefix (normal input)) then InvalidPrefix
  else match List.filter (matching (normal input)) (ids_of r v Current) with
    | [] => ResolvedNotFound
    | [id] => ResolvedId id
    | l => Ambiguous l
    end.

Lemma resolve_item_answers input :
  reads (Sh := Sh) (RS := RS) (resolve_item input) (answers (λ r v, Ok (resolved r v input))).
Proof.
  intros r v a. unfold resolve_item, answers, resolved. fold (normal input).
  destruct (negb (well_formed_prefix _)); [rule_step; auto|].
  rule_step. eapply wpr_reads; [apply item_ids_answers|].
  intros x [->|Hx]; [|revert x Hx; cut_query]. cbn [andthenr]. rule_step. split_and!; [done..|].
  left. unfold matching. by destruct (List.filter _ _) as [|? [|]].
Qed.
End answers.

(** ** A whole id is its own prefix *)

Definition is_id_byte (c : ascii) : bool := is_hex_byte c || Ascii.eqb c "-".

Lemma all_bytes_cons p c s : all_bytes p (String c s) = p c && all_bytes p s.
Proof. done. Qed.

Lemma all_bytes_mono (p q : ascii → bool) s :
  (∀ c, p c = true → q c = true) → all_bytes p s = true → all_bytes q s = true.
Proof.
  intros Hpq. induction s as [|c s IH]; [done|]. rewrite !all_bytes_cons, !andb_true_iff.
  intros [Hc Hs]. auto.
Qed.

Lemma str_drop_get n s c : String.get n s = Some c → str_drop n s = String c (str_drop (S n) s).
Proof.
  revert s. induction n as [|n IH]; intros [|c' s]; simpl; intros H; try done; [by injection H as ->|].
  by apply IH.
Qed.

Lemma count_bytes_app c s t : count_bytes c (s ++ t)%string = count_bytes c s + count_bytes c t.
Proof.
  unfold count_bytes, str_bytes. induction s as [|c' s IH]; [done|].
  change (list_ascii_of_string (String c' s ++ t)%string) with (c' :: list_ascii_of_string (s ++ t)%string).
  cbn. destruct (Ascii.eqb c c'); cbn; by rewrite IH.
Qed.

Lemma count_dash_hex s : all_bytes is_hex_byte s = true → count_bytes "-" s = 0.
Proof.
  induction s as [|c s IH]; [done|]. rewrite all_bytes_cons, andb_true_iff. intros [Hc Hs].
  unfold count_bytes, str_bytes in *. cbn [list_ascii_of_string List.filter].
  destruct (Ascii.eqb_spec "-" c) as [<-|]; [done|]. by apply IH.
Qed.

(** An id is eight hexadecimal digits, a dash, and the content key. *)
Lemma id_text (id : ItemId) :
  ∃ stamp, text id = (stamp ++ String "-" (ItemId.content_key id))%string ∧ String.length stamp = 8 ∧
    String.length (ItemId.content_key id) = 12 ∧
    all_bytes is_hex_byte stamp = true ∧ all_bytes is_hex_byte (ItemId.content_key id) = true.
Proof.
  unfold ItemId.content_key. destruct id as [s Hs]. cbn [text]. unfold item_form, is_lower_hex in Hs.
  rewrite !andb_true_iff, Nat.eqb_eq, bool_decide_eq_true in Hs.
  destruct Hs as [[[Hl Hd] [_ H1]] [_ H2]]. exists (str_take 8 s).
  assert (String.length (str_take 8 s) = 8) as H8 by (apply length_str_take; lia).
  pose proof (str_take_drop 8 s) as Htd. rewrite (str_drop_get _ _ _ Hd) in Htd.
  split_and!; [done|done| |done|done].
  apply (f_equal String.length) in Htd. rewrite length_app_str, H8, Hl in Htd. cbn [String.length] in Htd. lia.
Qed.

Lemma id_bytes (id : ItemId) : all_bytes is_id_byte (text id) = true ∧ count_bytes "-" (text id) = 1.
Proof.
  destruct (id_text id) as (stamp & -> & _ & _ & H1 & H2). split.
  - rewrite all_bytes_app, all_bytes_cons, !andb_true_iff. split_and!; [|done|];
      (eapply all_bytes_mono; [|done]); unfold is_id_byte; by intros c ->.
  - rewrite count_bytes_app, (count_dash_hex stamp) by done.
    change (String "-" (ItemId.content_key id)) with (String "-" "" ++ ItemId.content_key id)%string.
    by rewrite count_bytes_app, (count_dash_hex (ItemId.content_key id)).
Qed.

Lemma strip_one_id ps s :
  forallb (λ p, match p with String c' _ => negb (is_id_byte c') | "" => false end) ps = true →
  all_bytes is_id_byte s = true → strip_one ps s = None.
Proof.
  intros Hps Hs. induction ps as [|p ps IH]; [done|]. cbn in Hps. apply andb_true_iff in Hps as [Hp Hps].
  cbn [strip_one]. unfold strip_prefix.
  replace (String.prefix p s) with false; [by apply IH|]. symmetry.
  destruct p as [|c' p]; [done|]. destruct s as [|c s]; [done|]. cbn [String.prefix].
  destruct (ascii_dec c' c) as [->|]; [|done]. rewrite all_bytes_cons in Hs. by destruct (is_id_byte c).
Qed.

Lemma strip_all_id n ps s :
  forallb (λ p, match p with String c' _ => negb (is_id_byte c') | "" => false end) ps = true →
  all_bytes is_id_byte s = true → strip_all n ps s = s.
Proof. intros Hps Hs. destruct n; [done|]. cbn [strip_all]. by rewrite strip_one_id. Qed.

Lemma str_rev_involutive s : str_rev (str_rev s) = s.
Proof.
  unfold str_rev. by rewrite list_ascii_of_string_of_list_ascii, rev_involutive, string_of_list_ascii_of_string.
Qed.

Lemma all_bytes_rev p s : all_bytes p s = true → all_bytes p (str_rev s) = true.
Proof.
  unfold all_bytes, str_bytes, str_rev. rewrite list_ascii_of_string_of_list_ascii, !forallb_forall.
  intros H c Hc. by apply H, in_rev.
Qed.

Lemma trim_id s : all_bytes is_id_byte s = true → trim s = s.
Proof.
  intros Hs. unfold trim, trim_start, trim_end.
  rewrite (strip_all_id _ white_space) by (done || by vm_compute).
  rewrite strip_all_id; [apply str_rev_involutive|by vm_compute|by apply all_bytes_rev].
Qed.

Lemma lower_id s : all_bytes is_id_byte s = true → to_ascii_lowercase s = s.
Proof.
  unfold to_ascii_lowercase. induction s as [|c s IH]; [done|]. rewrite all_bytes_cons, andb_true_iff.
  intros [Hc Hs]. cbn. rewrite IH by done. f_equal.
  revert Hc. clear. by destruct c as [[] [] [] [] [] [] [] []]; vm_compute.
Qed.

Lemma prefix_same_length s t : String.length s = String.length t → String.prefix s t = true → s = t.
Proof.
  revert t. induction s as [|c s IH]; intros [|c' t]; simpl; intros Hl Hp; try done.
  destruct (ascii_dec c c') as [->|]; [|done]. f_equal. apply IH; [lia|done].
Qed.

Lemma prefix_refl s : String.prefix s s = true.
Proof. induction s as [|c s IH]; [done|]. cbn. by destruct (ascii_dec c c). Qed.

Lemma normal_id (id : ItemId) : normal (text id) = text id ∧ well_formed_prefix (text id) = true.
Proof.
  destruct (id_bytes id) as [Hb Hd]. split; [unfold normal; by rewrite trim_id, lower_id|].
  unfold well_formed_prefix. rewrite Hd. destruct (id_text id) as (stamp & Ht & H8 & H12 & _).
  apply (f_equal String.length) in Ht. rewrite length_app_str in Ht. cbn [String.length] in Ht.
  rewrite H8, H12 in Ht. rewrite Ht, !andb_true_iff. split_and!; [done| |done].
  eapply all_bytes_mono; [|exact Hb]. intros c. destruct c as [[] [] [] [] [] [] [] []]; by vm_compute.
Qed.

Lemma length_id (id : ItemId) : String.length (text id) = 21.
Proof.
  destruct (id_text id) as (stamp & -> & H8 & H12 & _). rewrite length_app_str. cbn [String.length]. lia.
Qed.

(** Only the id itself starts with the whole of an id. *)
Lemma matching_id (id id' : ItemId) : matching (text id) id' = true ↔ id' = id.
Proof.
  unfold matching. destruct (id_bytes id) as [_ ->]. cbn [Nat.eqb negb]. split.
  - intros Hp. apply checked_eq. symmetry. apply prefix_same_length; [by rewrite !length_id|done].
  - intros ->. apply prefix_refl.
Qed.

Lemma elem_of_ids r v p id : id ∈ ids_of r v p ↔ is_Some (partition r v p !! id).
Proof. unfold ids_of. by rewrite elem_of_reverse, elem_of_btree_keys. Qed.

Lemma NoDup_ids r v p : NoDup (ids_of r v p).
Proof. unfold ids_of. rewrite reverse_Permutation. apply NoDup_btree_keys. Qed.

Lemma filter_unique {A} (f : A → bool) l x :
  NoDup l → (∀ y, f y = true ↔ y = x) → x ∈ l → List.filter f l = [x].
Proof.
  intros Hnd Hf. induction Hnd as [|y l Hy Hnd IH]; [by intros ?%elem_of_nil|]. intros Hx. cbn.
  destruct (f y) eqn:Hfy.
  - apply Hf in Hfy as ->. f_equal. destruct (List.filter f l) as [|z l'] eqn:Hl; [done|].
    assert (z ∈ List.filter f l) as Hz by (rewrite Hl; by left).
    apply list_elem_of_In, filter_In in Hz as [Hz Hfz]. apply Hf in Hfz as ->.
    by apply list_elem_of_In in Hz.
  - apply elem_of_cons in Hx as [->|Hx]; [|by apply IH].
    assert (f y = true) by by apply Hf. congruence.
Qed.

Lemma filter_none {A} (f : A → bool) l : (∀ y, y ∈ l → f y = false) → List.filter f l = [].
Proof.
  induction l as [|y l IH]; [done|]. intros Hf. cbn. rewrite Hf by (by left). apply IH. intros. apply Hf. by right.
Qed.

Lemma resolved_id r v (id : ItemId) :
  resolved r v (text id) =
    if partition r v Current !! id then ResolvedId id else ResolvedNotFound.
Proof.
  unfold resolved. destruct (normal_id id) as [-> ->]. cbn [negb].
  destruct (partition r v Current !! id) as [it|] eqn:Hi.
  - rewrite (filter_unique _ _ id); [done|apply NoDup_ids|apply matching_id|].
    apply elem_of_ids. by eexists.
  - rewrite filter_none; [done|]. intros y Hy. apply not_true_iff_false. intros ->%matching_id.
    apply elem_of_ids in Hy as [? Hy]. congruence.
Qed.

(** ** Streaming *)

Definition append_to (piece bytes : list byte) : outcome ApiError unit * list byte := (Ok (), bytes ++ piece).

Lemma len64_app x y : len64 (x ++ y) = (len64 x + len64 y)%N.
Proof. unfold len64. rewrite length_app. lia. Qed.

(** Content that ends within what was announced is taken whole; too much of
    it is refused, and no more than was announced was ever taken. *)
Lemma pump_from_taken announced content sum hasher x :
  (sum + len64 (yielded content) < two64)%N → (sum + len64 (yielded content) ≤ announced)%N →
  pump_from announced append_to content sum hasher x =
    (if ends content then Ok (sum + len64 (yielded content))%N
     else Err (InvalidRequest "the content could not be read to its end"),
     (λ h, h ++ yielded content) <$> hasher, x ++ yielded content).
Proof.
  revert sum hasher x. induction content as [|[[|b piece]| |] content IH]; intros sum hasher x Hw Ha.
  1, 2, 5: cbn [yielded ends pump_from]; change (len64 []) with 0%N; rewrite ?N.add_0_r, app_nil_r;
    destruct hasher as [h|]; cbn; by rewrite ?app_nil_r.
  - cbn [yielded] in *. rewrite len64_app in *. cbn [pump_from append_to]. rewrite wadd_small by lia.
    destruct (announced <? sum + len64 (b :: piece))%N eqn:Hlt; [apply N.ltb_lt in Hlt; lia|].
    rewrite IH by lia. cbn [ends]. rewrite <- N.add_assoc, <- app_assoc. f_equal. f_equal.
    destruct hasher as [h|]; [|done]. cbn. by rewrite <- app_assoc.
  - cbn [yielded ends pump_from] in *. by apply IH.
Qed.

Lemma pump_from_refused announced content sum hasher x :
  (sum ≤ announced)%N → (sum + len64 (yielded content) < two64)%N →
  (announced < sum + len64 (yielded content))%N →
  ∃ h' taken, pump_from announced append_to content sum hasher x = (Err ContentMismatch, h', x ++ taken) ∧
    taken `prefix_of` yielded content ∧ (sum + len64 taken ≤ announced)%N.
Proof.
  revert sum hasher x. induction content as [|[[|b piece]| |] content IH]; intros sum hasher x Hs Hw Ha.
  1, 2, 5: cbn [yielded] in *; change (len64 []) with 0%N in *; lia.
  - cbn [yielded] in *. rewrite len64_app in *. cbn [pump_from append_to]. rewrite wadd_small by lia.
    destruct (announced <? sum + len64 (b :: piece))%N eqn:Hlt.
    + eexists _, []. rewrite app_nil_r. split_and!; [done|apply prefix_nil|]. change (len64 []) with 0%N. lia.
    + apply N.ltb_ge in Hlt.
      destruct (IH (sum + len64 (b :: piece))%N ((λ h, h ++ b :: piece) <$> hasher) (x ++ b :: piece))
        as (h' & taken & -> & Hp & Hle); [lia..|].
      exists h', ((b :: piece) ++ taken). rewrite <- app_assoc, len64_app.
      split_and!; [done|by apply prefix_app|lia].
  - cbn [yielded pump_from] in *. by apply IH.
Qed.

(** ** Sending content *)

Section sending.
Context {Sh RS : Type} `{Ext : Externals} `{Shelf : !ItemShelf Sh} `{Lawful : !LawfulShelf Sh}
  `{Random : !RandomSource RS}.
Context (E : Env).
Implicit Types (r : WorkspaceRecord) (v : Shelves).

(** What is staged of content that was taken. *)
Definition staged_of (q : UploadRequest) (content : Reader) : staged_content :=
  (yielded content, if checks_content E q then Some (sha256 (yielded content)) else None).

(** What a write into an existing place answers and leaves. *)
Lemma memory_write u content announced (hashed : bool) v :
  is_Some (staging v !! u) → (len64 (yielded content) < two64)%N →
  MemoryShelf.write u content announced hashed v =
    if (len64 (yielded content) <=? announced)%N && ends content
    then (Ok (len64 (yielded content)),
      set_staging <[u := (yielded content, if hashed then Some (sha256 (yielded content)) else None)]> v)
    else (Err (if (len64 (yielded content) <=? announced)%N
        then InvalidRequest "the content could not be read to its end" else ContentMismatch),
      set_staging <[u := ([], None)]> v).
Proof.
  intros [c Hc] Hw. unfold MemoryShelf.write, pump. rewrite Hc.
  change (λ piece bytes : list byte, (Ok (), bytes ++ piece)) with append_to.
  destruct (N.leb_spec (len64 (yielded content)) announced) as [Hle|Hlt]; cbn [andb].
  - rewrite pump_from_taken by lia. rewrite N.add_0_l, app_nil_l.
    destruct (ends content); cbn; by destruct hashed.
  - destruct (pump_from_refused announced content 0 (if hashed then Some [] else None) [])
      as (h' & taken & -> & _); [lia..|]. done.
Qed.

(** [putUploadContent]: nothing to do for an upload that is finished, nothing
    found without a ticket, and otherwise the content replaces what was
    staged, if it came to its end within what was announced.  A place that
    was not finished takes content, though nothing is staged there yet. *)
Inductive sent_to c u content r v : outcome ApiError unit → Shelves → Prop :=
| sent_finished st :
    tombstones r !! u = Some st → s_owner st = key c → sent_to c u content r v (Ok ()) v
| sent_unknown :
    outcome_gone E c u r → ticket_gone E c u r → sent_to c u content r v (Err NotFound) v
| sent_nowhere t :
    tickets r !! u = Some t → t_owner t = key c → staging v !! u = None →
    sent_to c u content r v (Err NotFound) v
| sent_whole t :
    outcome_gone E c u r → tickets r !! u = Some t → t_owner t = key c →
    ends content = true → (len64 (yielded content) ≤ ur_size (t_request t))%N →
    sent_to c u content r v (Ok ()) (set_staging <[u := staged_of (t_request t) content]> v)
| sent_too_much t :
    outcome_gone E c u r → tickets r !! u = Some t → t_owner t = key c →
    (ur_size (t_request t) < len64 (yielded content))%N →
    sent_to c u content r v (Err ContentMismatch) (set_staging <[u := ([], None)]> v)
| sent_broken t e :
    outcome_gone E c u r → tickets r !! u = Some t → t_owner t = key c →
    ends content = false → (len64 (yielded content) ≤ ur_size (t_request t))%N →
    e = InvalidRequest "the content could not be read to its end" →
    sent_to c u content r v (Err e) (set_staging <[u := ([], None)]> v).

Lemma put_upload_content_sends c u content r v :
  (len64 (yielded content) < two64)%N →
  wpr (Sh := Sh) (RS := RS) (put_upload_content E c u content)
    (λ x r' v' a', interrupted x ∨ sent_to c u content r v x v') r v [].
Proof.
  intros Hw. unfold put_upload_content. apply wpr_tombstone; [intros; rule_step; right; by eapply sent_finished|].
  intros Hgone. apply wpr_live_ticket; [|intros; rule_steps; right; by eapply sent_unknown].
  intros t Ht Ho. do 3 rule_step. rule_step.
  apply (wpr_stage_write (checks_content E (t_request t))); [|intros x v' [->| ->] _; cbn; auto with rules].
  intros v0 Hv.
  assert (∀ c, set_staging <[u := c]> v0 = set_staging <[u := c]> v) as Hset.
  { intros ct. destruct Hv as [->|[d ->]]; [done|]. unfold create_place. destruct (staging v !! u); [done|].
    unfold set_staging. cbn. by rewrite insert_insert_eq. }
  destruct (staging v0 !! u) as [c0|] eqn:Hu.
  - rewrite memory_write, !Hset by (done || by eexists).
    destruct (N.leb_spec (len64 (yielded content)) (ur_size (t_request t))) as [Hle|Hlt]; cbn [andb].
    + destruct (ends content) eqn:He; cbn [fst snd andthenr]; [rule_step|]; right.
      * by eapply sent_whole.
      * by eapply sent_broken.
    + cbn [fst snd andthenr]. right. by eapply sent_too_much.
  - unfold MemoryShelf.write. rewrite Hu. cbn. right.
    assert (v0 = v) as ->; [|by eapply sent_nowhere].
    destruct Hv as [->|[d ->]]; [done|]. unfold create_place in *. destruct (staging v !! u) eqn:Hu'; [congruence|].
    cbn in Hu. by rewrite lookup_insert_eq in Hu.
Qed.
End sending.

(** ** The theorems *)

Section theorems.
Context {Sh L RS : Type} `{Ext : Externals} `{Shelf : !ItemShelf Sh} `{Lawful : !LawfulShelf Sh}
  `{Led : !Ledger L} `{LawfulLed : !LawfulLedger L} `{Random : !RandomSource RS}.
Context (w : WorkspaceId).
Implicit Types (e : Engine Sh L RS) (r : WorkspaceRecord).

Lemma read_answers {T} (rule : R Sh RS T) f e r :
  record_of w e = Some r → reads rule (answers f) →
  (Engine.read w rule e).1 = f r (shelves_of e) ∨ interrupted (Engine.read w rule e).1.
Proof.
  intros Hr Hrule.
  assert (wpr rule (λ x _ _ _, answers f r (shelves_of e) x) r (shelves_of e) []) as Hw.
  { eapply wpr_reads; [exact Hrule|]. by intros x H. }
  pose proof (read_ran w rule (λ x _, answers f r (shelves_of e) x) e r Hr Hw) as Hran.
  destruct (Engine.read w rule e) as [x e']. destruct Hran as (_ & [[H|H]|[H _]]); auto.
Qed.

Lemma ids_of_sorted r v p : StronglySorted (flip key_le) (ids_of r v p).
Proof.
  unfold ids_of. pose proof (btree_keys_sorted (partition r v p)) as Hs. revert Hs.
  generalize (btree_keys (partition r v p)). intros l. induction 1 as [|x l Hs IH Hx]; [constructor|].
  rewrite reverse_cons. apply StronglySorted_app_2; [|done|repeat constructor].
  intros y z Hy ->%list_elem_of_singleton. rewrite Forall_forall in Hx. by apply Hx, elem_of_reverse.
Qed.

Lemma sorted_filter {A} (R : relation A) (P : A → Prop) `{∀ x, Decision (P x)} l :
  StronglySorted R l → StronglySorted R (filter P l).
Proof.
  induction 1 as [|x l Hs IH Hx]; [constructor|].
  destruct (decide (P x)) as [HP|HP]; [rewrite filter_cons_True by done|by rewrite filter_cons_False].
  constructor; [done|]. rewrite Forall_forall in *. intros y [_ Hy]%list_elem_of_filter. auto.
Qed.

(** C17: A listing after a bound holds exactly the items of the partition that
    are newer, each once and with what is stored of it, newest first; without
    a bound it holds them all. *)
Theorem listings_are_exact p bound e r l :
  record_of w e = Some r → (Engine.items_after w p bound e).1 = Ok l →
  StronglySorted (flip key_le) l.*1 ∧ NoDup l.*1 ∧
  ∀ id it, (id, it) ∈ l ↔ newer bound id ∧ stored <$> partition r (shelves_of e) p !! id = Some it.
Proof.
  intros Hr Hl. unfold Engine.items_after in Hl.
  destruct (read_answers _ _ e r Hr (items_after_answers p bound)) as [H|[H|H]];
    rewrite Hl in H; [injection H as ->|done..].
  set (v := shelves_of e). set (m := partition r v p). set (ids := newer_ids r v p bound).
  assert (∀ id, id ∈ ids → is_Some (m !! id)) as Hin.
  { intros id [_ Hid]%list_elem_of_filter. by apply elem_of_ids. }
  assert ((with_items r v p ids).*1 = ids) as Hfst.
  { unfold with_items. fold m. revert Hin. clear. induction ids as [|id ids IH]; intros Hin; [done|]. cbn.
    destruct (Hin id ltac:(by left)) as [it Hi]. rewrite Hi. cbn. f_equal. apply IH. intros. apply Hin. by right. }
  rewrite Hfst. split_and!.
  - apply sorted_filter, ids_of_sorted.
  - apply NoDup_filter, NoDup_ids.
  - intros id it. unfold with_items. fold m. rewrite list_elem_of_omap. split.
    + intros (id' & Hid & Heq). apply list_elem_of_filter in Hid as [Hn Hid].
      destruct (m !! id') as [it'|] eqn:Hi; [|done]. cbn in Heq. injection Heq as <- <-. by rewrite Hi.
    + intros [Hn Hi]. destruct (m !! id) as [it'|] eqn:Hm; [|done]. cbn in Hi. injection Hi as <-.
      exists id. rewrite Hm. split; [|done]. apply list_elem_of_filter. split; [done|].
      apply elem_of_ids. by eexists.
Qed.

(** What a user types resolves to one item only when exactly one of the
    current items matches it; the candidates of an ambiguous prefix are all
    that match, newest first; and a whole id resolves to its own item, or to
    nothing when there is none, never to another. *)
Theorem resolving_is_exact input e r x :
  record_of w e = Some r → (Engine.resolve_item w input e).1 = Ok x →
  (let ids := List.filter (matching (normal input)) (ids_of r (shelves_of e) Current) in
   match x with
   | InvalidPrefix => well_formed_prefix (normal input) = false
   | ResolvedNotFound => ids = []
   | ResolvedId id => ids = [id]
   | Ambiguous l => ids = l ∧ 2 ≤ length l
   end) ∧
  (∀ id : ItemId, input = text id →
    x = if partition r (shelves_of e) Current !! id then ResolvedId id else ResolvedNotFound).
Proof.
  intros Hr Hx. unfold Engine.resolve_item in Hx.
  destruct (read_answers _ _ e r Hr (resolve_item_answers input)) as [H|[H|H]];
    rewrite Hx in H; [injection H as ->|done..].
  split; [|intros id ->; apply resolved_id]. unfold resolved. cbv zeta.
  destruct (well_formed_prefix (normal input)); cbn [negb]; [|done].
  destruct (List.filter _ _) as [|id1 [|id2 ids]]; cbn; auto with lia.
Qed.

(** What [putUploadContent] leaves of what it was sent. *)
Lemma content_is_sent E c u content e r :
  record_of w e = Some r → (len64 (yielded content) < two64)%N →
  record_of w (Engine.put_upload_content w E c u content e).2 = Some r ∧
  (interrupted (Engine.put_upload_content w E c u content e).1 ∨
   sent_to E c u content r (shelves_of e) (Engine.put_upload_content w E c u content e).1
     (shelves_of (Engine.put_upload_content w E c u content e).2)).
Proof.
  intros Hr Hw. unfold Engine.put_upload_content.
  pose proof (read_ran w _ (λ x v', interrupted x ∨ sent_to E c u content r (shelves_of e) x v') e r Hr
    (put_upload_content_sends E c u content r (shelves_of e) Hw)) as Hran.
  unfold record_of in *. destruct (Engine.read w _ e) as [x e']. cbn [fst snd].
  destruct Hran as (-> & [H|[H _]]); auto.
Qed.

(** [putUploadContent] stages exactly what the reader yields, whole and in
    order, when it comes to its end within the announced size; it refuses
    what is longer, or breaks off, and then nothing of it stays staged. *)
Theorem content_is_taken_whole E c u content e r :
  record_of w e = Some r → (len64 (yielded content) < two64)%N →
  record_of w (Engine.put_upload_content w E c u content e).2 = Some r ∧
  (interrupted (Engine.put_upload_content w E c u content e).1 ∨
   sent_to E c u content r (shelves_of e) (Engine.put_upload_content w E c u content e).1
     (shelves_of (Engine.put_upload_content w E c u content e).2)).
Proof. apply content_is_sent. Qed.

(** C18: What is put is what is read: content that was sent and committed as
    a new item is given back byte for byte, from any offset. *)
Theorem what_is_put_is_read E E' c u content e e1 e2 r out n :
  record_of w e = Some r → (len64 (yielded content) < two64)%N → tombstones r !! u = None →
  Engine.put_upload_content w E c u content e = (Ok (), e1) →
  Engine.commit_upload w E' c u e1 = (Ok out, e2) →
  created out = true → out_staged out = false → (n ≤ len64 (yielded content))%N →
  (Engine.item_content_from w Current (out_id out) n e2).1 = Ok (Some (drop (N.to_nat n) (yielded content))) ∨
  interrupted (Engine.item_content_from w Current (out_id out) n e2).1.
Proof.
  intros Hr Hw Hstone Hput Hcommit Hmade Hplace Hn.
  destruct (content_is_sent E c u content e r Hr Hw) as [Hr1 Hsent].
  rewrite Hput in Hr1, Hsent. cbn [fst snd] in *. destruct Hsent as [[|]|Hsent]; [done..|].
  inversion Hsent as [| | |t Hgone Ht Ho He Hle Heq Hv1| |]; subst; [congruence|].
  pose proof (commit_decided w E' c u e1 r Hr1) as Hd. rewrite Hcommit in Hd.
  destruct Hd as [[|]|(r2 & v1 & a & left & Hspec & Hr2 & Hsw & _)]; [done..|].
  assert (staging (shelves_of e1) !! u = Some (staged_of E (t_request t) content)) as Hu
    by (rewrite <- Hv1; apply lookup_insert_eq).
  inversion Hspec as [st (? & _)| | |t' g _ _ _ Hu'| | | |t' g ct _ (Ht' & _) Hg Hu' _ _ _]; subst; [congruence|congruence|done|].
  assert (t' = t) as -> by congruence. assert (ct = staged_of E (t_request t) content) as -> by congruence.
  set (r2 := over _ _ _ _ _ _) in *. set (v1 := move_in _ _ _ _ _ _) in *.
  destruct (read_answers _ _ e2 r2 Hr2 (item_content_from_answers Current (ur_id (t_request t)) n)) as [H|H];
    [left|by right].
  unfold Engine.item_content_from. cbn [out_id]. subst out0. cbn [out_id]. rewrite H. do 2 f_equal.
  assert (generation r2 = g) as Hgen.
  { cbn. unfold goes in Hg. cbn in Hplace. rewrite Hplace in Hg. destruct (state r); [|done].
    case_decide; congruence. }
  unfold partition. cbn [generation_of from_option]. rewrite Hgen.
  assert (items (shelves_of e2) g = items v1 g) as ->.
  { apply items_gens. eapply swept_gens; [exact Hsw|]. intros ch Hch. exists u. set_solver. }
  unfold v1. rewrite items_move_in, decide_True, lookup_insert_eq by done. cbn. by rewrite N.min_l.
Qed.
End theorems.

(** ** Witnesses *)

Section witnesses.
Import Demo History.

Definition the_ok {A} (d : A) (x : outcome ApiError A) : A := match x with Ok y => y | _ => d end.

Lemma the_ok_spec {A} (d : A) x : is_ok x = true → x = Ok (the_ok d x).
Proof. by destruct x. Qed.

Ltac there := apply the_record_some, (bool_decide_unpack (is_Some _)); vm_compute; exact I.

(** The listing of a workspace with one item. *)
Lemma listings_are_exact_witness :
  let l := the_ok [] (Engine.items_after w Current None stored).1 in
  StronglySorted (flip key_le) l.*1 ∧ NoDup l.*1 ∧
  ∀ id it, (id, it) ∈ l ↔
    newer None id ∧ Shelf.stored <$> partition (the_record stored) (shelves_of stored) Current !! id = Some it.
Proof.
  apply (listings_are_exact w Current None stored).
  - there.
  - apply the_ok_spec. vm_compute. reflexivity.
Defined.

(** Its id, typed in full. *)
Lemma resolving_is_exact_witness :
  the_ok InvalidPrefix (Engine.resolve_item w (text item1) stored).1 =
    if partition (the_record stored) (shelves_of stored) Current !! item1
    then ResolvedId item1 else ResolvedNotFound.
Proof.
  apply (resolving_is_exact w (text item1) stored (the_record stored)).
  - there.
  - apply the_ok_spec. vm_compute. reflexivity.
  - reflexivity.
Defined.

(** Four bytes where three were announced. *)
Lemma content_is_taken_whole_witness :
  let put := Engine.put_upload_content w (env 1001) alice u1 [Data content; Data [Byte.x64]] asked in
  record_of w put.2 = Some (the_record asked) ∧
  (interrupted put.1 ∨
   sent_to (env 1001) alice u1 [Data content; Data [Byte.x64]] (the_record asked) (shelves_of asked)
     put.1 (shelves_of put.2)).
Proof.
  apply (content_is_taken_whole w (env 1001) alice u1 [Data content; Data [Byte.x64]] asked).
  - there.
  - vm_compute. reflexivity.
Defined.

(** The last two bytes of the first item. *)
Lemma what_is_put_is_read_witness :
  let e2 := (Engine.commit_upload w (env 1002) alice u1
    (Engine.put_upload_content w (env 1001) alice u1 [Data content] asked).2).2 in
  (Engine.item_content_from w Current item1 1 e2).1 = Ok (Some (drop 1 content)) ∨
  interrupted (Engine.item_content_from w Current item1 1 e2).1.
Proof.
  assert ((Engine.put_upload_content w (env 1001) alice u1 [Data content] asked).1 = Ok ()) as Hput
    by (vm_compute; reflexivity).
  assert ((Engine.commit_upload w (env 1002) alice u1
    (Engine.put_upload_content w (env 1001) alice u1 [Data content] asked).2).1 =
      Ok (mkPutOutcome item1 true false)) as Hcommit by (vm_compute; reflexivity).
  assert (record_of w asked = Some (the_record asked)) as Hr by there.
  assert (tombstones (the_record asked) !! u1 = None) as Hstone
    by (apply eq_None_not_Some, (bool_decide_unpack (¬ is_Some _)); vm_compute; exact I).
  exact (what_is_put_is_read w (env 1001) (env 1002) alice u1 [Data content] asked _ _ (the_record asked)
    (mkPutOutcome item1 true false) 1 Hr eq_refl Hstone (fst_is _ _ Hput) (fst_is _ _ Hcommit)
    eq_refl eq_refl ltac:(vm_compute; discriminate)).
Defined.
End witnesses.
