(* ===== verification/Auth.v ===== *)
(** API keys ([auth.rs]): a public id and a secret, of which only the SHA-256
    is kept. *)

From S2P Require Import Prelude Text Errors Random Ids Shelf.

Definition PREFIX : string := "pal_".
Definition ID_DIGITS : nat := 12.
Definition SECRET_DIGITS : nat := 64.

Record ApiKey := mkApiKey {
  api_key_id : ApiKeyId;
  secret : string;
}.

#[global] Instance ApiKey_eq_dec : EqDecision ApiKey.
Proof. solve_decision. Defined.

Module ApiKey.
(** Of any length: here the length is checked beside it. *)
Definition is_lower_hex (text : string) : bool := all_bytes is_hex_byte text.

Definition generate {R} `{RandomSource R} (rng : R) : ApiKey * R :=
  let '(id, rng) := fill (ID_DIGITS / 2) rng in
  let '(secret, rng) := fill (SECRET_DIGITS / 2) rng in
  (mkApiKey (mkApiKeyId (hex id)) (hex secret), rng).

Definition parse (token : string) : option ApiKey :=
  match strip_prefix PREFIX token with
  | None => None
  | Some rest =>
      match split_once "_" rest with
      | None => None
      | Some (id, secret) =>
          if (String.length id =? ID_DIGITS) && (String.length secret =? SECRET_DIGITS)
             && is_lower_hex id && is_lower_hex secret
          then Some (mkApiKey (mkApiKeyId id) secret) else None
      end
  end.

Definition reveal (k : ApiKey) : string :=
  (PREFIX ++ api_key_str (api_key_id k) ++ "_" ++ secret k)%string.

Definition hash `{Externals} (k : ApiKey) : list byte :=
  sha256 (map (λ c, default Byte.x00 (Byte.of_N (N_of_ascii c))) (str_bytes (secret k))).
End ApiKey.

(** [SecretHash]: an array of 32 bytes. *)
Module SecretHash.
Definition matches (a b : list byte) : bool := bool_decide (a = b).
Definition from_bytes (bytes : list byte) : option (list byte) :=
  if length bytes =? 32 then Some bytes else None.
Definition of_nothing : list byte := replicate 32 Byte.x00.
End SecretHash.

(** ** Tokens *)

(** What [parse] and [generate] make: 12 digits, and 64. *)
Definition well_formed (k : ApiKey) : Prop :=
  String.length (api_key_str (api_key_id k)) = ID_DIGITS ∧ String.length (secret k) = SECRET_DIGITS ∧
  ApiKey.is_lower_hex (api_key_str (api_key_id k)) = true ∧ ApiKey.is_lower_hex (secret k) = true.

Lemma split_once_hex id secret :
  ApiKey.is_lower_hex id = true → split_once "_" (id ++ String "_" secret)%string = Some (id, secret).
Proof.
  induction id as [|c id IH]; intros Hh; [done|].
  change (is_hex_byte c && ApiKey.is_lower_hex id = true) in Hh. apply andb_true_iff in Hh as [Hc Hh].
  change (String c id ++ String "_" secret)%string with (String c (id ++ String "_" secret)%string).
  cbn [split_once]. destruct (Ascii.eqb_spec c "_") as [->|]; [done|]. by rewrite IH.
Qed.

Lemma parse_reveal k : well_formed k → ApiKey.parse (ApiKey.reveal k) = Some k.
Proof.
  destruct k as [[id] secret]. intros (H1 & H2 & H3 & H4).
  unfold ApiKey.parse, ApiKey.reveal. cbn [api_key_id api_key_str Auth.secret] in *.
  rewrite strip_prefix_app. change ("_" ++ secret)%string with (String "_" secret).
  by rewrite split_once_hex, H1, H2, H3, H4 by done.
Qed.

Lemma parse_Some token k : ApiKey.parse token = Some k → ApiKey.reveal k = token ∧ well_formed k.
Proof.
  unfold ApiKey.parse. destruct (strip_prefix PREFIX token) as [rest|] eqn:Hp; [|done].
  apply strip_prefix_Some in Hp as ->. destruct (split_once "_" rest) as [[id secret]|] eqn:Hs; [|done].
  apply split_once_Some in Hs as ->. destruct (_ && _) eqn:Hw; [|done]. intros [= <-].
  rewrite !andb_true_iff, !Nat.eqb_eq in Hw. destruct Hw as [[[? ?] ?] ?]. split; [done|]. by split_and!.
Qed.

Lemma generate_well_formed {R} `{RandomSource R} (rng : R) : well_formed (ApiKey.generate rng).1.
Proof.
  unfold ApiKey.generate. pose proof (fill_length (ID_DIGITS / 2) rng) as H1.
  destruct (fill (ID_DIGITS / 2) rng) as [id rng1]. pose proof (fill_length (SECRET_DIGITS / 2) rng1) as H2.
  destruct (fill (SECRET_DIGITS / 2) rng1) as [sec rng2].
  cbn [fst] in *. unfold well_formed. cbn [fst api_key_id api_key_str Auth.secret]. rewrite !length_hex, H1, H2. unfold ApiKey.is_lower_hex.
  by rewrite !hex_all.
Qed.

(** A token is the text of exactly one key: what [parse] accepts is what
    [reveal] writes, and nothing else, so no two tokens are one key and no
    part of a token is ignored. *)
Theorem tokens_are_exact (token : string) (k : ApiKey) :
  ApiKey.parse token = Some k ↔ well_formed k ∧ ApiKey.reveal k = token.
Proof.
  split; [by intros [-> Hw]%parse_Some|]. intros [Hw <-]. by apply parse_reveal.
Qed.
