(* ===== verification/Database.v ===== *)
(** The control database ([control/schema.rs]): its tables, the statements the
    server sends to it, and what SQLite is relied on for.

    SQLite is third-party code.  [Database] is what the server uses of it, and
    [LawfulDatabase] what its documentation says of the statements and of
    transactions; [MemoryDatabase] is a database that keeps to it, for the
    witnesses. *)

From S2P Require Import Prelude.

(** ** The tables, at schema version 3

    INTEGER is a 64-bit signed integer, TEXT a string, BLOB bytes.  Rows that
    belong to a workspace are grouped by it. *)

(** The columns of [workspaces] that the ledger uses. *)
Record RecordRow := mkRecordRow {
  c_generation : Z;
  c_plain : option Z;
  c_next_generation : Z;
  c_seal_key : option string;
  c_seal_header : option (list byte);
  c_rw_kind : option string;
  c_rw_next_key : option string;
  c_rw_next_header : option (list byte);
  c_rw_holder : option string;
  c_rw_lease_expires_at : option Z;
  c_rw_staged_generation : option Z;
}.

(** The columns an operator sees. *)
Record NameRow := mkNameRow {
  c_name : option string;
  c_quota_bytes : option Z;
  c_created_at : Z;
}.

Record UploadRow := mkUploadRow {
  c_owner : string;
  c_item_id : string;
  c_meta : list byte;
  c_size : Z;
  c_expected_key : option string;
  c_in_rewrite : bool;
  c_expires_at : Z;
}.

Record StoneRow := mkStoneRow {
  c_stone_owner : string;
  c_stone_item_id : string;
  c_created : bool;
  c_stone_expires_at : Z;
  c_staged : bool;
}.

Record KeyRow := mkKeyRow {
  c_key_id : string;
  c_workspace : string;
  c_secret_hash : list byte;
  c_label : string;
  c_role : string;
  c_key_created_at : Z;
  c_key_expires_at : option Z;
  c_revoked_at : option Z;
  c_last_used_at : option Z;
}.

Record AuditRow := mkAuditRow {
  c_at : Z;
  c_action : string;
  c_audit_workspace : option string;
  c_audit_key_id : option string;
  c_detail : option string;
}.

(** [api_keys] and [audit] in the order of their rowids. *)
Record Tables := mkTables {
  workspaces : gmap string (RecordRow * NameRow);
  generations_table : gmap string (gmap Z Z);
  uploads : gmap string (gmap string UploadRow);
  stones : gmap string (gmap string StoneRow);
  ended : gmap string (gset string);
  api_keys : list KeyRow;
  audit_rows : list AuditRow;
}.

Definition no_tables : Tables := mkTables ∅ ∅ ∅ ∅ ∅ [] [].

Definition with_workspaces f t := mkTables (f (workspaces t)) (generations_table t) (uploads t) (stones t) (ended t) (api_keys t) (audit_rows t).
Definition with_generations_table f t := mkTables (workspaces t) (f (generations_table t)) (uploads t) (stones t) (ended t) (api_keys t) (audit_rows t).
Definition with_uploads f t := mkTables (workspaces t) (generations_table t) (f (uploads t)) (stones t) (ended t) (api_keys t) (audit_rows t).
Definition with_stones f t := mkTables (workspaces t) (generations_table t) (uploads t) (f (stones t)) (ended t) (api_keys t) (audit_rows t).
Definition with_ended f t := mkTables (workspaces t) (generations_table t) (uploads t) (stones t) (f (ended t)) (api_keys t) (audit_rows t).
Definition with_api_keys f t := mkTables (workspaces t) (generations_table t) (uploads t) (stones t) (ended t) (f (api_keys t)) (audit_rows t).
Definition with_audit_rows f t := mkTables (workspaces t) (generations_table t) (uploads t) (stones t) (ended t) (api_keys t) (f (audit_rows t)).

(** The rows of one workspace. *)
Definition rows_of {M} `{Empty M} (w : string) (t : gmap string M) : M := default ∅ (t !! w).

(** ** The statements

    One constructor for each statement of [ledger/sqlite.rs] and
    [control/mod.rs], with its parameters and the type of its answer. *)
Inductive Sql : Type → Type :=
(* ledger/sqlite.rs *)
| SelectRecord (w : string) : Sql (option RecordRow)
| SelectGenerations (w : string) : Sql (list (Z * Z))
| SelectUploads (w : string) : Sql (list (string * UploadRow))
| SelectTombstones (w : string) : Sql (list (string * StoneRow))
| SelectEndedRewrites (w : string) : Sql (list string)
| UpdateRecord (w : string) (row : RecordRow) : Sql unit
| DeleteGenerations (w : string) : Sql unit
| DeleteUploads (w : string) : Sql unit
| DeleteTombstones (w : string) : Sql unit
| DeleteEndedRewrites (w : string) : Sql unit
| InsertGeneration (w : string) (g bytes : Z) : Sql unit
| InsertUpload (w u : string) (row : UploadRow) : Sql unit
| InsertTombstone (w u : string) (row : StoneRow) : Sql unit
| InsertEndedRewrite (w k : string) : Sql unit
| InsertOrIgnoreWorkspace (w : string) (g next : Z) : Sql unit
(* control/mod.rs *)
| CountKeys : Sql Z
| WorkspaceNamed (name : string) : Sql bool
| InsertWorkspace (w name : string) (quota : option Z) (created_at : Z) : Sql unit
| SelectWorkspaces : Sql (list (string * NameRow))
| SelectWorkspaceByName (name : string) : Sql (option (string * NameRow))
| SelectWorkspaceById (w : string) : Sql (option (string * NameRow))
| DeleteWorkspace (w : string) : Sql unit
| KeyExists (k : string) : Sql bool
| InsertKey (row : KeyRow) : Sql unit
| SelectKeys (w : option string) : Sql (list (KeyRow * option string))
| SelectKey (k : string) : Sql (option (KeyRow * option string))
| UpdateKeyExpiry (k : string) (at_ : option Z) : Sql unit
| UpdateKeyRevoked (k : string) (at_ : option Z) : Sql unit
| DeleteKey (k : string) (value : option Z) : Sql unit
| PruneKeys (before : Z) : Sql nat
| InsertAudit (row : AuditRow) : Sql unit
| SelectAudit (limit : Z) : Sql (list AuditRow)
| SelectSecret (k : string) : Sql (option KeyRow)
| UpdateLastUsed (k : string) (at_ : Z) : Sql unit.

(** A row that [INSERT OR IGNORE INTO workspaces (id, generation,
    next_generation)] makes: the other columns are NULL or their default. *)
Definition new_record_row (g next : Z) : RecordRow :=
  mkRecordRow g None next None None None None None None None None.

Definition find_key (k : string) (t : Tables) : option KeyRow :=
  List.find (λ row, String.eqb (c_key_id row) k) (api_keys t).

Definition update_key (k : string) (f : KeyRow → KeyRow) (t : Tables) : Tables :=
  with_api_keys (map (λ row, if String.eqb (c_key_id row) k then f row else row)) t.

Definition with_expiry (at_ : option Z) (row : KeyRow) : KeyRow :=
  mkKeyRow (c_key_id row) (c_workspace row) (c_secret_hash row) (c_label row) (c_role row)
    (c_key_created_at row) at_ (c_revoked_at row) (c_last_used_at row).
(** [revoked_at = coalesce(revoked_at, ?2)] *)
Definition with_revocation (at_ : option Z) (row : KeyRow) : KeyRow :=
  mkKeyRow (c_key_id row) (c_workspace row) (c_secret_hash row) (c_label row) (c_role row)
    (c_key_created_at row) (c_key_expires_at row)
    (match c_revoked_at row with Some r => Some r | None => at_ end) (c_last_used_at row).
Definition with_last_use (at_ : Z) (row : KeyRow) : KeyRow :=
  mkKeyRow (c_key_id row) (c_workspace row) (c_secret_hash row) (c_label row) (c_role row)
    (c_key_created_at row) (c_key_expires_at row) (c_revoked_at row) (Some at_).

(** [coalesce(revoked_at, expires_at) <= ?1]; NULL is not true. *)
Definition prunable (before : Z) (row : KeyRow) : bool :=
  match c_revoked_at row, c_key_expires_at row with
  | Some at_, _ | None, Some at_ => (at_ <=? before)%Z
  | None, None => false
  end.

(** [api_keys k JOIN workspaces w ON w.id = k.workspace] *)
Definition joined (t : Tables) (row : KeyRow) : option (KeyRow * option string) :=
  (λ r : RecordRow * NameRow, (row, c_name r.2)) <$> workspaces t !! c_workspace row.

Definition named (name : string) (t : Tables) (w : string) : Prop :=
  ∃ r, workspaces t !! w = Some r ∧ c_name r.2 = Some name.

(** No row of the tables that refer to workspaces is this one's. *)
Record unreferenced (w : string) (t : Tables) : Prop := mkUnreferenced {
  ur_generations : rows_of w (generations_table t) = ∅;
  ur_uploads : rows_of w (uploads t) = ∅;
  ur_stones : rows_of w (stones t) = ∅;
  ur_ended : rows_of w (ended t) = ∅;
}.

(** [ON DELETE CASCADE] *)
Definition without_workspace (w : string) (t : Tables) : Tables :=
  mkTables (delete w (workspaces t)) (delete w (generations_table t)) (delete w (uploads t))
    (delete w (stones t)) (delete w (ended t))
    (List.filter (λ row, negb (String.eqb (c_workspace row) w)) (api_keys t)) (audit_rows t).

(** [ORDER BY name]: NULL comes first, then the bytes decide. *)
Definition name_le (a b : option string) : Prop :=
  match a, b with
  | None, _ => True
  | Some _, None => False
  | Some a, Some b => String.le a b
  end.
Definition name_order (x y : string * NameRow) : Prop := name_le (c_name x.2) (c_name y.2).
(** [ORDER BY w.name, k.created_at, k.rowid], as far as the server relies on it. *)
Definition key_order (x y : KeyRow * option string) : Prop :=
  name_le x.2 y.2 ∧ (x.2 = y.2 → (c_key_created_at x.1 ≤ c_key_created_at y.1)%Z).

(** What a statement answers, and the tables after it, when it succeeds.  A
    SELECT without ORDER BY answers in any order; [PRAGMA foreign_keys] is on,
    so a workspace that was not there has no rows elsewhere. *)
Definition answers {A} (q : Sql A) : Tables → A → Tables → Prop :=
  match q in Sql A return Tables → A → Tables → Prop with
  | SelectRecord w => λ t a t', t' = t ∧ a = fst <$> workspaces t !! w
  | SelectGenerations w => λ t a t', t' = t ∧ a ≡ₚ map_to_list (rows_of w (generations_table t))
  | SelectUploads w => λ t a t', t' = t ∧ a ≡ₚ map_to_list (rows_of w (uploads t))
  | SelectTombstones w => λ t a t', t' = t ∧ a ≡ₚ map_to_list (rows_of w (stones t))
  | SelectEndedRewrites w => λ t a t', t' = t ∧ a ≡ₚ elements (rows_of w (ended t))
  | UpdateRecord w row => λ t _ t', t' = with_workspaces (alter (λ r, (row, r.2)) w) t
  | DeleteGenerations w => λ t _ t', t' = with_generations_table (delete w) t
  | DeleteUploads w => λ t _ t', t' = with_uploads (delete w) t
  | DeleteTombstones w => λ t _ t', t' = with_stones (delete w) t
  | DeleteEndedRewrites w => λ t _ t', t' = with_ended (delete w) t
  | InsertGeneration w g bytes => λ t _ t', is_Some (workspaces t !! w) ∧
      rows_of w (generations_table t) !! g = None ∧
      t' = with_generations_table (<[w := <[g := bytes]> (rows_of w (generations_table t))]>) t
  | InsertUpload w u row => λ t _ t', is_Some (workspaces t !! w) ∧
      rows_of w (uploads t) !! u = None ∧
      t' = with_uploads (<[w := <[u := row]> (rows_of w (uploads t))]>) t
  | InsertTombstone w u row => λ t _ t', is_Some (workspaces t !! w) ∧
      rows_of w (stones t) !! u = None ∧
      t' = with_stones (<[w := <[u := row]> (rows_of w (stones t))]>) t
  | InsertEndedRewrite w k => λ t _ t', is_Some (workspaces t !! w) ∧
      k ∉ rows_of w (ended t) ∧ t' = with_ended (<[w := {[k]} ∪ rows_of w (ended t)]>) t
  | InsertOrIgnoreWorkspace w g next => λ t _ t',
      (workspaces t !! w = None → unreferenced w t) ∧ t' = with_workspaces (λ m, match m !! w with
        | Some _ => m
        | None => <[w := (new_record_row g next, mkNameRow None None 0)]> m
        end) t
  | CountKeys => λ t a t', t' = t ∧ a = Z.of_nat (length (api_keys t))
  | WorkspaceNamed name => λ t a t', t' = t ∧ (a = true ↔ ∃ w, named name t w)
  | InsertWorkspace w name quota created_at => λ t _ t',
      workspaces t !! w = None ∧ unreferenced w t ∧ (∀ w', ¬ named name t w') ∧
      t' = with_workspaces (<[w := (new_record_row 0 1, mkNameRow (Some name) quota created_at)]>) t
  | SelectWorkspaces => λ t a t', t' = t ∧ Sorted name_order a ∧
      a ≡ₚ (λ e, (e.1, e.2.2)) <$> map_to_list (workspaces t)
  | SelectWorkspaceByName name => λ t a t', t' = t ∧
      match a with
      | Some (w, row) => ∃ rr, workspaces t !! w = Some (rr, row) ∧ c_name row = Some name
      | None => ∀ w, ¬ named name t w
      end
  | SelectWorkspaceById w => λ t a t', t' = t ∧ a = (λ r, (w, r.2)) <$> workspaces t !! w
  | DeleteWorkspace w => λ t _ t', t' = without_workspace w t
  | KeyExists k => λ t a t', t' = t ∧ (a = true ↔ is_Some (find_key k t))
  | InsertKey row => λ t _ t', find_key (c_key_id row) t = None ∧
      is_Some (workspaces t !! c_workspace row) ∧ t' = with_api_keys (λ l, l ++ [row]) t
  | SelectKeys w => λ t a t', t' = t ∧ Sorted key_order a ∧
      a ≡ₚ omap (joined t) (List.filter (λ row,
        match w with Some w => String.eqb (c_workspace row) w | None => true end) (api_keys t))
  | SelectKey k => λ t a t', t' = t ∧ a = find_key k t ≫= joined t
  | UpdateKeyExpiry k at_ => λ t _ t', t' = update_key k (with_expiry at_) t
  | UpdateKeyRevoked k at_ => λ t _ t', t' = update_key k (with_revocation at_) t
  | DeleteKey k value => λ t _ t', t' = match value with
      | None => with_api_keys (List.filter (λ row, negb (String.eqb (c_key_id row) k))) t
      | Some _ => t
      end
  | PruneKeys before => λ t a t',
      t' = with_api_keys (List.filter (λ row, negb (prunable before row))) t ∧
      a = length (List.filter (prunable before) (api_keys t))
  | InsertAudit row => λ t _ t', t' = with_audit_rows (λ l, l ++ [row]) t
  | SelectAudit limit => λ t a t', t' = t ∧
      a = (if (limit <? 0)%Z then reverse (audit_rows t) else take (Z.to_nat limit) (reverse (audit_rows t)))
  | SelectSecret k => λ t a t', t' = t ∧ a = find_key k t
  | UpdateLastUsed k at_ => λ t _ t', t' = update_key k (with_last_use at_) t
  end.

(** ** Connections and transactions

    A [Connection] of rusqlite, of type [C], and a [Transaction], of type [X];
    both take statements.  [None] is a [rusqlite::Error]. *)
Class Statements (C : Type) := {
  sql : ∀ {A}, Sql A → C → option A * C;
}.

Class Database (C X : Type) := {
  on_connection :: Statements C;
  on_transaction :: Statements X;
  begin_transaction : C → X + C;
  commit : X → bool * C;
  rollback : X → C;
}.

(** What SQLite documents, as far as it is relied on: a statement that fails
    changed nothing; a transaction that is rolled back leaves what was there
    when it began; a commit that succeeds leaves what the transaction made,
    and one that fails, that or what was there before. *)
Class LawfulStatements (C : Type) `{Statements C} := {
  tables : C → Tables;
  sql_law {A} (q : Sql A) c :
    let '(a, c') := sql q c in
    match a with
    | Some a => answers q (tables c) a (tables c')
    | None => tables c' = tables c
    end;
}.

Class LawfulDatabase (C X : Type) `{Database C X} := {
  lawful_connection :: LawfulStatements C;
  lawful_transaction :: LawfulStatements X;
  origin : X → Tables;
  origin_law {A} (q : Sql A) x : origin (sql q x).2 = origin x;
  begin_law c :
    match begin_transaction c with
    | inl x => tables x = tables c ∧ origin x = tables c
    | inr c' => tables c' = tables c
    end;
  commit_law x :
    let '(ok, c) := commit x in
    tables c = tables x ∨ ok = false ∧ tables c = origin x;
  rollback_law x : tables (rollback x) = origin x;
}.

(** ** A database in memory *)

#[global] Instance name_le_dec : RelDecision name_le.
Proof. intros [a|] [b|]; simpl; apply _. Defined.
#[global] Instance name_order_dec : RelDecision name_order.
Proof. intros x y. apply name_le_dec. Defined.
#[global] Instance key_order_dec : RelDecision key_order.
Proof. intros x y. unfold key_order. apply _. Defined.
Lemma name_le_total a b : name_le a b ∨ name_le b a.
Proof. destruct a as [a|], b as [b|]; simpl; auto. apply (total String.le). Qed.
#[global] Instance name_order_total : Total name_order.
Proof. intros x y. apply name_le_total. Qed.
#[global] Instance key_order_total : Total key_order.
Proof.
  intros x y. unfold key_order. destruct (decide (x.2 = y.2)) as [->|Hne].
  - assert (name_le (y.2) (y.2)) by (destruct (name_le_total y.2 y.2); done).
    destruct (Z.le_ge_cases (c_key_created_at x.1) (c_key_created_at y.1)); [left|right]; auto.
  - destruct (name_le_total x.2 y.2); [left|right]; split; congruence || done.
Qed.

(** Who has a name. *)
Definition holders (name : string) (t : Tables) : list (string * (RecordRow * NameRow)) :=
  List.filter (λ e, bool_decide (c_name e.2.2 = Some name)) (map_to_list (workspaces t)).

Lemma elem_of_holders name t w r : (w, r) ∈ holders name t ↔ workspaces t !! w = Some r ∧ c_name r.2 = Some name.
Proof.
  unfold holders. rewrite list_elem_of_In, filter_In, <- list_elem_of_In, elem_of_map_to_list. cbn.
  by rewrite bool_decide_eq_true.
Qed.

Lemma holders_nil name t : holders name t = [] ↔ ∀ w, ¬ named name t w.
Proof.
  split.
  - intros Hn w (r & Hr). apply elem_of_holders in Hr. rewrite Hn in Hr. by apply elem_of_nil in Hr.
  - intros Hn. destruct (holders name t) as [|[w r] l] eqn:Hh; [done|]. destruct (Hn w). exists r.
    apply elem_of_holders. rewrite Hh. by left.
Qed.

#[global] Instance unreferenced_dec w t : Decision (unreferenced w t).
Proof.
  refine (cast_if (decide (rows_of w (generations_table t) = ∅ ∧ rows_of w (uploads t) = ∅ ∧
    rows_of w (stones t) = ∅ ∧ rows_of w (ended t) = ∅))); [|intros []; tauto].
  abstract (by split; destruct_and?).
Defined.

Module MemoryDatabase.
Definition run {A} (q : Sql A) : Tables → option (A * Tables) :=
  match q in Sql A return Tables → option (A * Tables) with
  | SelectRecord w => λ t, Some (fst <$> workspaces t !! w, t)
  | SelectGenerations w => λ t, Some (map_to_list (rows_of w (generations_table t)), t)
  | SelectUploads w => λ t, Some (map_to_list (rows_of w (uploads t)), t)
  | SelectTombstones w => λ t, Some (map_to_list (rows_of w (stones t)), t)
  | SelectEndedRewrites w => λ t, Some (elements (rows_of w (ended t)), t)
  | UpdateRecord w row => λ t, Some ((), with_workspaces (alter (λ r, (row, r.2)) w) t)
  | DeleteGenerations w => λ t, Some ((), with_generations_table (delete w) t)
  | DeleteUploads w => λ t, Some ((), with_uploads (delete w) t)
  | DeleteTombstones w => λ t, Some ((), with_stones (delete w) t)
  | DeleteEndedRewrites w => λ t, Some ((), with_ended (delete w) t)
  | InsertGeneration w g bytes => λ t,
      if bool_decide (is_Some (workspaces t !! w) ∧ rows_of w (generations_table t) !! g = None)
      then Some ((), with_generations_table (<[w := <[g := bytes]> (rows_of w (generations_table t))]>) t) else None
  | InsertUpload w u row => λ t,
      if decide (is_Some (workspaces t !! w)) then
        match rows_of w (uploads t) !! u with
        | None => Some ((), with_uploads (<[w := <[u := row]> (rows_of w (uploads t))]>) t)
        | Some _ => None
        end
      else None
  | InsertTombstone w u row => λ t,
      if decide (is_Some (workspaces t !! w)) then
        match rows_of w (stones t) !! u with
        | None => Some ((), with_stones (<[w := <[u := row]> (rows_of w (stones t))]>) t)
        | Some _ => None
        end
      else None
  | InsertEndedRewrite w k => λ t,
      if bool_decide (is_Some (workspaces t !! w) ∧ k ∉ rows_of w (ended t))
      then Some ((), with_ended (<[w := {[k]} ∪ rows_of w (ended t)]>) t) else None
  | InsertOrIgnoreWorkspace w g next => λ t,
      if decide (is_Some (workspaces t !! w) ∨ unreferenced w t)
      then Some ((), with_workspaces (λ m, match m !! w with
        | Some _ => m
        | None => <[w := (new_record_row g next, mkNameRow None None 0)]> m
        end) t)
      else None
  | CountKeys => λ t, Some (Z.of_nat (length (api_keys t)), t)
  | WorkspaceNamed name => λ t, Some (match holders name t with [] => false | _ => true end, t)
  | InsertWorkspace w name quota created_at => λ t,
      match workspaces t !! w, holders name t, decide (unreferenced w t) with
      | None, [], left _ => Some ((), with_workspaces
          (<[w := (new_record_row 0 1, mkNameRow (Some name) quota created_at)]>) t)
      | _, _, _ => None
      end
  | SelectWorkspaces => λ t,
      Some (merge_sort name_order ((λ e, (e.1, e.2.2)) <$> map_to_list (workspaces t)), t)
  | SelectWorkspaceByName name => λ t, Some ((λ e, (e.1, e.2.2)) <$> head (holders name t), t)
  | SelectWorkspaceById w => λ t, Some ((λ r, (w, r.2)) <$> workspaces t !! w, t)
  | DeleteWorkspace w => λ t, Some ((), without_workspace w t)
  | KeyExists k => λ t, Some (match find_key k t with Some _ => true | None => false end, t)
  | InsertKey row => λ t,
      match find_key (c_key_id row) t, workspaces t !! c_workspace row with
      | None, Some _ => Some ((), with_api_keys (λ l, l ++ [row]) t)
      | _, _ => None
      end
  | SelectKeys w => λ t, Some (merge_sort key_order (omap (joined t) (List.filter (λ row,
        match w with Some w => String.eqb (c_workspace row) w | None => true end) (api_keys t))), t)
  | SelectKey k => λ t, Some (find_key k t ≫= joined t, t)
  | UpdateKeyExpiry k at_ => λ t, Some ((), update_key k (with_expiry at_) t)
  | UpdateKeyRevoked k at_ => λ t, Some ((), update_key k (with_revocation at_) t)
  | DeleteKey k value => λ t, Some ((), match value with
      | None => with_api_keys (List.filter (λ row, negb (String.eqb (c_key_id row) k))) t
      | Some _ => t
      end)
  | PruneKeys before => λ t, Some (length (List.filter (prunable before) (api_keys t)),
      with_api_keys (List.filter (λ row, negb (prunable before row))) t)
  | InsertAudit row => λ t, Some ((), with_audit_rows (λ l, l ++ [row]) t)
  | SelectAudit limit => λ t, Some (if (limit <? 0)%Z then reverse (audit_rows t)
      else take (Z.to_nat limit) (reverse (audit_rows t)), t)
  | SelectSecret k => λ t, Some (find_key k t, t)
  | UpdateLastUsed k at_ => λ t, Some ((), update_key k (with_last_use at_) t)
  end.

Lemma run_answers {A} (q : Sql A) t a t' : run q t = Some (a, t') → answers q t a t'.
Proof.
  destruct q; cbn; intros Hrun.
  all: try (injection Hrun as <- <-; done).
  all: try (case_bool_decide as Hc; [injection Hrun as <- <-; by destruct Hc|done]).
  all: try (case_decide; [|done]; case_match; [done|]; by injection Hrun as <- <-).
  - case_decide as Hd; [|done]. injection Hrun as <- <-. split; [|done]. intros Hn.
    destruct Hd as [[? Hs]|]; [congruence|done].
  - injection Hrun as <- <-. split; [done|]. destruct (holders name t) as [|[w r] l] eqn:Hh.
    + split; [done|]. intros (w & Hw). by apply holders_nil in Hw.
    + split; [intros _|done]. exists w, r. apply elem_of_holders. rewrite Hh. by left.
  - destruct (workspaces t !! w) eqn:Hw; [done|]. destruct (holders name t) eqn:Hh; [|done].
    destruct (decide (unreferenced w t)); [|done]. injection Hrun as <- <-.
    split_and!; [done|done| |done]. by apply holders_nil.
  - injection Hrun as <- <-. split_and!; [done|apply (Sorted_merge_sort name_order)|apply merge_sort_Permutation].
  - injection Hrun as <- <-. split; [done|]. destruct (holders name t) as [|[w r] l] eqn:Hh; cbn.
    + by apply holders_nil.
    + exists r.1. assert ((w, r) ∈ holders name t) as Hin by (rewrite Hh; by left).
      apply elem_of_holders in Hin. by destruct r.
  - injection Hrun as <- <-. split; [done|]. by destruct (find_key k t).
  - destruct (find_key (c_key_id row) t) eqn:Hk; [done|]. destruct (workspaces t !! _) eqn:Hw; [|done].
    injection Hrun as <- <-. by split_and!.
  - injection Hrun as <- <-. split_and!; [done|apply (Sorted_merge_sort key_order)|apply merge_sort_Permutation].
Qed.
End MemoryDatabase.

#[export] Instance tables_statements : Statements Tables := {|
  sql A q t := match MemoryDatabase.run q t with
    | Some (a, t) => (Some a, t)
    | None => (None, t)
    end;
|}.

#[export] Instance tables_lawful : LawfulStatements Tables.
Proof.
  refine {| tables := λ t, t |}. intros A q t. cbn.
  destruct (MemoryDatabase.run q t) as [[a t']|] eqn:Hrun; [|done]. by apply MemoryDatabase.run_answers.
Defined.

(** The tables of a transaction, and those it began with. *)
Record MemoryTx := mkMemoryTx { tx_tables : Tables; tx_origin : Tables }.

#[export] Instance tx_statements : Statements MemoryTx := {|
  sql A q x := let '(a, t) := sql q (tx_tables x) in (a, mkMemoryTx t (tx_origin x));
|}.

#[export] Instance tx_lawful : LawfulStatements MemoryTx.
Proof.
  refine {| tables := tx_tables |}. intros A q x. cbn.
  destruct (MemoryDatabase.run q (tx_tables x)) as [[a t']|] eqn:Hrun; [|done].
  by apply MemoryDatabase.run_answers.
Defined.

#[export] Instance memory_database : Database Tables MemoryTx := {|
  begin_transaction t := inl (mkMemoryTx t t);
  commit x := (true, tx_tables x);
  rollback x := tx_origin x;
|}.

#[export] Instance memory_database_lawful : LawfulDatabase Tables MemoryTx.
Proof.
  refine {| origin := tx_origin |}; try done; [|by left].
  intros A q x. cbn. by destruct (MemoryDatabase.run q (tx_tables x)) as [[]|].
Defined.
