(* ===== verification/Schema.v ===== *)
(** The schema of the control database ([control/schema.rs]): the steps that
    made it, statement by statement, and what they do to the rows there are. *)

From S2P Require Import Prelude.

(** ** Tables, as SQLite keeps them *)

Inductive Affinity := INTEGER | TEXT | BLOB.
Inductive Value := NULL | Int (n : Z) | Txt (s : string) | Blb (b : list byte).

#[global] Instance Affinity_eq_dec : EqDecision Affinity.
Proof. solve_decision. Defined.
#[global] Instance Value_eq_dec : EqDecision Value.
Proof. solve_decision. Defined.

Record Column := mkColumn { column : string; affinity : Affinity; not_null : bool; default_value : Value }.
(** [primary]: the columns of the PRIMARY KEY; [cascades]: those that are
    REFERENCES workspaces(id) ON DELETE CASCADE. *)
Record Table := mkTable {
  columns : list Column;
  primary : list string;
  cascades : list string;
  rows : list (list Value);
}.
Record Index := mkIndex { on_table : string; on_column : string; is_unique : bool }.
Record Schema := mkSchema { tables_of : list (string * Table); indexes_of : list (string * Index) }.
Definition no_schema : Schema := mkSchema [] [].

Fixpoint look_up {A} (name : string) (l : list (string * A)) : option A :=
  match l with
  | [] => None
  | (n, a) :: l => if String.eqb n name then Some a else look_up name l
  end.
Fixpoint change {A} (name : string) (f : A → A) (l : list (string * A)) : list (string * A) :=
  match l with
  | [] => []
  | (n, a) :: l => if String.eqb n name then (n, f a) :: l else (n, a) :: change name f l
  end.
Fixpoint position (name : string) (cols : list Column) : option nat :=
  match cols with
  | [] => None
  | c :: cols => if String.eqb (column c) name then Some 0 else S <$> position name cols
  end.

(** A value of a row, by the position of its column. *)
Definition cell (i : nat) (row : list Value) : Value := default NULL (row !! i).
Definition with_rows (rs : list (list Value)) (t : Table) : Table := mkTable (columns t) (primary t) (cascades t) rs.

(** NULL is never the same as another. *)
Definition distinct (i : nat) (rs : list (list Value)) : bool :=
  bool_decide (NoDup (List.filter (λ v, negb (bool_decide (v = NULL))) (map (cell i) rs))).

Definition fits (c : Column) (v : Value) : bool :=
  match v with
  | NULL => negb (not_null c)
  | Int _ => bool_decide (affinity c = INTEGER)
  | Txt _ => bool_decide (affinity c = TEXT)
  | Blb _ => bool_decide (affinity c = BLOB)
  end.
(** Every row has, at [i], a value that the column takes. *)
Definition all_fit (c : Column) (i : nat) (rs : list (list Value)) : bool := forallb (λ row, fits c (cell i row)) rs.

(** A column more in every row, and one column copied from another. *)
Definition extend (v : Value) (rs : list (list Value)) : list (list Value) := map (λ row, row ++ [v]) rs.
Definition copy_cell (i j : nat) (rs : list (list Value)) : list (list Value) := map (λ row, <[i := cell j row]> row) rs.

(** ** Statements *)

Inductive Ddl :=
| CREATE_TABLE (name : string) (cols : list Column) (primary cascades : list string)
| ALTER_TABLE_ADD_COLUMN (table : string) (c : Column)
| UPDATE_SET (table to from : string)
| CREATE_INDEX (name table col : string) (unique : bool).

Definition add_column (c : Column) (t : Table) : Table :=
  mkTable (columns t ++ [c]) (primary t) (cascades t) (extend (default_value c) (rows t)).
Definition no_index_breaks (name : string) (cols : list Column) (rs : list (list Value)) (s : Schema) : bool :=
  forallb (λ e, negb (is_unique e.2 && String.eqb (on_table e.2) name) ||
    match position (on_column e.2) cols with Some i => distinct i rs | None => true end) (indexes_of s).

(** [None]: the statement fails. *)
Definition run_ddl (q : Ddl) (s : Schema) : option Schema :=
  match q with
  | CREATE_TABLE name cols primary cascades =>
      match look_up name (tables_of s) with
      | Some _ => None
      | None => Some (mkSchema (tables_of s ++ [(name, mkTable cols primary cascades [])]) (indexes_of s))
      end
  | ALTER_TABLE_ADD_COLUMN table c =>
      t ← look_up table (tables_of s);
      match position (column c) (columns t) with
      | Some _ => None
      | None => if not_null c && bool_decide (default_value c = NULL) then None
          else Some (mkSchema (change table (add_column c) (tables_of s)) (indexes_of s))
      end
  | UPDATE_SET table to from =>
      t ← look_up table (tables_of s);
      i ← position to (columns t);
      j ← position from (columns t);
      c ← columns t !! i;
      let rs := copy_cell i j (rows t) in
      if negb (all_fit c i rs) || negb (no_index_breaks table (columns t) rs s) then None
      else Some (mkSchema (change table (with_rows rs) (tables_of s)) (indexes_of s))
  | CREATE_INDEX name table col unique =>
      t ← look_up table (tables_of s);
      i ← position col (columns t);
      match look_up name (indexes_of s) with
      | Some _ => None
      | None => if unique && negb (distinct i (rows t)) then None
          else Some (mkSchema (tables_of s) (indexes_of s ++ [(name, mkIndex table col unique)]))
      end
  end.

(** [execute_batch] *)
Fixpoint run_all (step : list Ddl) (s : Schema) : option Schema :=
  match step with
  | [] => Some s
  | q :: step => s ← run_ddl q s; run_all step s
  end.
Fixpoint run_steps (steps : list (list Ddl)) (s : Schema) : option Schema :=
  match steps with
  | [] => Some s
  | step :: steps => s ← run_all step s; run_steps steps s
  end.

(** ** The steps

    A column of a PRIMARY KEY of a STRICT table is not NULL. *)

Definition integer (name : string) : Column := mkColumn name INTEGER true NULL.
Definition maybe_integer (name : string) : Column := mkColumn name INTEGER false NULL.
Definition text_ (name : string) : Column := mkColumn name TEXT true NULL.
Definition maybe_text (name : string) : Column := mkColumn name TEXT false NULL.
Definition blob (name : string) : Column := mkColumn name BLOB true NULL.
Definition maybe_blob (name : string) : Column := mkColumn name BLOB false NULL.

Definition V1 : list Ddl :=
  [CREATE_TABLE "schema_version" [integer "version"] [] [];
   CREATE_TABLE "workspaces"
     [text_ "id"; integer "generation"; maybe_integer "plain"; integer "next_generation";
      maybe_text "seal_key"; maybe_blob "seal_header";
      maybe_text "rw_kind"; maybe_text "rw_next_key"; maybe_blob "rw_next_header"; maybe_text "rw_holder";
      maybe_integer "rw_lease_expires_at"; maybe_integer "rw_staged_generation"] ["id"] [];
   CREATE_TABLE "generations" [text_ "workspace"; integer "generation"; integer "used_bytes"]
     ["workspace"; "generation"] ["workspace"];
   CREATE_TABLE "uploads"
     [text_ "workspace"; text_ "upload_id"; text_ "owner"; text_ "item_id"; blob "meta"; integer "size";
      maybe_text "expected_key"; integer "in_rewrite"; integer "expires_at"] ["workspace"; "upload_id"] ["workspace"];
   CREATE_TABLE "tombstones"
     [text_ "workspace"; text_ "upload_id"; text_ "owner"; text_ "item_id"; integer "created"; integer "expires_at"]
     ["workspace"; "upload_id"] ["workspace"];
   CREATE_TABLE "ended_rewrites" [text_ "workspace"; text_ "key_id"] ["workspace"; "key_id"] ["workspace"]].

Definition V2 : list Ddl :=
  [ALTER_TABLE_ADD_COLUMN "workspaces" (maybe_text "name");
   ALTER_TABLE_ADD_COLUMN "workspaces" (maybe_integer "quota_bytes");
   ALTER_TABLE_ADD_COLUMN "workspaces" (mkColumn "created_at" INTEGER true (Int 0));
   UPDATE_SET "workspaces" "name" "id";
   CREATE_INDEX "workspaces_name" "workspaces" "name" true;
   CREATE_TABLE "api_keys"
     [text_ "key_id"; text_ "workspace"; blob "secret_hash"; text_ "label"; text_ "role"; integer "created_at";
      maybe_integer "expires_at"; maybe_integer "revoked_at"; maybe_integer "last_used_at"] ["key_id"] ["workspace"];
   CREATE_INDEX "api_keys_workspace" "api_keys" "workspace" false;
   CREATE_TABLE "audit"
     [integer "id"; integer "at"; text_ "action"; maybe_text "workspace"; maybe_text "key_id"; maybe_text "detail"]
     ["id"] []].

Definition V3 : list Ddl := [ALTER_TABLE_ADD_COLUMN "tombstones" (mkColumn "staged" INTEGER true (Int 0))].

Definition STEPS : list (list Ddl) := [V1; V2; V3].

(** ** Databases that the steps made *)

Definition row_fits (cols : list Column) (row : list Value) : Prop := Forall2 (λ c v, fits c v = true) cols row.
Definition key_of (t : Table) (row : list Value) : list Value :=
  map (λ name, from_option (λ i, cell i row) NULL (position name (columns t))) (primary t).
Definition table_sound (t : Table) : Prop :=
  Forall (row_fits (columns t)) (rows t) ∧ (primary t ≠ [] → NoDup (map (key_of t) (rows t))).
Definition schema_sound (s : Schema) : Prop :=
  Forall (λ e, table_sound e.2) (tables_of s) ∧
  Forall (λ e, ∀ t i, look_up (on_table e.2) (tables_of s) = Some t → position (on_column e.2) (columns t) = Some i →
    is_unique e.2 = true → distinct i (rows t) = true) (indexes_of s).

(** The tables of version [v], with these rows in them. *)
Definition fill (data : string → list (list Value)) (s : Schema) : Schema :=
  mkSchema (map (λ e, (e.1, with_rows (data e.1) e.2)) (tables_of s)) (indexes_of s).
Definition of_version (v : nat) : Schema := default no_schema (run_steps (take v STEPS) no_schema).
Definition made_by (v : nat) (s : Schema) : Prop := ∃ data, s = fill data (of_version v) ∧ schema_sound s.

(** ** From one version to the next *)

Lemma cell_app_l i row extra : i < length row → cell i (row ++ extra) = cell i row.
Proof. intros Hi. unfold cell. by rewrite lookup_app_l. Qed.
Lemma row_fits_length cols row : row_fits cols row → length row = length cols.
Proof. intros Hf. symmetry. by eapply Forall2_length. Qed.

(** A workspace of version 1, with the columns of version 2. *)
Definition named_row (row : list Value) : list Value := row ++ [cell 0 row; NULL; Int 0].
Definition name_all (rs : list (list Value)) : list (list Value) := map named_row rs.
Definition data2 (data : string → list (list Value)) (name : string) : list (list Value) :=
  if String.eqb name "workspaces" then name_all (data name)
  else if String.eqb name "api_keys" then [] else if String.eqb name "audit" then [] else data name.
Definition data3 (data : string → list (list Value)) (name : string) : list (list Value) :=
  if String.eqb name "tombstones" then extend (Int 0) (data name) else data name.

Lemma V1_runs : run_all V1 no_schema = Some (of_version 1).
Proof. reflexivity. Qed.
(** The tables of a version, computed. *)
Ltac compute_version v := let s := eval vm_compute in (of_version v) in change (of_version v) with s.

Lemma position_app p cols extra i : position p cols = Some i → position p (cols ++ extra) = Some i.
Proof.
  revert i. induction cols as [|c cols IH]; intros i; cbn; [done|]. destruct (String.eqb (column c) p); [done|].
  destruct (position p cols) as [k|]; [|done]. cbn. intros [= <-]. by rewrite (IH k eq_refl).
Qed.
Lemma position_bound p cols i : position p cols = Some i → i < length cols.
Proof.
  revert i. induction cols as [|c cols IH]; intros i; cbn; [done|]. destruct (String.eqb (column c) p); [intros [= <-]; lia|].
  destruct (position p cols) as [k|]; [|done]. cbn. intros [= <-]. specialize (IH k eq_refl). lia.
Qed.
Lemma row_fits_app cols extra row more : row_fits cols row → row_fits extra more → row_fits (cols ++ extra) (row ++ more).
Proof. apply Forall2_app. Qed.

(** More columns in every row: a sound table stays so. *)
Lemma extended_sound cols extra prim casc rs (f : list Value → list Value) :
  table_sound (mkTable cols prim casc rs) → (∀ row, row_fits cols row → row_fits extra (f row)) →
  Forall (λ p, is_Some (position p cols)) prim →
  table_sound (mkTable (cols ++ extra) prim casc (map (λ row, row ++ f row) rs)).
Proof.
  intros [Hfit Hkey] Hf Hprim. split; cbn in *.
  - apply Forall_map. eapply Forall_impl; [exact Hfit|]. intros row Hr. by apply row_fits_app; [|apply Hf].
  - intros Hne. specialize (Hkey Hne). rewrite map_map. erewrite map_ext_in; [exact Hkey|]. intros row Hin. apply list_elem_of_In in Hin. rewrite Forall_forall in Hfit.
    specialize (Hfit row Hin). apply row_fits_length in Hfit. unfold key_of. cbn. apply map_ext_in.
    intros p Hp. apply list_elem_of_In in Hp. rewrite Forall_forall in Hprim. destruct (Hprim p Hp) as [k Hk]. rewrite Hk, (position_app _ _ _ _ Hk).
    cbn. apply cell_app_l. apply position_bound in Hk. lia.
Qed.

(** What the table of workspaces of version 1 is. *)
Lemma workspaces_1 data : schema_sound (fill data (of_version 1)) →
  ∃ cols, length cols = 12 ∧ cols !! 0 = Some (text_ "id") ∧
    table_sound (mkTable cols ["id"] [] (data "workspaces")) ∧ position "id" cols = Some 0.
Proof.
  intros [Hs _]. revert Hs. compute_version 1. intros Hs. cbn in Hs. inversion_clear Hs as [|? ? _ Hs'].
  inversion_clear Hs' as [|? ? Hw _]. eexists. split_and!; [..|exact Hw|]; reflexivity.
Qed.

Lemma workspace_names data : schema_sound (fill data (of_version 1)) →
  let rs := copy_cell 12 0 (extend (Int 0) (extend NULL (extend NULL (data "workspaces")))) in
  rs = name_all (data "workspaces") ∧ all_fit (maybe_text "name") 12 rs = true ∧ distinct 12 rs = true.
Proof.
  intros (cols & Hlen & Hid & [Hfit Hkey] & Hpos)%workspaces_1. cbn in Hfit, Hkey.
  assert (∀ row, row ∈ data "workspaces" → length row = 12 ∧ ∃ s, cell 0 row = Txt s) as Hrow.
  { intros row Hin. rewrite Forall_forall in Hfit. specialize (Hfit row Hin). split; [by rewrite (row_fits_length _ _ Hfit)|].
    destruct (Forall2_lookup_l _ _ _ _ _ Hfit Hid) as (v & Hv & Hfits). unfold cell. rewrite Hv. cbn.
    destruct v; try done. by eexists. }
  assert (copy_cell 12 0 (extend (Int 0) (extend NULL (extend NULL (data "workspaces")))) = name_all (data "workspaces")) as ->.
  { unfold copy_cell, extend, name_all. rewrite !map_map. apply map_ext_in. intros row Hin. apply list_elem_of_In in Hin.
    destruct (Hrow row Hin) as [Hl _]. unfold named_row. rewrite <-!app_assoc, cell_app_l by lia.
    replace 12 with (length row + 0) by lia. by rewrite insert_app_r. }
  assert (∀ row, row ∈ data "workspaces" → cell 12 (named_row row) = cell 0 row) as Hcell.
  { intros row Hin. destruct (Hrow row Hin) as [Hl _]. unfold named_row, cell at 1.
    rewrite lookup_app_r by lia. by replace (12 - length row) with 0 by lia. }
  cbv zeta. split; [done|]. split.
  - apply forallb_forall. intros row' (row & <- & Hin)%in_map_iff. apply list_elem_of_In in Hin. rewrite (Hcell row Hin).
    by destruct (Hrow row Hin) as [_ [s ->]].
  - apply bool_decide_eq_true. unfold name_all. rewrite map_map.
    rewrite (map_ext_in _ (cell 0)) by (intros row Hin%list_elem_of_In; by apply Hcell).
    apply NoDup_ListNoDup, List.NoDup_filter, NoDup_ListNoDup.
    specialize (Hkey ltac:(done)). unfold key_of in Hkey. cbn in Hkey. rewrite Hpos in Hkey. cbn in Hkey.
    rewrite <-(map_map (cell 0) (λ v, [v])) in Hkey. by apply NoDup_fmap_1 in Hkey.
Qed.

Lemma V2_runs data : schema_sound (fill data (of_version 1)) →
  run_all V2 (fill data (of_version 1)) = Some (fill (data2 data) (of_version 2)).
Proof.
  intros (Hrs & Hfit & Hdist)%workspace_names. compute_version 2. compute_version 1.
  cbv -[distinct all_fit extend copy_cell name_all] in *. rewrite Hfit.
  cbv -[distinct all_fit extend copy_cell name_all]. rewrite Hdist.
  cbv -[distinct all_fit extend copy_cell name_all]. rewrite Hrs. reflexivity.
Qed.
Lemma V3_runs data : run_all V3 (fill data (of_version 2)) = Some (fill (data3 data) (of_version 3)).
Proof. compute_version 3. compute_version 2. cbv -[extend]. reflexivity. Qed.

Lemma sound_2 data : schema_sound (fill data (of_version 1)) → schema_sound (fill (data2 data) (of_version 2)).
Proof.
  intros Hs. destruct (workspace_names data Hs) as (Hrs & _ & Hdist). rewrite Hrs in Hdist.
  destruct (workspaces_1 data Hs) as (_ & _ & _ & _ & _). destruct Hs as [Hs _]. revert Hs.
  compute_version 1. compute_version 2. intros Hs. cbn in Hs.
  apply Forall_cons in Hs as [Hversion Hs]. apply Forall_cons in Hs as [Hws Hs]. split; cbn.
  - apply Forall_cons_2; [exact Hversion|]. apply Forall_cons_2.
    + eapply (extended_sound _ [maybe_text "name"; maybe_integer "quota_bytes"; mkColumn "created_at" INTEGER true (Int 0)] _ _ _
        (λ row, [cell 0 row; NULL; Int 0])) in Hws; [exact Hws| |repeat constructor; by eexists].
      intros row Hrow. repeat constructor. inversion_clear Hrow as [|? v ? ? Hv]. cbn. by destruct v.
    + repeat (apply Forall_cons in Hs as [? Hs]). repeat (apply Forall_cons_2; [first [assumption|split; [constructor|intros _; constructor]]|]).
      apply Forall_nil_2.
  - repeat constructor; cbn; [|done]. intros t i [= <-] [= <-] _. exact Hdist.
Qed.

Lemma sound_3 data : schema_sound (fill data (of_version 2)) → schema_sound (fill (data3 data) (of_version 3)).
Proof.
  intros [Hs Hi]. revert Hs Hi. compute_version 2. compute_version 3. intros Hs Hi. cbn in Hs, Hi.
  do 4 (apply Forall_cons in Hs as [? Hs]). apply Forall_cons in Hs as [Hstones Hs]. split; cbn.
  - do 4 (apply Forall_cons_2; [assumption|]). apply Forall_cons_2; [|exact Hs].
    eapply (extended_sound _ [mkColumn "staged" INTEGER true (Int 0)] _ _ _ (λ _, [Int 0])) in Hstones; [exact Hstones| |].
    + intros row _. by repeat constructor.
    + repeat constructor; by eexists.
  - apply Forall_cons in Hi as [Hname _]. repeat constructor; cbn; [|done]. intros t i Ht. exact (Hname t i Ht).
Qed.

(** The rows of a database of version [v], brought to version 3. *)
Definition upgraded (v : nat) (data : string → list (list Value)) : string → list (list Value) :=
  match v with 0 => λ _, [] | 1 => data3 (data2 data) | 2 => data3 data | _ => data end.

(** The steps a database has not had, run on it, take it to the tables of version 3. *)
Lemma steps_run v data : v ≤ 3 → schema_sound (fill data (of_version v)) →
  run_steps (drop v STEPS) (fill data (of_version v)) = Some (fill (upgraded v data) (of_version 3)) ∧
  schema_sound (fill (upgraded v data) (of_version 3)).
Proof.
  assert (∀ data, schema_sound (fill data (of_version 2)) →
    run_steps [V3] (fill data (of_version 2)) = Some (fill (data3 data) (of_version 3)) ∧
    schema_sound (fill (data3 data) (of_version 3))) as H2.
  { intros d Hd. cbn [run_steps]. rewrite V3_runs. cbn. auto using sound_3. }
  intros Hv Hs. destruct v as [|[|[|[|v]]]]; [..|lia].
  - split; [vm_compute; reflexivity|]. compute_version 3. split; cbn.
    + repeat (apply Forall_cons_2; [split; [constructor|intros _; constructor]|]). apply Forall_nil_2.
    + repeat (apply Forall_cons_2; [intros t i Ht _ _; cbn in Ht; injection Ht as <-; reflexivity|]). apply Forall_nil_2.
  - change (drop 1 STEPS) with [V2; V3]. cbn [run_steps]. rewrite (V2_runs _ Hs). apply H2. by apply sound_2.
  - by apply H2.
  - done.
Qed.
