(* ===== verification/Migration.v ===== *)
(** Opening the control database ([open_connection], [use_wal] and
    [migrate_with] of [ledger/sqlite.rs]): the wait for WAL mode, and the schema
    brought up to date, all of it or nothing. *)

From S2P Require Import Prelude Text Errors Schema.

(** ** What is used of a connection *)

(** What [PRAGMA journal_mode = WAL] answers. *)
Inductive Switched := SwitchedTo (mode : string) | SwitchBusy | SwitchFailed.

(** A connection [C], in the order of time; milliseconds. *)
Class Journal (C : Type) := {
  journal_mode : C → option string * C;
  switch_to_wal : C → Switched * C;
  instant : C → N * C;
  sleep : N → C → C;
}.

(** A transaction [X] of it, as the migration uses it; [false] and [None] are errors. *)
Class Migrating (C X : Type) := {
  begin_immediate : C → X + C;
  has_version_table : X → option bool * X;
  select_version : X → option Z * X;
  execute_batch : list Ddl → X → bool * X;
  update_version : Z → X → bool * X;
  insert_version : Z → X → bool * X;
  commit_steps : X → bool * C;
  drop_steps : X → C;
}.

(** The database file, in a world [W]. *)
Class DatabaseFile (W C : Type) := {
  create_file : string → W → bool * W;
  connect : string → W → option C * W;
  busy_timeout : N → C → bool * C;
  configure : C → bool * C;
}.

(** ** The code *)

Definition is_wal (mode : string) : bool := eq_ignore_ascii_case mode "wal".

Section code.
Context {W C X : Type} `{Journal C} `{Migrating C X} `{DatabaseFile W C}.

Fixpoint use_wal_until (fuel : nat) (deadline : N) : M ApiError C unit := λ c,
  match fuel with
  | O => (Spinning, c)
  | S fuel =>
      let '(mode, c) := journal_mode c in
      if from_option is_wal false mode then (Ok (), c) else
      match switch_to_wal c with
      | (SwitchedTo mode, c) => if is_wal mode then (Ok (), c) else (Err ServiceUnavailable, c)
      | (SwitchBusy, c) =>
          let '(now, c) := instant c in
          if (now <? deadline)%N then use_wal_until fuel deadline (sleep 5 c) else (Err ServiceUnavailable, c)
      | (SwitchFailed, c) => (Err ServiceUnavailable, c)
      end
  end.
Definition use_wal (fuel : nat) (patience : N) : M ApiError C unit := λ c,
  let '(now, c) := instant c in use_wal_until fuel (now + patience) c.

(** [for step in &steps[version..] { tx.execute_batch(step)?; }] *)
Fixpoint execute_steps (steps : list (list Ddl)) (x : X) : bool * X :=
  match steps with
  | [] => (true, x)
  | step :: steps =>
      match execute_batch step x with
      | (true, x) => execute_steps steps x
      | (false, x) => (false, x)
      end
  end.

(** An early return drops the transaction, which rolls it back. *)
Definition migrate_with (steps : list (list Ddl)) : M ApiError C unit := λ c,
  let latest := Z.of_nat (length steps) in
  let refused (x : X) : outcome ApiError unit * C := (Err ServiceUnavailable, drop_steps x) in
  match begin_immediate c with
  | inr c => (Err ServiceUnavailable, c)
  | inl x =>
      match has_version_table x with
      | (None, x) => refused x
      | (Some has_version, x) =>
          match (if has_version then select_version x else (Some 0%Z, x)) with
          | (None, x) => refused x
          | (Some version, x) =>
              if (latest <? version)%Z || (version <? 0)%Z then refused x
              else if (version =? latest)%Z then (Ok (), drop_steps x)
              else match execute_steps (drop (Z.to_nat version) steps) x with
                | (false, x) => refused x
                | (true, x) =>
                    match (if has_version then update_version latest x else insert_version latest x) with
                    | (false, x) => refused x
                    | (true, x) =>
                        match commit_steps x with
                        | (true, c) => (Ok (), c)
                        | (false, c) => (Err ServiceUnavailable, c)
                        end
                    end
                end
          end
      end
  end.

Definition or_unavailable (step : C → bool * C) : M ApiError C unit := λ c,
  let '(ok, c) := step c in (if ok then Ok () else Err ServiceUnavailable, c).

(** What is done on the connection once there is one. *)
Definition prepare (fuel : nat) (patience : N) : M ApiError C unit :=
  or_unavailable (busy_timeout patience);;
  use_wal fuel patience;;
  or_unavailable configure;;
  migrate_with STEPS.

Definition open_connection (fuel : nat) (path : string) (patience : N) : M ApiError W C := λ w,
  match create_file path w with
  | (false, w) => (Err ServiceUnavailable, w)
  | (true, w) =>
      match connect path w with
      | (None, w) => (Err ServiceUnavailable, w)
      | (Some c, w) => let '(x, c) := prepare fuel patience c in (recast x (λ _, Ok c), w)
      end
  end.
End code.

(** ** What SQLite documents, as far as it is relied on *)

(** The version a database says it has. *)
Definition recorded (s : Schema) : option Z :=
  t ← look_up "schema_version" (tables_of s);
  match rows t with [Int z] :: _ => Some z | _ => None end.
Definition record_version (write : list (list Value) → list (list Value)) (s : Schema) : Schema :=
  mkSchema (change "schema_version" (λ t, with_rows (write (rows t)) t) (tables_of s)) (indexes_of s).
Definition updated (z : Z) (rs : list (list Value)) : list (list Value) := map (λ _, [Int z]) rs.
Definition inserted (z : Z) (rs : list (list Value)) : list (list Value) := rs ++ [[Int z]].

Class LawfulMigrating (C X : Type) `{Migrating C X} := {
  content : C → Schema;
  within : X → Schema;
  before_it : X → Schema;
  begin_immediate_law c : match begin_immediate c with
    | inl x => within x = content c ∧ before_it x = content c
    | inr c' => content c' = content c
    end;
  has_version_table_law x : let '(b, x') := has_version_table x in
    within x' = within x ∧ before_it x' = before_it x ∧
    ∀ there, b = Some there → there = bool_decide (is_Some (look_up "schema_version" (tables_of (within x))));
  select_version_law x : let '(z, x') := select_version x in
    within x' = within x ∧ before_it x' = before_it x ∧ (is_Some z → z = recorded (within x));
  execute_batch_law step x : let '(ok, x') := execute_batch step x in
    before_it x' = before_it x ∧ (ok = true → run_all step (within x) = Some (within x'));
  update_version_law z x : let '(ok, x') := update_version z x in
    before_it x' = before_it x ∧ (ok = true → within x' = record_version (updated z) (within x));
  insert_version_law z x : let '(ok, x') := insert_version z x in
    before_it x' = before_it x ∧ (ok = true → within x' = record_version (inserted z) (within x));
  commit_steps_law x : let '(ok, c) := commit_steps x in
    content c = within x ∨ ok = false ∧ content c = before_it x;
  drop_steps_law x : content (drop_steps x) = before_it x;
}.

(** Time passes, and a sleep takes its time. *)
Class LawfulJournal (C : Type) `{Journal C} := {
  clock_of : C → N;
  journal_mode_clock c : (clock_of c ≤ clock_of (journal_mode c).2)%N;
  switch_to_wal_clock c : (clock_of c ≤ clock_of (switch_to_wal c).2)%N;
  instant_clock c : (clock_of c ≤ (instant c).1)%N ∧ ((instant c).1 ≤ clock_of (instant c).2)%N;
  sleep_clock d c : (clock_of c + d ≤ clock_of (sleep d c))%N;
}.

(** ** The wait ends *)

Section wait.
Context {C : Type} `{J : LawfulJournal C}.

Lemma use_wal_until_ends n deadline c :
  (deadline ≤ clock_of c + 5 * N.of_nat n)%N → (use_wal_until (S n) deadline c).1 ≠ Spinning.
Proof.
  revert c. induction n as [|n IH]; intros c Hn; cbn [use_wal_until].
  all: pose proof (journal_mode_clock c) as H1; destruct (journal_mode c) as [mode c1]; cbn in H1.
  all: destruct (from_option is_wal false mode); [done|].
  all: pose proof (switch_to_wal_clock c1) as H2; destruct (switch_to_wal c1) as [[m| |] c2]; cbn in H2;
    [by destruct (is_wal m)| |done].
  all: pose proof (instant_clock c2) as [H3 H4]; destruct (instant c2) as [now c3]; cbn in H3, H4;
    destruct (N.ltb_spec now deadline); [|done].
  - lia.
  - apply IH. pose proof (sleep_clock 5 c3). lia.
Qed.

(** The wait for WAL mode ends.  However often SQLite answers that the
    database is busy, opening it gives up at its deadline: with one round for
    every five milliseconds of patience and one more, the loop always
    returns. *)
Theorem the_wait_for_wal_ends patience c (fuel : nat) :
  (patience < 5 * N.of_nat fuel)%N →
  (use_wal (S fuel) patience c).1 ≠ Spinning.
Proof.
  intros Hfuel. unfold use_wal. pose proof (instant_clock c) as [H1 H2]. destruct (instant c) as [now c']. cbn in H1, H2.
  apply use_wal_until_ends. lia.
Qed.
End wait.

(** ** All of it or nothing *)

(** The version a database is at: the one it records, or 0 when it has no table for it. *)
Definition version_in (s : Schema) : option Z :=
  if bool_decide (is_Some (look_up "schema_version" (tables_of s))) then recorded s else Some 0%Z.
(** What a migration makes of a database, if it can. *)
Definition migrated (steps : list (list Ddl)) (s : Schema) : option Schema :=
  v ← version_in s;
  if (v <? 0)%Z || (Z.of_nat (length steps) <=? v)%Z then None else
  s' ← run_steps (drop (Z.to_nat v) steps) s;
  Some (record_version ((if bool_decide (is_Some (look_up "schema_version" (tables_of s))) then updated else inserted)
    (Z.of_nat (length steps))) s').

Section migration.
Context {C X : Type} `{L : LawfulMigrating C X}.

Lemma execute_steps_spec steps x : let '(ok, x') := execute_steps steps x in
  before_it x' = before_it x ∧ (ok = true → run_steps steps (within x) = Some (within x')).
Proof.
  revert x. induction steps as [|step steps IH]; intros x; [done|]. cbn [execute_steps run_steps].
  pose proof (execute_batch_law step x) as Hs. destruct (execute_batch step x) as [[] x1]; destruct Hs as [Hb Hr]; [|done].
  specialize (IH x1). destruct (execute_steps steps x1) as [ok x2]. destruct IH as [Hb2 Hr2]. split; [congruence|].
  intros Hok. rewrite (Hr eq_refl). cbn. auto.
Qed.

(** The version of a transaction, read as the code reads it. *)
Lemma read_version (x : X) : let '(b, x1) := has_version_table x in
  match b with
  | None => before_it x1 = before_it x
  | Some has_version =>
      has_version = bool_decide (is_Some (look_up "schema_version" (tables_of (within x)))) ∧
      let '(z, x2) := (if has_version then select_version x1 else (Some 0%Z, x1)) in
      within x2 = within x ∧ before_it x2 = before_it x ∧ (is_Some z → z = version_in (within x))
  end.
Proof.
  pose proof (has_version_table_law x) as Ht. destruct (has_version_table x) as [[there|] x1]; destruct Ht as (Hw & Hb & Hthere); [|done].
  specialize (Hthere there eq_refl). split; [done|]. destruct there.
  - pose proof (select_version_law x1) as Hv. destruct (select_version x1) as [z x2]. destruct Hv as (Hw2 & Hb2 & Hz).
    split_and!; [congruence..|]. intros Hsome. unfold version_in. rewrite <-Hthere. rewrite <-Hw. auto.
  - split_and!; [done..|]. intros _. unfold version_in. by rewrite <-Hthere.
Qed.

Lemma migrate_with_spec steps (c : C) : match migrate_with steps c with
  | (Ok _, c') => version_in (content c) = Some (Z.of_nat (length steps)) ∧ content c' = content c ∨
      migrated steps (content c) = Some (content c')
  | (Err e, c') => e = ServiceUnavailable ∧ (content c' = content c ∨ migrated steps (content c) = Some (content c'))
  | _ => False
  end.
Proof.
  unfold migrate_with. pose proof (begin_immediate_law c) as Hbegin. destruct (begin_immediate c) as [x|c0]; [|auto].
  destruct Hbegin as [Hin Hbefore]. pose proof (read_version x) as Hread.
  destruct (has_version_table x) as [[has_version|] x1]; [|split; [done|left; rewrite drop_steps_law; congruence]].
  destruct Hread as [Hhas Hread]. destruct (if has_version then select_version x1 else (Some 0%Z, x1)) as [[version|] x2];
    destruct Hread as (Hw & Hb & Hversion); [|split; [done|left; rewrite drop_steps_law; congruence]].
  specialize (Hversion ltac:(by eexists)). rewrite Hin in Hversion, Hhas.
  assert (content (drop_steps x2) = content c) as Hdrop by (rewrite drop_steps_law; congruence).
  destruct ((Z.of_nat (length steps) <? version)%Z || (version <? 0)%Z) eqn:Hrange; [by split; [|left]|].
  apply orb_false_iff in Hrange as [Hle Hpos]. apply Z.ltb_ge in Hle, Hpos.
  destruct (Z.eqb_spec version (Z.of_nat (length steps))) as [->|Hne]; [by left|].
  pose proof (execute_steps_spec (drop (Z.to_nat version) steps) x2) as Hsteps.
  destruct (execute_steps _ x2) as [[] x3]; destruct Hsteps as [Hb3 Hrun];
    [|split; [done|left; rewrite drop_steps_law; congruence]].
  specialize (Hrun eq_refl). rewrite Hw, Hin in Hrun.
  assert (∀ s', record_version ((if has_version then updated else inserted) (Z.of_nat (length steps))) (within x3) = s' →
    migrated steps (content c) = Some s') as Hmigrated.
  { intros s' <-. unfold migrated. rewrite <-Hversion. cbn.
    rewrite (proj2 (Z.ltb_ge _ _) Hpos), (proj2 (Z.leb_gt _ _)), Hrun, <-Hhas by lia. done. }
  assert (let '(ok, x4) := (if has_version then update_version (Z.of_nat (length steps)) x3 else insert_version (Z.of_nat (length steps)) x3) in
    before_it x4 = before_it x3 ∧ (ok = true → within x4 = record_version ((if has_version then updated else inserted)
      (Z.of_nat (length steps))) (within x3))) as Hrecord
    by (destruct has_version; [apply update_version_law|apply insert_version_law]).
  destruct (if has_version then _ else _) as [[] x4] in Hrecord |- *; destruct Hrecord as [Hb4 Hw4];
    [|split; [done|left; rewrite drop_steps_law; congruence]].
  specialize (Hw4 eq_refl). pose proof (commit_steps_law x4) as Hcommit. destruct (commit_steps x4) as [[] c'].
  - right. apply Hmigrated. destruct Hcommit as [Hc|[? _]]; congruence.
  - split; [done|]. destruct Hcommit as [Hc|[_ Hc]]; [right; apply Hmigrated; congruence|left; congruence].
Qed.
End migration.

(** A database that a release of version [v] made, or an empty file. *)
Definition at_version (v : nat) (s : Schema) : Prop :=
  ∃ data, s = fill data (of_version v) ∧ schema_sound s ∧ v ≤ 3 ∧
    (v = 0 ∨ data "schema_version" = [[Int (Z.of_nat v)]]).
(** Every table is still there, its columns first, and every row still has its values, in their order. *)
Definition keeps (s s' : Schema) : Prop :=
  ∀ name t, name ≠ "schema_version" → look_up name (tables_of s) = Some t →
    ∃ t', look_up name (tables_of s') = Some t' ∧ columns t `prefix_of` columns t' ∧
      primary t' = primary t ∧ Forall2 (prefix (A:=Value)) (rows t) (rows t').

Definition set_rows (rs : list (list Value)) (data : string → list (list Value)) (name : string) : list (list Value) :=
  if String.eqb name "schema_version" then rs else data name.

Lemma version_found v data : v ≤ 3 → v ≠ 0 → data "schema_version" = [[Int (Z.of_nat v)]] →
  version_in (fill data (of_version v)) = Some (Z.of_nat v) ∧
  is_Some (look_up "schema_version" (tables_of (fill data (of_version v)))).
Proof.
  intros Hv H0 Hd. assert (∀ v, 1 ≤ v ≤ 3 → look_up "schema_version" (tables_of (fill data (of_version v))) =
    Some (mkTable [integer "version"] [] [] (data "schema_version"))) as Hl.
  { intros w Hw. destruct w as [|[|[|[|w]]]]; try lia; [compute_version 1|compute_version 2|compute_version 3]; reflexivity. }
  specialize (Hl v ltac:(lia)). unfold version_in, recorded. rewrite Hl, bool_decide_eq_true_2 by (by eexists). cbn.
  rewrite Hd. split; [done|by eexists].
Qed.

Lemma record_version_fill write data : record_version write (fill data (of_version 3)) =
  fill (set_rows (write (data "schema_version")) data) (of_version 3).
Proof. compute_version 3. reflexivity. Qed.

Lemma recorded_sound z data : schema_sound (fill data (of_version 3)) →
  schema_sound (fill (set_rows [[Int z]] data) (of_version 3)).
Proof.
  intros [Hs Hi]. revert Hs Hi. compute_version 3. intros Hs Hi. cbn in Hs, Hi. split; cbn.
  - apply Forall_cons in Hs as [_ Hs]. apply Forall_cons_2; [|exact Hs].
    split; [by repeat constructor|]. intros []. done.
  - apply Forall_cons in Hi as [Hname _]. repeat constructor; cbn; [|done]. intros t i Ht. exact (Hname t i Ht).
Qed.

Lemma rows_kept rs : Forall2 (prefix (A:=Value)) rs rs.
Proof. induction rs; by constructor. Qed.
Lemma rows_extended (f : list Value → list Value) rs : Forall2 (prefix (A:=Value)) rs (map (λ row, row ++ f row) rs).
Proof. induction rs; constructor; [by apply prefix_app_r|done]. Qed.

Lemma look_up_names {A B} name (l : list (string * A)) (l' : list (string * B)) (P : A → B → Prop) a :
  Forall2 (λ e e', e.1 = e'.1 ∧ (e.1 = name → P e.2 e'.2)) l (take (length l) l') →
  look_up name l = Some a → ∃ b, look_up name l' = Some b ∧ P a b.
Proof.
  revert l'. induction l as [|[n x] l IH]; intros [|[n' y] l']; cbn [length take look_up]; intros Hf; try done; [by inversion Hf|].
  apply Forall2_cons in Hf as [[Hn HP] Hf]. cbn in Hn, HP. subst n'. destruct (String.eqb_spec n name) as [->|_].
  - intros [= <-]. exists y. auto.
  - by apply IH.
Qed.

Lemma upgrade_keeps v data rs : v ≤ 3 →
  keeps (fill data (of_version v)) (fill (set_rows rs (upgraded v data)) (of_version 3)).
Proof.
  intros Hv name t Hname. 
  apply (look_up_names name _ _ (λ t t', columns t `prefix_of` columns t' ∧ primary t' = primary t ∧
    Forall2 (prefix (A:=Value)) (rows t) (rows t'))).
  destruct v as [|[|[|[|v]]]]; [..|lia].
  all: [>compute_version 0|compute_version 1|compute_version 2|]; compute_version 3; cbn;
    repeat (apply Forall2_cons; split;
      [split; [reflexivity|first [by intros Hn; destruct Hname|intros _; split; [by eexists|]; split; [done|];
         cbn; first [apply rows_kept|apply rows_extended]]]|]); constructor.
Qed.

(** What a migration makes of a database that some version made. *)
Lemma migrated_upgrades v s s' : at_version v s → migrated STEPS s = Some s' → at_version 3 s' ∧ keeps s s'.
Proof.
  intros (data & -> & Hs & Hv & Hver) Hm. destruct (steps_run v data Hv Hs) as [Hrun Hsound]. destruct (decide (v = 0)) as [->|H0].
  - assert (s' = fill (set_rows [[Int 3]] (λ _, [])) (of_version 3)) as ->
      by (vm_compute in Hm; injection Hm as <-; vm_compute; reflexivity).
    split.
    + exists (set_rows [[Int 3]] (λ _, [])). split_and!; [reflexivity| |lia|by right].
      apply recorded_sound. apply (steps_run 0 data Hv Hs).
    + intros name t _. by cbn.
  - destruct Hver as [|Hver]; [done|]. destruct (version_found v data Hv H0 Hver) as [Hin Hthere].
    unfold migrated in Hm. rewrite Hin in Hm. cbn [mbind option_bind] in Hm.
    destruct ((Z.of_nat v <? 0)%Z || (Z.of_nat (length STEPS) <=? Z.of_nat v)%Z) eqn:Hr; [done|].
    apply orb_false_iff in Hr as [_ Hlt]. apply Z.leb_gt in Hlt. change (length STEPS) with 3 in *.
    rewrite Nat2Z.id, Hrun, (bool_decide_eq_true_2 _ Hthere) in Hm. cbn [mbind option_bind] in Hm.
    rewrite record_version_fill in Hm. injection Hm as <-.
    assert (upgraded v data "schema_version" = data "schema_version") as Hu by (destruct v as [|[|[|v]]]; [done|reflexivity..]).
    rewrite Hu, Hver. cbn [updated map]. split; [|by apply upgrade_keeps].
    exists (set_rows [[Int 3]] (upgraded v data)). split_and!; [reflexivity|by apply recorded_sound|lia|by right].
Qed.

Lemma already_there v s : at_version v s → version_in s = Some 3%Z → at_version 3 s ∧ keeps s s.
Proof.
  intros (data & -> & Hs & Hv & Hver) Hin. assert (v = 3) as ->.
  { destruct (decide (v = 0)) as [->|H0]; [vm_compute in Hin; done|]. destruct Hver as [|Hver]; [done|].
    destruct (version_found v data Hv H0 Hver) as [Hin' _]. rewrite Hin' in Hin. injection Hin as Hin. lia. }
  split; [exists data; exact (conj eq_refl (conj Hs (conj Hv Hver)))|]. intros name t _ Ht. exists t. split; [exact Ht|]. split; [by exists []; rewrite app_nil_r|]. split; [done|apply rows_kept].
Qed.

Section opening.
Context {C X : Type} `{L : LawfulMigrating C X}.

(** C31: A database is brought up to date whole or not at all.  Whatever SQLite
    fails at: opening the database of an empty file or of any release leaves it as it
    was, or at this build's schema, every table still there, every row with its
    values in their order, new columns behind them; it is the latter, or was
    so before, whenever the opening is answered well.  A database of a
    newer server, or one that records no sensible version, is refused and
    left as it is. *)
Theorem a_database_is_brought_up_to_date (c : C) :
  (∀ v, at_version v (content c) → match migrate_with STEPS c with
    | (Ok _, c') => at_version 3 (content c') ∧ keeps (content c) (content c')
    | (Err e, c') => e = ServiceUnavailable ∧
        (content c' = content c ∨ at_version 3 (content c') ∧ keeps (content c) (content c'))
    | _ => False
    end) ∧
  (∀ z, version_in (content c) = Some z → (z < 0 ∨ 3 < z)%Z →
    (migrate_with STEPS c).1 = Err ServiceUnavailable ∧ content (migrate_with STEPS c).2 = content c).
Proof.
  pose proof (migrate_with_spec STEPS c) as Hspec. split.
  - intros v Hv. destruct (migrate_with STEPS c) as [[[]|e| |] c']; try done.
    + destruct Hspec as [[Hversion ->]|Hm]; [|by eapply migrated_upgrades]. eapply already_there; done.
    + destruct Hspec as [-> [Hc|Hm]]; [by auto|]. split; [done|]. right. by eapply migrated_upgrades.
  - intros z Hz Hrange. assert (migrated STEPS (content c) = None) as Hnone.
    { unfold migrated. rewrite Hz. unfold mbind, option_bind. change (Z.of_nat (length STEPS)) with 3%Z.
      destruct (Z.ltb_spec z 0), (Z.leb_spec 3 z); try done. lia. }
    destruct (migrate_with STEPS c) as [[[]|e| |] c']; try done; rewrite Hnone in Hspec; cbn.
    + destruct Hspec as [[Hversion _]|]; [|done]. rewrite Hz in Hversion. injection Hversion as ->. cbn in Hrange. lia.
    + by destruct Hspec as [-> [Hc|]].
Qed.
End opening.

(** ** A database in memory *)

(** [breaks] says of each call to come whether it fails. *)
Record Connected := mkConnected { schema : Schema; breaks : list bool; passed : N }.
Definition next_fails (c : Connected) : bool := match breaks c with b :: _ => b | [] => false end.
Definition called (c : Connected) (s : Schema) : Connected := mkConnected s (tail (breaks c)) (passed c).

(** The first is what the transaction sees, the second what there was before. *)
Definition Begun : Type := Connected * Schema.
Definition step_in (f : Schema → option Schema) (x : Begun) : bool * Begun :=
  let '(c, before) := x in
  if next_fails c then (false, (called c (schema c), before)) else
  match f (schema c) with
  | Some s => (true, (called c s, before))
  | None => (false, (called c (schema c), before))
  end.
Definition ask_in {A} (f : Schema → option A) (x : Begun) : option A * Begun :=
  let '(c, before) := x in ((if next_fails c then None else f (schema c)), (called c (schema c), before)).

#[global] Instance memory_migrating : Migrating Connected Begun := {
  begin_immediate c := if next_fails c then inr (called c (schema c)) else inl (called c (schema c), schema c);
  has_version_table := ask_in (λ s, Some (bool_decide (is_Some (look_up "schema_version" (tables_of s)))));
  select_version := ask_in recorded;
  execute_batch step := step_in (run_all step);
  update_version z := step_in (λ s, Some (record_version (updated z) s));
  insert_version z := step_in (λ s, Some (record_version (inserted z) s));
  commit_steps x := let '(c, before) := x in
    if next_fails c then (false, called c before) else (true, called c (schema c));
  drop_steps x := let '(c, before) := x in mkConnected before (breaks c) (passed c);
}.

Lemma step_in_spec f x : let '(ok, x') := step_in f x in
  x'.2 = x.2 ∧ (ok = true → f (schema x.1) = Some (schema x'.1)).
Proof. destruct x as [c before]. unfold step_in. destruct (next_fails c); [done|]. by destruct (f (schema c)) eqn:Hf. Qed.
#[global] Instance memory_migrating_lawful : LawfulMigrating Connected Begun.
Proof.
  refine {| content := schema; within x := schema x.1; before_it x := x.2 |}.
  - intros c. cbn. by destruct (next_fails c).
  - intros [c before]. cbn. split_and!; [done..|]. destruct (next_fails c); [done|]. by intros ? [= <-].
  - intros [c before]. cbn. split_and!; [done..|]. destruct (next_fails c); [by intros []|done].
  - intros step x. exact (step_in_spec (run_all step) x).
  - intros z x. pose proof (step_in_spec (λ s, Some (record_version (updated z) s)) x) as Hs. cbn.
    destruct (step_in _ x). destruct Hs as [Hb Hs]. split; [done|]. intros Hok. specialize (Hs Hok). congruence.
  - intros z x. pose proof (step_in_spec (λ s, Some (record_version (inserted z) s)) x) as Hs. cbn.
    destruct (step_in _ x). destruct Hs as [Hb Hs]. split; [done|]. intros Hok. specialize (Hs Hok). congruence.
  - intros [c before]. cbn. destruct (next_fails c); cbn; auto.
  - by intros [c before].
Defined.

#[global] Instance memory_journal : Journal Connected := {
  journal_mode c := (Some "delete", c);
  switch_to_wal c := (if next_fails c then SwitchBusy else SwitchedTo "WAL", called c (schema c));
  instant c := (passed c, c);
  sleep d c := mkConnected (schema c) (breaks c) (passed c + d);
}.
#[global] Instance memory_journal_lawful : LawfulJournal Connected.
Proof.
  refine {| clock_of := passed |}.
  all: intros; cbn; lia.
Defined.

Module Sample.
(** One workspace of version 1, and an outcome of it. *)
Definition workspace_row : list Value :=
  [Txt "0199"; Int 4; NULL; Int 5; Txt "key"; Blb []; NULL; NULL; NULL; NULL; NULL; NULL].
Definition stone_row : list Value := [Txt "0199"; Txt "up"; Txt "owner"; Txt "item"; Int 1; Int 1800].
Definition old (name : string) : list (list Value) :=
  if String.eqb name "schema_version" then [[Int 1]]
  else if String.eqb name "workspaces" then [workspace_row]
  else if String.eqb name "tombstones" then [stone_row] else [].
Definition database (v : nat) (breaks : list bool) : Connected := mkConnected (fill old (of_version v)) breaks 0.
Definition newer : Connected := mkConnected (record_version (updated 4) (fill old (of_version 3))) [] 0.
End Sample.
Import Sample.

Example a_workspace_is_named :
  (rows <$> look_up "workspaces" (tables_of (schema (migrate_with STEPS (database 1 [])).2))) =
    Some [workspace_row ++ [Txt "0199"; NULL; Int 0]] ∧
  (rows <$> look_up "tombstones" (tables_of (schema (migrate_with STEPS (database 1 [])).2))) = Some [stone_row ++ [Int 0]] ∧
  (rows <$> look_up "schema_version" (tables_of (schema (migrate_with STEPS (database 1 [])).2))) = Some [[Int 3]].
Proof. vm_compute. auto. Qed.

Lemma the_wait_for_wal_ends_witness :
  (14 < 5 * N.of_nat 3)%N ∧ (use_wal 4 14 (database 1 [true; true])).1 ≠ Spinning ∧
  (use_wal 4 14 (database 1 [true; true])).1 = Ok () ∧
  (use_wal 4 14 (database 1 [true; true; true; true])).1 = Err ServiceUnavailable.
Proof.
  split; [done|]. split; [|vm_compute; auto]. apply (the_wait_for_wal_ends 14 (database 1 [true; true]) 3). done.
Defined.

Lemma database_1 breaks : at_version 1 (schema (database 1 breaks)).
Proof.
  exists old. split; [done|]. split; [|split; [lia|by right]]. cbn [schema database]. compute_version 1. split; cbn.
  - repeat (apply Forall_cons_2; [split; [repeat constructor|intros _; repeat constructor; set_solver]|]). apply Forall_nil_2.
  - constructor.
Qed.

Lemma a_database_is_brought_up_to_date_witness :
  (let '(_, c) := migrate_with STEPS (database 1 []) in at_version 3 (schema c) ∧ keeps (schema (database 1 [])) (schema c)) ∧
  schema (migrate_with STEPS (database 1 [false; false; false; false; true])).2 = schema (database 1 []) ∧
  schema (migrate_with STEPS newer).2 = schema newer.
Proof.
  split; [|split; [vm_compute; reflexivity|]].
  - destruct (a_database_is_brought_up_to_date (database 1 [])) as [Hold _]. specialize (Hold 1 (database_1 [])).
    destruct (migrate_with STEPS (database 1 [])) as [x c] eqn:Hm.
    assert (x = Ok ()) as -> by (change x with (x, c).1; rewrite <-Hm; vm_compute; reflexivity). exact Hold.
  - destruct (a_database_is_brought_up_to_date newer) as [_ Hnew]. apply (Hnew 4%Z); [vm_compute; reflexivity|right; done].
Defined.
