(* ===== verification/Sqlite.v ===== *)
(** The ledger in SQLite ([ledger/sqlite.rs]): a record is stored whole, as
    rows, and read back; and this keeps the promise of [Ledger]. *)

From S2P Require Import Prelude Errors Ids Shelf Records Ledger Database.

(** [unavailable] and [damaged]: the caller sees one error for all of them. *)
Definition to_db (n : N) : outcome ApiError Z :=
  if (n <=? 9223372036854775807)%N then Ok (Z.of_N n) else Err ServiceUnavailable.

Definition from_db (z : Z) : outcome ApiError N :=
  if (0 <=? z)%Z then Ok (Z.to_N z) else Err ServiceUnavailable.

Definition damaged {A} (x : outcome ApiError A) : outcome ApiError A :=
  match x with Ok y => Ok y | _ => Err ServiceUnavailable end.

(** [option.map(f).transpose()] *)
Definition transpose {A B} (f : A → outcome ApiError B) (x : option A) : outcome ApiError (option B) :=
  match x with None => Ok None | Some x => y ← f x; Ok (Some y) end.

Definition key_from (t : option string) : outcome ApiError (option KeyId) :=
  transpose (λ t, damaged (KeyId.parse t)) t.

(** ** Rows and records *)

Definition kind_text (k : RewriteKind) : string :=
  match k with Migrate => "migrate" | Rotate => "rotate" end.

Definition kind_from (t : string) : outcome ApiError RewriteKind :=
  if String.eqb t "migrate" then Ok Migrate
  else if String.eqb t "rotate" then Ok Rotate
  else Err ServiceUnavailable.

Definition required {A} (x : option A) : outcome ApiError A := ok_or ServiceUnavailable x.

(** [match (key_from(seal_key)?, seal_header)] *)
Definition seal_from (row : RecordRow) : outcome ApiError (option Seal) :=
  k ← key_from (c_seal_key row);
  match k, c_seal_header row with
  | Some k, Some header => Ok (Some (mkSeal k header))
  | None, None => Ok None
  | _, _ => Err ServiceUnavailable
  end.

Definition state_from (row : RecordRow) : outcome ApiError State :=
  seal ← seal_from row;
  match c_rw_kind row with
  | None => Ok (Settled seal)
  | Some kind =>
      kind ← kind_from kind;
      next ← key_from (c_rw_next_key row);
      next ← required next;
      header ← required (c_rw_next_header row);
      holder ← required (c_rw_holder row);
      lease ← required (c_rw_lease_expires_at row);
      lease ← from_db lease;
      staged ← required (c_rw_staged_generation row);
      staged ← from_db staged;
      Ok (Rewriting {|
        kind := kind;
        prior := seal;
        Records.next := mkSeal next header;
        Records.holder := mkApiKeyId holder;
        lease_expires_at := lease;
        staged_generation := staged;
      |})
  end.

Definition generation_from (row : Z * Z) : outcome ApiError (N * N) :=
  g ← from_db row.1;
  bytes ← from_db row.2;
  Ok (g, bytes).

Definition ticket_from (row : string * UploadRow) : outcome ApiError (UploadId * Ticket) :=
  u ← damaged (UploadId.parse row.1);
  id ← damaged (ItemId.parse (c_item_id row.2));
  size ← from_db (c_size row.2);
  expected ← key_from (c_expected_key row.2);
  expires ← from_db (c_expires_at row.2);
  Ok (u, mkTicket (mkApiKeyId (c_owner row.2))
    (mkUploadRequest id (c_meta row.2) size expected (c_in_rewrite row.2)) expires).

Definition tombstone_from (row : string * StoneRow) : outcome ApiError (UploadId * Tombstone) :=
  u ← damaged (UploadId.parse row.1);
  id ← damaged (ItemId.parse (c_stone_item_id row.2));
  expires ← from_db (c_stone_expires_at row.2);
  Ok (u, mkTombstone (mkApiKeyId (c_stone_owner row.2))
    (mkPutOutcome id (c_created row.2) (c_staged row.2)) expires).

(** [for row in rows { map.insert(..) }] *)
Fixpoint insert_rows {R K V} `{Countable K} (from : R → outcome ApiError (K * V)) (rows : list R)
    (m : gmap K V) : outcome ApiError (gmap K V) :=
  match rows with
  | [] => Ok m
  | row :: rows =>
      e ← from row;
      insert_rows from rows (<[e.1 := e.2]> m)
  end.

Fixpoint insert_keys (rows : list string) (s : gset KeyId) : outcome ApiError (gset KeyId) :=
  match rows with
  | [] => Ok s
  | row :: rows =>
      k ← damaged (KeyId.parse row);
      insert_keys rows ({[k]} ∪ s)
  end.

Definition record_row (r : WorkspaceRecord) : outcome ApiError RecordRow :=
  let '(sl, session) := match state r with
    | Settled sl => (sl, None)
    | Rewriting s => (prior s, Some s)
    end in
  generation ← to_db (generation r);
  plain ← transpose to_db (plain r);
  next_generation ← to_db (next_generation r);
  lease ← transpose (λ s, to_db (lease_expires_at s)) session;
  staged ← transpose (λ s, to_db (staged_generation s)) session;
  Ok {|
    c_generation := generation;
    c_plain := plain;
    c_next_generation := next_generation;
    c_seal_key := text ∘ seal_key_id <$> sl;
    c_seal_header := seal_header <$> sl;
    c_rw_kind := kind_text ∘ kind <$> session;
    c_rw_next_key := text ∘ seal_key_id ∘ next <$> session;
    c_rw_next_header := seal_header ∘ next <$> session;
    c_rw_holder := api_key_str ∘ holder <$> session;
    c_rw_lease_expires_at := lease;
    c_rw_staged_generation := staged;
  |}.

Definition ticket_row (t : Ticket) : outcome ApiError UploadRow :=
  size ← to_db (ur_size (t_request t));
  expires ← to_db (t_expires_at t);
  Ok {|
    c_owner := api_key_str (t_owner t);
    c_item_id := text (ur_id (t_request t));
    c_meta := ur_meta (t_request t);
    c_size := size;
    c_expected_key := text <$> ur_expected_key_id (t_request t);
    c_in_rewrite := in_rewrite (t_request t);
    c_expires_at := expires;
  |}.

Definition tombstone_row (st : Tombstone) : outcome ApiError StoneRow :=
  expires ← to_db (s_expires_at st);
  Ok {|
    c_stone_owner := api_key_str (s_owner st);
    c_stone_item_id := text (out_id (s_outcome st));
    c_created := created (s_outcome st);
    c_stone_expires_at := expires;
    c_staged := out_staged (s_outcome st);
  |}.

(** ** The ledger

    A connection, and the fault point under test with how often it was
    passed. *)
Record SqliteLedger (D : Type) := mkSqlite {
  connection : D;
  wanted : option (string * N);
  passes : N;
}.
Arguments mkSqlite {D}.
Arguments connection {D}.
Arguments wanted {D}.
Arguments passes {D}.

Section statements.
Context {D : Type} `{Statements D}.

Definition Db (A : Type) : Type := M ApiError D A.

(** A statement; what goes wrong is logged, and the caller told nothing. *)
Definition ask {A} (q : Sql A) : Db A := λ d,
  match sql q d with
  | (Some a, d) => (Ok a, d)
  | (None, d) => (Err ServiceUnavailable, d)
  end.

Definition read (w : string) : Db WorkspaceRecord :=
  row ← ask (SelectRecord w);
  row ← lift (ok_or NotFound row);
  state ← lift (state_from row);
  rows ← ask (SelectGenerations w);
  used ← lift (insert_rows generation_from rows ∅);
  rows ← ask (SelectUploads w);
  tickets ← lift (insert_rows ticket_from rows ∅);
  rows ← ask (SelectTombstones w);
  tombstones ← lift (insert_rows tombstone_from rows ∅);
  rows ← ask (SelectEndedRewrites w);
  ended_rewrites ← lift (insert_keys rows ∅);
  generation ← lift (from_db (c_generation row));
  plain ← lift (transpose from_db (c_plain row));
  next_generation ← lift (from_db (c_next_generation row));
  mret (mkRecord state generation plain next_generation used tickets tombstones ended_rewrites).

Definition write (w : string) (r : WorkspaceRecord) : Db unit :=
  row ← lift (record_row r);
  ask (UpdateRecord w row);;
  ask (DeleteGenerations w);;
  ask (DeleteUploads w);;
  ask (DeleteTombstones w);;
  ask (DeleteEndedRewrites w);;
  for_each (btree_iter (used r)) (λ e : N * N,
    g ← lift (to_db e.1);
    bytes ← lift (to_db e.2);
    ask (InsertGeneration w g bytes));;
  for_each (btree_iter (tickets r)) (λ e : UploadId * Ticket,
    row ← lift (ticket_row e.2);
    ask (InsertUpload w (text e.1) row));;
  for_each (btree_iter (tombstones r)) (λ e : UploadId * Tombstone,
    row ← lift (tombstone_row e.2);
    ask (InsertTombstone w (text e.1) row));;
  for_each (elements (ended_rewrites r)) (λ k : KeyId, ask (InsertEndedRewrite w (text k))).
End statements.

Section Sqlite.
Context {C X : Type} `{Database C X}.

Definition create (w : WorkspaceId) : M ApiError (SqliteLedger C) unit := λ l,
  let '(x, d) := (
    g ← lift (to_db (generation default_record));
    next ← lift (to_db (next_generation default_record));
    ask (InsertOrIgnoreWorkspace (text w) g next)) (connection l) in
  (x, mkSqlite d (wanted l) (passes l)).

Definition load (w : WorkspaceId) : M ApiError (SqliteLedger C) WorkspaceRecord := λ l,
  let '(x, d) := read (text w) (connection l) in
  (x, mkSqlite d (wanted l) (passes l)).

(** [crate::fault::point("ledger: before the commit")] *)
Definition commit_point (l : SqliteLedger C) : outcome ApiError unit * N :=
  match wanted l with
  | Some (name, skip) =>
      if String.eqb name "ledger: before the commit"
      then (if (passes l =? skip)%N then Killed else Ok (), wadd (passes l) 1)
      else (Ok (), passes l)
  | None => (Ok (), passes l)
  end.

(** [if record != before { write(&tx, workspace, &record)?; }] *)
Definition write_changed (w : string) (before record : WorkspaceRecord) : M ApiError X unit :=
  if bool_decide (record = before) then mret () else write w record.

(** An early return drops the transaction, and so does a kill. *)
Definition transact_sqlite {T Y} (w : WorkspaceId) (rule : LedgerRule T Y)
    : M ApiError (SqliteLedger C * Y) T := λ s,
  let '(l, y) := s in
  let back tx n := mkSqlite (rollback tx) (wanted l) n in
  match begin_transaction (connection l) with
  | inr c => (Err ServiceUnavailable, (mkSqlite c (wanted l) (passes l), y))
  | inl tx =>
      match read (text w) tx with
      | (Ok before, tx) =>
          let '(answer, record, y) := rule before y in
          match answer with
          | Ok answer =>
              match write_changed (text w) before record tx with
              | (Ok _, tx) =>
                  match commit_point l with
                  | (Ok _, n) =>
                      match commit tx with
                      | (true, c) => (Ok answer, (mkSqlite c (wanted l) n, y))
                      | (false, c) => (Err ServiceUnavailable, (mkSqlite c (wanted l) n, y))
                      end
                  | (z, n) => (recast z (λ _, Err ServiceUnavailable), (back tx n, y))
                  end
              | (z, tx) => (recast z (λ _, Err ServiceUnavailable), (back tx (passes l), y))
              end
          | _ => (answer, (back tx (passes l), y))
          end
      | (z, tx) => (recast z (λ _, Err ServiceUnavailable), (back tx (passes l), y))
      end
  end.
End Sqlite.

(** ** Rows are read back as they were written *)

(** What is read is there or damaged, which is one error. *)
Definition plain_result {A} (x : outcome ApiError A) : Prop := x = Err ServiceUnavailable ∨ ∃ y, x = Ok y.

Lemma plain_bind {A B} (x : outcome ApiError A) (f : A → outcome ApiError B) :
  plain_result x → (∀ y, plain_result (f y)) → plain_result (x ≫= f).
Proof. intros [->|[y ->]] Hf; [by left|]. apply Hf. Qed.
Lemma plain_ok {A} (y : A) : plain_result (Ok y).
Proof. right. by eexists. Qed.
Lemma plain_damaged {A} (x : outcome ApiError A) : plain_result (damaged x).
Proof. destruct x; [apply plain_ok|by left..]. Qed.
Lemma plain_from_db z : plain_result (from_db z).
Proof. unfold from_db. destruct (_ <=? _)%Z; [apply plain_ok|by left]. Qed.
Lemma plain_to_db n : plain_result (to_db n).
Proof. unfold to_db. destruct (_ <=? _)%N; [apply plain_ok|by left]. Qed.
Lemma plain_transpose {A B} (f : A → outcome ApiError B) x :
  (∀ y, plain_result (f y)) → plain_result (transpose f x).
Proof. intros Hf. destruct x; [|apply plain_ok]. apply plain_bind; [done|]. intros. apply plain_ok. Qed.
Lemma plain_required {A} (x : option A) : plain_result (required x).
Proof. destruct x; [apply plain_ok|by left]. Qed.
Lemma plain_kind t : plain_result (kind_from t).
Proof. unfold kind_from. repeat case_match; (apply plain_ok || by left). Qed.
Lemma plain_key_from t : plain_result (key_from t).
Proof. apply plain_transpose. intros. apply plain_damaged. Qed.

Ltac plain := repeat first
  [ apply plain_ok | apply plain_damaged | apply plain_from_db | apply plain_to_db | apply plain_required
  | apply plain_kind | apply plain_key_from | apply plain_bind; [|intros ?]
  | apply plain_transpose; intros ? | by left ].

Lemma plain_seal_from row : plain_result (seal_from row).
Proof. unfold seal_from. apply plain_bind; [plain|]. intros [k|]; destruct (c_seal_header row); plain. Qed.
Lemma plain_state_from row : plain_result (state_from row).
Proof.
  unfold state_from. apply plain_bind; [apply plain_seal_from|]. intros sl. destruct (c_rw_kind row); plain.
Qed.
Lemma plain_generation_from row : plain_result (generation_from row).
Proof. unfold generation_from. plain. Qed.
Lemma plain_ticket_from row : plain_result (ticket_from row).
Proof. unfold ticket_from. plain. Qed.
Lemma plain_tombstone_from row : plain_result (tombstone_from row).
Proof. unfold tombstone_from. plain. Qed.

Lemma from_to_db n z : to_db n = Ok z → from_db z = Ok n.
Proof.
  unfold to_db, from_db. destruct (_ <=? _)%N; [|done]. intros [= <-].
  destruct (Z.leb_spec 0 (Z.of_N n)); [|lia]. by rewrite N2Z.id.
Qed.

Lemma to_db_inj n n' z : to_db n = Ok z → to_db n' = Ok z → n = n'.
Proof. intros H%from_to_db H'%from_to_db. congruence. Qed.

Lemma from_db_inj z z' n : from_db z = Ok n → from_db z' = Ok n → z = z'.
Proof.
  unfold from_db. destruct (Z.leb_spec 0 z), (Z.leb_spec 0 z'); try done. intros [= <-] [= Heq]. lia.
Qed.

Lemma transpose_from_to n z : transpose to_db n = Ok z → transpose from_db z = Ok n.
Proof.
  destruct n as [n|]; cbn; [|by intros [= <-]]. destruct (to_db n) eqn:Hn; cbn; try done.
  intros [= <-]. cbn. by rewrite (from_to_db _ _ Hn).
Qed.

Lemma parse_checked {form} e (x : Checked form) : damaged (check e (text x)) = Ok x.
Proof. by rewrite (proj2 (check_ok e (text x) x)). Qed.

Lemma parse_key (k : KeyId) : damaged (KeyId.parse (text k)) = Ok k.
Proof. apply (parse_checked _ k). Qed.
Lemma parse_upload (u : UploadId) : damaged (UploadId.parse (text u)) = Ok u.
Proof. apply (parse_checked _ u). Qed.
Lemma parse_item (id : ItemId) : damaged (ItemId.parse (text id)) = Ok id.
Proof. apply (parse_checked _ id). Qed.

Lemma parse_checked_inj {form} e e' s s' (x : Checked form) :
  damaged (check e s) = Ok x → damaged (check e' s') = Ok x → s = s'.
Proof.
  intros H H'. destruct (check e s) as [y| | |] eqn:Hy; try done. injection H as ->.
  destruct (check e' s') as [y| | |] eqn:Hy'; try done. injection H' as ->.
  apply check_ok in Hy, Hy'. congruence.
Qed.

Lemma key_from_text (k : option KeyId) : key_from (text <$> k) = Ok k.
Proof.
  destruct k as [k|]; [|done].
  change (key_from (text <$> Some k)) with (k' ← damaged (KeyId.parse (text k)); Ok (Some k')).
  by rewrite parse_key.
Qed.

Lemma ticket_row_from t u row : ticket_row t = Ok row → ticket_from (text u, row) = Ok (u, t).
Proof.
  unfold ticket_row. destruct (to_db (ur_size _)) as [size| | |] eqn:Hs; cbn; try done.
  destruct (to_db (t_expires_at t)) as [expires| | |] eqn:He; cbn; try done. intros [= <-].
  unfold ticket_from. cbn [fst snd c_item_id c_size c_expected_key c_expires_at].
  rewrite parse_upload, parse_item. cbn. rewrite (from_to_db _ _ Hs), key_from_text, (from_to_db _ _ He).
  by destruct t as [[] []].
Qed.

Lemma tombstone_row_from st u row : tombstone_row st = Ok row → tombstone_from (text u, row) = Ok (u, st).
Proof.
  unfold tombstone_row. destruct (to_db (s_expires_at st)) as [expires| | |] eqn:He; cbn; try done.
  intros [= <-]. unfold tombstone_from.
  cbn [fst snd c_stone_item_id c_stone_expires_at]. rewrite parse_upload, parse_item. cbn.
  rewrite (from_to_db _ _ He). by destruct st as [[] []].
Qed.

(** What a record's own row says of it. *)
Lemma record_row_from r row :
  record_row r = Ok row →
  state_from row = Ok (state r) ∧ from_db (c_generation row) = Ok (generation r) ∧
  transpose from_db (c_plain row) = Ok (plain r) ∧ from_db (c_next_generation row) = Ok (next_generation r).
Proof.
  unfold record_row. intros Hrow.
  assert (∃ sl session, (sl, session) = match state r with
      | Settled sl => (sl, None) | Rewriting s => (prior s, Some s) end ∧
    state r = match session with None => Settled sl | Some s => Rewriting s end ∧
    match session with None => True | Some s => prior s = sl end) as (sl & session & Heq & Hst & Hpr)
    by (destruct (state r) as [sl|s]; by eexists _, _).
  rewrite <- Heq in Hrow.
  destruct (to_db (generation r)) as [g| | |] eqn:Hg; try done.
  destruct (transpose to_db (plain r)) as [p| | |] eqn:Hp; try done.
  destruct (to_db (next_generation r)) as [n| | |] eqn:Hn; try done. cbn in Hrow.
  destruct (transpose (λ s, to_db (lease_expires_at s)) session) as [lease| | |] eqn:Hl; try done. cbn in Hrow.
  destruct (transpose (λ s, to_db (staged_generation s)) session) as [stg| | |] eqn:Hs; try done. cbn in Hrow.
  injection Hrow as <-. cbn [c_generation c_plain c_next_generation].
  rewrite (from_to_db _ _ Hg), (transpose_from_to _ _ Hp), (from_to_db _ _ Hn). split_and!; try done.
  unfold state_from, seal_from. cbn [c_seal_key c_seal_header c_rw_kind].
  replace (text ∘ seal_key_id <$> sl) with (text <$> (seal_key_id <$> sl)) by (by destruct sl).
  rewrite key_from_text.
  assert ((match seal_key_id <$> sl, seal_header <$> sl with
    | Some k, Some header => Ok (Some (mkSeal k header))
    | None, None => Ok None
    | _, _ => Err ServiceUnavailable end : outcome ApiError (option Seal)) = Ok sl) as Hsl
    by (by destruct sl as [[]|]).
  rewrite Hst. destruct session as [s|]; cbn -[from_db key_from] in *; [|by rewrite Hsl].
  rewrite Hsl. cbn -[from_db key_from].
  destruct (to_db (lease_expires_at s)) as [lz| | |] eqn:Hlz; try done. cbn in Hl. injection Hl as <-.
  destruct (to_db (staged_generation s)) as [sz| | |] eqn:Hsz; try done. cbn in Hs. injection Hs as <-.
  replace (kind_from (kind_text (kind s))) with (Ok (kind s) : outcome ApiError RewriteKind)
    by (by destruct (kind s)).
  cbn -[from_db key_from].
  pose proof (key_from_text (Some (seal_key_id (next s)))) as Hk. cbn -[key_from] in Hk. rewrite Hk.
  cbn -[from_db].
  rewrite (from_to_db _ _ Hlz). cbn -[from_db]. rewrite (from_to_db _ _ Hsz). cbn.
  subst sl. by destruct s as [? ? [] [] ? ?].
Qed.

(** ** Reading rows into a map *)

Section insert_rows.
Context {R K V : Type} `{Countable K} (from : R → outcome ApiError (K * V)).
Implicit Types m : gmap K V.

(** The order of the rows does not matter, as their keys differ. *)
Lemma insert_rows_perm l l' m :
  (∀ x, plain_result (from x)) →
  (∀ x y e e', from x = Ok e → from y = Ok e' → e.1 = e'.1 → x ∈ l → y ∈ l → x = y) →
  NoDup l → l ≡ₚ l' → insert_rows from l m = insert_rows from l' m.
Proof.
  intros Hplain Hinj Hnd Hp. revert m Hinj Hnd.
  induction Hp as [|x l l' Hp IH|x y l|l l1 l2 H1 IH1 H2 IH2]; intros m Hinj Hnd; [done|..].
  - cbn. destruct (Hplain x) as [->|[e ->]]; [done|]. cbn. apply IH; [|by inversion Hnd].
    intros a b e1 e2 Ha Hb Heq Hia Hib. eapply Hinj; eauto; by right.
  - cbn. destruct (Hplain x) as [Hx|[e Hx]], (Hplain y) as [Hy|[e' Hy]]; rewrite Hx, Hy; cbn; try done;
      rewrite ?Hx, ?Hy; cbn; try done.
    rewrite insert_insert_ne; [done|]. intros Heq.
    assert (x = y) as -> by (eapply Hinj; [done..| |]; set_solver).
    apply NoDup_cons in Hnd as [Hn _]. apply Hn. by left.
  - rewrite IH1 by done. apply IH2; [|by rewrite <- H1].
    intros a b e1 e2 Ha Hb Heq Hia Hib. eapply Hinj; eauto; by rewrite H1.
Qed.

(** Rows that are those of a map, in any order, give the map. *)
Lemma insert_rows_complete l m :
  (∀ row, row ∈ l → ∃ k v, from row = Ok (k, v) ∧ m !! k = Some v) →
  (∀ k v, m !! k = Some v → ∃ row, row ∈ l ∧ from row = Ok (k, v)) →
  insert_rows from l ∅ = Ok m.
Proof.
  intros Hrows Hall.
  enough (∀ acc, acc ⊆ m → ∃ m', insert_rows from l acc = Ok m' ∧ acc ⊆ m' ∧ m' ⊆ m ∧
    ∀ k v row, row ∈ l → from row = Ok (k, v) → m' !! k = Some v) as Hgen.
  { destruct (Hgen ∅ (map_empty_subseteq m)) as (m' & -> & _ & Hsub & Hin). f_equal.
    apply (anti_symm (⊆)); [done|]. apply map_subseteq_spec. intros k v Hk.
    destruct (Hall k v Hk) as (row & Hr & Hf). by apply (Hin k v row). }
  clear Hall. induction l as [|row l IH]; intros acc Hacc; cbn.
  { exists acc. split_and!; try done. intros k v row Hr. by apply elem_of_nil in Hr. }
  destruct (Hrows row ltac:(by left)) as (k & v & Hf & Hk). rewrite Hf. cbn.
  destruct (IH ltac:(intros; apply Hrows; by right) (<[k := v]> acc)) as (m' & Hm' & Hsub & Hsub' & Hin).
  { apply map_subseteq_spec. intros k' v' [[<- <-]|[_ Hk']]%lookup_insert_Some; [done|].
    by eapply lookup_weaken. }
  exists m'. split_and!; try done.
  - apply map_subseteq_spec. intros k' v' Hk'. destruct (decide (k = k')) as [<-|Hne].
    + eapply lookup_weaken in Hacc; [|exact Hk']. assert (v' = v) as -> by congruence.
      eapply lookup_weaken; [|exact Hsub]. apply lookup_insert_eq.
    + eapply lookup_weaken; [|exact Hsub]. by rewrite lookup_insert_ne.
  - intros k' v' row' Hr Hf'. apply elem_of_cons in Hr as [->|Hr]; [|by eapply Hin].
    rewrite Hf in Hf'. injection Hf' as <- <-. eapply lookup_weaken; [|exact Hsub]. apply lookup_insert_eq.
Qed.
End insert_rows.

Lemma insert_keys_perm l l' s : l ≡ₚ l' → insert_keys l s = insert_keys l' s.
Proof.
  intros Hp. revert s. induction Hp as [|x l l' Hp IH|x y l|l l1 l2 H1 IH1 H2 IH2]; intros s; [done|..].
  - cbn. destruct (plain_damaged (KeyId.parse x)) as [->|[k ->]]; [done|]. cbn. apply IH.
  - cbn. destruct (plain_damaged (KeyId.parse x)) as [->|[k ->]], (plain_damaged (KeyId.parse y)) as [->|[k' ->]];
      cbn; try done. f_equal. set_solver.
  - by rewrite IH1.
Qed.

Lemma insert_keys_complete l (s : gset KeyId) :
  (∀ row, row ∈ l ↔ ∃ k, row = text k ∧ k ∈ s) → insert_keys l ∅ = Ok s.
Proof.
  intros Hl.
  assert (∀ acc, insert_keys l acc = Ok (acc ∪ list_to_set (omap (λ row, match KeyId.parse row with Ok k => Some k | _ => None end) l))) as Hgen.
  { assert (∀ row, row ∈ l → ∃ k, row = text k) as Hparse by (intros row Hr; apply Hl in Hr as (k & -> & _); eauto).
    clear Hl. induction l as [|row l IH]; intros acc; cbn; [f_equal; set_solver|].
    destruct (Hparse row ltac:(by left)) as [k ->]. pose proof (parse_key k) as Hk. rewrite Hk. cbn.
    destruct (KeyId.parse (text k)) as [k'| | |]; try done. injection Hk as ->.
    rewrite IH by (intros; apply Hparse; by right). f_equal. cbn. set_solver. }
  rewrite Hgen. f_equal. apply set_eq. intros k.
  rewrite elem_of_union, elem_of_list_to_set, list_elem_of_omap. split.
  - intros [Hk|(row & Hr & Hk)]; [set_solver|]. apply Hl in Hr as (k' & -> & Hk').
    pose proof (parse_key k') as Hp. destruct (KeyId.parse (text k')); simplify_eq/=. done.
  - intros Hk. right. exists (text k). split; [apply Hl; eauto|].
    pose proof (parse_key k) as Hp. destruct (KeyId.parse (text k)); simplify_eq/=. done.
Qed.

(** ** What a workspace's rows say *)

(** [read], of the tables. *)
Definition read_of (w : string) (t : Tables) : outcome ApiError WorkspaceRecord :=
  row ← ok_or NotFound (fst <$> workspaces t !! w);
  state ← state_from row;
  used ← insert_rows generation_from (map_to_list (rows_of w (generations_table t))) ∅;
  tickets ← insert_rows ticket_from (map_to_list (rows_of w (uploads t))) ∅;
  tombstones ← insert_rows tombstone_from (map_to_list (rows_of w (stones t))) ∅;
  ended_rewrites ← insert_keys (elements (rows_of w (ended t))) ∅;
  generation ← from_db (c_generation row);
  plain ← transpose from_db (c_plain row);
  next_generation ← from_db (c_next_generation row);
  Ok (mkRecord state generation plain next_generation used tickets tombstones ended_rewrites).

Lemma insert_rows_map {K V K' V'} `{Countable K, Countable K'} (from : K' * V' → outcome ApiError (K * V)) l
    (m : gmap K' V') :
  (∀ x, plain_result (from x)) →
  (∀ x y e e', from x = Ok e → from y = Ok e' → e.1 = e'.1 → x.1 = y.1) →
  l ≡ₚ map_to_list m → insert_rows from l ∅ = insert_rows from (map_to_list m) ∅.
Proof.
  intros Hplain Hinj Hl. apply insert_rows_perm; [done| |by rewrite Hl; apply NoDup_map_to_list|done].
  intros [k v] [k' v'] e e' Hx Hy Heq Hin Hin'. rewrite Hl, elem_of_map_to_list in Hin, Hin'.
  specialize (Hinj _ _ _ _ Hx Hy Heq). cbn in Hinj. subst k'. congruence.
Qed.

Lemma generation_from_inj x y e e' :
  generation_from x = Ok e → generation_from y = Ok e' → e.1 = e'.1 → x.1 = y.1.
Proof.
  unfold generation_from. destruct (from_db x.1) eqn:Hx, (from_db y.1) eqn:Hy; try done; cbn.
  destruct (from_db x.2), (from_db y.2); try done. intros [= <-] [= <-] Heq. cbn in Heq. subst.
  by eapply from_db_inj.
Qed.

Lemma upload_id_inj s s' (u : UploadId) :
  damaged (UploadId.parse s) = Ok u → damaged (UploadId.parse s') = Ok u → s = s'.
Proof. apply parse_checked_inj. Qed.

Lemma ticket_from_inj x y e e' :
  ticket_from x = Ok e → ticket_from y = Ok e' → e.1 = e'.1 → x.1 = y.1.
Proof.
  unfold ticket_from. intros Hx Hy Heq.
  destruct (damaged (UploadId.parse x.1)) as [u| | |] eqn:Hux; try done.
  destruct (damaged (UploadId.parse y.1)) as [u'| | |] eqn:Huy; try done.
  assert (e.1 = u ∧ e'.1 = u') as [H1 H2].
  { split; [clear Hy|clear Hx]; repeat match goal with
      | H : (?x ≫= _) = Ok _ |- _ => destruct x eqn:?; try done; cbn in H
      end; simplify_eq/=; done. }
  assert (u = u') as <- by congruence. by eapply upload_id_inj.
Qed.

Lemma tombstone_from_inj x y e e' :
  tombstone_from x = Ok e → tombstone_from y = Ok e' → e.1 = e'.1 → x.1 = y.1.
Proof.
  unfold tombstone_from. intros Hx Hy Heq.
  destruct (damaged (UploadId.parse x.1)) as [u| | |] eqn:Hux; try done.
  destruct (damaged (UploadId.parse y.1)) as [u'| | |] eqn:Huy; try done.
  assert (e.1 = u ∧ e'.1 = u') as [H1 H2].
  { split; [clear Hy|clear Hx]; repeat match goal with
      | H : (?x ≫= _) = Ok _ |- _ => destruct x eqn:?; try done; cbn in H
      end; simplify_eq/=; done. }
  assert (u = u') as <- by congruence. by eapply upload_id_inj.
Qed.

(** ** Statements at work *)

Section statement_facts.
Context {C : Type} `{Stm : !Statements C} `{LawfulStm : !LawfulStatements C}.
Implicit Types (c : C) (t : Tables).

Lemma wp_ask {A} (q : Sql A) (Q : outcome ApiError A → C → Prop) c :
  (∀ a c', answers q (tables c) a (tables c') → Q (Ok a) c') →
  (∀ c', tables c' = tables c → Q (Err ServiceUnavailable) c') →
  wp (ask q) Q c.
Proof.
  intros Hok Herr. unfold wp, ask. pose proof (sql_law q c) as Hl.
  destruct (sql q c) as [[a|] c']; [by apply Hok|by apply Herr].
Qed.

(** The answer [X] over the tables [t], or none; and nothing changed. *)
Definition consulted {A} t (X : outcome ApiError A) (x : outcome ApiError A) c : Prop :=
  tables c = t ∧ (x = X ∨ x = Err ServiceUnavailable).

Lemma consult_select {A B} (q : Sql A) (f : A → Db B) t c X :
  tables c = t → (∀ t a t', answers q t a t' → t' = t) →
  (∀ a c', tables c' = t → answers q t a t → wp (f a) (consulted t X) c') →
  wp (ask q ≫= f) (consulted t X) c.
Proof.
  intros <- Hsame Hf. apply wp_bind, wp_ask; [|intros c' Hc; split; [done|by right]].
  intros a c' Ha. pose proof (Hsame _ _ _ Ha) as Hc. cbn. apply Hf; [done|]. by rewrite Hc in Ha.
Qed.

Lemma consult_lift {A B} (x : outcome ApiError A) (f : A → Db B) (spec : A → outcome ApiError B) t c :
  tables c = t → (∀ y, wp (f y) (consulted t (spec y)) c) →
  wp (lift x ≫= f) (consulted t (x ≫= spec)) c.
Proof.
  intros Hc Hf. apply wp_bind, wp_lift. destruct x as [y|e| |]; cbn; [apply Hf|..]; (split; [done|by left]).
Qed.

(** A record is read as its rows say, or not at all, and reading changes
    nothing. *)
Lemma read_consults w c : wp (read w) (consulted (tables c) (read_of w (tables c))) c.
Proof.
  enough (∀ t, tables c = t → wp (read w) (consulted t (read_of w t)) c) as Hall by by apply Hall.
  intros t Hc. unfold read, read_of.
  apply consult_select; [done|by intros ? ? ? []|]. clear c Hc. intros row c Hc [_ ->].
  apply consult_lift; [done|]. intros row. apply consult_lift; [done|]. intros st.
  apply consult_select; [done|by intros ? ? ? []|]. clear c Hc. intros rows c Hc [_ Hrows].
  rewrite (insert_rows_map _ _ _ plain_generation_from generation_from_inj Hrows). clear rows Hrows.
  apply consult_lift; [done|]. intros us.
  apply consult_select; [done|by intros ? ? ? []|]. clear c Hc. intros rows c Hc [_ Hrows].
  rewrite (insert_rows_map _ _ _ plain_ticket_from ticket_from_inj Hrows). clear rows Hrows.
  apply consult_lift; [done|]. intros ts.
  apply consult_select; [done|by intros ? ? ? []|]. clear c Hc. intros rows c Hc [_ Hrows].
  rewrite (insert_rows_map _ _ _ plain_tombstone_from tombstone_from_inj Hrows). clear rows Hrows.
  apply consult_lift; [done|]. intros ss.
  apply consult_select; [done|by intros ? ? ? []|]. clear c Hc. intros rows c Hc [_ Hrows].
  rewrite (insert_keys_perm _ _ _ Hrows). clear rows Hrows.
  do 4 (apply consult_lift; [done|]; intros ?). apply wp_ret. by split; [|left].
Qed.

(** ** Writing *)

(** Two states of the tables that differ at most in the rows of [w]. *)
Record only_rows_of (w : string) t t' : Prop := {
  or_workspaces w' : w' ≠ w → workspaces t' !! w' = workspaces t !! w';
  or_generations w' : w' ≠ w → rows_of w' (generations_table t') = rows_of w' (generations_table t);
  or_uploads w' : w' ≠ w → rows_of w' (uploads t') = rows_of w' (uploads t);
  or_stones w' : w' ≠ w → rows_of w' (stones t') = rows_of w' (stones t);
  or_ended w' : w' ≠ w → rows_of w' (ended t') = rows_of w' (ended t);
  or_names w' : snd <$> workspaces t' !! w' = snd <$> workspaces t !! w';
  or_keys : api_keys t' = api_keys t;
  or_audit : audit_rows t' = audit_rows t;
}.

#[global] Instance only_rows_of_preorder w : PreOrder (only_rows_of w).
Proof.
  split; [intros t; by split|]. intros t1 t2 t3 H12 H23. split; intros;
    [rewrite (or_workspaces w t2 t3), (or_workspaces w t1 t2) by done
    |rewrite (or_generations w t2 t3), (or_generations w t1 t2) by done
    |rewrite (or_uploads w t2 t3), (or_uploads w t1 t2) by done
    |rewrite (or_stones w t2 t3), (or_stones w t1 t2) by done
    |rewrite (or_ended w t2 t3), (or_ended w t1 t2) by done
    |rewrite (or_names w t2 t3), (or_names w t1 t2) by done
    |rewrite (or_keys w t2 t3), (or_keys w t1 t2) by done
    |rewrite (or_audit w t2 t3), (or_audit w t1 t2) by done]; done.
Qed.

Lemma rows_of_insert {M} `{Empty M} w w' (m : M) (t : gmap string M) :
  rows_of w' (<[w := m]> t) = if decide (w = w') then m else rows_of w' t.
Proof.
  unfold rows_of. case_decide; subst; [by rewrite lookup_insert_eq|by rewrite lookup_insert_ne].
Qed.

Lemma rows_of_delete {M} `{Empty M} w w' (t : gmap string M) :
  rows_of w' (delete w t) = if decide (w = w') then ∅ else rows_of w' t.
Proof.
  unfold rows_of. case_decide; subst; [by rewrite lookup_delete_eq|by rewrite lookup_delete_ne].
Qed.

(** Each statement of [write] stays within the workspace's rows. *)
Definition statement_of (w : string) {A} (q : Sql A) : Prop :=
  ∀ t a t', answers q t a t' → only_rows_of w t t'.

Ltac within := intros t a t' Ha; cbn in Ha;
  repeat match goal with H : _ ∧ _ |- _ => destruct H end; subst t'; split; intros; cbn;
  rewrite ?rows_of_insert, ?rows_of_delete, ?decide_False, ?lookup_alter_ne by done; try done.

Lemma update_record_within w row : statement_of w (UpdateRecord w row).
Proof.
  within. destruct (decide (w = w')) as [<-|Hne]; [|by rewrite lookup_alter_ne].
  rewrite lookup_alter_eq. by destruct (workspaces t !! w) as [[]|].
Qed.
Lemma delete_generations_within w : statement_of w (DeleteGenerations w).
Proof. within. Qed.
Lemma delete_uploads_within w : statement_of w (DeleteUploads w).
Proof. within. Qed.
Lemma delete_tombstones_within w : statement_of w (DeleteTombstones w).
Proof. within. Qed.
Lemma delete_ended_within w : statement_of w (DeleteEndedRewrites w).
Proof. within. Qed.

(** A workspace's rows, while [write] replaces them: its own row, and which
    rows of each table are there already. *)
Record staged_rows (w : string) t0 (row : RecordRow) (PG : Z * Z → Prop) (PU : string * UploadRow → Prop)
    (PS : string * StoneRow → Prop) (PK : string → Prop) t : Prop := mkStaged {
  sr_only : only_rows_of w t0 t;
  sr_row : fst <$> workspaces t !! w = Some row;
  sr_generations z b : rows_of w (generations_table t) !! z = Some b ↔ PG (z, b);
  sr_uploads u ur : rows_of w (uploads t) !! u = Some ur ↔ PU (u, ur);
  sr_stones u sr : rows_of w (stones t) !! u = Some sr ↔ PS (u, sr);
  sr_ended k : k ∈ rows_of w (ended t) ↔ PK k;
}.

(** An insertion that succeeds adds its row. *)
Lemma inserted_lookup {K V} `{Countable K} (m : gmap K V) k v (P : K * V → Prop) :
  (∀ k v, m !! k = Some v ↔ P (k, v)) → m !! k = None →
  ∀ k' v', <[k := v]> m !! k' = Some v' ↔ P (k', v') ∨ (k', v') = (k, v).
Proof.
  intros Hm Hk k' v'. rewrite lookup_insert_Some, <- Hm. split.
  - intros [[<- <-]|[_ Hl]]; auto.
  - intros [Hl|[= -> ->]]; [right|auto]. split; [|done]. intros ->. congruence.
Qed.

Lemma stage_generation w t0 row PG PU PS PK t g b a t' :
  staged_rows w t0 row PG PU PS PK t → answers (InsertGeneration w g b) t a t' →
  staged_rows w t0 row (λ r, PG r ∨ r = (g, b)) PU PS PK t'.
Proof.
  intros [Ho Hr Hg Hu Hs Hk] (_ & Hnone & ->). split; try done.
  - etrans; [exact Ho|]. split; intros; cbn; rewrite ?rows_of_insert, ?decide_False by done; done.
  - intros z b'. cbn. rewrite rows_of_insert, decide_True by done. by apply inserted_lookup.
Qed.

Lemma stage_upload w t0 row PG PU PS PK t u ur a t' :
  staged_rows w t0 row PG PU PS PK t → answers (InsertUpload w u ur) t a t' →
  staged_rows w t0 row PG (λ r, PU r ∨ r = (u, ur)) PS PK t'.
Proof.
  intros [Ho Hr Hg Hu Hs Hk] (_ & Hnone & ->). split; try done.
  - etrans; [exact Ho|]. split; intros; cbn; rewrite ?rows_of_insert, ?decide_False by done; done.
  - intros u' ur'. cbn. rewrite rows_of_insert, decide_True by done. by apply inserted_lookup.
Qed.

Lemma stage_stone w t0 row PG PU PS PK t u sr a t' :
  staged_rows w t0 row PG PU PS PK t → answers (InsertTombstone w u sr) t a t' →
  staged_rows w t0 row PG PU (λ r, PS r ∨ r = (u, sr)) PK t'.
Proof.
  intros [Ho Hr Hg Hu Hs Hk] (_ & Hnone & ->). split; try done.
  - etrans; [exact Ho|]. split; intros; cbn; rewrite ?rows_of_insert, ?decide_False by done; done.
  - intros u' sr'. cbn. rewrite rows_of_insert, decide_True by done. by apply inserted_lookup.
Qed.

Lemma stage_ended w t0 row PG PU PS PK t k a t' :
  staged_rows w t0 row PG PU PS PK t → answers (InsertEndedRewrite w k) t a t' →
  staged_rows w t0 row PG PU PS (λ r, PK r ∨ r = k) t'.
Proof.
  intros [Ho Hr Hg Hu Hs Hk] (_ & Hnone & ->). split; try done.
  - etrans; [exact Ho|]. split; intros; cbn; rewrite ?rows_of_insert, ?decide_False by done; done.
  - intros k'. cbn. rewrite rows_of_insert, decide_True, <- Hk by done. set_solver.
Qed.

(** One of the loops of [write]: each round inserts one row, or all fails. *)
Definition or_fails {A} (P : Tables → Prop) (y : outcome ApiError A) c : Prop :=
  y = Err ServiceUnavailable ∨ is_ok y ∧ P (tables c).

Lemma wp_plain_lift {A B} (x : outcome ApiError A) (f : A → Db B) P c :
  plain_result x → (∀ y, x = Ok y → wp (f y) (or_fails P) c) → wp (lift x ≫= f) (or_fails P) c.
Proof. intros [->|[y ->]] Hf; apply wp_bind, wp_lift; cbn; [by left|by apply Hf]. Qed.

Lemma wp_then {A} (m : Db unit) (f : Db A) P Q c :
  wp m (or_fails P) c → (∀ c', P (tables c') → wp f (or_fails Q) c') → wp (m;; f) (or_fails Q) c.
Proof.
  intros Hm Hf. apply wp_bind. eapply wp_mono; [exact Hm|].
  intros x c' [->|[Hx HP]]; [by left|]. destruct x; try done. by apply Hf.
Qed.

Lemma wp_insert_loop {A Row} (l : list A) (f : A → Db unit) (enc : A → Row → Prop)
    (I : (Row → Prop) → Tables → Prop) P0 c :
  (∀ P P' t, (∀ r, P r ↔ P' r) → I P t → I P' t) →
  (∀ x P c, I P (tables c) → wp (f x) (or_fails (λ t,
    ∃ row, (∀ row', enc x row' ↔ row' = row) ∧ I (λ r, P r ∨ r = row) t)) c) →
  I P0 (tables c) →
  wp (for_each l f) (or_fails (λ t, (∀ x, x ∈ l → ∃ row, enc x row) ∧
    I (λ row, P0 row ∨ ∃ x, x ∈ l ∧ enc x row) t)) c.
Proof.
  intros Hproper Hf. revert P0 c. induction l as [|x l IH]; intros P0 c HI; cbn.
  - apply wp_ret. right. split; [done|]. split; [set_solver|]. eapply Hproper; [|exact HI]. set_solver.
  - eapply wp_then; [by apply Hf|]. intros c' (row & Hrow & HI').
    eapply wp_mono; [by apply IH|]. intros y c'' [->|[Hy [Hall HI'']]]; [by left|right].
    split; [done|]. split.
    + intros x' [->|Hx]%elem_of_cons; [exists row; by apply Hrow|by apply Hall].
    + eapply Hproper; [|exact HI'']. intros r. setoid_rewrite elem_of_cons. split.
      * intros [[Hr| ->]|(x' & Hx' & Hr)]; [by left|right; exists x; split; [by left|by apply Hrow]|right; eauto].
      * intros [Hr|(x' & [->|Hx'] & Hr)]; [by do 2 left|left; right; by apply Hrow|right; eauto].
Qed.

(** What a row of each table stands for. *)
Definition is_generation (e : N * N) (row : Z * Z) : Prop := to_db e.1 = Ok row.1 ∧ to_db e.2 = Ok row.2.
Definition is_ticket (e : UploadId * Ticket) (row : string * UploadRow) : Prop :=
  row.1 = text e.1 ∧ ticket_row e.2 = Ok row.2.
Definition is_tombstone (e : UploadId * Tombstone) (row : string * StoneRow) : Prop :=
  row.1 = text e.1 ∧ tombstone_row e.2 = Ok row.2.
Definition is_ended (k : KeyId) (row : string) : Prop := row = text k.

Lemma plain_ticket_row (k : Ticket) : plain_result (ticket_row k).
Proof. unfold ticket_row. plain. Qed.
Lemma plain_tombstone_row (st : Tombstone) : plain_result (tombstone_row st).
Proof. unfold tombstone_row. plain. Qed.
Lemma plain_record_row r : plain_result (record_row r).
Proof. unfold record_row. destruct (state r); plain. Qed.

Lemma wp_ask_unit (q : Sql unit) P c :
  (∀ a t', answers q (tables c) a t' → P t') → wp (ask q) (or_fails P) c.
Proof. intros Hq. apply wp_ask; [|by left]. intros a c' Ha. right. split; [done|]. by eapply Hq. Qed.

Lemma generation_row_from e row : is_generation e row → generation_from row = Ok e.
Proof.
  intros [Hg Hb]. unfold generation_from. rewrite (from_to_db _ _ Hg). cbn. rewrite (from_to_db _ _ Hb).
  by destruct e.
Qed.
Lemma ticket_is_from e row : is_ticket e row → ticket_from row = Ok e.
Proof. destruct e, row. intros [Hu Hr]. cbn in *. subst. by apply ticket_row_from. Qed.
Lemma tombstone_is_from e row : is_tombstone e row → tombstone_from row = Ok e.
Proof. destruct e, row. intros [Hu Hr]. cbn in *. subst. by apply tombstone_row_from. Qed.

(** A table whose rows are those of a map's entries is read as the map. *)
Lemma rows_of_entries {K V K' V'} `{Countable K, KeyOrder K, Countable K'}
    (from : K' * V' → outcome ApiError (K * V)) (enc : K * V → K' * V' → Prop) (m : gmap K V) (rows : gmap K' V') :
  (∀ e row, enc e row → from row = Ok e) →
  (∀ e, e ∈ btree_iter m → ∃ row, enc e row) →
  (∀ k v, rows !! k = Some v ↔ ∃ e, e ∈ btree_iter m ∧ enc e (k, v)) →
  insert_rows from (map_to_list rows) ∅ = Ok m.
Proof.
  intros Hfrom Hall Hrows. apply insert_rows_complete.
  - intros [k v] ([k' v'] & He & Henc)%elem_of_map_to_list%Hrows. exists k', v'.
    split; [by apply Hfrom|by apply elem_of_btree_iter].
  - intros k v Hk%elem_of_btree_iter. destruct (Hall _ Hk) as [[k' v'] Henc].
    exists (k', v'). split; [|by apply Hfrom]. apply elem_of_map_to_list, Hrows. eauto.
Qed.

(** The whole record is in its rows. *)
Record written_rows (w : string) t0 (r : WorkspaceRecord) t : Prop := mkWritten {
  wr_only : only_rows_of w t0 t;
  wr_read : read_of w t = Ok r;
}.

Lemma staged_complete w t0 row r PG PU PS PK t :
  record_row r = Ok row →
  staged_rows w t0 row PG PU PS PK t →
  (∀ e, e ∈ btree_iter (used r) → ∃ row, is_generation e row) →
  (∀ row, PG row ↔ ∃ e, e ∈ btree_iter (used r) ∧ is_generation e row) →
  (∀ e, e ∈ btree_iter (tickets r) → ∃ row, is_ticket e row) →
  (∀ row, PU row ↔ ∃ e, e ∈ btree_iter (tickets r) ∧ is_ticket e row) →
  (∀ e, e ∈ btree_iter (tombstones r) → ∃ row, is_tombstone e row) →
  (∀ row, PS row ↔ ∃ e, e ∈ btree_iter (tombstones r) ∧ is_tombstone e row) →
  (∀ row, PK row ↔ ∃ k, k ∈ elements (ended_rewrites r) ∧ is_ended k row) →
  written_rows w t0 r t.
Proof.
  intros Hrow [Ho Hr Hg Hu Hs Hk] HallG HPG HallU HPU HallS HPS HPK. split; [done|].
  destruct (record_row_from _ _ Hrow) as (Hst & Hgen & Hpl & Hnx).
  unfold read_of. rewrite Hr. cbn [ok_or]. unfold mbind, outcome_bind. cbn [recast]. rewrite Hst. cbn [recast].
  rewrite (rows_of_entries _ is_generation (used r)) by
    (intros; first [by apply generation_row_from|by apply HallG|by rewrite Hg, HPG]). cbn [recast].
  rewrite (rows_of_entries _ is_ticket (tickets r)) by
    (intros; first [by apply ticket_is_from|by apply HallU|by rewrite Hu, HPU]). cbn [recast].
  rewrite (rows_of_entries _ is_tombstone (tombstones r)) by
    (intros; first [by apply tombstone_is_from|by apply HallS|by rewrite Hs, HPS]). cbn [recast].
  rewrite (insert_keys_complete _ (ended_rewrites r)).
  2: { intros k. rewrite elem_of_elements, Hk, HPK. unfold is_ended. setoid_rewrite elem_of_elements. naive_solver. }
  cbn [recast]. rewrite Hgen, Hpl, Hnx. cbn [recast]. by destruct r.
Qed.

(** With no rows but its own, and that rewritten, before the loops. *)
Lemma cleared_rows w t row rr :
  workspaces t !! w = Some rr →
  staged_rows w t row (λ _, False) (λ _, False) (λ _, False) (λ _, False)
    (with_ended (delete w) (with_stones (delete w) (with_uploads (delete w)
      (with_generations_table (delete w) (with_workspaces (alter (λ r, (row, r.2)) w) t))))).
Proof.
  intros Hw. split; cbn.
  - etrans; [by eapply (update_record_within w row t ())|].
    etrans; [by eapply (delete_generations_within w _ ())|].
    etrans; [by eapply (delete_uploads_within w _ ())|].
    etrans; [by eapply (delete_tombstones_within w _ ())|].
    by eapply (delete_ended_within w _ ()).
  - by rewrite lookup_alter_eq, Hw.
  - intros. by rewrite rows_of_delete, decide_True, lookup_empty.
  - intros. by rewrite rows_of_delete, decide_True, lookup_empty.
  - intros. by rewrite rows_of_delete, decide_True, lookup_empty.
  - intros. rewrite rows_of_delete, decide_True by done. set_solver.
Qed.

(** The loops of [write]. *)
Lemma insert_generations_loop w t0 row PG PU PS PK l c :
  staged_rows w t0 row PG PU PS PK (tables c) →
  wp (for_each l (λ e : N * N,
    g ← lift (to_db e.1);
    bytes ← lift (to_db e.2);
    ask (InsertGeneration w g bytes)))
    (or_fails (λ t, (∀ e, e ∈ l → ∃ r, is_generation e r) ∧
      staged_rows w t0 row (λ r, PG r ∨ ∃ e, e ∈ l ∧ is_generation e r) PU PS PK t)) c.
Proof.
  apply (wp_insert_loop l _ is_generation (λ P, staged_rows w t0 row P PU PS PK)).
  - intros P P' t HP [Ho Hr Hg Hu Hs Hk]. split; try done. intros. by rewrite Hg, HP.
  - intros e P c' HI. apply wp_plain_lift; [apply plain_to_db|]. intros g Hg.
    apply wp_plain_lift; [apply plain_to_db|]. intros b Hb. apply wp_ask_unit. intros a t' Ha.
    exists (g, b). split; [|by eapply stage_generation]. intros [g' b'].
    split; [intros [H1 H2]; cbn in *; congruence|by intros [= -> ->]].
Qed.

Lemma insert_uploads_loop w t0 row PG PU PS PK l c :
  staged_rows w t0 row PG PU PS PK (tables c) →
  wp (for_each l (λ e : UploadId * Ticket,
    row ← lift (ticket_row e.2);
    ask (InsertUpload w (text e.1) row)))
    (or_fails (λ t, (∀ e, e ∈ l → ∃ r, is_ticket e r) ∧
      staged_rows w t0 row PG (λ r, PU r ∨ ∃ e, e ∈ l ∧ is_ticket e r) PS PK t)) c.
Proof.
  apply (wp_insert_loop l _ is_ticket (λ P, staged_rows w t0 row PG P PS PK)).
  - intros P P' t HP [Ho Hr Hg Hu Hs Hk]. split; try done. intros. by rewrite Hu, HP.
  - intros e P c' HI. apply wp_plain_lift; [apply plain_ticket_row|]. intros ur Hur.
    apply wp_ask_unit. intros a t' Ha.
    exists (text e.1, ur). split; [|by eapply stage_upload]. intros [].
    split; [intros [H1 H2]; cbn in *; congruence|by intros [= -> ->]].
Qed.

Lemma insert_tombstones_loop w t0 row PG PU PS PK l c :
  staged_rows w t0 row PG PU PS PK (tables c) →
  wp (for_each l (λ e : UploadId * Tombstone,
    row ← lift (tombstone_row e.2);
    ask (InsertTombstone w (text e.1) row)))
    (or_fails (λ t, (∀ e, e ∈ l → ∃ r, is_tombstone e r) ∧
      staged_rows w t0 row PG PU (λ r, PS r ∨ ∃ e, e ∈ l ∧ is_tombstone e r) PK t)) c.
Proof.
  apply (wp_insert_loop l _ is_tombstone (λ P, staged_rows w t0 row PG PU P PK)).
  - intros P P' t HP [Ho Hr Hg Hu Hs Hk]. split; try done. intros. by rewrite Hs, HP.
  - intros e P c' HI. apply wp_plain_lift; [apply plain_tombstone_row|]. intros sr Hsr.
    apply wp_ask_unit. intros a t' Ha.
    exists (text e.1, sr). split; [|by eapply stage_stone]. intros [].
    split; [intros [H1 H2]; cbn in *; congruence|by intros [= -> ->]].
Qed.

Lemma insert_ended_loop w t0 row PG PU PS PK l c :
  staged_rows w t0 row PG PU PS PK (tables c) →
  wp (for_each l (λ k : KeyId, ask (InsertEndedRewrite w (text k))))
    (or_fails (λ t, (∀ e, e ∈ l → ∃ r, is_ended e r) ∧
      staged_rows w t0 row PG PU PS (λ r, PK r ∨ ∃ e, e ∈ l ∧ is_ended e r) t)) c.
Proof.
  apply (wp_insert_loop l _ is_ended (λ P, staged_rows w t0 row PG PU PS P)).
  - intros P P' t HP [Ho Hr Hg Hu Hs Hk]. split; try done. intros. by rewrite Hk, HP.
  - intros e P c' HI. apply wp_ask_unit. intros a t' Ha.
    exists (text e). split; [|by eapply stage_ended]. done.
Qed.

(** A record is written whole, or the statements fail; and what is written is
    read back. *)
Lemma write_writes w r c :
  is_Some (workspaces (tables c) !! w) →
  wp (write w r) (or_fails (written_rows w (tables c) r)) c.
Proof.
  intros [rr Hw]. unfold write. apply wp_plain_lift; [apply plain_record_row|]. intros row Hrow.
  do 5 (eapply wp_then; [apply wp_ask_unit; intros [] t' Ht; exact Ht|cbn; intros ? ?]).
  pose proof (cleared_rows w (tables c) row rr Hw) as Hst.
  replace (with_ended _ _) with (tables c'3) in Hst by congruence.
  eapply wp_then; [apply (insert_generations_loop _ _ _ _ _ _ _ _ _ Hst)|].
  clear Hst. intros c1 [HG Hst].
  eapply wp_then; [apply (insert_uploads_loop _ _ _ _ _ _ _ _ _ Hst)|].
  clear Hst. intros c2 [HU Hst].
  eapply wp_then; [apply (insert_tombstones_loop _ _ _ _ _ _ _ _ _ Hst)|].
  clear Hst. intros c3 [HS Hst].
  eapply wp_mono; [apply (insert_ended_loop _ _ _ _ _ _ _ _ _ Hst)|].
  clear Hst. intros y c4 [->|[Hy [HK Hst]]]; [by left|right]. split; [done|].
  eapply staged_complete; [exact Hrow|exact Hst|done| |done| |done|..]; naive_solver.
Qed.
End statement_facts.

(** ** The records in the tables *)

(** Which errors a record's rows give. *)
Lemma plain_insert_rows {R K V} `{Countable K} (from : R → outcome ApiError (K * V)) l m :
  (∀ x, plain_result (from x)) → plain_result (insert_rows from l m).
Proof. intros Hf. revert m. induction l; intros m; [apply plain_ok|]. by apply plain_bind; [|intros ?]. Qed.

Lemma plain_insert_keys l s : plain_result (insert_keys l s).
Proof. revert s. induction l; intros s; [apply plain_ok|]. by apply plain_bind; [apply plain_damaged|intros ?]. Qed.

Lemma read_of_None w t : workspaces t !! w = None → read_of w t = Err NotFound.
Proof. intros Hw. unfold read_of. by rewrite Hw. Qed.

Lemma read_of_plain w t : is_Some (workspaces t !! w) → plain_result (read_of w t).
Proof.
  intros [rr Hw]. unfold read_of. rewrite Hw.
  apply plain_bind; [apply plain_ok|intros ?]. apply plain_bind; [apply plain_state_from|intros ?].
  apply plain_bind; [apply plain_insert_rows, plain_generation_from|intros ?].
  apply plain_bind; [apply plain_insert_rows, plain_ticket_from|intros ?].
  apply plain_bind; [apply plain_insert_rows, plain_tombstone_from|intros ?].
  apply plain_bind; [apply plain_insert_keys|intros ?]. plain.
Qed.

(** What a workspace that has rows remembers; damaged rows count as nothing. *)
Definition record_in (t : Tables) (w : string) : WorkspaceRecord :=
  match read_of w t with Ok r => r | _ => default_record end.

Definition records_of (t : Tables) : Records :=
  list_to_map (omap (λ e : string * (RecordRow * NameRow),
    match WorkspaceId.parse e.1 with Ok w => Some (w, record_in t e.1) | _ => None end)
    (map_to_list (workspaces t))).

Lemma parse_workspace (w : WorkspaceId) : WorkspaceId.parse (text w) = Ok w.
Proof. by apply check_ok. Qed.

Lemma elem_of_records_list t (w : WorkspaceId) r :
  (w, r) ∈ omap (λ e : string * (RecordRow * NameRow),
    match WorkspaceId.parse e.1 with Ok w => Some (w, record_in t e.1) | _ => None end)
    (map_to_list (workspaces t)) ↔
  is_Some (workspaces t !! text w) ∧ r = record_in t (text w).
Proof.
  rewrite list_elem_of_omap. split.
  - intros ([s rr] & Hin%elem_of_map_to_list & Hs). cbn in Hs.
    destruct (WorkspaceId.parse s) as [w'| | |] eqn:Hp; simplify_eq. apply check_ok in Hp. subst s. eauto.
  - intros [[rr Hw] ->]. exists (text w, rr). rewrite elem_of_map_to_list. cbn. by rewrite parse_workspace.
Qed.

Lemma records_of_lookup t w :
  records_of t !! w = (λ _, record_in t (text w)) <$> workspaces t !! text w.
Proof.
  unfold records_of. destruct (workspaces t !! text w) as [rr|] eqn:Hw; cbn.
  - apply elem_of_list_to_map_1'.
    + by intros y [_ ->]%elem_of_records_list.
    + apply elem_of_records_list. eauto.
  - apply not_elem_of_list_to_map_1. rewrite list_elem_of_fmap. intros ([w' r] & -> & Hin).
    apply elem_of_records_list in Hin as [[? ?] _]. cbn in *. congruence.
Qed.

Lemma records_of_Ok t w r : read_of (text w) t = Ok r → records_of t !! w = Some r.
Proof.
  intros Hr. rewrite records_of_lookup. destruct (workspaces t !! text w) eqn:Hw.
  - cbn. unfold record_in. by rewrite Hr.
  - by rewrite read_of_None in Hr.
Qed.

Lemma records_of_written t t' w r :
  is_Some (workspaces t !! text w) → written_rows (text w) t r t' →
  records_of t' = <[w := r]> (records_of t).
Proof.
  intros [rr Hw] [Ho Hr]. apply map_eq. intros w'. destruct (decide (w' = w)) as [->|Hne].
  - rewrite lookup_insert_eq. by apply records_of_Ok.
  - rewrite lookup_insert_ne, !records_of_lookup by done.
    assert (text w' ≠ text w) as Hne' by (intros Heq; by apply Hne, (checked_eq w' w)).
    rewrite (or_workspaces _ _ _ Ho) by done. unfold record_in, read_of.
    by rewrite (or_workspaces _ _ _ Ho), (or_generations _ _ _ Ho), (or_uploads _ _ _ Ho),
      (or_stones _ _ _ Ho), (or_ended _ _ _ Ho) by done.
Qed.

Lemma records_of_created t w :
  (workspaces t !! text w = None → unreferenced (text w) t) →
  records_of (with_workspaces (λ m, match m !! text w with
    | Some _ => m | None => <[text w := (new_record_row 0 1, mkNameRow None None 0)]> m end) t)
  = created_in w (records_of t).
Proof.
  intros Hun. unfold created_in. rewrite records_of_lookup. unfold with_workspaces.
  destruct (workspaces t !! text w) as [rr|] eqn:Hw; cbn [fmap option_fmap option_map].
  { by destruct t. }
  apply map_eq. intros w'. destruct (decide (w' = w)) as [->|Hne].
  - rewrite lookup_insert_eq. apply records_of_Ok. unfold read_of. cbn [workspaces].
    destruct (Hun eq_refl) as [Hg Hu Hs He]. cbn [generations_table uploads stones ended].
    rewrite lookup_insert_eq, Hg, Hu, Hs, He. by vm_compute.
  - assert (text w' ≠ text w) as Hne' by (intros Heq; by apply Hne, (checked_eq w' w)).
    rewrite lookup_insert_ne, !records_of_lookup by done. cbn [workspaces].
    rewrite lookup_insert_ne by done. unfold record_in, read_of. cbn [workspaces].
    by rewrite lookup_insert_ne.
Qed.

(** ** The ledger keeps the promise of [Ledger] *)

Section lawful.
Context {C X : Type} `{Db : !Database C X} `{LawfulDb : !LawfulDatabase C X}.

(** No statement touches what a transaction would be rolled back to. *)
Definition keeps_origin {A} (m : X → outcome ApiError A * X) : Prop := ∀ x, origin (m x).2 = origin x.

Lemma keeps_ask {A} (q : Sql A) : keeps_origin (ask q).
Proof. intros x. unfold ask. pose proof (origin_law q x) as Ho. by destruct (sql q x) as [[]]. Qed.

Lemma keeps_lift {A} (y : outcome ApiError A) : keeps_origin (lift y).
Proof. done. Qed.

Lemma keeps_bind {A B} (m : M ApiError X A) (f : A → M ApiError X B) :
  keeps_origin m → (∀ a, keeps_origin (f a)) → keeps_origin (m ≫= f).
Proof.
  intros Hm Hf x. specialize (Hm x). unfold mbind, M_bind. destruct (m x) as [[a|e| |] x']; try done.
  cbn in Hm. by rewrite Hf.
Qed.

Lemma keeps_for_each {A} (l : list A) (f : A → M ApiError X unit) :
  (∀ a, keeps_origin (f a)) → keeps_origin (for_each l f).
Proof. intros Hf. induction l; [done|]. by apply keeps_bind. Qed.

Ltac keeps := repeat first
  [ apply keeps_ask | apply keeps_lift | apply keeps_bind; [|intros ?] | apply keeps_for_each; intros ? | done ].

Lemma keeps_read w : keeps_origin (read w).
Proof. unfold read. keeps. Qed.
Lemma keeps_write w r : keeps_origin (write w r).
Proof. unfold write. keeps. Qed.
Lemma keeps_changed w before record : keeps_origin (write_changed w before record).
Proof. unfold write_changed. case_bool_decide; [done|]. apply keeps_write. Qed.

Definition ledger_records (l : SqliteLedger C) : Records := records_of (tables (connection l)).

Lemma create_created w (l : SqliteLedger C) :
  let '(y, l') := create w l in
  (y = Ok () ∧ ledger_records l' = created_in w (ledger_records l)) ∨
  (y = Err ServiceUnavailable ∧ ledger_records l' = ledger_records l).
Proof.
  unfold create. change (to_db (generation default_record)) with (Ok 0%Z : outcome ApiError Z).
  change (to_db (next_generation default_record)) with (Ok 1%Z : outcome ApiError Z).
  assert (wp (ask (InsertOrIgnoreWorkspace (text w) 0 1))
    (λ y d, y = Ok () ∧ records_of (tables d) = created_in w (ledger_records l) ∨
      y = Err ServiceUnavailable ∧ tables d = tables (connection l)) (connection l)) as Hask.
  { apply wp_ask; [|by right]. intros [] d [Hun Ht]. left. split; [done|]. rewrite Ht.
    by apply records_of_created. }
  unfold wp in Hask. unfold mbind, M_bind, lift.
  destruct (ask _ (connection l)) as [y d]. cbn [fst snd] in Hask. destruct Hask as [[-> Hd]|[-> Hd]]; [by left|right].
  split; [done|]. unfold ledger_records. cbn in *. by rewrite Hd.
Qed.

Lemma load_loads w (l : SqliteLedger C) :
  let '(y, l') := load w l in
  ledger_records l' = ledger_records l ∧ (y = ok_or NotFound (ledger_records l !! w) ∨ y = Err ServiceUnavailable).
Proof.
  unfold load. pose proof (read_consults (text w) (connection l)) as Hr. unfold wp in Hr.
  destruct (read (text w) (connection l)) as [y d]. destruct Hr as [Ht Hy]. cbn in Ht, Hy.
  unfold ledger_records. cbn [connection]. rewrite Ht. split; [done|].
  destruct Hy as [-> | ->]; [|by right]. rewrite records_of_lookup.
  destruct (workspaces (tables (connection l)) !! text w) as [rr|] eqn:Hw.
  - destruct (read_of_plain (text w) _ (mk_is_Some _ _ Hw)) as [Hr|[r Hr]]; [by right|left].
    cbn. unfold record_in. by rewrite Hr.
  - left. by rewrite read_of_None.
Qed.

(** A transaction that ends without a commit. *)
Lemma rolled_back (x : X) l n :
  origin x = tables (connection l) →
  ledger_records (mkSqlite (rollback x) (wanted l) n) = ledger_records l.
Proof. intros Ho. unfold ledger_records. cbn. by rewrite rollback_law, Ho. Qed.

(** [write], or nothing where the record is as before; then the commit. *)
Lemma stored_or_not w (before record : WorkspaceRecord) (tx : X) :
  read_of (text w) (tables tx) = Ok before →
  wp (write_changed (text w) before record)
    (λ y tx', origin tx' = origin tx ∧ (y = Err ServiceUnavailable ∨
      is_ok y ∧ records_of (tables tx') = <[w := record]> (records_of (tables tx)))) tx.
Proof.
  intros Hr. assert (is_Some (workspaces (tables tx) !! text w)) as Hw.
  { destruct (workspaces (tables tx) !! text w) eqn:Hw; [done|]. by rewrite read_of_None in Hr. }
  unfold write_changed. case_bool_decide as Heq.
  - subst. apply wp_ret. split; [done|]. right. split; [done|].
    symmetry. by apply insert_id, records_of_Ok.
  - pose proof (write_writes _ record _ Hw) as Hwr. unfold wp in *.
    split; [apply keeps_write|]. destruct Hwr as [?|[? ?]]; [by left|right].
    split; [done|]. by apply records_of_written.
Qed.

Lemma commit_point_cases (l : SqliteLedger C) :
  (commit_point l).1 = Ok () ∨ (commit_point l).1 = Killed.
Proof. unfold commit_point. repeat case_match; auto. Qed.

Lemma transact_transacts {T Y} w (rule : LedgerRule T Y) (l : SqliteLedger C) x :
  let '(y, (l', x')) := transact_sqlite w rule (l, x) in
  (y = Err ServiceUnavailable ∧ ledger_records l' = ledger_records l ∧ x' = x) ∨
  match ledger_records l !! w with
  | None => y = Err NotFound ∧ ledger_records l' = ledger_records l ∧ x' = x
  | Some r => transacted w (ledger_records l) (rule r x) y (ledger_records l') x'
  end.
Proof.
  unfold transact_sqlite. pose proof (begin_law (connection l)) as Hb.
  destruct (begin_transaction (connection l)) as [tx|c].
  2: { left. split; [done|]. unfold ledger_records. cbn. by rewrite Hb. }
  destruct Hb as [Ht Ho].
  pose proof (read_consults (text w) tx) as Hr. pose proof (keeps_read (text w) tx) as Hk. unfold wp in Hr.
  destruct (read (text w) tx) as [y tx1]. destruct Hr as [Ht1 Hy]. cbn [fst snd] in *.
  rewrite <- Hk in Ho. rewrite Ht in Hy, Ht1. clear Ht Hk tx.
  destruct (ledger_records l !! w) as [r|] eqn:Hl.
  2: { unfold ledger_records in Hl. rewrite records_of_lookup in Hl.
    destruct (workspaces _ !! text w) eqn:Hw; [done|]. rewrite (read_of_None _ _ Hw) in Hy.
    destruct Hy as [-> | ->]; [right|left; split; [done|]]; by rewrite rolled_back. }
  assert (plain_result y) as [->|[before ->]].
  { unfold ledger_records in Hl. rewrite records_of_lookup in Hl.
    destruct (workspaces _ !! text w) eqn:Hw; [|done].
    destruct Hy as [->| ->]; [apply read_of_plain, (mk_is_Some _ _ Hw)|by left]. }
  { left. split; [done|]. by rewrite rolled_back. }
  assert (read_of (text w) (tables (connection l)) = Ok before) as Hread by (by destruct Hy).
  assert (Some before = Some r) as [= ->] by (rewrite <- Hl; symmetry; by apply records_of_Ok).
  destruct (rule r x) as [[answer record] x1] eqn:Hrule.
  destruct answer as [a|e| |]; [|right; unfold transacted; by rewrite rolled_back..].
  rewrite <- Ht1 in Hread. pose proof (stored_or_not w r record tx1 Hread) as Hst. unfold wp in Hst.
  destruct (write_changed (text w) r record tx1) as [z tx2]. cbn [fst snd] in Hst. destruct Hst as [Ho2 Hz]. rewrite Ho in Ho2.
  destruct Hz as [->|[Hok Hrec]].
  { right. split; [done|]. right. split; [by left|]. left. by apply rolled_back. }
  destruct z; try done. destruct (commit_point_cases l) as [Hp|Hp]; destruct (commit_point l) as [p n];
    cbn [fst] in Hp; subst p.
  2: { right. split; [done|]. right. split; [by right|]. left. by apply rolled_back. }
  rewrite Ht1 in Hrec. pose proof (commit_law tx2) as Hc. destruct (commit tx2) as [ok c].
  assert (∀ n, tables c = tables tx2 → ledger_records (mkSqlite c (wanted l) n) = <[w := record]> (ledger_records l))
    as Hdone by (intros m Hm; unfold ledger_records; cbn; by rewrite Hm, Hrec).
  assert (∀ n, tables c = origin tx2 → ledger_records (mkSqlite c (wanted l) n) = ledger_records l)
    as Hundone by (intros m Hm; unfold ledger_records; cbn; by rewrite Hm, Ho2).
  destruct ok; right; (split; [done|]).
  - left. split; [done|]. apply Hdone. by destruct Hc as [|[]].
  - right. split; [by left|]. destruct Hc as [|[_ ?]]; [right|left]; auto.
Qed.
End lawful.

#[export] Instance sqlite_ledger {C X} `{Database C X} : Ledger (SqliteLedger C) := {|
  ledger_create := create;
  ledger_load := load;
  transact T Y := transact_sqlite;
|}.

#[export] Instance sqlite_ledger_lawful {C X} `{LawfulDatabase C X} : LawfulLedger (SqliteLedger C).
Proof.
  refine {| records := ledger_records |}.
  - intros w l. pose proof (create_created w l) as Hc. cbn. destruct (create w l). unfold interrupted. tauto.
  - intros w l. pose proof (load_loads w l) as Hc. cbn. destruct (load w l). unfold interrupted. tauto.
  - intros T Y w rule l x. pose proof (transact_transacts w rule l x) as Hc.
    change (transact w rule (l, x)) with (transact_sqlite w rule (l, x)).
    destruct (transact_sqlite w rule (l, x)) as [y [l' x']].
    destruct Hc as [(-> & ? & ?)|Hc]; [left|by right]. split; [by left|done].
Defined.

(** ** Properties *)

Section properties.
Context {C X : Type} `{Db : !Database C X} `{LawfulDb : !LawfulDatabase C X}.

(** C19: A record that is written to the rows of a workspace that is there is
    read back as it was, seal, session, generations, tickets, tombstones and
    ended rewrites, unless a statement fails; and no other row of the database
    is touched, not even the workspace's name and quota. *)
Theorem what_is_written_is_read_back (w : string) (r : WorkspaceRecord) (tx : X) :
  is_Some (workspaces (tables tx) !! w) →
  let '(y, tx1) := write w r tx in
  y = Err ServiceUnavailable ∨
  (y = Ok () ∧ only_rows_of w (tables tx) (tables tx1) ∧
   let '(z, tx2) := read w tx1 in
   (z = Ok r ∨ z = Err ServiceUnavailable) ∧ tables tx2 = tables tx1).
Proof.
  intros Hw. pose proof (write_writes w r tx Hw) as Hwr. unfold wp in Hwr.
  destruct (write w r tx) as [y tx1]. cbn [fst snd] in Hwr. destruct Hwr as [->|[Hok [Ho Hr]]]; [by left|right].
  destruct y as [[]| | |]; try done. split_and!; [done..|].
  pose proof (read_consults w tx1) as Hrd. unfold wp in Hrd.
  destruct (read w tx1) as [z tx2]. destruct Hrd as [Ht Hz]. cbn [fst snd] in *. rewrite Hr in Hz. by split.
Qed.

(** C20: The ledger in SQLite is the ledger the rules are proved against: what
    a workspace remembers is created once, loaded as it was last stored, and
    changed by a rule all or not at all, in its own rows only; a statement, a
    commit or a number that fails is answered with one error. *)
Theorem the_ledger_is_kept {T Y} (w : WorkspaceId) (rule : LedgerRule T Y) (l : SqliteLedger C) (x : Y) :
  (let '(y, l') := create w l in
   (y = Ok () ∧ ledger_records l' = created_in w (ledger_records l)) ∨
   (y = Err ServiceUnavailable ∧ ledger_records l' = ledger_records l)) ∧
  (let '(y, l') := load w l in
   ledger_records l' = ledger_records l ∧
   (y = ok_or NotFound (ledger_records l !! w) ∨ y = Err ServiceUnavailable)) ∧
  (let '(y, (l', x')) := transact_sqlite w rule (l, x) in
   (y = Err ServiceUnavailable ∧ ledger_records l' = ledger_records l ∧ x' = x) ∨
   match ledger_records l !! w with
   | None => y = Err NotFound ∧ ledger_records l' = ledger_records l ∧ x' = x
   | Some r => transacted w (ledger_records l) (rule r x) y (ledger_records l') x'
   end).
Proof. split_and!; [apply create_created|apply load_loads|apply transact_transacts]. Qed.

(** A process that dies before the commit has stored nothing: the record
    is what it was when the transaction began. *)
Theorem a_kill_before_the_commit_stores_nothing {T Y} (w : WorkspaceId) (rule : LedgerRule T Y)
    (l : SqliteLedger C) (x : Y) :
  wanted l = Some ("ledger: before the commit", passes l) →
  ¬ is_ok (transact_sqlite w rule (l, x)).1 ∧
  ledger_records (transact_sqlite w rule (l, x)).2.1 = ledger_records l.
Proof.
  intros Hk. unfold transact_sqlite. pose proof (begin_law (connection l)) as Hb.
  destruct (begin_transaction (connection l)) as [tx|c].
  2: { split; [by intros []|]. unfold ledger_records. cbn. by rewrite Hb. }
  destruct Hb as [_ Ho]. pose proof (keeps_read (text w) tx) as Hrd.
  destruct (read (text w) tx) as [y tx1]. cbn [snd] in Hrd. rewrite Ho in Hrd.
  destruct y as [before| | |]; cbn; try (split; [by intros []|by apply rolled_back]).
  destruct (rule before x) as [[answer record] x1].
  destruct answer; try (split; [by intros []|by apply rolled_back]).
  pose proof (keeps_changed (text w) before record tx1) as Hw.
  destruct (write_changed (text w) before record tx1) as [z tx2]. cbn [snd] in Hw. rewrite Hrd in Hw.
  destruct z; cbn; try (split; [by intros []|by apply rolled_back]).
  assert (commit_point l = (Killed, wadd (passes l) 1)) as ->
    by (unfold commit_point; rewrite Hk; cbn; by rewrite N.eqb_refl).
  split; [by intros []|by apply rolled_back].
Qed.
End properties.

(** ** Witnesses *)

Module Kept.
Definition w : string := "00112233445566aa".
Definition wid : WorkspaceId := mkChecked w eq_refl.
Definition k1 : KeyId := mkChecked "aa01" eq_refl.
Definition k2 : KeyId := mkChecked "bb02" eq_refl.
Definition u : UploadId := mkChecked "00112233445566778899aabbccddeeff" eq_refl.
Definition item : ItemId := mkChecked "00000001-616263000000" eq_refl.

(** A workspace in the middle of a rewrite, with an upload for it and an
    upload remembered. *)
Definition record : WorkspaceRecord := mkRecord
  (Rewriting {| kind := Rotate; prior := Some (mkSeal k1 [Byte.x01]); Records.next := mkSeal k2 [Byte.x02];
    Records.holder := mkApiKeyId "alice"; lease_expires_at := 99; staged_generation := 2 |})
  1 None 3 {[1%N := 5%N; 2%N := 7%N]}
  {[u := mkTicket (mkApiKeyId "alice") (mkUploadRequest item [Byte.x03] 3 (Some k2) true) 50]}
  ∅ {[k1]}.

Definition there : Tables := (sql (InsertOrIgnoreWorkspace w 0 1) no_tables).2.
Definition tx : MemoryTx := mkMemoryTx there there.
Definition ledger : SqliteLedger Tables := mkSqlite there (Some ("ledger: before the commit", 0%N)) 0.
Definition storing : LedgerRule unit unit := λ _ x, (Ok (), record, x).
End Kept.

Lemma what_is_written_is_read_back_witness :
  is_ok (write Kept.w Kept.record Kept.tx).1 ∧
  only_rows_of Kept.w (tables Kept.tx) (tables (write Kept.w Kept.record Kept.tx).2).
Proof.
  assert (is_ok (write Kept.w Kept.record Kept.tx).1) as Hok by (vm_compute; exact I).
  split; [exact Hok|]. revert Hok.
  pose proof (what_is_written_is_read_back (C := Tables) Kept.w Kept.record Kept.tx (mk_is_Some _ _ eq_refl)) as Hw.
  destruct (write Kept.w Kept.record Kept.tx) as [y tx1].
  destruct Hw as [->|(_ & Ho & _)]; [intros []|intros _; exact Ho].
Defined.

Lemma a_kill_before_the_commit_stores_nothing_witness :
  wanted Kept.ledger = Some ("ledger: before the commit", passes Kept.ledger) ∧
  ledger_records (transact_sqlite Kept.wid Kept.storing (Kept.ledger, ())).2.1 = ledger_records Kept.ledger ∧
  bool_decide (size (records_of (tables (connection Kept.ledger))) = 1) = true.
Proof.
  split; [reflexivity|split; [|vm_compute; reflexivity]].
  by apply (a_kill_before_the_commit_stores_nothing (X := MemoryTx) Kept.wid Kept.storing Kept.ledger ()).
Defined.

Lemma the_ledger_is_kept_witness :
  let ran := transact_sqlite Kept.wid Kept.storing (mkSqlite Kept.there None 0, ()) in
  is_ok ran.1 ∧ ledger_records ran.2.1 = <[Kept.wid := Kept.record]> (ledger_records (mkSqlite Kept.there None 0)).
Proof.
  set (ran := transact_sqlite _ _ _). cbn zeta.
  assert (is_ok ran.1) as Hok by (vm_compute; exact I). split; [exact Hok|].
  destruct (the_ledger_is_kept (X := MemoryTx) Kept.wid Kept.storing (mkSqlite Kept.there None 0) ()) as (_ & _ & Ht).
  change (transact_sqlite _ _ _) with ran in Ht. clearbody ran. destruct ran as [y [l' x']].
  destruct Ht as [(-> & _)|Ht]; [destruct Hok|].
  destruct (ledger_records _ !! Kept.wid); [|by destruct Ht as (-> & _)].
  destruct Ht as [_ [(-> & Hr)|([->| ->] & _)]]; [exact Hr|destruct Hok..].
Defined.
