(* ===== verification/Control.v ===== *)
(** The control database beyond the ledger ([control/mod.rs]): workspaces as
    an operator sees them, API keys, the audit trail, and who a bearer token is
    from. *)

From stdpp Require Import pretty.
From S2P Require Import Prelude Text Errors Random Ids Shelf Records Auth Database.

Definition LAST_USE_EVERY_SECS : N := 60.

Record WorkspaceInfo := mkWorkspaceInfo {
  wi_id : WorkspaceId;
  wi_name : string;
  wi_quota_bytes : option N;
  wi_created_at : N;
}.

Inductive KeyState := Active | Expired | Revoked.

Record KeyInfo := mkKeyInfo {
  ki_id : ApiKeyId;
  ki_workspace : WorkspaceId;
  ki_workspace_name : string;
  ki_label : string;
  ki_role : Role;
  ki_created_at : N;
  ki_expires_at : option N;
  ki_revoked_at : option N;
  ki_last_used_at : option N;
}.

Definition key_state (k : KeyInfo) (now : N) : KeyState :=
  match ki_revoked_at k with
  | Some _ => Revoked
  | None =>
      match ki_expires_at k with
      | Some at_ => if (at_ <=? now)%N then Expired else Active
      | None => Active
      end
  end.

Record Authenticated := mkAuthenticated {
  au_workspace : WorkspaceId;
  au_caller : Caller;
  au_expires_at : option N;
  au_label : string;
}.

Record AuditEntry := mkAuditEntry {
  ae_at : N;
  ae_action : string;
  ae_workspace : option string;
  ae_key_id : option string;
  ae_detail : option string;
}.

Inductive ControlError :=
| InvalidName (name : string)
| NameTaken (name : string)
| NoSuchWorkspace (name : string)
| NoSuchKey (id : string)
| Unavailable.

(** [Display] *)
Definition control_error_text (e : ControlError) : string :=
  match e with
  | InvalidName name => "`" ++ name ++ "` is not a workspace name: use lower-case letters, digits, and dashes, at most 32, starting with a letter"
  | NameTaken name => "there is a workspace `" ++ name ++ "` already"
  | NoSuchWorkspace name => "there is no workspace `" ++ name ++ "`"
  | NoSuchKey id => "there is no key `" ++ id ++ "`"
  | Unavailable => "the control database cannot be used; see the log"
  end%string.

(** A connection, the random source, and how often the clock was read. *)
Record Control (C RS : Type) := mkControl {
  db : C;
  control_rng : RS;
  control_ticks : nat;
}.
Arguments mkControl {C RS}.
Arguments db {C RS}.
Arguments control_rng {C RS}.
Arguments control_ticks {C RS}.

Module Control.
Definition valid_name (name : string) : bool :=
  match name with
  | "" => false
  | String first rest =>
      is_lowercase first && (String.length name <=? 32)
      && all_bytes (λ b, is_lowercase b || is_digit b || Ascii.eqb b "-") rest
  end.

Definition role_text (r : Role) : string :=
  match r with ReadWrite => "read-write" | ReadOnly => "read-only" end.

(** [if role == "read-only" { ReadOnly } else { ReadWrite }] *)
Definition role_from (t : string) : Role := if String.eqb t "read-only" then ReadOnly else ReadWrite.

(** [i64::try_from(number).unwrap_or(i64::MAX)] *)
Definition to_db (n : N) : Z := Z.min (Z.of_N n) 9223372036854775807.

Definition from_db (n : option Z) : option N :=
  n ≫= λ n, if (0 <=? n)%Z then Some (Z.to_N n) else None.

(** [None] is [rusqlite::Error::InvalidQuery]: a row that is damaged. *)
Definition parsed_workspace (t : string) : option WorkspaceId :=
  match WorkspaceId.parse t with Ok w => Some w | _ => None end.

Definition key_from (row : KeyRow * option string) : option KeyInfo :=
  let '(k, name) := row in
  w ← parsed_workspace (c_workspace k);
  Some {|
    ki_id := mkApiKeyId (c_key_id k);
    ki_workspace := w;
    ki_workspace_name := default (c_workspace k) name;
    ki_label := c_label k;
    ki_role := role_from (c_role k);
    ki_created_at := default 0%N (from_db (Some (c_key_created_at k)));
    ki_expires_at := from_db (c_key_expires_at k);
    ki_revoked_at := from_db (c_revoked_at k);
    ki_last_used_at := from_db (c_last_used_at k);
  |}.

Definition workspace_from (row : string * NameRow) : option WorkspaceInfo :=
  w ← parsed_workspace row.1;
  Some {|
    wi_name := default row.1 (c_name row.2);
    wi_id := w;
    wi_quota_bytes := from_db (c_quota_bytes row.2);
    wi_created_at := default 0%N (from_db (Some (c_created_at row.2)));
  |}.

(** [.optional()] of a row: it is there, or not, or damaged. *)
Definition optional {R A} (from : R → option A) (row : option R) : outcome ControlError (option A) :=
  match row with
  | None => Ok None
  | Some row => a ← ok_or Unavailable (from row); Ok (Some a)
  end.

Section statements.
Context {D : Type} `{Statements D}.

(** [.map_err(sql(..))] *)
Definition ask {A} (q : Sql A) : M ControlError D A := λ d,
  match sql q d with
  | (Some a, d) => (Ok a, d)
  | (None, d) => (Err Unavailable, d)
  end.

Definition note (at_ : N) (action : string) (workspace key detail : option string) : M ControlError D unit :=
  ask (InsertAudit (mkAuditRow (to_db at_) action workspace key detail)).

Definition ready : M ControlError D unit :=
  ask CountKeys;;
  mret ().

Definition workspaces : M ControlError D (list WorkspaceInfo) :=
  rows ← ask SelectWorkspaces;
  lift (ok_or Unavailable (mapM workspace_from rows)).

Definition workspace (name : string) : M ControlError D WorkspaceInfo :=
  row ← ask (SelectWorkspaceByName name);
  found ← lift (optional workspace_from row);
  lift (ok_or (NoSuchWorkspace name) found).

Definition workspace_by_id (w : WorkspaceId) : M ControlError D (option WorkspaceInfo) :=
  row ← ask (SelectWorkspaceById (text w));
  lift (optional workspace_from row).

Definition keys (only : option string) : M ControlError D (list KeyInfo) :=
  only ← match only with
    | None => mret None
    | Some name => found ← workspace name; mret (Some (text (wi_id found)))
    end;
  rows ← ask (SelectKeys only);
  lift (ok_or Unavailable (mapM key_from rows)).

Definition key (id : string) : M ControlError D KeyInfo :=
  row ← ask (SelectKey id);
  found ← lift (optional key_from row);
  lift (ok_or (NoSuchKey id) found).

Definition audit (limit : N) : M ControlError D (list AuditEntry) :=
  rows ← ask (SelectAudit (to_db limit));
  mret (map (λ row, mkAuditEntry (default 0%N (from_db (Some (c_at row)))) (c_action row)
    (c_audit_workspace row) (c_audit_key_id row) (c_detail row)) rows).
End statements.

Section Control.
Context {C X RS : Type} `{Database C X} `{RandomSource RS} `{Externals}.
(** The clock, by how often it was read before; and how often the loop for a
    new key id may go round. *)
Context (clock : nat → N) (fuel : nat).

Definition Ctl (A : Type) : Type := M ControlError (Control C RS) A.

Definition now : Ctl N := λ s,
  (Ok (clock (control_ticks s)), mkControl (db s) (control_rng s) (S (control_ticks s))).

(** A statement outside any transaction. *)
Definition on_db {A} (m : M ControlError C A) : Ctl A := λ s,
  let '(y, c) := m (db s) in (y, mkControl c (control_rng s) (control_ticks s)).

(** Steps of a transaction, and the draws between them. *)
Definition Tx (A : Type) : Type := M ControlError (X * RS) A.

Definition step {A} (m : M ControlError X A) : Tx A := λ s,
  let '(y, tx) := m s.1 in (y, (tx, s.2)).
Definition draw {A} (f : RS → A * RS) : Tx A := λ s, (Ok (f s.2).1, (s.1, (f s.2).2)).

(** [let tx = connection.transaction()?; ..; tx.commit()?]: an early return
    drops the transaction. *)
Definition in_transaction {A} (body : Tx A) : Ctl A := λ s,
  match begin_transaction (db s) with
  | inr c => (Err Unavailable, mkControl c (control_rng s) (control_ticks s))
  | inl tx =>
      match body (tx, control_rng s) with
      | (Ok a, (tx, rng)) =>
          let '(done, c) := commit tx in
          ((if done : bool then Ok a else Err Unavailable), mkControl c rng (control_ticks s))
      | (z, (tx, rng)) =>
          (recast z (λ _, Err Unavailable), mkControl (rollback tx) rng (control_ticks s))
      end
  end.

Definition create_workspace (name : string) (quota_bytes : option N) : Ctl WorkspaceInfo :=
  if negb (valid_name name) then throw (InvalidName name) else
  now ← now;
  in_transaction (
    taken ← step (ask (WorkspaceNamed name));
    if taken : bool then throw (NameTaken name) else
    id ← draw WorkspaceId.generate;
    step (ask (InsertWorkspace (text id) name (to_db <$> quota_bytes) (to_db now)));;
    step (note now "workspace.create" (Some (text id)) None (Some name));;
    mret (mkWorkspaceInfo id name quota_bytes now)).

Definition delete_workspace (name : string) : Ctl WorkspaceInfo :=
  found ← on_db (workspace name);
  now ← now;
  in_transaction (
    step (ask (DeleteWorkspace (text (wi_id found))));;
    step (note now "workspace.delete" (Some (text (wi_id found))) None (Some name));;
    mret found).

(** [let key = loop { .. }] *)
Fixpoint new_key (fuel : nat) : Tx ApiKey :=
  match fuel with
  | O => λ s, (Spinning, s)
  | S fuel =>
      candidate ← draw ApiKey.generate;
      known ← step (ask (KeyExists (api_key_str (api_key_id candidate))));
      if known : bool then new_key fuel else mret candidate
  end.

Definition create_key (workspace_name label : string) (role : Role) (expires_in : option N) : Ctl (ApiKey * KeyInfo) :=
  found ← on_db (workspace workspace_name);
  now ← now;
  let expires_at := sadd now <$> expires_in in
  in_transaction (
    key ← new_key fuel;
    step (ask (InsertKey {|
      c_key_id := api_key_str (api_key_id key);
      c_workspace := text (wi_id found);
      c_secret_hash := ApiKey.hash key;
      c_label := label;
      c_role := role_text role;
      c_key_created_at := to_db now;
      c_key_expires_at := to_db <$> expires_at;
      c_revoked_at := None;
      c_last_used_at := None;
    |}));;
    step (note now "key.create" (Some (text (wi_id found))) (Some (api_key_str (api_key_id key))) (Some label));;
    mret (key, {|
      ki_id := api_key_id key;
      ki_workspace := wi_id found;
      ki_workspace_name := wi_name found;
      ki_label := label;
      ki_role := role;
      ki_created_at := now;
      ki_expires_at := expires_at;
      ki_revoked_at := None;
      ki_last_used_at := None;
    |})).

(** [Self::key(&tx, id).or(Ok(before))] *)
Definition or_before {A} (before : A) (m : M ControlError X A) : M ControlError X A := λ tx,
  match m tx with
  | (Err _, tx) => (Ok before, tx)
  | z => z
  end.

Definition change_key (id action : string) (statement : option Z → Sql unit) (value : option Z) : Ctl KeyInfo :=
  now ← now;
  in_transaction (
    before ← step (key id);
    step (ask (statement value));;
    step (note now action (Some (text (ki_workspace before))) (Some id) None);;
    step (or_before before (key id))).

Definition extend_key (id : string) (expires_in : option N) : Ctl KeyInfo :=
  at_ ← match expires_in with
    | None => mret None
    | Some secs => now ← now; mret (Some (to_db (sadd now secs)))
    end;
  change_key id "key.extend" (UpdateKeyExpiry id) at_.

Definition revoke_key (id : string) : Ctl KeyInfo :=
  now ← now;
  change_key id "key.revoke" (UpdateKeyRevoked id) (Some (to_db now)).

Definition delete_key (id : string) : Ctl KeyInfo :=
  change_key id "key.delete" (DeleteKey id) None.

Definition prune_keys (older_than : N) : Ctl nat :=
  now ← now;
  let before := to_db (ssub now older_than) in
  in_transaction (
    pruned ← step (ask (PruneKeys before));
    (if 0 <? pruned then step (note now "key.prune" None None (Some (pretty pruned))) else mret ());;
    mret pruned).

(** [row.filter(|_| right)]; an unknown key costs the same comparison. *)
Definition right_row (presented : ApiKey) (row : option KeyRow) : option KeyRow :=
  let stored := default SecretHash.of_nothing (row ≫= λ row, SecretHash.from_bytes (c_secret_hash row)) in
  if SecretHash.matches stored (ApiKey.hash presented) then row else None.

Definition authenticate (token : string) : M ApiError (Control C RS) Authenticated := λ s,
  match ApiKey.parse token with
  | None => (Err Unauthenticated, s)
  | Some presented =>
      let now := clock (control_ticks s) in
      let s := mkControl (db s) (control_rng s) (S (control_ticks s)) in
      let id := api_key_str (api_key_id presented) in
      let '(row, c) := sql (SelectSecret id) (db s) in
      let s := mkControl c (control_rng s) (control_ticks s) in
      match row with
      | None => (Err ServiceUnavailable, s)
      | Some row =>
          match right_row presented row with
          | None => (Err Unauthenticated, s)
          | Some row =>
              if bool_decide (is_Some (c_revoked_at row)) then (Err KeyRevoked, s)
              else if match from_db (c_key_expires_at row) with Some at_ => (at_ <=? now)%N | None => false end
              then (Err KeyExpired, s)
              else
                let stale := match from_db (c_last_used_at row) with
                  | Some at_ => (LAST_USE_EVERY_SECS <=? ssub now at_)%N
                  | None => true
                  end in
                let c := if stale then (sql (UpdateLastUsed id (to_db now)) (db s)).2 else db s in
                (match WorkspaceId.parse (c_workspace row) with
                 | Ok w => Ok (mkAuthenticated w (mkCaller (api_key_id presented) (role_from (c_role row)))
                     (from_db (c_key_expires_at row)) (c_label row))
                 | _ => Err ServiceUnavailable
                 end, mkControl c (control_rng s) (control_ticks s))
          end
      end
  end.
End Control.
End Control.
