(* ===== verification/Keys.v ===== *)
(** What the control database promises to operators and to the requests it
    authenticates: what each command stores, that it stores all of it or
    nothing, and who a token is from. *)

From stdpp Require Import pretty.
From S2P Require Import Prelude Errors Random Ids Shelf Records Auth Ledger Database Sqlite Control.

(** What a command with the specification [Q] comes to, from the tables [t]:
    what it did is stored, or it was refused and nothing is; and when the
    database fails, either. *)
Inductive came {A} (t : Tables) (Q : outcome ControlError A → Tables → Prop)
    : outcome ControlError A → Tables → Prop :=
| came_stored a t' : Q (Ok a) t' → came t Q (Ok a) t'
| came_refused e t1 : Q (Err e) t1 → came t Q (Err e) t
| came_unavailable : came t Q (Err Unavailable) t
| came_unknown a t' : Q (Ok a) t' → came t Q (Err Unavailable) t'
| came_spinning t1 : Q Spinning t1 → came t Q Spinning t.

Lemma came_mono {A} t (Q Q' : outcome ControlError A → Tables → Prop) y t' :
  came t Q y t' → (∀ y t', Q y t' → Q' y t') → came t Q' y t'.
Proof. intros [] HQ; [apply came_stored|eapply came_refused|apply came_unavailable|eapply came_unknown|eapply came_spinning]; eauto. Qed.

Lemma came_cases {A} t (Q : outcome ControlError A → Tables → Prop) y t' :
  came t Q y t' →
  (∃ a, y = Ok a ∧ Q (Ok a) t') ∨
  (∃ e, y = Err e ∧ t' = t ∧ (e = Unavailable ∨ ∃ t1, Q (Err e) t1)) ∨
  (y = Err Unavailable ∧ ∃ a, Q (Ok a) t') ∨ (y = Spinning ∧ t' = t ∧ ∃ t1, Q Spinning t1).
Proof. intros []; naive_solver. Qed.

Section steps.
Context {C X RS : Type} `{Db : !Database C X} `{LawfulDb : !LawfulDatabase C X}
  `{Random : !RandomSource RS} `{Ext : !Externals}.
Implicit Types (s : Control C RS) (t : Tables) (rng : RS).

Definition tables_of s : Tables := tables (db s).

(** Inside a transaction that began with the tables [o]. *)
Definition within {A} (o : Tables) (Q : outcome ControlError A → Tables → Prop)
    (y : outcome ControlError A) (p : X * RS) : Prop :=
  origin p.1 = o ∧ (y = Err Unavailable ∨ Q y (tables p.1)).

Lemma step_ask {A B} (q : Sql A) (f : A → Control.Tx B) o Q (tx : X) rng :
  origin tx = o →
  (∀ a (tx' : X), answers q (tables tx) a (tables tx') → origin tx' = o → wp (f a) (within o Q) (tx', rng)) →
  wp (Control.step (Control.ask q) ≫= f) (within o Q) (tx, rng).
Proof.
  intros Ho Hf. apply wp_bind. unfold wp at 1, Control.step, Control.ask. cbn [fst snd].
  pose proof (sql_law q tx) as Hl. pose proof (origin_law q tx) as Hl'.
  destruct (sql q tx) as [[a|] tx']; cbn in *; rewrite Ho in Hl'.
  - apply Hf; done.
  - split; [done|by left].
Qed.

Lemma step_draw {A B} (g : RS → A * RS) (f : A → Control.Tx B) Q (tx : X) rng :
  wp (f (g rng).1) Q (tx, (g rng).2) → wp (Control.draw g ≫= f) Q (tx, rng).
Proof. done. Qed.

Lemma step_ret {A} (a : A) o (Q : outcome ControlError A → Tables → Prop) (tx : X) rng :
  origin tx = o → Q (Ok a) (tables tx) → wp (mret a : Control.Tx A) (within o Q) (tx, rng).
Proof. intros Ho HQ. split; [done|by right]. Qed.

Lemma step_throw {A} e o (Q : outcome ControlError A → Tables → Prop) (tx : X) rng :
  origin tx = o → Q (Err e) (tables tx) → wp (throw e : Control.Tx A) (within o Q) (tx, rng).
Proof. intros Ho HQ. split; [done|by right]. Qed.

(** A transaction: what was begun with is what a refusal leaves. *)
Lemma transaction_came {A} (body : Control.Tx A) Q s :
  (∀ tx : X, tables tx = tables_of s → origin tx = tables_of s →
    wp body (within (tables_of s) (λ y t', y ≠ Killed ∧ Q y t')) (tx, control_rng s)) →
  wp (Control.in_transaction body) (λ y s', came (tables_of s) Q y (tables_of s')) s.
Proof.
  intros Hbody. unfold wp, Control.in_transaction, tables_of in *.
  pose proof (begin_law (db s)) as Hb. destruct (begin_transaction (db s)) as [tx|c]; cbn.
  2: { rewrite Hb. apply came_unavailable. }
  destruct Hb as [Ht Ho]. specialize (Hbody tx Ht Ho). unfold wp in Hbody.
  destruct (body (tx, control_rng s)) as [y [tx1 rng1]]. destruct Hbody as [Ho1 Hy]. cbn [fst snd] in *.
  destruct y as [a|e| |]; cbn.
  - destruct Hy as [|[_ HQ]]; [done|]. pose proof (commit_law tx1) as Hc.
    destruct (commit tx1) as [[] c]; cbn.
    + destruct Hc as [->|[? _]]; [by apply came_stored|done].
    + destruct Hc as [->|[_ ->]]; [by eapply came_unknown|]. rewrite Ho1. apply came_unavailable.
  - rewrite rollback_law, Ho1. destruct Hy as [[= ->]|[_ HQ]]; [apply came_unavailable|by eapply came_refused].
  - by destruct Hy as [|[]].
  - rewrite rollback_law, Ho1. destruct Hy as [|[_ HQ]]; [done|by eapply came_spinning].
Qed.

(** A question to the database outside a transaction. *)
Lemma on_db_ask {A B} (q : Sql A) (f : A → M ControlError C B) t Q s :
  tables_of s = t → (∀ t a t', answers q t a t' → t' = t) →
  (∀ s', tables_of s' = t → Q (Err Unavailable) s') →
  (∀ a s', answers q t a t → tables_of s' = t → control_ticks s' = control_ticks s →
    wp (Control.on_db (f a)) Q s') →
  wp (Control.on_db (Control.ask q ≫= f)) Q s.
Proof.
  intros Ht Hsame Herr Hf. unfold wp, Control.on_db, mbind, M_bind, Control.ask, tables_of in *.
  pose proof (sql_law q (db s)) as Hl. destruct (sql q (db s)) as [[a|] c]; cbn in *.
  - pose proof (Hsame _ _ _ Hl) as Hc. rewrite Ht in Hl, Hc.
    specialize (Hf a (mkControl c (control_rng s) (control_ticks s))). cbn in Hf. rewrite Hc in Hl.
    specialize (Hf Hl Hc eq_refl). by destruct (f a c).
  - apply Herr. cbn. congruence.
Qed.

Lemma on_db_lift {A} (y : outcome ControlError A) Q s :
  (∀ s', tables_of s' = tables_of s → control_ticks s' = control_ticks s → Q y s') →
  wp (Control.on_db (lift y)) Q s.
Proof. intros HQ. unfold wp, Control.on_db, lift. cbn. by apply HQ. Qed.
End steps.

(** ** What each command stores *)

Definition noted (at_ : N) (action : string) (w k detail : option string) : Tables → Tables :=
  with_audit_rows (λ l, l ++ [mkAuditRow (Control.to_db at_) action w k detail]).

(** The workspace a name stands for. *)
Definition found_workspace (t : Tables) (name : string) (y : outcome ControlError WorkspaceInfo) : Prop :=
  match y with
  | Ok info => ∃ rr row, workspaces t !! text (wi_id info) = Some (rr, row) ∧ c_name row = Some name ∧
      Control.workspace_from (text (wi_id info), row) = Some info
  | Err (NoSuchWorkspace n) => n = name ∧ ∀ w, ¬ named name t w
  | Err Unavailable => True
  | _ => False
  end.

Definition workspace_created (now : N) (name : string) (quota : option N) (t : Tables)
    (y : outcome ControlError WorkspaceInfo) (t' : Tables) : Prop :=
  match y with
  | Ok info =>
      Control.valid_name name = true ∧ (∀ w, ¬ named name t w) ∧
      workspaces t !! text (wi_id info) = None ∧ unreferenced (text (wi_id info)) t ∧
      wi_name info = name ∧ wi_quota_bytes info = quota ∧ wi_created_at info = now ∧
      t' = noted now "workspace.create" (Some (text (wi_id info))) None (Some name)
        (with_workspaces (<[text (wi_id info) := (new_record_row 0 1,
          mkNameRow (Some name) (Control.to_db <$> quota) (Control.to_db now))]>) t)
  | Err (InvalidName n) => n = name ∧ Control.valid_name name = false
  | Err (NameTaken n) => n = name ∧ Control.valid_name name = true ∧ ∃ w, named name t w
  | _ => False
  end.

Definition workspace_deleted (now : N) (name : string) (t : Tables)
    (y : outcome ControlError WorkspaceInfo) (t' : Tables) : Prop :=
  match y with
  | Ok info => found_workspace t name (Ok info) ∧
      t' = noted now "workspace.delete" (Some (text (wi_id info))) None (Some name)
        (without_workspace (text (wi_id info)) t)
  | Err (NoSuchWorkspace n) => n = name ∧ ∀ w, ¬ named name t w
  | _ => False
  end.

(** The row of a new key. *)
Definition new_key_row `{Externals} (now : N) (w label : string) (role : Role) (expires_at : option N)
    (k : ApiKey) : KeyRow :=
  mkKeyRow (api_key_str (api_key_id k)) w (ApiKey.hash k) label (Control.role_text role)
    (Control.to_db now) (Control.to_db <$> expires_at) None None.

Definition key_created `{Externals} (now : N) (name label : string) (role : Role) (expires_in : option N)
    (t : Tables) (y : outcome ControlError (ApiKey * KeyInfo)) (t' : Tables) : Prop :=
  match y with
  | Ok (k, info) => ∃ found, found_workspace t name (Ok found) ∧ well_formed k ∧
      find_key (api_key_str (api_key_id k)) t = None ∧
      info = mkKeyInfo (api_key_id k) (wi_id found) (wi_name found) label role now (sadd now <$> expires_in) None None ∧
      t' = noted now "key.create" (Some (text (wi_id found))) (Some (api_key_str (api_key_id k))) (Some label)
        (with_api_keys (λ l, l ++ [new_key_row now (text (wi_id found)) label role (sadd now <$> expires_in) k]) t)
  | Err (NoSuchWorkspace n) => n = name ∧ ∀ w, ¬ named name t w
  | Spinning => True
  | _ => False
  end.

(** A key as [KEY_COLUMNS] show it. *)
Definition shown_row (id : string) (t : Tables) : option (KeyRow * option string) := find_key id t ≫= joined t.
Definition shown_key (id : string) (t : Tables) : option KeyInfo := shown_row id t ≫= Control.key_from.

(** One key's row, changed or removed by [f]. *)
Definition key_changed (now : N) (id action : string) (f : Tables → Tables) (t : Tables)
    (y : outcome ControlError KeyInfo) (t' : Tables) : Prop :=
  match y with
  | Ok info => ∃ before, shown_key id t = Some before ∧
      t' = noted now action (Some (text (ki_workspace before))) (Some id) None (f t) ∧
      (info = default before (shown_key id (f t)) ∨ info = before)
  | Err (NoSuchKey n) => n = id ∧ shown_row id t = None
  | _ => False
  end.

Definition extended (id : string) (at_ : option Z) : Tables → Tables := update_key id (with_expiry at_).
Definition revoked (id : string) (at_ : Z) : Tables → Tables := update_key id (with_revocation (Some at_)).
Definition removed (id : string) : Tables → Tables :=
  with_api_keys (List.filter (λ row, negb (String.eqb (c_key_id row) id))).
Definition pruned (before : Z) : Tables → Tables :=
  with_api_keys (List.filter (λ row, negb (prunable before row))).

Definition keys_pruned (now older_than : N) (t : Tables) (y : outcome ControlError nat) (t' : Tables) : Prop :=
  let before := Control.to_db (ssub now older_than) in
  match y with
  | Ok n => n = length (List.filter (prunable before) (api_keys t)) ∧
      t' = (if 0 <? n then noted now "key.prune" None None (Some (pretty n)) (pruned before t) else pruned before t)
  | _ => False
  end.

Section commands.
Context {C X RS : Type} `{Db : !Database C X} `{LawfulDb : !LawfulDatabase C X}
  `{Random : !RandomSource RS} `{Ext : !Externals}.
Implicit Types (s : Control C RS) (t : Tables) (rng : RS).
Context (clock : nat → N) (fuel : nat).

Lemma workspace_found name s :
  wp (Control.on_db (Control.workspace name)) (λ y s', tables_of s' = tables_of s ∧
    control_ticks s' = control_ticks s ∧ found_workspace (tables_of s) name y) s.
Proof.
  unfold wp, Control.on_db, Control.workspace, mbind, M_bind, Control.ask, lift, tables_of.
  pose proof (sql_law (SelectWorkspaceByName name) (db s)) as Hl.
  destruct (sql _ (db s)) as [[row|] c]; cbn in *; [|done]. destruct Hl as [Hc Hrow].
  destruct row as [[w row]|]; cbn; [|by split_and!].
  destruct (Control.workspace_from (w, row)) as [info|] eqn:Hi; cbn; [|by split_and!].
  split_and!; [done..|]. destruct Hrow as (rr & Hw & Hn). exists rr, row.
  unfold Control.workspace_from in Hi. cbn in Hi. unfold Control.parsed_workspace in Hi.
  destruct (WorkspaceId.parse w) as [wid| | |] eqn:Hp; try done. cbn in Hi. injection Hi as <-. cbn.
  apply check_ok in Hp. subst w. split_and!; [done..|]. unfold Control.workspace_from. cbn.
  unfold Control.parsed_workspace. by rewrite parse_workspace.
Qed.

Lemma create_workspace_came name quota s :
  wp (Control.create_workspace clock name quota) (λ y s',
    came (tables_of s) (workspace_created (clock (control_ticks s)) name quota (tables_of s)) y (tables_of s')) s.
Proof.
  unfold Control.create_workspace. destruct (Control.valid_name name) eqn:Hv; cbn [negb].
  2: { apply wp_throw. by eapply (came_refused _ _ (InvalidName name) (tables_of s)). }
  apply wp_bind. unfold wp at 1. cbn [Control.now fst snd andthen].
  set (s1 := mkControl _ _ _). change (tables_of s) with (tables_of s1). set (n := clock (control_ticks s)).
  apply transaction_came. intros tx Ht Ho. apply step_ask; [done|]. intros taken tx1 [Ht1 Htk] Ho1.
  rewrite Ht in Ht1, Htk. destruct taken.
  - apply step_throw; [done|]. split; [done|]. cbn. split_and!; [done|done|by apply Htk].
  - apply step_draw. set (id := (WorkspaceId.generate (control_rng s1)).1).
    apply step_ask; [done|]. intros [] tx2 (Hnone & Hun & Hnn & Ht2) Ho2.
    apply step_ask; [done|]. intros [] tx3 Ht3 Ho3. apply step_ret; [done|]. split; [done|].
    rewrite Ht1 in *. cbn in Ht3. rewrite Ht2 in Ht3. by split_and!.
Qed.

Lemma delete_workspace_came name s :
  wp (Control.delete_workspace clock name) (λ y s',
    came (tables_of s) (workspace_deleted (clock (control_ticks s)) name (tables_of s)) y (tables_of s')) s.
Proof.
  unfold Control.delete_workspace. apply wp_bind. eapply wp_mono; [apply workspace_found|].
  intros y s1 (Ht1 & Hk1 & Hy). destruct y as [found|e| |]; cbn [andthen]; [| |done|done].
  2: { rewrite Ht1. destruct e; try done; [|apply came_unavailable].
    by eapply (came_refused _ _ _ (tables_of s)). }
  apply wp_bind. unfold wp at 1. cbn [Control.now fst snd andthen]. rewrite Hk1.
  set (s2 := mkControl _ _ _). rewrite <- Ht1 in *. change (tables_of s1) with (tables_of s2) in *.
  apply transaction_came. intros tx Ht Ho. apply step_ask; [done|]. intros [] tx1 Htx1 Ho1.
  apply step_ask; [done|]. intros [] tx2 Htx2 Ho2. apply step_ret; [done|]. split; [done|].
  cbn in Htx1, Htx2. rewrite Htx1, Ht in Htx2. by split.
Qed.

Lemma step_new_key {B} n (f : ApiKey → Control.Tx B) o Q (tx : X) rng :
  origin tx = o →
  (∀ t, t = tables tx → Q Spinning t) →
  (∀ k (tx' : X) rng', well_formed k → find_key (api_key_str (api_key_id k)) (tables tx) = None →
    tables tx' = tables tx → origin tx' = o → wp (f k) (within o Q) (tx', rng')) →
  wp (Control.new_key n ≫= f) (within o Q) (tx, rng).
Proof.
  revert tx rng. induction n as [|n IH]; intros tx rng Ho Hsp Hf.
  { split; [done|]. right. by apply Hsp. }
  change (Control.new_key (S n) ≫= f) with ((Control.draw ApiKey.generate ≫= λ candidate,
    known ← Control.step (Control.ask (KeyExists (api_key_str (api_key_id candidate))));
    if known : bool then Control.new_key n else mret candidate) ≫= f).
  apply wp_bind, step_draw. set (k := (ApiKey.generate rng).1).
  apply wp_bind. unfold wp at 1, Control.step, Control.ask. cbn [fst snd].
  pose proof (sql_law (KeyExists (api_key_str (api_key_id k))) tx) as Hl.
  pose proof (origin_law (KeyExists (api_key_str (api_key_id k))) tx) as Hl'.
  destruct (sql _ tx) as [[known|] tx1]; cbn in *; rewrite Ho in Hl'; [|split; [done|by left]].
  destruct Hl as [Ht1 Hk]. destruct known.
  - specialize (IH tx1 (ApiKey.generate rng).2 Hl'). rewrite Ht1 in IH. specialize (IH Hsp Hf).
    unfold wp, mbind, M_bind in IH. unfold wp at 1.
    destruct (Control.new_key n (tx1, (ApiKey.generate rng).2)) as [[]]; exact IH.
  - apply Hf; [apply generate_well_formed| |done..]. apply eq_None_not_Some. intros Hs. by apply Hk in Hs.
Qed.

Lemma create_key_came name label r expires_in s :
  wp (Control.create_key clock fuel name label r expires_in) (λ y s',
    came (tables_of s) (key_created (clock (control_ticks s)) name label r expires_in (tables_of s)) y (tables_of s')) s.
Proof.
  unfold Control.create_key. apply wp_bind. eapply wp_mono; [apply workspace_found|].
  intros y s1 (Ht1 & Hk1 & Hy). destruct y as [found|e| |]; cbn [andthen]; [| |done|done].
  2: { rewrite Ht1. destruct e; try done; [|apply came_unavailable].
    by eapply (came_refused _ _ _ (tables_of s)). }
  apply wp_bind. unfold wp at 1. cbn [Control.now fst snd andthen]. rewrite Hk1.
  set (s2 := mkControl _ _ _). rewrite <- Ht1 in *. change (tables_of s1) with (tables_of s2) in *.
  apply transaction_came. intros tx Ht Ho. apply step_new_key; [done|done|].
  intros k tx1 rng1 Hwf Hnone Htx1 Ho1. rewrite Ht in Hnone, Htx1.
  apply step_ask; [done|]. intros [] tx2 (_ & _ & Htx2) Ho2.
  apply step_ask; [done|]. intros [] tx3 Htx3 Ho3. apply step_ret; [done|]. split; [done|].
  cbn in Htx3. rewrite Htx2, Htx1 in Htx3. exists found. by split_and!.
Qed.

(** A key as a transaction shows it. *)
Lemma step_key {B} id (f : KeyInfo → Control.Tx B) o Q (tx : X) rng :
  origin tx = o →
  (shown_row id (tables tx) = None → ∀ t, t = tables tx → Q (Err (NoSuchKey id)) t) →
  (∀ info (tx' : X), shown_key id (tables tx) = Some info → tables tx' = tables tx → origin tx' = o →
    wp (f info) (within o Q) (tx', rng)) →
  wp (Control.step (Control.key id) ≫= f) (within o Q) (tx, rng).
Proof.
  intros Ho Hnone Hf. apply wp_bind. unfold wp at 1, Control.step, Control.key, mbind, M_bind, Control.ask, lift.
  cbn [fst snd]. pose proof (sql_law (SelectKey id) tx) as Hl. pose proof (origin_law (SelectKey id) tx) as Hl'.
  destruct (sql _ tx) as [[row|] tx1]; cbn in *; rewrite Ho in Hl'; [|split; [done|by left]].
  destruct Hl as [Ht1 ->]. destruct (find_key id (tables tx) ≫= joined (tables tx)) as [row|] eqn:Hrow; cbn.
  - destruct (Control.key_from row) as [info|] eqn:Hi; cbn; [|split; [done|by left]].
    apply Hf; try done. unfold shown_key, shown_row. rewrite Hrow. exact Hi.
  - split; [done|]. right. by apply Hnone.
Qed.

Lemma step_key_after id before (Q : outcome ControlError KeyInfo → Tables → Prop) o (tx : X) rng :
  origin tx = o →
  (∀ info, info = default before (shown_key id (tables tx)) ∨ info = before → Q (Ok info) (tables tx)) →
  wp (Control.step (Control.or_before before (Control.key id))) (within o Q) (tx, rng).
Proof.
  intros Ho HQ. unfold wp, Control.step, Control.or_before, Control.key, mbind, M_bind, Control.ask, lift.
  cbn [fst snd]. pose proof (sql_law (SelectKey id) tx) as Hl. pose proof (origin_law (SelectKey id) tx) as Hl'.
  destruct (sql _ tx) as [[row|] tx1]; cbn in *; rewrite Ho in Hl'.
  2: { split; [done|]. right. cbn [fst]. rewrite Hl. apply HQ. by right. }
  destruct Hl as [Ht1 ->]. destruct (find_key id (tables tx) ≫= joined (tables tx)) as [row|] eqn:Hrow; cbn.
  2: { split; [done|]. right. cbn [fst]. rewrite Ht1. apply HQ. by right. }
  destruct (Control.key_from row) as [info|] eqn:Hi; cbn; (split; [done|]); right; cbn [fst]; rewrite Ht1; apply HQ;
    [left|by right]. unfold shown_key, shown_row. rewrite Hrow. cbn. by rewrite Hi.
Qed.

Lemma change_key_came id action statement value (f : Tables → Tables) s :
  (∀ t a t', answers (statement value) t a t' → t' = f t) →
  wp (Control.change_key clock id action statement value) (λ y s',
    came (tables_of s) (key_changed (clock (control_ticks s)) id action f (tables_of s)) y (tables_of s')) s.
Proof.
  intros Hf. unfold Control.change_key. apply wp_bind. unfold wp at 1. cbn [Control.now fst snd andthen].
  set (s1 := mkControl _ _ _). change (tables_of s) with (tables_of s1).
  apply transaction_came. intros tx Ht Ho. apply step_key; [done| |].
  { intros Hnone t ->. rewrite Ht in Hnone. by split_and!. }
  intros before tx1 Hb Htx1 Ho1. rewrite Ht in Hb, Htx1.
  apply step_ask; [done|]. intros [] tx2 Htx2 Ho2. apply Hf in Htx2. rewrite Htx1 in Htx2.
  apply step_ask; [done|]. intros [] tx3 Htx3 Ho3. cbn in Htx3. rewrite Htx2 in Htx3.
  apply step_key_after; [done|]. intros info Hinfo. split; [done|]. exists before.
  rewrite Htx3 in *. by split_and!.
Qed.

Lemma extend_key_came id expires_in s :
  wp (Control.extend_key clock id expires_in) (λ y s',
    came (tables_of s) (key_changed
      (clock (match expires_in with None => control_ticks s | Some _ => S (control_ticks s) end)) id "key.extend"
      (extended id ((λ secs, Control.to_db (sadd (clock (control_ticks s)) secs)) <$> expires_in)) (tables_of s))
      y (tables_of s')) s.
Proof. destruct expires_in; [apply (change_key_came id _ _ _ _ (mkControl _ _ _))|apply change_key_came]; done. Qed.

Lemma revoke_key_came id s :
  wp (Control.revoke_key clock id) (λ y s',
    came (tables_of s) (key_changed (clock (S (control_ticks s))) id "key.revoke"
      (revoked id (Control.to_db (clock (control_ticks s)))) (tables_of s)) y (tables_of s')) s.
Proof. by apply (change_key_came id _ _ _ _ (mkControl (db s) (control_rng s) (S (control_ticks s)))). Qed.

Lemma delete_key_came id s :
  wp (Control.delete_key clock id) (λ y s',
    came (tables_of s) (key_changed (clock (control_ticks s)) id "key.delete" (removed id) (tables_of s))
      y (tables_of s')) s.
Proof. by apply change_key_came. Qed.

Lemma prune_keys_came older_than s :
  wp (Control.prune_keys clock older_than) (λ y s',
    came (tables_of s) (keys_pruned (clock (control_ticks s)) older_than (tables_of s)) y (tables_of s')) s.
Proof.
  unfold Control.prune_keys. apply wp_bind. unfold wp at 1. cbn [Control.now fst snd andthen].
  set (s1 := mkControl _ _ _). change (tables_of s) with (tables_of s1).
  apply transaction_came. intros tx Ht Ho. apply step_ask; [done|]. intros n tx1 [Htx1 ->] Ho1.
  rewrite Ht in *. destruct (Nat.ltb_spec 0 (length (List.filter (prunable (Control.to_db (ssub
    (clock (control_ticks s)) older_than))) (api_keys (tables_of s1))))) as [Hn|Hn].
  - apply step_ask; [done|]. intros [] tx2 Htx2 Ho2. apply step_ret; [done|]. split; [done|].
    cbn in Htx2. rewrite Htx1 in Htx2. split; [done|]. by rewrite (proj2 (Nat.ltb_lt _ _) Hn).
  - apply wp_bind, wp_ret. apply step_ret; [done|]. split; [done|]. split; [done|].
    by rewrite (proj2 (Nat.ltb_ge _ _) Hn).
Qed.
End commands.
(** ** Who a token is from *)

(** The presented secret is the one whose hash the row holds. *)
Definition secret_fits `{Externals} (k : ApiKey) (row : KeyRow) : Prop :=
  c_secret_hash row = ApiKey.hash k ∧ length (c_secret_hash row) = 32 ∨
  length (c_secret_hash row) ≠ 32 ∧ ApiKey.hash k = SecretHash.of_nothing.

Lemma fits_matches `{Externals} k row :
  secret_fits k row ↔
  SecretHash.matches (default SecretHash.of_nothing (SecretHash.from_bytes (c_secret_hash row))) (ApiKey.hash k) = true.
Proof.
  unfold secret_fits, SecretHash.matches, SecretHash.from_bytes. rewrite bool_decide_eq_true.
  destruct (Nat.eqb_spec (length (c_secret_hash row)) 32); cbn; naive_solver.
Qed.

Definition expired (now : N) (row : KeyRow) : bool :=
  match Control.from_db (c_key_expires_at row) with Some at_ => (at_ <=? now)%N | None => false end.

(** The token is the secret of the key [k], which is neither revoked nor expired
    at [now]. *)
Definition admitted `{Externals} (now : N) (t : Tables) (token : string) (k : ApiKey) : Prop :=
  ApiKey.parse token = Some k ∧ ∃ row, find_key (api_key_str (api_key_id k)) t = Some row ∧
    secret_fits k row ∧ c_revoked_at row = None ∧ expired now row = false.

(** The database's rows say who a token is from: the first of these that
    applies. *)
Inductive verdict `{Externals} (now : N) (t : Tables) (token : string) : outcome ApiError Authenticated → Prop :=
| v_malformed : ApiKey.parse token = None → verdict now t token (Err Unauthenticated)
| v_unknown k :
    ApiKey.parse token = Some k → find_key (api_key_str (api_key_id k)) t = None →
    verdict now t token (Err Unauthenticated)
| v_wrong k row :
    ApiKey.parse token = Some k → find_key (api_key_str (api_key_id k)) t = Some row → ¬ secret_fits k row →
    verdict now t token (Err Unauthenticated)
| v_revoked k row :
    ApiKey.parse token = Some k → find_key (api_key_str (api_key_id k)) t = Some row → secret_fits k row →
    is_Some (c_revoked_at row) → verdict now t token (Err KeyRevoked)
| v_expired k row :
    ApiKey.parse token = Some k → find_key (api_key_str (api_key_id k)) t = Some row → secret_fits k row →
    c_revoked_at row = None → expired now row = true → verdict now t token (Err KeyExpired)
| v_open k row w :
    ApiKey.parse token = Some k → find_key (api_key_str (api_key_id k)) t = Some row → secret_fits k row →
    c_revoked_at row = None → expired now row = false → c_workspace row = text w →
    verdict now t token (Ok (mkAuthenticated w (mkCaller (api_key_id k) (Control.role_from (c_role row)))
      (Control.from_db (c_key_expires_at row)) (c_label row))).


(** ** Any command, and sequences of them *)

Inductive Command :=
| Ready
| CreateWorkspace (name : string) (quota_bytes : option N)
| Workspaces
| WorkspaceByName (name : string)
| WorkspaceById (w : WorkspaceId)
| DeleteWorkspaceNamed (name : string)
| CreateKey (workspace label : string) (role : Role) (expires_in : option N)
| Keys (workspace : option string)
| ExtendKey (id : string) (expires_in : option N)
| RevokeKey (id : string)
| RemoveKey (id : string)
| Prune (older_than : N)
| Audit (limit : N)
| Authenticate (token : string).

(** What a command that succeeds has stored. *)
Definition stored `{Externals} (c : Command) (t t' : Tables) : Prop :=
  match c with
  | CreateWorkspace name quota => ∃ now info, workspace_created now name quota t (Ok info) t'
  | DeleteWorkspaceNamed name => ∃ now info, workspace_deleted now name t (Ok info) t'
  | CreateKey name label role expires_in => ∃ now k, key_created now name label role expires_in t (Ok k) t'
  | ExtendKey id _ => ∃ now at_ info, key_changed now id "key.extend" (extended id at_) t (Ok info) t'
  | RevokeKey id => ∃ now at_ info, key_changed now id "key.revoke" (revoked id at_) t (Ok info) t'
  | RemoveKey id => ∃ now info, key_changed now id "key.delete" (removed id) t (Ok info) t'
  | Prune older_than => ∃ now n, keys_pruned now older_than t (Ok n) t'
  | Authenticate _ => t' = t ∨ ∃ id at_, t' = update_key id (with_last_use at_) t
  | _ => t' = t
  end.

(** The changes among them, and what the audit trail calls each. *)
Definition action_of (c : Command) : option string :=
  match c with
  | CreateWorkspace _ _ => Some "workspace.create"
  | DeleteWorkspaceNamed _ => Some "workspace.delete"
  | CreateKey _ _ _ _ => Some "key.create"
  | ExtendKey _ _ => Some "key.extend"
  | RevokeKey _ => Some "key.revoke"
  | RemoveKey _ => Some "key.delete"
  | Prune _ => Some "key.prune"
  | _ => None
  end.

Lemma verdict_functional `{Externals} now t token y y' :
  verdict now t token y → verdict now t token y' → y = y'.
Proof.
  intros [] []; simplify_eq; try done; try congruence;
    try match goal with H : is_Some ?x, H' : ?x = None |- _ => rewrite H' in H; by destruct H end.
  match goal with H : c_workspace ?row = text ?a, H' : c_workspace ?row = text ?b |- _ =>
    assert (a = b) as -> by (apply checked_eq; congruence) end. done.
Qed.

Section sequences.
Context {C X RS : Type} `{Db : !Database C X} `{LawfulDb : !LawfulDatabase C X}
  `{Random : !RandomSource RS} `{Ext : !Externals}.
Implicit Types (s : Control C RS) (t : Tables) (c : Command).
Context (clock : nat → N) (fuel : nat).

Definition exec_command c : M ControlError (Control C RS) unit :=
  match c with
  | Ready => Control.on_db Control.ready;; mret ()
  | CreateWorkspace name quota => Control.create_workspace clock name quota;; mret ()
  | Workspaces => Control.on_db Control.workspaces;; mret ()
  | WorkspaceByName name => Control.on_db (Control.workspace name);; mret ()
  | WorkspaceById w => Control.on_db (Control.workspace_by_id w);; mret ()
  | DeleteWorkspaceNamed name => Control.delete_workspace clock name;; mret ()
  | CreateKey name label role expires_in => Control.create_key clock fuel name label role expires_in;; mret ()
  | Keys only => Control.on_db (Control.keys only);; mret ()
  | ExtendKey id expires_in => Control.extend_key clock id expires_in;; mret ()
  | RevokeKey id => Control.revoke_key clock id;; mret ()
  | RemoveKey id => Control.delete_key clock id;; mret ()
  | Prune older_than => Control.prune_keys clock older_than;; mret ()
  | Audit limit => Control.on_db (Control.audit limit);; mret ()
  | Authenticate token => λ s, (Ok (), (Control.authenticate clock token s).2)
  end.

(** A question leaves the tables alone. *)
Definition asks {A} (m : M ControlError C A) : Prop := ∀ d : C, tables (m d).2 = tables d ∧ (m d).1 ≠ Killed ∧ (m d).1 ≠ Spinning.

Lemma asks_ask {A} (q : Sql A) : (∀ t a t', answers q t a t' → t' = t) → asks (Control.ask q).
Proof.
  intros Hq d. unfold Control.ask. pose proof (sql_law q d) as Hl.
  destruct (sql q d) as [[a|] d']; cbn; [|done]. by split; [apply Hq in Hl|].
Qed.
Lemma asks_bind {A B} (m : M ControlError C A) (f : A → M ControlError C B) :
  asks m → (∀ a, asks (f a)) → asks (m ≫= f).
Proof.
  intros Hm Hf d. specialize (Hm d). unfold mbind, M_bind. destruct (m d) as [[a|e| |] d'];
    cbn in *; destruct Hm as (Hm & ? & ?); try done. rewrite <- Hm. apply Hf.
Qed.
Lemma asks_ret {A} (a : A) : asks (mret a).
Proof. done. Qed.
Lemma asks_lift {A} e (o : option A) : asks (lift (ok_or e o)).
Proof. intros d. by destruct o. Qed.
Lemma asks_optional {R A} (f : R → option A) row : asks (lift (Control.optional f row)).
Proof. intros d. unfold Control.optional, lift, mbind, outcome_bind. destruct row as [row|]; [|done]. by destruct (f row). Qed.

Lemma asks_workspace name : asks (Control.workspace name).
Proof.
  apply asks_bind; [apply asks_ask; by intros ? ? ? []|intros row].
  apply asks_bind; [apply asks_optional|intros ?; apply asks_lift].
Qed.

Lemma on_db_asks {A} (m : M ControlError C A) s :
  asks m → wp (Control.on_db m;; mret ()) (λ y s', tables_of s' = tables_of s ∧ (y = Ok () ∨ ∃ e, y = Err e)) s.
Proof.
  intros Hm. specialize (Hm (db s)). unfold wp, Control.on_db, mbind, M_bind, tables_of.
  destruct (m (db s)) as [[a|e| |] d]; cbn in *; destruct Hm as (Hm & ? & ?); try congruence; split; eauto.
Qed.

Lemma asks_workspaces : asks Control.workspaces.
Proof. apply asks_bind; [apply asks_ask; by intros ? ? ? []|intros ?; apply asks_lift]. Qed.
Lemma asks_workspace_by_id w : asks (Control.workspace_by_id w).
Proof. apply asks_bind; [apply asks_ask; by intros ? ? ? []|intros ?; apply asks_optional]. Qed.
Lemma asks_keys only : asks (Control.keys only).
Proof.
  apply asks_bind; [|intros ?; apply asks_bind; [apply asks_ask; by intros ? ? ? []|intros ?; apply asks_lift]].
  destruct only; [|apply asks_ret]. apply asks_bind; [apply asks_workspace|intros ?; apply asks_ret].
Qed.
Lemma asks_audit limit : asks (Control.audit limit).
Proof. apply asks_bind; [apply asks_ask; by intros ? ? ? []|intros ?; apply asks_ret]. Qed.
Lemma asks_ready : asks Control.ready.
Proof. apply asks_bind; [apply asks_ask; by intros ? ? ? []|intros ?; apply asks_ret]. Qed.

Lemma authenticate_answers token s :
  let '(y, s') := Control.authenticate clock token s in
  (verdict (clock (control_ticks s)) (tables_of s) token y ∨ y = Err ServiceUnavailable) ∧
  (tables_of s' = tables_of s ∨
   ((∃ who, y = Ok who) ∨ y = Err ServiceUnavailable) ∧
   ∃ k, admitted (clock (control_ticks s)) (tables_of s) token k ∧
   tables_of s' = update_key (api_key_str (api_key_id k))
     (with_last_use (Control.to_db (clock (control_ticks s)))) (tables_of s)).
Proof.
  unfold Control.authenticate. destruct (ApiKey.parse token) as [k|] eqn:Hk.
  2: { split; [left; by apply v_malformed|by left]. }
  set (id := api_key_str (api_key_id k)). set (now := clock (control_ticks s)).
  cbn [db control_rng control_ticks]. fold id now. pose proof (sql_law (SelectSecret id) (db s)) as Hl.
  destruct (sql (SelectSecret id) (db s)) as [[row|] c]; cbn in Hl; cbv beta iota zeta.
  2: { split; [by right|left; exact Hl]. }
  destruct Hl as [Hc ->]. unfold tables_of. cbn [db control_rng control_ticks]. rewrite <- Hc.
  unfold Control.right_row. destruct (find_key id (tables c)) as [row|] eqn:Hrow; cbn [mbind option_bind].
  2: { assert (verdict now (tables c) token (Err Unauthenticated)) by (by eapply v_unknown).
    destruct (SecretHash.matches _ _); (split; [by left|by left]). }
  destruct (SecretHash.matches _ _) eqn:Hm.
  2: { split; [left|by left]. eapply v_wrong; [done..|]. intros Hf%fits_matches. congruence. }
  assert (secret_fits k row) as Hf by (by apply fits_matches).
  case_bool_decide as Hrev; [split; [left; by eapply v_revoked|by left]|].
  apply eq_None_not_Some in Hrev. 
  change (match Control.from_db (c_key_expires_at row) with Some at_ => (at_ <=? now)%N | None => false end)
    with (expired now row).
  destruct (expired now row) eqn:He; [split; [left; by eapply v_expired|by left]|].
  pose proof (sql_law (UpdateLastUsed id (Control.to_db now)) c) as Hu.
  cbv beta iota zeta. cbn [db]. split.
  - destruct (WorkspaceId.parse (c_workspace row)) as [w| | |] eqn:Hw; [left|by right..].
    eapply v_open; try done. apply check_ok in Hw. done.
  - match goal with |- context [if ?stale then (sql _ c).2 else c] => destruct stale end; [|by left].
    destruct (sql (UpdateLastUsed id (Control.to_db now)) c) as [[[]|] c2]; cbn [snd]; [right|by left].
    split; [destruct (WorkspaceId.parse (c_workspace row)); eauto|]. exists k.
    split; [|done]. split; [done|]. by exists row.
Qed.

(** An [Ok] has stored what its command stores; an error, nothing, or all of
    it when the database cannot say. *)
Lemma exec_stored c s :
  wp (exec_command c) (λ y s',
    (stored c (tables_of s) (tables_of s') ∧ (y = Ok () ∨ y = Err Unavailable)) ∨
    (tables_of s' = tables_of s ∧ y ≠ Ok ())) s.
Proof.
  assert (∀ A (m : M ControlError (Control C RS) A) Q,
    wp m (λ y s', came (tables_of s) Q y (tables_of s')) s → (∀ a t', Q (Ok a) t' → stored c (tables_of s) t') →
    wp (m;; mret ()) (λ y s', (stored c (tables_of s) (tables_of s') ∧ (y = Ok () ∨ y = Err Unavailable)) ∨
      (tables_of s' = tables_of s ∧ y ≠ Ok ())) s) as Hcame.
  { intros A m Q Hm HQ. apply wp_bind. eapply wp_mono; [exact Hm|].
    intros y s' [(a & -> & Ha)|[(e & -> & Ht & _)|[(-> & a & Ha)|(-> & Ht & _)]]]%came_cases;
      cbn [andthen]; try apply wp_ret; [left; eauto|by right|left; eauto|by right]. }
  assert (∀ A (m : M ControlError C A), asks m → (∀ t, stored c t t) →
    wp (Control.on_db m;; mret ()) (λ y s', (stored c (tables_of s) (tables_of s') ∧ (y = Ok () ∨ y = Err Unavailable)) ∨
      (tables_of s' = tables_of s ∧ y ≠ Ok ())) s) as Hasks.
  { intros A m Hm Hst. eapply wp_mono; [by apply on_db_asks|].
    intros y s' [-> [->|[e ->]]]; [left; auto|by right]. }
  destruct c; cbn [exec_command].
  all: try (apply Hasks; [|done]).
  all: try (eapply Hcame; [apply create_workspace_came|by eexists _, _]).
  all: try (eapply Hcame; [apply delete_workspace_came|by eexists _, _]).
  all: try (eapply Hcame; [apply create_key_came|by eexists _, _]).
  all: try (eapply Hcame; [apply extend_key_came|by eexists _, _, _]).
  all: try (eapply Hcame; [apply revoke_key_came|by eexists _, _, _]).
  all: try (eapply Hcame; [apply delete_key_came|by eexists _, _]).
  all: try (eapply Hcame; [apply prune_keys_came|by eexists _, _]).
  - apply asks_ready.
  - apply asks_workspaces.
  - apply asks_workspace.
  - apply asks_workspace_by_id.
  - apply asks_keys.
  - apply asks_audit.
  - pose proof (authenticate_answers token s) as Ha. unfold wp. cbn.
    destruct (Control.authenticate clock token s) as [y s']. left. split; [|by left]. cbn.
    destruct Ha as [_ [->|(_ & k & _ & ->)]]; eauto.
Qed.
End sequences.
