(* ===== verification/Operators.v ===== *)
(** What the control database guarantees over sequences of commands: its rows
    stay sound, every change is in the audit trail, a revoked key opens
    nothing, a created one opens its workspace, and a workspace's rows come and
    go with it. *)

From stdpp Require Import pretty.
From S2P Require Import Prelude Errors Random Ids Shelf Records Auth Ledger Database Sqlite Control Keys Demo.

(** ** Rows of keys *)

Lemma find_key_elem id t row : find_key id t = Some row → row ∈ api_keys t ∧ c_key_id row = id.
Proof. intros [Hin Hid]%find_Some_spec. by apply String.eqb_eq in Hid. Qed.

Lemma find_key_None id t : find_key id t = None ↔ id ∉ c_key_id <$> api_keys t.
Proof.
  unfold find_key. split.
  - intros Hn (row & -> & Hin)%list_elem_of_fmap. pose proof (find_None_spec _ _ _ Hn Hin) as Hf.
    cbn in Hf. by rewrite String.eqb_refl in Hf.
  - intros Hn. destruct (List.find _ _) as [row|] eqn:Hf; [|done].
    apply find_key_elem in Hf as [Hin <-]. destruct Hn. by apply list_elem_of_fmap_2.
Qed.

Lemma find_key_unique id t row :
  NoDup (c_key_id <$> api_keys t) → row ∈ api_keys t → c_key_id row = id → find_key id t = Some row.
Proof.
  unfold find_key. intros Hnd Hin <-. induction (api_keys t) as [|r l IH]; [by apply elem_of_nil in Hin|].
  cbn in *. apply NoDup_cons in Hnd as [Hr Hnd]. apply elem_of_cons in Hin as [->|Hin].
  - by rewrite String.eqb_refl.
  - destruct (String.eqb_spec (c_key_id r) (c_key_id row)) as [Heq|_]; [|by apply IH].
    destruct Hr. rewrite Heq. by apply list_elem_of_fmap_2.
Qed.

Lemma find_key_update id id' f t :
  (∀ row, c_key_id (f row) = c_key_id row) →
  find_key id (update_key id' f t) =
    (λ row, if String.eqb (c_key_id row) id' then f row else row) <$> find_key id t.
Proof.
  intros Hf. unfold find_key, update_key. cbn. induction (api_keys t) as [|r l IH]; [done|]. cbn.
  replace (c_key_id (if String.eqb (c_key_id r) id' then f r else r)) with (c_key_id r)
    by (destruct (String.eqb _ id'); [by rewrite Hf|done]).
  by destruct (String.eqb (c_key_id r) id).
Qed.

Lemma find_key_append id t row r :
  find_key id t = Some row → find_key id (with_api_keys (λ l, l ++ [r]) t) = Some row.
Proof.
  unfold find_key. cbn. induction (api_keys t) as [|r' l IH]; [done|]. cbn.
  by destruct (String.eqb (c_key_id r') id).
Qed.

Lemma find_key_new t r :
  find_key (c_key_id r) t = None → find_key (c_key_id r) (with_api_keys (λ l, l ++ [r]) t) = Some r.
Proof.
  unfold find_key. cbn. induction (api_keys t) as [|r' l IH]; cbn; [by rewrite String.eqb_refl|].
  by destruct (String.eqb (c_key_id r') (c_key_id r)).
Qed.

Lemma elem_of_kept (p : KeyRow → bool) (l : list KeyRow) row : row ∈ List.filter p l ↔ row ∈ l ∧ p row = true.
Proof. by rewrite list_elem_of_In, filter_In, <- list_elem_of_In. Qed.

Lemma NoDup_kept (p : KeyRow → bool) (l : list KeyRow) :
  NoDup (c_key_id <$> l) → NoDup (c_key_id <$> List.filter p l).
Proof.
  induction l as [|r l IH]; [done|]. cbn. intros [Hr Hnd]%NoDup_cons. destruct (p r); [|by apply IH].
  cbn. apply NoDup_cons. split; [|by apply IH]. intros (r' & Heq & Hin)%list_elem_of_fmap.
  apply elem_of_kept in Hin as [Hin _]. destruct Hr. rewrite Heq. by apply list_elem_of_fmap_2.
Qed.

Lemma find_key_kept id p t :
  NoDup (c_key_id <$> api_keys t) →
  find_key id (with_api_keys (List.filter p) t) =
    match find_key id t with Some row => if p row then Some row else None | None => None end.
Proof.
  intros Hnd. destruct (find_key id t) as [row|] eqn:Hrow.
  - apply find_key_elem in Hrow as [Hin Hid]. destruct (p row) eqn:Hp.
    + apply find_key_unique; [by apply NoDup_kept|by apply elem_of_kept|done].
    + apply find_key_None. intros (r & Heq & Hr)%list_elem_of_fmap. apply elem_of_kept in Hr as [Hr Hp'].
      assert (r = row) as ->; [|congruence].
      assert (Some r = Some row) as [=]; [|done]. rewrite <- (find_key_unique id t r), <- (find_key_unique id t row); congruence.
  - apply find_key_None in Hrow. apply find_key_None. intros (r & Heq & Hr)%list_elem_of_fmap.
    apply elem_of_kept in Hr as [Hr _]. destruct Hrow. rewrite Heq. by apply list_elem_of_fmap_2.
Qed.

(** Nothing is removed where there is nothing to remove. *)
Lemma with_kept_all p t :
  List.filter p (api_keys t) = [] → with_api_keys (List.filter (λ row, negb (p row))) t = t.
Proof.
  intros Hp. destruct t as [tw tg tu ts te keys au]. unfold with_api_keys. cbn in *. f_equal.
  induction keys as [|r l IH]; [done|]. cbn in *. destruct (p r); [done|]. cbn. by rewrite IH.
Qed.

(** ** The rows are sound *)

(** No two workspaces have one name, no two keys one id, no key is of a
    workspace that is not there, and no rows either. *)
Record Sound (t : Tables) : Prop := mkSound {
  sound_names n w w' : named n t w → named n t w' → w = w';
  sound_keys : NoDup (c_key_id <$> api_keys t);
  sound_owners row : row ∈ api_keys t → is_Some (workspaces t !! c_workspace row);
  sound_rows w : workspaces t !! w = None → unreferenced w t;
}.

Lemma no_tables_sound : Sound no_tables.
Proof.
  split.
  - intros n w w' (r & Hr & _). cbn in Hr. by rewrite lookup_empty in Hr.
  - constructor.
  - intros row Hr. by apply elem_of_nil in Hr.
  - intros w _. by split.
Qed.

(** Changes that leave the keys' ids and workspaces alone. *)
Lemma sound_update t k f :
  (∀ row, c_key_id (f row) = c_key_id row) → (∀ row, c_workspace (f row) = c_workspace row) →
  Sound t → Sound (update_key k f t).
Proof.
  intros Hid Hw [Hn Hk Ho Hr]. split; try done; cbn.
  - replace (c_key_id <$> _) with (c_key_id <$> api_keys t); [done|].
    induction (api_keys t) as [|r l IH]; [done|]. cbn. cbn in Hk. apply NoDup_cons in Hk as [_ Hk].
    f_equal; [destruct (String.eqb _ k); [by rewrite Hid|done]|]. apply IH; [done|]. intros row Hin. apply Ho. by right.
  - intros row (r & -> & Hin)%list_elem_of_fmap. destruct (String.eqb _ k); [rewrite Hw|]; by apply Ho.
  - intros w Hrow. by destruct (Hr _ Hrow).
Qed.

Lemma sound_kept t p : Sound t → Sound (with_api_keys (List.filter p) t).
Proof.
  intros [Hn Hk Ho Hr]. split; try done; cbn; [by apply NoDup_kept|..].
  - intros row [Hin _]%elem_of_kept. by apply Ho.
  - intros w Hrow. by destruct (Hr _ Hrow).
Qed.

Lemma sound_noted t n a w k d : Sound t → Sound (noted n a w k d t).
Proof. intros [Hn Hk Ho Hr]. split; try done. intros w' Hrow. by destruct (Hr _ Hrow). Qed.

Lemma named_insert n (t : Tables) w rr row w' :
  named n (with_workspaces (<[w := (rr, row)]> ) t) w' →
  (w' = w ∧ c_name row = Some n) ∨ (w' ≠ w ∧ named n t w').
Proof.
  intros (r & Hr & Hn). cbn in Hr. apply lookup_insert_Some in Hr as [[-> <-]|[Hne Hr]]; [by left|right].
  split; [done|]. by exists r.
Qed.

Lemma sound_workspace t w name row :
  c_name row = Some name → workspaces t !! w = None → (∀ w', ¬ named name t w') →
  Sound t → Sound (with_workspaces (<[w := (new_record_row 0 1, row)]>) t).
Proof.
  intros Hname Hw Hfree [Hn Hk Ho Hr]. split; try done.
  - intros n w1 w2 [[-> H1]|[_ H1]]%named_insert [[-> H2]|[_ H2]]%named_insert; [done|..].
    + destruct (Hfree w2). congruence.
    + destruct (Hfree w1). congruence.
    + by eapply Hn.
  - intros r Hin. cbn. destruct (decide (c_workspace r = w)) as [->|Hne]; [by rewrite lookup_insert_eq|].
    rewrite lookup_insert_ne by done. by apply Ho.
  - intros w' Hw'. cbn in Hw'. apply lookup_insert_None in Hw' as [Hw' _]. destruct (Hr _ Hw'). by split.
Qed.

Lemma sound_without t w : Sound t → Sound (without_workspace w t).
Proof.
  intros [Hn Hk Ho Hr]. split; cbn.
  - intros n w1 w2 (r1 & H1 & Hn1) (r2 & H2 & Hn2). cbn in *.
    apply lookup_delete_Some in H1 as [_ H1], H2 as [_ H2].
    apply (Hn n); [by exists r1|by exists r2].
  - by apply NoDup_kept.
  - intros row [Hin Hne]%elem_of_kept. apply negb_true_iff, String.eqb_neq in Hne.
    rewrite lookup_delete_ne by done. by apply Ho.
  - intros w' Hw'. destruct (decide (w = w')) as [<-|Hne].
    + split; cbn; by rewrite rows_of_delete, decide_True.
    + rewrite lookup_delete_ne in Hw' by done. destruct (Hr _ Hw').
      by split; cbn; rewrite rows_of_delete, decide_False.
Qed.

Lemma sound_new_key t row :
  find_key (c_key_id row) t = None → is_Some (workspaces t !! c_workspace row) →
  Sound t → Sound (with_api_keys (λ l, l ++ [row]) t).
Proof.
  intros Hid Hw [Hn Hk Ho Hr]. split; try done; cbn.
  - rewrite fmap_app. apply NoDup_app. split_and!; [done| |apply NoDup_singleton].
    apply find_key_None in Hid. set_solver.
  - intros r [Hin|Hin]%elem_of_app; [by apply Ho|]. by apply list_elem_of_singleton in Hin as ->.
  - intros w Hrow. by destruct (Hr _ Hrow).
Qed.

Lemma stored_sound `{Externals} c t t' : stored c t t' → Sound t → Sound t'.
Proof.
  intros Hst Hs. destruct c; cbn in Hst; try (by subst).
  - destruct Hst as (now & info & _ & Hn & Hw & _ & _ & _ & _ & ->). apply sound_noted. by eapply sound_workspace.
  - destruct Hst as (now & info & _ & ->). by apply sound_noted, sound_without.
  - destruct Hst as (now & [k info] & found & (rr & row & Hw & _) & _ & Hk & _ & ->).
    apply sound_noted, sound_new_key; [done| |done]. cbn. eauto.
  - destruct Hst as (now & at_ & info & before & _ & -> & _). by apply sound_noted, sound_update.
  - destruct Hst as (now & at_ & info & before & _ & -> & _). by apply sound_noted, sound_update.
  - destruct Hst as (now & info & before & _ & -> & _). by apply sound_noted, sound_kept.
  - destruct Hst as (now & n & _ & ->). change (match n with 0 => false | S _ => true end) with (0 <? n).
    destruct (0 <? n); [apply sound_noted|]; by apply sound_kept.
  - destruct Hst as [->|(id & at_ & ->)]; [done|]. by apply sound_update.
Qed.

(** ** Revoked keys *)

Definition revoked_key (id : string) (t : Tables) : Prop :=
  ∃ row, find_key id t = Some row ∧ is_Some (c_revoked_at row).

Lemma find_key_same id t t' : api_keys t = api_keys t' → find_key id t = find_key id t'.
Proof. unfold find_key. by intros ->. Qed.

Lemma revoked_update id id' f t :
  (∀ row, c_key_id (f row) = c_key_id row) →
  (∀ row, is_Some (c_revoked_at row) → is_Some (c_revoked_at (f row))) →
  revoked_key id t → revoked_key id (update_key id' f t).
Proof.
  intros Hid Hrev (row & Hrow & Hr). unfold revoked_key. rewrite find_key_update, Hrow by done.
  eexists. split; [done|]. destruct (String.eqb _ id'); auto.
Qed.

Lemma revoked_kept id p t t' :
  NoDup (c_key_id <$> api_keys t) → api_keys t' = List.filter p (api_keys t) →
  revoked_key id t → revoked_key id t' ∨ find_key id t' = None.
Proof.
  intros Hnd Heq (row & Hrow & Hr).
  assert (find_key id t' = if p row then Some row else None) as Hf.
  { rewrite (find_key_same id t' (with_api_keys (List.filter p) t)) by done.
    by rewrite find_key_kept, Hrow by done. }
  destruct (p row); [left; by exists row|by right].
Qed.

Lemma stored_revoked `{Externals} c t t' id :
  stored c t t' → Sound t → revoked_key id t → revoked_key id t' ∨ find_key id t' = None.
Proof.
  intros Hst Hs Hrev. pose proof (sound_keys t Hs) as Hnd. destruct c; cbn in Hst; try (left; by subst).
  - destruct Hst as (now & info & _ & _ & _ & _ & _ & _ & _ & ->). by left.
  - destruct Hst as (now & info & _ & ->). by eapply revoked_kept.
  - destruct Hst as (now & [k info] & found & _ & _ & _ & _ & ->). left.
    destruct Hrev as (row & Hrow & Hr). exists row. split; [|done].
    rewrite (find_key_same id _ (with_api_keys (λ l, l ++ [_]) t)) by done. by apply find_key_append.
  - destruct Hst as (now & at_ & info & before & _ & -> & _). left. by apply (revoked_update id id0).
  - destruct Hst as (now & at_ & info & before & _ & -> & _). left. apply (revoked_update id id0); [done| |done].
    intros row [r Hr]. cbn. by rewrite Hr.
  - destruct Hst as (now & info & before & _ & -> & _). by eapply revoked_kept.
  - destruct Hst as (now & n & _ & ->). eapply revoked_kept; [done| |done].
    change (match n with 0 => false | S _ => true end) with (0 <? n). by destruct (0 <? n).
  - destruct Hst as [->|(id' & at_ & ->)]; left; [done|]. by apply (revoked_update id id').
Qed.

(** ** Rows of workspaces *)

Lemma records_of_noted a b w k d t : records_of (noted a b w k d t) = records_of t.
Proof. done. Qed.

(** A new workspace's rows, with no others of its own. *)
Lemma records_of_new t (w : WorkspaceId) row :
  workspaces t !! text w = None → unreferenced (text w) t →
  records_of (with_workspaces (<[text w := (new_record_row 0 1, row)]>) t) = <[w := default_record]> (records_of t).
Proof.
  intros Hw [Hg Hu Hs He]. apply map_eq. intros w'. destruct (decide (w' = w)) as [->|Hne].
  - rewrite lookup_insert_eq. apply records_of_Ok. unfold read_of.
    cbn [workspaces generations_table uploads stones ended with_workspaces].
    rewrite lookup_insert_eq, Hg, Hu, Hs, He. by vm_compute.
  - assert (text w' ≠ text w) as Hne' by (intros Heq; by apply Hne, (checked_eq w' w)).
    rewrite lookup_insert_ne, !records_of_lookup by done. cbn [workspaces with_workspaces].
    rewrite lookup_insert_ne by done. unfold record_in, read_of. cbn [workspaces with_workspaces].
    by rewrite lookup_insert_ne.
Qed.

(** A workspace that is deleted takes its record with it. *)
Lemma records_of_without t (w : WorkspaceId) :
  records_of (without_workspace (text w) t) = delete w (records_of t).
Proof.
  apply map_eq. intros w'. rewrite records_of_lookup. destruct (decide (w' = w)) as [->|Hne].
  - rewrite lookup_delete_eq. cbn [workspaces without_workspace]. by rewrite lookup_delete_eq.
  - assert (text w ≠ text w') as Hne' by (intros Heq; by apply Hne, (checked_eq w' w)).
    rewrite lookup_delete_ne, records_of_lookup by done. unfold record_in, read_of.
    cbn [workspaces generations_table uploads stones ended without_workspace].
    by rewrite !rows_of_delete, !decide_False, lookup_delete_ne by done.
Qed.

(** An expiry is stored as far as an [i64] goes. *)
Lemma stored_expiry (e : option N) :
  Control.from_db (Control.to_db <$> e) = N.min 9223372036854775807 <$> e.
Proof.
  destruct e as [e|]; [|done]. cbn. unfold Control.to_db, Control.from_db. cbn.
  destruct (Z.leb_spec 0 (Z.min (Z.of_N e) 9223372036854775807)) as [_|]; [|lia]. f_equal. lia.
Qed.

(** ** Sequences of commands *)

Section properties.
Context {C X RS : Type} `{Db : !Database C X} `{LawfulDb : !LawfulDatabase C X}
  `{Random : !RandomSource RS} `{Ext : !Externals}.
Implicit Types (s : Control C RS) (t : Tables) (c : Command).
Context (clock : nat → N) (fuel : nat).

Abbreviation exec := (exec_command clock fuel).

Fixpoint run_commands (cs : list Command) s : Control C RS :=
  match cs with
  | [] => s
  | c :: cs => run_commands cs (exec c s).2
  end.

Lemma exec_stored_or_not c s :
  stored c (tables_of s) (tables_of (exec c s).2) ∨ tables_of (exec c s).2 = tables_of s.
Proof. pose proof (exec_stored clock fuel c s) as Hst. unfold wp in Hst. tauto. Qed.

Lemma command_sound c s : Sound (tables_of s) → Sound (tables_of (exec c s).2).
Proof. intros Hs. destruct (exec_stored_or_not c s) as [Hst| ->]; [by eapply stored_sound|done]. Qed.

Lemma run_sound (cs : list Command) s : Sound (tables_of s) → Sound (tables_of (run_commands cs s)).
Proof. revert s. induction cs as [|c cs IH]; intros s Hs; [done|]. by apply IH, command_sound. Qed.

Lemma create_key_sound name label r expires_in s :
  Sound (tables_of s) → Sound (tables_of (Control.create_key clock fuel name label r expires_in s).2).
Proof.
  intros Hs. pose proof (command_sound (CreateKey name label r expires_in) s Hs) as He.
  cbn [exec_command] in He. unfold mbind, M_bind in He.
  by destruct (Control.create_key clock fuel name label r expires_in s) as [[]].
Qed.

(** C21: From an empty database, whatever commands are given and however they
    end, no two workspaces have one name, no two keys one id, and no key or row
    belongs to a workspace that is not there. *)
Theorem names_and_keys_stay_unique (cs : list Command) s :
  Sound (tables_of s) → Sound (tables_of (run_commands cs s)).
Proof. apply run_sound. Qed.

(** C22: Nothing an operator changes escapes the audit trail: a command leaves
    the database as it was, or adds one entry of its kind in the same
    transaction as its change; only a key's last use, and a prune that found
    nothing, are not noted.  A command that was refused left it as it was. *)
Theorem every_change_is_noted c s :
  let '(y, s') := exec c s in
  let t := tables_of s in let t' := tables_of s' in
  (t' = t ∨
   (∃ row, audit_rows t' = audit_rows t ++ [row] ∧ action_of c = Some (c_action row)) ∨
   (∃ token id at_, c = Authenticate token ∧ t' = update_key id (with_last_use at_) t)) ∧
  (∀ e, y = Err e → e ≠ Unavailable → t' = t) ∧
  (y = Ok () → is_Some (action_of c) → t' = t → ∃ older_than, c = Prune older_than).
Proof.
  pose proof (exec_stored clock fuel c s) as Hst. unfold wp in Hst.
  destruct (exec c s) as [y s']. cbn [fst snd] in Hst. cbn zeta.
  assert (∀ t t', stored c t t' → t' = t ∧ (action_of c = None ∨ ∃ older_than, c = Prune older_than) ∨
    (∃ row, audit_rows t' = audit_rows t ++ [row] ∧ action_of c = Some (c_action row)) ∨
    (∃ token id at_, c = Authenticate token ∧ t' = update_key id (with_last_use at_) t)) as Hcases.
  { clear. intros t t' Hst. destruct c; cbn in Hst; try (left; split; [done|by left]).
    - destruct Hst as (now & info & _ & _ & _ & _ & _ & _ & _ & ->). right. left. by eexists.
    - destruct Hst as (now & info & _ & ->). right. left. by eexists.
    - destruct Hst as (now & [k info] & found & _ & _ & _ & _ & ->). right. left. by eexists.
    - destruct Hst as (now & at_ & info & before & _ & -> & _). right. left. by eexists.
    - destruct Hst as (now & at_ & info & before & _ & -> & _). right. left. by eexists.
    - destruct Hst as (now & info & before & _ & -> & _). right. left. by eexists.
    - destruct Hst as (now & n & Hn & ->). destruct n as [|n]; [left|right; left; by eexists].
      split; [|right; eauto]. symmetry in Hn. apply length_zero_iff_nil in Hn.
      unfold pruned. rewrite with_kept_all by done. done.
    - destruct Hst as [->|(id & at_ & ->)]; [left; split; [done|by left]|right; right; eauto]. }
  split_and!.
  - destruct Hst as [[Hst _]|[Ht _]]; [|by left]. destruct (Hcases _ _ Hst) as [[Ht _]|[?|?]]; auto.
  - intros e -> He. destruct Hst as [[_ [?|?]]|[Ht _]]; simplify_eq; done.
  - intros -> [a Ha] Ht. destruct Hst as [[Hst _]|[_ ?]]; [|done].
    destruct (Hcases _ _ Hst) as [[_ [?|?]]|[(row & Hrow & _)|(token & id & at_ & -> & _)]]; simplify_eq; [done|].
    rewrite Ht in Hrow. apply (f_equal length) in Hrow. rewrite length_app in Hrow. cbn in Hrow. lia.
Qed.

(** A revoked key opens nothing, whatever commands follow: extending it
    does not bring it back, and nothing else does, for as long as the key is
    known. *)
Theorem a_revoked_key_opens_nothing (cs : list Command) s (token : string) (k : ApiKey) :
  Sound (tables_of s) →
  ApiKey.parse token = Some k → revoked_key (api_key_str (api_key_id k)) (tables_of s) →
  (∀ n, is_Some (find_key (api_key_str (api_key_id k)) (tables_of (run_commands (take n cs) s)))) →
  ∀ who, (Control.authenticate clock token (run_commands cs s)).1 ≠ Ok who.
Proof.
  intros Hs Hk Hrev Hknown who.
  assert (revoked_key (api_key_str (api_key_id k)) (tables_of (run_commands cs s))) as (row & Hrow & Hr).
  { revert s Hs Hrev Hknown. induction cs as [|c cs IH]; intros s Hs Hrev Hknown; [done|].
    apply IH; [by apply command_sound| |intros n; apply (Hknown (S n))].
    destruct (exec_stored_or_not c s) as [Hst| ->]; [|done].
    destruct (stored_revoked _ _ _ _ Hst Hs Hrev) as [?|Hn]; [done|].
    pose proof (Hknown 1) as Hkn. cbn in Hkn. rewrite take_0 in Hkn. cbn in Hkn. rewrite Hn in Hkn. by destruct Hkn. }
  pose proof (authenticate_answers clock token (run_commands cs s)) as Ha.
  destruct (Control.authenticate clock token (run_commands cs s)) as [y s'].
  destruct Ha as [[Hv| ->] _]; [|done]. destruct Hv; cbn; try done.
  simplify_eq. by destruct Hr as [? ?]; congruence.
Qed.

(** C24: Who a token is from is what the database's rows say, and at most one
    thing; or the database cannot say.  Asking changes nothing but the key's
    last use, and that only for a token that was not refused. *)
Theorem authentication_is_decided (token : string) s :
  let '(y, s') := Control.authenticate clock token s in
  let now := clock (control_ticks s) in
  (verdict now (tables_of s) token y ∨ y = Err ServiceUnavailable) ∧
  (∀ y', verdict now (tables_of s) token y' → y = y' ∨ y = Err ServiceUnavailable) ∧
  (tables_of s' = tables_of s ∨
   ((∃ who, y = Ok who) ∨ y = Err ServiceUnavailable) ∧ ∃ k, ApiKey.parse token = Some k ∧
   tables_of s' = update_key (api_key_str (api_key_id k)) (with_last_use (Control.to_db now)) (tables_of s)).
Proof.
  pose proof (authenticate_answers clock token s) as Ha.
  destruct (Control.authenticate clock token s) as [y s']. cbn zeta. destruct Ha as [Hv Ht].
  split_and!; [done| |destruct Ht as [?|(? & k & [? _] & ?)]; [by left|right; eauto]]. intros y' Hy'. destruct Hv as [Hv|?]; [left|by right].
  by eapply verdict_functional.
Qed.

(** A key opens the workspace it was created for, with the role it was
    given, from then until it expires, as long as its row is what it was. *)
Theorem created_keys_open_their_workspace `{!LawfulExternals} (name label : string) (r : Role)
    (expires_in : option N) (k : ApiKey) (info : KeyInfo) s s1 s2 (clock' : nat → N) :
  Control.create_key clock fuel name label r expires_in s = (Ok (k, info), s1) →
  find_key (api_key_str (api_key_id k)) (tables_of s2) = find_key (api_key_str (api_key_id k)) (tables_of s1) →
  (∀ at_, ki_expires_at info = Some at_ → (clock' (control_ticks s2) < N.min at_ 9223372036854775807)%N) →
  let y := (Control.authenticate clock' (ApiKey.reveal k) s2).1 in
  y = Ok (mkAuthenticated (ki_workspace info) (mkCaller (ki_id info) r)
    (N.min 9223372036854775807 <$> ki_expires_at info) label) ∨
  y = Err ServiceUnavailable.
Proof.
  intros Hc Hsame Hnow. pose proof (create_key_came clock fuel name label r expires_in s) as Hcame.
  unfold wp in Hcame. rewrite Hc in Hcame. cbn [fst snd] in Hcame.
  apply came_cases in Hcame as [([k' info'] & [= <- <-] & Hst)|[(e & ? & _)|[(? & _)|(? & _)]]]; [|done..].
  destruct Hst as (found & Hfound & Hwf & Hnone & -> & Ht). cbn [ki_expires_at ki_workspace ki_id] in *.
  set (row := new_key_row _ _ _ _ _ k) in Ht.
  assert (find_key (api_key_str (api_key_id k)) (tables_of s2) = Some row) as Hrow.
  { rewrite Hsame, Ht. rewrite (find_key_same _ _ (with_api_keys (λ l, l ++ [row]) (tables_of s))) by done.
    by apply (find_key_new _ row). }
  pose proof (authenticate_answers clock' (ApiKey.reveal k) s2) as Ha. cbn zeta.
  destruct (Control.authenticate clock' (ApiKey.reveal k) s2) as [y s']. destruct Ha as [[Hv| ->] _]; [|by right].
  left. cbn [fst]. eapply verdict_functional; [exact Hv|]. clear Hv y.
  rewrite <- stored_expiry. replace r with (Control.role_from (c_role row)) at 1 by (by destruct r).
  apply (v_open _ _ _ k row (wi_id found)); try done.
  - by apply parse_reveal.
  - left. split; [done|]. apply sha256_length.
  - unfold expired. cbn [row new_key_row c_key_expires_at]. rewrite stored_expiry.
    destruct (sadd _ <$> expires_in) as [e|] eqn:He; [|done]. cbn. apply N.leb_gt.
    specialize (Hnow e eq_refl). lia.
Qed.

(** Creating a workspace is refused for a name that is not one and for a
    name that is taken, and changes nothing then; otherwise its rows are new,
    and what the engine finds there is an empty, settled workspace, every other
    workspace being as it was. *)
Theorem a_created_workspace_is_empty (name : string) (quota : option N) s :
  let '(y, s') := Control.create_workspace clock name quota s in
  let t := tables_of s in let t' := tables_of s' in
  match y with
  | Ok info => Control.valid_name name = true ∧ wi_name info = name ∧ wi_quota_bytes info = quota ∧
      records_of t !! wi_id info = None ∧ records_of t' = <[wi_id info := default_record]> (records_of t) ∧
      named name t' (text (wi_id info)) ∧ api_keys t' = api_keys t
  | Err (InvalidName n) => n = name ∧ Control.valid_name name = false ∧ t' = t
  | Err (NameTaken n) => n = name ∧ (∃ w, named name t w) ∧ t' = t
  | Err Unavailable => t' = t ∨ ∃ w, records_of t !! w = None ∧ records_of t' = <[w := default_record]> (records_of t)
  | _ => False
  end.
Proof.
  pose proof (create_workspace_came clock name quota s) as Hc. unfold wp in Hc.
  destruct (Control.create_workspace clock name quota s) as [y s']. cbn [fst snd] in Hc. cbn zeta.
  assert (∀ info, workspace_created (clock (control_ticks s)) name quota (tables_of s) (Ok info) (tables_of s') →
    records_of (tables_of s) !! wi_id info = None ∧
    records_of (tables_of s') = <[wi_id info := default_record]> (records_of (tables_of s))) as Hnew.
  { intros info (_ & _ & Hw & Hun & _ & _ & _ & ->).
    assert (records_of (tables_of s) !! wi_id info = None) as Hnone by (by rewrite records_of_lookup, Hw).
    split; [done|]. rewrite records_of_noted. by apply records_of_new. }
  apply came_cases in Hc as [(info & -> & Hst)|[(e & -> & Ht & He)|[(-> & info & Hst)|(_ & _ & t1 & Hst)]]].
  - destruct (Hnew info Hst) as [Hnone Hrec]. destruct Hst as (Hv & _ & _ & _ & <- & <- & _ & Ht').
    split_and!; try done; rewrite Ht'; [|done]. eexists. cbn. by rewrite lookup_insert_eq.
  - destruct He as [->|[t1 Hst]]; [by left|]. destruct e; try done; by destruct Hst as (-> & ?); destruct_and?.
  - destruct (Hnew info Hst) as [Hnone Hrec]. right. by exists (wi_id info).
  - done.
Qed.

(** Deleting a workspace leaves nothing of it: not its record, nor any key
    that opens it; and every other workspace and key is as it was. *)
Theorem a_deleted_workspace_leaves_nothing (name : string) s info s' :
  Sound (tables_of s) → Control.delete_workspace clock name s = (Ok info, s') →
  let t := tables_of s in let t' := tables_of s' in
  named name t (text (wi_id info)) ∧
  records_of t' = delete (wi_id info) (records_of t) ∧ unreferenced (text (wi_id info)) t' ∧
  (∀ id, find_key id t' = match find_key id t with
    | Some row => if String.eqb (c_workspace row) (text (wi_id info)) then None else Some row
    | None => None
    end).
Proof.
  intros Hs Hd. pose proof (delete_workspace_came clock name s) as Hc. unfold wp in Hc. rewrite Hd in Hc.
  cbn [fst snd] in Hc. cbn zeta.
  apply came_cases in Hc as [(? & [= <-] & Hst)|[(? & ? & _)|[(? & _)|(? & _)]]]; [|done..].
  destruct Hst as [(rr & row & Hw & Hn & _) Ht]. rewrite Ht. split_and!.
  - by eexists.
  - rewrite records_of_noted. apply records_of_without.
  - split; cbn; by rewrite rows_of_delete, decide_True.
  - intros id. rewrite (find_key_same id _ (with_api_keys (List.filter (λ r,
      negb (String.eqb (c_workspace r) (text (wi_id info))))) (tables_of s))) by done.
    rewrite find_key_kept by apply Hs. destruct (find_key id (tables_of s)) as [r|]; [|done].
    by destruct (String.eqb (c_workspace r) _).
Qed.

(** A prune removes exactly the keys that were revoked, or else expired, at
    least so long ago, and says how many. *)
Theorem prune_removes_exactly_the_old (older_than : N) s n s' :
  Sound (tables_of s) → Control.prune_keys clock older_than s = (Ok n, s') →
  let before := Control.to_db (ssub (clock (control_ticks s)) older_than) in
  n = length (List.filter (prunable before) (api_keys (tables_of s))) ∧
  (∀ id, find_key id (tables_of s') = match find_key id (tables_of s) with
    | Some row =>
        match c_revoked_at row, c_key_expires_at row with
        | Some at_, _ | None, Some at_ => if (at_ <=? before)%Z then None else Some row
        | None, None => Some row
        end
    | None => None
    end).
Proof.
  intros Hs Hd. pose proof (prune_keys_came clock older_than s) as Hc. unfold wp in Hc. rewrite Hd in Hc.
  cbn [fst snd] in Hc. cbn zeta.
  apply came_cases in Hc as [(? & [= <-] & Hn & Ht)|[(? & ? & _)|[(? & _)|(? & _)]]]; [|done..].
  set (before := Control.to_db _) in *. split; [done|]. intros id.
  rewrite (find_key_same id _ (pruned before (tables_of s))) by
    (rewrite Ht; change (match n with 0 => false | S _ => true end) with (0 <? n); by destruct (0 <? n)).
  unfold pruned. rewrite find_key_kept by apply Hs. destruct (find_key id (tables_of s)) as [row|]; [|done].
  unfold prunable. destruct (c_revoked_at row), (c_key_expires_at row); try done; by destruct (_ <=? before)%Z.
Qed.
End properties.

(** ** Witnesses: a household with a key, in the database in memory *)

Import Demo.

Module Household.
Definition clock (n : nat) : N := (1000 + N.of_nat n)%N.
Abbreviation Home := (Control Tables SeededRandom) (only parsing).
Definition empty : Home := mkControl no_tables (SeededRandom.new 3) 0.

Definition run (cs : list Command) (s : Home) : Home := run_commands (X := MemoryTx) clock 4 cs s.
Definition housed : Home := run [CreateWorkspace "home" None] empty.

Definition created : outcome ControlError (ApiKey * KeyInfo) * Home :=
  Control.create_key (X := MemoryTx) clock 4 "home" "laptop" ReadOnly (Some 100%N) housed.
Definition nobody : ApiKey * KeyInfo :=
  (mkApiKey (mkApiKeyId "") "", mkKeyInfo (mkApiKeyId "") Demo.w "" "" ReadOnly 0 None None None).
Definition the_key : ApiKey * KeyInfo := match created.1 with Ok k => k | _ => nobody end.
Definition the_id : string := api_key_str (api_key_id the_key.1).
Definition keyed : Home := created.2.
Definition without_it : Home := run [RevokeKey the_id] keyed.
Definition tries : list Command := [ExtendKey the_id None; RevokeKey the_id].

Definition razed : outcome ControlError WorkspaceInfo * Home :=
  Control.delete_workspace (X := MemoryTx) clock "home" keyed.
Definition the_house : WorkspaceInfo :=
  match razed.1 with Ok info => info | _ => mkWorkspaceInfo Demo.w "" None 0 end.
Definition cleared : outcome ControlError nat * Home :=
  Control.prune_keys (X := MemoryTx) clock 0 without_it.

Lemma created_is : created = (Ok (the_key.1, the_key.2), keyed).
Proof. apply fst_is. vm_compute. reflexivity. Qed.

Lemma housed_sound : Sound (tables_of housed).
Proof. apply (run_sound (X := MemoryTx)), no_tables_sound. Qed.
Lemma keyed_sound : Sound (tables_of keyed).
Proof.
  apply (create_key_sound (X := MemoryTx)), housed_sound.
Qed.
End Household.

Lemma names_and_keys_stay_unique_witness :
  Sound (tables_of Household.empty) ∧ Sound (tables_of (Household.run Household.tries Household.empty)).
Proof.
  split; [exact no_tables_sound|].
  exact (names_and_keys_stay_unique (X := MemoryTx) Household.clock 4 Household.tries Household.empty no_tables_sound).
Defined.

Lemma a_revoked_key_opens_nothing_witness :
  revoked_key Household.the_id (tables_of Household.without_it) ∧
  ∀ who, (Control.authenticate Household.clock (ApiKey.reveal Household.the_key.1)
    (Household.run Household.tries Household.without_it)).1 ≠ Ok who.
Proof.
  assert (revoked_key Household.the_id (tables_of Household.without_it)) as Hrev
    by (eexists; split; [vm_compute; reflexivity|eexists; reflexivity]).
  split; [exact Hrev|].
  apply (a_revoked_key_opens_nothing (X := MemoryTx) Household.clock 4 Household.tries Household.without_it _
    Household.the_key.1).
  - apply (run_sound (X := MemoryTx)), Household.keyed_sound.
  - vm_compute. reflexivity.
  - exact Hrev.
  - intros [|[|[|n]]]; eexists; vm_compute; reflexivity.
Defined.

Lemma created_keys_open_their_workspace_witness :
  (∀ at_, ki_expires_at Household.the_key.2 = Some at_ →
    (Household.clock (control_ticks Household.keyed) < N.min at_ 9223372036854775807)%N) ∧
  is_ok (Control.authenticate Household.clock (ApiKey.reveal Household.the_key.1) Household.keyed).1.
Proof.
  assert (∀ at_, ki_expires_at Household.the_key.2 = Some at_ →
    (Household.clock (control_ticks Household.keyed) < N.min at_ 9223372036854775807)%N) as Hnow
    by (intros at_ Hat; vm_compute in Hat; injection Hat as <-; vm_compute; reflexivity).
  split; [exact Hnow|].
  pose proof (created_keys_open_their_workspace (X := MemoryTx) Household.clock 4 "home" "laptop" ReadOnly
    (Some 100%N) Household.the_key.1 Household.the_key.2 Household.housed Household.keyed Household.keyed
    Household.clock Household.created_is eq_refl Hnow) as Hy.
  cbv zeta in Hy. destruct Hy as [Hy|Hy]; rewrite Hy; [exact I|].
  exfalso. vm_compute in Hy. discriminate Hy.
Defined.

Lemma a_deleted_workspace_leaves_nothing_witness :
  Household.razed.1 = Ok Household.the_house ∧
  unreferenced (text (wi_id Household.the_house)) (tables_of Household.razed.2) ∧
  find_key Household.the_id (tables_of Household.razed.2) = None.
Proof.
  assert (Household.razed.1 = Ok Household.the_house) as Hd by (vm_compute; reflexivity).
  destruct (a_deleted_workspace_leaves_nothing (X := MemoryTx) Household.clock "home" Household.keyed
    Household.the_house Household.razed.2 Household.keyed_sound (fst_is _ _ Hd)) as (_ & _ & Hun & _).
  split; [exact Hd|split; [exact Hun|vm_compute; reflexivity]].
Defined.

Lemma prune_removes_exactly_the_old_witness :
  Household.cleared.1 = Ok 1 ∧ 1 = length (List.filter (prunable (Control.to_db (ssub
    (Household.clock (control_ticks Household.without_it)) 0))) (api_keys (tables_of Household.without_it))).
Proof.
  assert (Household.cleared.1 = Ok 1) as Hd by (vm_compute; reflexivity). split; [exact Hd|].
  exact (proj1 (prune_removes_exactly_the_old (X := MemoryTx) Household.clock 0 Household.without_it 1
    Household.cleared.2 (run_sound (X := MemoryTx) _ _ _ _ Household.keyed_sound) (fst_is _ _ Hd))).
Defined.
