(* ===== verification/Accounts.v ===== *)
(** What the ledger leaves alone: names, keys and the audit trail.  The
    operator's rows and the workspaces' rows share one database; no operation
    of an engine touches the first. *)

From S2P Require Import Prelude Errors Random Ids Shelf Records Effects Rules Workspace Upload Rewrite Ledger Engine Operations.
From S2P Require Import Auth Database Sqlite Control Keys Operators.

(** ** What an engine does to its ledger

    A relation that the three operations of the ledger of [w] follow, every
    operation of its engine follows. *)
Section following.
Context {Sh L RS : Type} `{Ext : Externals} `{Shelf : !ItemShelf Sh} `{Led : !Ledger L} `{Random : !RandomSource RS}.
Context (w : WorkspaceId) (E : Env) (Q : L → L → Prop) `{!PreOrder Q}.
Context (Hcreate : ∀ l, Q l (ledger_create w l).2) (Hload : ∀ l, Q l (ledger_load w l).2)
  (Htransact : ∀ T X (rule : LedgerRule T X) l x, Q l (transact w rule (l, x)).2.1).

Definition follows {A} : Engine.Do (Sh := Sh) (L := L) (RS := RS) A → Prop := leads (λ e e', Q (e_ledger e) (e_ledger e')).

Lemma follows_point name : follows (Engine.fault_point E name).
Proof. intros e. unfold Engine.fault_point. by destruct (pass E name (e_passed e)). Qed.
Lemma follows_clean_up c : follows (Engine.clean_up E c).
Proof.
  intros e. unfold Engine.clean_up. destruct (match c with DropGeneration g => _ | RemoveStaging u => _ end) as [[] sh];
    first [reflexivity|exact (follows_point _ (mkEngine sh (e_ledger e) (e_rng e) (e_ticks e) (e_passed e)))].
Qed.
Lemma follows_transaction {T} (rule : R Sh RS T) : follows (Engine.transaction w rule).
Proof.
  intros e. unfold Engine.transaction. pose proof (Htransact _ _ (Engine.in_transaction rule) (e_ledger e)
    (mkAmbient (e_shelf e) (e_rng e) (e_ticks e) (e_passed e) [])) as Hl. by destruct (transact _ _ _) as [y [l x]].
Qed.
Lemma follows_write {T} (rule : R Sh RS T) : follows (Engine.write w E rule).
Proof.
  pose proof (@follows_transaction). unfold follows, Engine.write in *.
  leads; first [apply follows_point|apply follows_clean_up].
Qed.
Lemma follows_read {T} (rule : R Sh RS T) : follows (Engine.read w rule).
Proof.
  intros e. unfold Engine.read. pose proof (Hload (e_ledger e)) as Hl. destruct (ledger_load w (e_ledger e)) as [[] l]; try done.
  by destruct (rule _).
Qed.
Lemma follows_create : follows (Engine.create w).
Proof. intros e. unfold Engine.create. pose proof (Hcreate (e_ledger e)) as Hl. by destruct (ledger_create w (e_ledger e)). Qed.

Lemma exec_follows o : follows (exec w E o).
Proof.
  pose proof (@follows_write) as Hwrite. pose proof (@follows_read) as Hread. pose proof follows_create as Hcreated.
  unfold follows in *. destruct o; unfold exec, ignore, Engine.open; leads; first [apply Hread|apply Hwrite].
Qed.
End following.

(** ** Names and keys *)

(** The rows of names, keys and the audit trail are the same, and are sound if they were. *)
Record kept_accounts (t t' : Tables) : Prop := mkKeptAccounts {
  ka_keys : api_keys t' = api_keys t;
  ka_audit : audit_rows t' = audit_rows t;
  ka_named n w : named n t' w ↔ named n t w;
  ka_there w : is_Some (workspaces t !! w) → is_Some (workspaces t' !! w);
  ka_sound : Operators.Sound t → Operators.Sound t';
}.
#[global] Instance kept_accounts_preorder : PreOrder kept_accounts.
Proof.
  split; [by split|]. intros t1 t2 t3 [K1 A1 N1 T1 S1] [K2 A2 N2 T2 S2]. split; [congruence..| | |]; try auto.
  intros n w. by rewrite N2.
Qed.

(** A change of rows that belong to a workspace that is there. *)
Lemma kept_rows (t t' : Tables) :
  workspaces t' = workspaces t → api_keys t' = api_keys t → audit_rows t' = audit_rows t →
  (∀ w, workspaces t !! w = None → unreferenced w t → unreferenced w t') → kept_accounts t t'.
Proof.
  intros Hw Hk Ha Hr. split; [done|done| |by rewrite Hw|].
  - intros n w. unfold named. by rewrite Hw.
  - intros [S1 S2 S3 S4]. split.
    + unfold named. rewrite Hw. exact S1.
    + by rewrite Hk.
    + rewrite Hk, Hw. exact S3.
    + rewrite Hw. auto.
Qed.

Lemma rows_of_other {M} `{Empty M} (w w' : string) (m : M) (t : gmap string M) : w ≠ w' → rows_of w' (<[w := m]> t) = rows_of w' t.
Proof. intros Hne. unfold rows_of. by rewrite lookup_insert_ne. Qed.
Lemma rows_of_gone {M} `{Empty M} (w w' : string) (t : gmap string M) : rows_of w' t = ∅ → rows_of w' (delete w t) = ∅.
Proof. intros Hr. rewrite rows_of_delete. by case_decide. Qed.

(** The statements of the ledger. *)
Definition of_ledger {A} (q : Sql A) : bool :=
  match q with
  | SelectRecord _ | SelectGenerations _ | SelectUploads _ | SelectTombstones _ | SelectEndedRewrites _
  | UpdateRecord _ _ | DeleteGenerations _ | DeleteUploads _ | DeleteTombstones _ | DeleteEndedRewrites _
  | InsertGeneration _ _ _ | InsertUpload _ _ _ | InsertTombstone _ _ _ | InsertEndedRewrite _ _
  | InsertOrIgnoreWorkspace _ _ _ => true
  | _ => false
  end.

Lemma kept_update w row t : kept_accounts t (with_workspaces (alter (λ r, (row, r.2)) w) t).
Proof.
  assert (∀ w' (P : RecordRow * NameRow → Prop), (∀ r r', r.2 = r'.2 → P r ↔ P r') →
    (∃ r, alter (λ r, (row, r.2)) w (workspaces t) !! w' = Some r ∧ P r) ↔ (∃ r, workspaces t !! w' = Some r ∧ P r)) as Halter.
  { intros w' P HP. destruct (decide (w = w')) as [<-|Hne]; [rewrite lookup_alter_eq|by rewrite lookup_alter_ne].
    destruct (workspaces t !! w) as [r|]; cbn; [|naive_solver]. split; intros (r' & [= <-] & Hr'); eexists; (split; [done|]);
      by (eapply HP; [|exact Hr']). }
  assert (∀ w', is_Some (alter (λ r, (row, r.2)) w (workspaces t) !! w') ↔ is_Some (workspaces t !! w')) as Hsome.
  { intros w'. specialize (Halter w' (λ _, True) (λ _ _ _, iff_refl True)). unfold is_Some. naive_solver. }
  assert (∀ n w', named n (with_workspaces (alter (λ r, (row, r.2)) w) t) w' ↔ named n t w') as Hnamed.
  { intros n w'. apply (Halter w' (λ r, c_name r.2 = Some n)). by intros r r' ->. }
  split; [done|done|done|intros w'; apply Hsome|]. intros [S1 S2 S3 S4]. split; [|done|intros r Hr; by apply Hsome, S3|].
  - intros n w1 w2 H1%Hnamed H2%Hnamed. by eapply S1.
  - intros w' Hw'. assert (workspaces t !! w' = None) as Hn.
    { apply eq_None_not_Some. intros Hs%Hsome. cbn in Hw'. rewrite Hw' in Hs. by destruct Hs. }
    by destruct (S4 w' Hn).
Qed.

Lemma kept_ignored w g next t : (workspaces t !! w = None → unreferenced w t) →
  kept_accounts t (with_workspaces (λ m, match m !! w with
    | Some _ => m | None => <[w := (new_record_row g next, mkNameRow None None 0)]> m end) t).
Proof.
  intros Hun. destruct (workspaces t !! w) as [r|] eqn:Hw.
  - apply kept_rows; [cbn; by rewrite Hw|done..|]. intros w' _ [? ? ? ?]. by split.
  - assert (with_workspaces (λ m, match m !! w with Some _ => m | None => <[w := (new_record_row g next, mkNameRow None None 0)]> m end) t =
      with_workspaces (<[w := (new_record_row g next, mkNameRow None None 0)]>) t) as -> by (unfold with_workspaces; by rewrite Hw).
    assert (∀ n w', named n (with_workspaces (<[w := (new_record_row g next, mkNameRow None None 0)]>) t) w' ↔ named n t w') as Hnamed.
    { intros n w'. split.
      - by intros [[_ ?]|[_ ?]]%named_insert.
      - intros (r & Hr & Hn). exists r. split; [|done]. cbn. rewrite lookup_insert_ne; [done|congruence]. }
    split; [done|done|done| |].
    + intros w' Hs. cbn. destruct (decide (w = w')) as [<-|]; [by rewrite lookup_insert_eq|by rewrite lookup_insert_ne].
    + intros [S1 S2 S3 S4]. split; [|done| |].
      * intros n w1 w2 H1%Hnamed H2%Hnamed. by eapply S1.
      * intros row Hrow. cbn. destruct (decide (w = c_workspace row)) as [<-|]; [by rewrite lookup_insert_eq|].
        rewrite lookup_insert_ne by done. by apply S3.
      * intros w' Hw'. cbn in Hw'. apply lookup_insert_None in Hw' as [Hw' _]. by destruct (S4 w' Hw').
Qed.

Lemma ledger_answers {A} (q : Sql A) t a t' : of_ledger q = true → answers q t a t' → kept_accounts t t'.
Proof.
  intros Hq Ha. destruct q; try discriminate Hq; cbn in Ha; try (destruct Ha as [-> _]; reflexivity).
  all: try (destruct Ha as ((r & Hw) & _ & ->); apply kept_rows; [done..|]; intros w' Hw' [? ? ? ?];
    assert (w ≠ w') by congruence; split; cbn; rewrite ?rows_of_other by done; done).
  all: try (subst t'; apply kept_rows; [done..|]; intros w' _ [? ? ? ?]; split; cbn; try apply rows_of_gone; done).
  - subst t'. apply kept_update.
  - destruct Ha as [Hun ->]. by apply kept_ignored.
Qed.

Section leaving.
Context {D : Type} `{Stm : !Statements D} `{LawfulStm : !LawfulStatements D}.
Definition leaves {A} : Sqlite.Db (D := D) A → Prop := leads (λ d d', kept_accounts (tables d) (tables d')).

Lemma leaves_ask {A} (q : Sql A) : of_ledger q = true → leaves (ask q).
Proof.
  intros Hq d. unfold ask. pose proof (sql_law q d) as Hl. destruct (sql q d) as [[a|] d']; cbn; [by eapply ledger_answers|by rewrite Hl].
Qed.
#[local] Hint Extern 0 (leads _ (ask _)) => by apply leaves_ask : leads.
Lemma leaves_read w : leaves (Sqlite.read w).
Proof. unfold leaves, Sqlite.read. leads. Qed.
Lemma leaves_write w r : leaves (Sqlite.write w r).
Proof. unfold leaves, Sqlite.write. leads. Qed.
Lemma leaves_new w : leaves (g ← lift (to_db (generation default_record)); next ← lift (to_db (next_generation default_record));
  ask (InsertOrIgnoreWorkspace w g next)).
Proof. unfold leaves. leads. Qed.
End leaving.

Section ledger.
Context {C X : Type} `{Db : !Database C X} `{LawfulDb : !LawfulDatabase C X}.
Definition same_accounts (l l' : SqliteLedger C) : Prop := kept_accounts (tables (connection l)) (tables (connection l')).
#[global] Instance same_accounts_preorder : PreOrder same_accounts.
Proof. split; [intros l|intros l1 l2 l3 H1 H2]; unfold same_accounts; [reflexivity|by etrans]. Qed.

Lemma create_accounts w (l : SqliteLedger C) : same_accounts l (ledger_create w l).2.
Proof.
  cbn. unfold Sqlite.create.
  pose proof (leaves_new (D := C) (text w) (connection l)) as Hm.
  match type of Hm with context [snd (?m (connection l))] => destruct (m (connection l)) as [y d] end. exact Hm.
Qed.
Lemma load_accounts w (l : SqliteLedger C) : same_accounts l (ledger_load w l).2.
Proof. cbn. unfold Sqlite.load. pose proof (leaves_read (text w) (connection l)) as Hm. by destruct (Sqlite.read (text w) (connection l)). Qed.

Lemma changed_accounts w before record (x : X) :
  kept_accounts (tables x) (tables (write_changed w before record x).2).
Proof. unfold write_changed. case_bool_decide; [reflexivity|]. apply leaves_write. Qed.

Lemma transact_accounts T Y w (rule : LedgerRule T Y) (l : SqliteLedger C) (y : Y) :
  same_accounts l (transact w rule (l, y)).2.1.
Proof.
  unfold same_accounts. cbn. unfold transact_sqlite. pose proof (begin_law (connection l)) as Hbegin.
  destruct (begin_transaction (connection l)) as [tx|c]; [|cbn; by rewrite Hbegin]. destruct Hbegin as [Ht Ho].
  assert (∀ x n, origin x = origin tx →
    kept_accounts (tables (connection l)) (tables (connection (mkSqlite (rollback x) (wanted l) n)))) as Hback.
  { intros x n Hx. cbn. rewrite rollback_law, Hx, Ho. reflexivity. }
  pose proof (leaves_read (text w) tx) as Hread. pose proof (keeps_read (text w) tx) as Hro.
  destruct (Sqlite.read (text w) tx) as [[before| | |] tx1]; cbn [fst snd] in *; [|by apply Hback..].
  destruct (rule before y) as [[answer record] y1]. destruct answer as [a| | |]; [|by apply Hback..].
  pose proof (changed_accounts (text w) before record tx1) as Hwrite. pose proof (keeps_changed (text w) before record tx1) as Hwo.
  destruct (write_changed (text w) before record tx1) as [[u| | |] tx2]; cbn [fst snd] in *; [|apply Hback; congruence..].
  destruct (commit_point l) as [[v| | |] n]; [|apply Hback; congruence..].
  assert (kept_accounts (tables (connection l)) (tables tx2)) as Hall by (rewrite <-Ht; by etrans).
  pose proof (commit_law tx2) as Hc. destruct (commit tx2) as [[] c]; cbn.
  - by destruct Hc as [->|[? _]].
  - destruct Hc as [->|[_ ->]]; [done|]. rewrite Hwo, Hro, Ho. reflexivity.
Qed.

(** No operation of an engine touches names, keys or the audit trail. *)
Lemma exec_accounts {Sh RS} `{Externals} `{!ItemShelf Sh} `{!RandomSource RS} w E o (e : Engine Sh (SqliteLedger C) RS) :
  same_accounts (e_ledger e) (e_ledger (exec w E o e).2).
Proof.
  apply (exec_follows w E same_accounts); [apply create_accounts|apply load_accounts|intros; apply transact_accounts].
Qed.
End ledger.
