(* ===== verification/Rate.v ===== *)
(** Failed authentications, counted per client address in a sliding minute
    ([passalong-server-api/src/rate.rs]): the limiter, and its equivalence with
    one that keeps every failure it counted. *)

From S2P Require Import Prelude Text.

Definition WINDOW : N := 60.
Definition CAPACITY : N := 10000.

(** [std::net::IpAddr]: an address is its number, of 32 or 128 bits. *)
Inductive IpAddr := V4 (n : N) | V6 (n : N).

#[global] Instance IpAddr_eq_dec : EqDecision IpAddr.
Proof. solve_decision. Defined.
#[global] Instance IpAddr_countable : Countable IpAddr.
Proof.
  refine (inj_countable' (λ a, match a with V4 n => inl n | V6 n => inr n end)
    (λ x, match x with inl n => V4 n | inr n => V6 n end) _). by intros [].
Defined.

(** The derived order: the older protocol first, then the number. *)
Definition ip_le (a b : IpAddr) : Prop :=
  match a, b with
  | V4 a, V4 b | V6 a, V6 b => (a ≤ b)%N
  | V4 _, V6 _ => True
  | V6 _, V4 _ => False
  end.

#[global] Instance ip_le_dec : RelDecision ip_le.
Proof. intros [] []; simpl; apply _. Defined.

#[export] Instance ip_order : KeyOrder IpAddr.
Proof.
  refine {| key_le := ip_le |}.
  - intros [] []; simpl; try tauto; lia.
  - split; [split|]; [intros []; simpl; lia|intros [] [] []; simpl; try done; lia|].
    intros [] []; simpl; try done; intros; f_equal; lia.
Defined.

(** An IPv4-mapped address, [::ffff:a.b.c.d]. *)
Definition to_ipv4_mapped (v6 : N) : option N :=
  if (N.shiftr v6 32 =? 0xffff)%N then Some (v6 mod 2 ^ 32)%N else None.

(** [segments[4..].fill(0)]: the last four of the eight segments of 16 bits. *)
Definition counted_as (address : IpAddr) : IpAddr :=
  match address with
  | V4 _ => address
  | V6 v6 =>
      match to_ipv4_mapped v6 with
      | Some v4 => V4 v4
      | None => V6 (N.shiftl (N.shiftr v6 64) 64)
      end
  end.

(** Times of failures, the oldest in front. *)
Abbreviation Failures := (list N) (only parsing).

Record FailureLimiter := mkLimiter {
  per_minute : N;
  capacity : N;
  table : gmap IpAddr Failures;
}.

Definition with_table (t : gmap IpAddr Failures) (l : FailureLimiter) : FailureLimiter :=
  mkLimiter (per_minute l) (capacity l) t.

Fixpoint forget_old (failures : Failures) (now : N) : Failures :=
  match failures with
  | [] => []
  | at_ :: rest => if (wadd at_ WINDOW <=? now)%N then forget_old rest now else failures
  end.

(** [min_by_key]: the first of the smallest. *)
Fixpoint min_by_key {A} (key : A → N) (l : list A) : option A :=
  match l with
  | [] => None
  | x :: l =>
      match min_by_key key l with
      | Some y => if (key x <=? key y)%N then Some x else Some y
      | None => Some x
      end
  end.

Definition make_room (t : gmap IpAddr Failures) (capacity now : N) : gmap IpAddr Failures :=
  let t := filter (λ e : IpAddr * Failures,
    match last e.2 with Some at_ => (now <? wadd at_ WINDOW)%N | None => false end = true) t in
  if (N.of_nat (size t) <? capacity)%N then t
  else
    match min_by_key (λ e : IpAddr * Failures, default 0%N (last e.2)) (btree_iter t) with
    | Some stalest => delete stalest.1 t
    | None => t
    end.

Module FailureLimiter.
Definition new (per_minute capacity : N) : FailureLimiter := mkLimiter per_minute (N.max capacity 1) ∅.

Definition limited (address : IpAddr) (now : N) (l : FailureLimiter) : option N * FailureLimiter :=
  if (per_minute l =? 0)%N then (None, l)
  else
    let address := counted_as address in
    match table l !! address with
    | None => (None, l)
    | Some failures =>
        match forget_old failures now with
        | [] => (None, with_table (delete address (table l)) l)
        | (oldest :: _) as failures =>
            (if (per_minute l <=? N.of_nat (length failures))%N
             then Some (N.max (ssub (wadd oldest WINDOW) now) 1) else None,
             with_table (<[address := failures]> (table l)) l)
        end
    end.

Definition failed (address : IpAddr) (now : N) (l : FailureLimiter) : FailureLimiter :=
  if (per_minute l =? 0)%N then l
  else
    let address := counted_as address in
    let t := if bool_decide (table l !! address = None) && (capacity l <=? N.of_nat (size (table l)))%N
      then make_room (table l) (capacity l) now else table l in
    let failures := forget_old (default [] (t !! address)) now in
    let failures := if (N.of_nat (length failures) <? per_minute l)%N then failures ++ [now] else failures in
    with_table (<[address := failures]> t) l.

Definition addresses (l : FailureLimiter) : nat := size (table l).
End FailureLimiter.

(** Each value of [X-Forwarded-For], in order; [None] is one that is not text.
    [parse] is [str::parse::<IpAddr>]. *)
Definition client_address (parse : string → option IpAddr) (peer : IpAddr) (forwarded : list (option string))
    (behind_proxy : bool) : IpAddr :=
  if negb behind_proxy then peer
  else default peer (last forwarded ≫= λ value, value ≫= λ chain, parse (trim (after_last "," chain))).

(** ** Forgetting what is old *)

(** Those of the last minute. *)
Definition recent (now : N) (failures : Failures) : Failures := filter (λ at_, (now < at_ + WINDOW)%N) failures.

Definition in_order (failures : Failures) : Prop := StronglySorted N.le failures.

(** No time is so late that a minute more overflows. *)
Definition countable_until (T : N) : Prop := (T + WINDOW < two64)%N.

Lemma recent_app now l1 l2 : recent now (l1 ++ l2) = recent now l1 ++ recent now l2.
Proof. apply filter_app. Qed.

Lemma recent_all now l : Forall (λ at_, (now < at_ + WINDOW)%N) l → recent now l = l.
Proof. unfold recent. induction 1 as [|x l Hx _ IH]; [done|]. by rewrite filter_cons_True, IH. Qed.

Lemma forget_old_recent failures now T :
  countable_until T → in_order failures → Forall (λ at_, (at_ ≤ T)%N) failures →
  forget_old failures now = recent now failures.
Proof.
  intros HT Hs Hle. induction Hs as [|at_ rest Hs IH Hall]; [done|]. cbn [forget_old].
  inversion Hle as [|? ? Hat Hrest]; subst. unfold countable_until in HT.
  rewrite wadd_small by lia. unfold recent. destruct (N.leb_spec (at_ + WINDOW) now) as [Hold|Hnew].
  - rewrite filter_cons_False by lia. by apply IH.
  - rewrite filter_cons_True by lia. f_equal.
    symmetry. apply recent_all. eapply Forall_impl; [exact Hall|]. cbn. intros. lia.
Qed.

(** ** A limiter that forgets no failure it counted *)

Abbreviation History := (gmap IpAddr Failures) (only parsing).

Definition counted (h : History) (a : IpAddr) : Failures := default [] (h !! a).

Module Reference.
(** Limited while as many failures as may be are of the last minute: until the
    oldest of them is not. *)
Definition limited (per_minute : N) (address : IpAddr) (now : N) (h : History) : option N :=
  if (per_minute =? 0)%N then None
  else
    match recent now (counted h (counted_as address)) with
    | [] => None
    | (oldest :: _) as failures =>
        if (per_minute <=? N.of_nat (length failures))%N then Some (N.max (oldest + WINDOW - now) 1) else None
    end.

(** What comes while the address is limited is not counted. *)
Definition failed (per_minute : N) (address : IpAddr) (now : N) (h : History) : History :=
  let a := counted_as address in
  if (N.of_nat (length (recent now (counted h a))) <? per_minute)%N
  then <[a := counted h a ++ [now]]> h else h.
End Reference.

(** Requests, as the limiter sees them. *)
Inductive Event := Asked (a : IpAddr) (now : N) | Failed (a : IpAddr) (now : N).
Definition time_of (e : Event) : N := match e with Asked _ t | Failed _ t => t end.
Definition address_of (e : Event) : IpAddr := match e with Asked a _ | Failed a _ => counted_as a end.

Definition limiter_step (e : Event) (l : FailureLimiter) : list (option N) * FailureLimiter :=
  match e with
  | Asked a now => let '(y, l) := FailureLimiter.limited a now l in ([y], l)
  | Failed a now => ([], FailureLimiter.failed a now l)
  end.
Fixpoint limiter_run (events : list Event) (l : FailureLimiter) : list (option N) * FailureLimiter :=
  match events with
  | [] => ([], l)
  | e :: events =>
      let '(y, l) := limiter_step e l in
      let '(ys, l) := limiter_run events l in
      (y ++ ys, l)
  end.

Definition reference_step (n : N) (e : Event) (h : History) : list (option N) * History :=
  match e with
  | Asked a now => ([Reference.limited n a now h], h)
  | Failed a now => ([], Reference.failed n a now h)
  end.
Fixpoint reference_run (n : N) (events : list Event) (h : History) : list (option N) * History :=
  match events with
  | [] => ([], h)
  | e :: events =>
      let '(y, h) := reference_step n e h in
      let '(ys, h) := reference_run n events h in
      (y ++ ys, h)
  end.

(** ** The two agree *)

Definition held (l : FailureLimiter) (a : IpAddr) : Failures := default [] (table l !! a).

(** Times that are in order and past. *)
Record past (T : N) (f : Failures) : Prop := mkPast { past_order : in_order f; past_le : Forall (λ at_, (at_ ≤ T)%N) f }.

Record agree (T : N) (l : FailureLimiter) (h : History) : Prop := mkAgree {
  agree_held a : past T (held l a);
  agree_counted a : past T (counted h a);
  agree_recent a now : (T ≤ now)%N → recent now (held l a) = recent now (counted h a);
}.

Lemma past_mono T T' f : (T ≤ T')%N → past T f → past T' f.
Proof. intros HT [Ho Hl]. split; [done|]. eapply Forall_impl; [exact Hl|]. cbn. lia. Qed.

Lemma past_recent T now f : past T f → past T (recent now f).
Proof.
  intros [Ho Hl]. split.
  - induction Ho as [|x l Ho IH Hall]; [constructor|]. inversion Hl; subst. unfold recent.
    destruct (decide (now < x + WINDOW)%N).
    + rewrite filter_cons_True by done. constructor; [by apply IH|]. apply Forall_forall.
      intros y [_ Hy]%list_elem_of_filter. rewrite Forall_forall in Hall. by apply Hall.
    + rewrite filter_cons_False by done. by apply IH.
  - apply Forall_forall. intros y [_ Hy]%list_elem_of_filter. rewrite Forall_forall in Hl. by apply Hl.
Qed.

Lemma past_push T f : past T f → past T (f ++ [T]).
Proof.
  intros [Ho Hl]. split.
  - induction Ho as [|x l Ho IH Hall]; [repeat constructor|]. inversion Hl; subst. cbn.
    constructor; [by apply IH|]. apply Forall_app. split; [done|]. by repeat constructor.
  - apply Forall_app. split; [done|]. by repeat constructor.
Qed.

Lemma recent_recent now now' f : (now ≤ now')%N → recent now' (recent now f) = recent now' f.
Proof.
  intros Hn. unfold recent. induction f as [|x f IH]; [done|].
  destruct (decide (now < x + WINDOW)%N).
  - rewrite filter_cons_True by done. destruct (decide (now' < x + WINDOW)%N).
    + by rewrite !filter_cons_True, IH by done.
    + by rewrite !filter_cons_False, IH by done.
  - rewrite filter_cons_False by done. by rewrite (filter_cons_False _ x) by lia.
Qed.

Lemma held_insert l a f b : held (with_table (<[a := f]> (table l)) l) b = if decide (a = b) then f else held l b.
Proof. unfold held. cbn. case_decide; subst; [by rewrite lookup_insert_eq|by rewrite lookup_insert_ne]. Qed.

Lemma held_delete l a b : held (with_table (delete a (table l)) l) b = if decide (a = b) then [] else held l b.
Proof. unfold held. cbn. case_decide; subst; [by rewrite lookup_delete_eq|by rewrite lookup_delete_ne]. Qed.

Lemma counted_insert (h : History) a f b : counted (<[a := f]> h) b = if decide (a = b) then f else counted h b.
Proof. unfold counted. case_decide; subst; [by rewrite lookup_insert_eq|by rewrite lookup_insert_ne]. Qed.

Lemma agree_later T T' l h : (T ≤ T')%N → agree T l h → agree T' l h.
Proof.
  intros HT [Hh Hc Hr]. split; [intros; by eapply past_mono|intros; by eapply past_mono|].
  intros a now Hn. apply Hr. lia.
Qed.

(** Old failures may be forgotten. *)
Lemma agree_forget T l h a f :
  agree T l h → recent T (held l a) = f →
  agree T (with_table (<[a := f]> (table l)) l) h ∧ (f = [] → agree T (with_table (delete a (table l)) l) h).
Proof.
  intros [Hh Hc Hr] Hf.
  assert (past T f) as Hpf by (subst f; by apply past_recent).
  assert (∀ now, (T ≤ now)%N → recent now f = recent now (counted h a)) as Hfr.
  { intros now Hn. subst f. rewrite recent_recent by done. by apply Hr. }
  split; [|intros Hnil]; split; try done; intros b; rewrite ?held_insert, ?held_delete.
  - by case_decide.
  - intros now Hn. case_decide; subst; auto.
  - case_decide; [by rewrite <- Hnil|done].
  - intros now Hn. case_decide; [subst b; rewrite <- Hnil|]; auto.
Qed.

Lemma limited_agrees T a l h :
  countable_until T → agree T l h →
  (FailureLimiter.limited a T l).1 = Reference.limited (per_minute l) a T h ∧
  agree T (FailureLimiter.limited a T l).2 h ∧
  per_minute (FailureLimiter.limited a T l).2 = per_minute l.
Proof.
  intros HT Hag. unfold FailureLimiter.limited, Reference.limited.
  destruct (per_minute l =? 0)%N; [done|]. set (b := counted_as a).
  pose proof (agree_recent _ _ _ Hag b T (N.le_refl T)) as Hrec.
  destruct (agree_held _ _ _ Hag b) as [Ho Hle].
  pose proof (forget_old_recent (held l b) T T HT Ho Hle) as Hf.
  pose proof (agree_forget T l h b _ Hag eq_refl) as [Hins Hdel].
  destruct (table l !! b) as [f|] eqn:Hb.
  2: { assert (held l b = []) as Hheld by (unfold held; by rewrite Hb). rewrite Hheld in Hrec. by rewrite <- Hrec. }
  assert (held l b = f) as Hheld by (unfold held; by rewrite Hb). rewrite Hheld in *.
  rewrite <- Hrec. unfold countable_until in HT.
  rewrite Hf. destruct (recent T f) as [|oldest rest] eqn:Hrf; cbn [fst snd].
  - by split_and!; [|apply Hdel|].
  - assert (oldest ≤ T)%N as Hold.
    { rewrite Forall_forall in Hle. apply Hle. assert (oldest ∈ recent T f) as Hin by (rewrite Hrf; by left).
      by apply list_elem_of_filter in Hin as []. }
    rewrite wadd_small by lia. by split_and!.
Qed.

Lemma failed_agrees T a l h :
  countable_until T → agree T l h →
  (table l !! counted_as a = None → (N.of_nat (size (table l)) < capacity l)%N) →
  agree T (FailureLimiter.failed a T l) (Reference.failed (per_minute l) a T h).
Proof.
  intros HT Hag Hroom. unfold FailureLimiter.failed, Reference.failed. set (b := counted_as a) in *.
  destruct (N.eqb_spec (per_minute l) 0) as [Hz|_].
  { rewrite Hz. by destruct (N.ltb_spec (N.of_nat (length (recent T (counted h b)))) 0); [lia|]. }
  assert (bool_decide (table l !! b = None) && (capacity l <=? N.of_nat (size (table l)))%N = false) as ->.
  { case_bool_decide as Hb; [|done]. apply Hroom in Hb. cbn. by apply N.leb_gt. }
  destruct (agree_held _ _ _ Hag b) as [Ho Hle].
  change (default [] (table l !! b)) with (held l b). rewrite (forget_old_recent _ _ _ HT Ho Hle).
  rewrite <- (agree_recent _ _ _ Hag b T) by done.
  pose proof (agree_forget T l h b _ Hag eq_refl) as [Hins _].
  destruct (_ <? per_minute l)%N; [|done].
  destruct Hag as [Hh Hc Hr]. split.
  - intros c. rewrite held_insert. case_decide; [|done]. by apply past_push, past_recent.
  - intros c. rewrite counted_insert. case_decide; [by apply past_push|done].
  - intros c now Hn. rewrite held_insert, counted_insert. case_decide; [|by apply Hr].
    rewrite !recent_app, recent_recent by done. f_equal. by apply Hr.
Qed.

(** ** The table *)

Lemma min_by_key_Some {A} (key : A → N) l : l ≠ [] → ∃ x, min_by_key key l = Some x ∧ x ∈ l.
Proof.
  induction l as [|x l IH]; [done|]. intros _. cbn. destruct l as [|y l]; cbn in *.
  - exists x. split; [done|by left].
  - destruct (IH ltac:(done)) as (z & -> & Hz). destruct (_ <=? _)%N; eexists; (split; [done|]); [by left|by right].
Qed.

Lemma make_room_subseteq t c now : make_room t c now ⊆ t.
Proof.
  unfold make_room. destruct (_ <? c)%N; [apply map_filter_subseteq|].
  destruct (min_by_key _ _); [|apply map_filter_subseteq].
  etrans; [apply delete_subseteq|apply map_filter_subseteq].
Qed.

Lemma make_room_size t c now :
  (0 < c)%N → (N.of_nat (size t) ≤ c)%N → (N.of_nat (size (make_room t c now)) < c)%N.
Proof.
  intros Hc Hs. unfold make_room. set (t' := filter _ t).
  assert (size t' ≤ size t) as Ht' by (apply map_subseteq_size, map_filter_subseteq).
  destruct (N.ltb_spec (N.of_nat (size t')) c) as [?|Hge]; [done|].
  assert (btree_iter t' ≠ []) as Hne.
  { intros Hnil. pose proof (length_btree_keys t') as Hl. unfold btree_keys in Hl. rewrite Hnil in Hl. cbn in Hl. lia. }
  destruct (min_by_key_Some (λ e : IpAddr * Failures, default 0%N (last e.2)) _ Hne) as ([a f] & -> & Hin).
  apply elem_of_btree_iter in Hin. cbn.
  rewrite map_size_delete_Some by eauto. lia.
Qed.

(** Of the failures of an address, in order, some are held. *)
Fixpoint failures_of (a : IpAddr) (events : list Event) : Failures :=
  match events with
  | [] => []
  | Failed b now :: events => if decide (counted_as b = a) then now :: failures_of a events else failures_of a events
  | Asked _ _ :: events => failures_of a events
  end.

Lemma failures_of_app a l1 l2 : failures_of a (l1 ++ l2) = failures_of a l1 ++ failures_of a l2.
Proof. induction l1 as [|[]]; cbn; [done|done|]. case_decide; cbn; congruence. Qed.

Lemma forget_old_sublist f now : sublist (forget_old f now) f.
Proof. induction f as [|x f IH]; [done|]. cbn. destruct (_ <=? now)%N; [by apply sublist_cons|done]. Qed.

Lemma length_forget_old f now : length (forget_old f now) ≤ length f.
Proof. apply sublist_length, forget_old_sublist. Qed.

(** What the table never exceeds, and whose failures it holds. *)
Record bounded (l : FailureLimiter) (past_events : list Event) : Prop := mkBounded {
  bounded_capacity : (0 < capacity l)%N;
  bounded_addresses : (N.of_nat (size (table l)) ≤ capacity l)%N;
  bounded_failures a : (N.of_nat (length (held l a)) ≤ per_minute l)%N;
  bounded_sublist a : sublist (held l a) (failures_of a past_events);
}.

Lemma held_subseteq t l a : t ⊆ table l → default [] (t !! a) = held l a ∨ default [] (t !! a) = [].
Proof.
  intros Ht. destruct (t !! a) as [f|] eqn:Ha; [left|by right]. unfold held. by rewrite (lookup_weaken _ _ _ _ Ha Ht).
Qed.

Lemma bounded_step e l evs :
  (0 < per_minute l)%N → bounded l evs → bounded (limiter_step e l).2 (evs ++ [e]).
Proof.
  intros Hper [Hc Hs Hf Hsub].
  assert (∀ a, sublist (held l a) (failures_of a (evs ++ [e]))) as Hsub'.
  { intros a. rewrite failures_of_app. etrans; [apply Hsub|]. apply sublist_inserts_r. done. }
  destruct e as [a now|a now]; cbn [limiter_step].
  - unfold FailureLimiter.limited. destruct (per_minute l =? 0)%N; [by split|].
    destruct (table l !! counted_as a) as [f|] eqn:Ha; [|by split].
    assert (held l (counted_as a) = f) as Hheld by (unfold held; by rewrite Ha).
    pose proof (forget_old_sublist f now) as Hfs.
    destruct (forget_old f now) as [|oldest rest] eqn:Hfo; cbn [snd].
    + split; [done| | |]; cbn [table capacity per_minute with_table].
      * rewrite map_size_delete_Some by eauto. lia.
      * intros b. rewrite held_delete. case_decide; [cbn; lia|apply Hf].
      * intros b. rewrite held_delete. case_decide; [apply sublist_nil_l|apply Hsub'].
    + rewrite <- Hheld in Hfs. split; [done| | |]; cbn [table capacity per_minute with_table].
      * rewrite map_size_insert_Some by eauto. done.
      * intros b. rewrite held_insert. case_decide; [|apply Hf]. subst b.
        apply sublist_length in Hfs. specialize (Hf (counted_as a)). lia.
      * intros b. rewrite held_insert. case_decide; [|apply Hsub']. subst b. by etrans.
  - unfold FailureLimiter.failed. cbn [snd]. destruct (N.eqb_spec (per_minute l) 0); [lia|].
    set (b := counted_as a). set (full := bool_decide _ && _).
    set (t := if full then _ else _).
    assert (t ⊆ table l) as Ht by (unfold t; destruct full; [apply make_room_subseteq|done]).
    assert (t !! b = None → (N.of_nat (size t) < capacity l)%N) as Hroom.
    { unfold t. destruct full eqn:Hfull; [intros _; by apply make_room_size|]. unfold full in Hfull.
      intros Hb. rewrite bool_decide_true in Hfull by done. cbn in Hfull. apply N.leb_gt in Hfull. done. }
    assert (N.of_nat (size t) ≤ capacity l)%N as Hst by (pose proof (map_subseteq_size _ _ Ht); lia).
    set (f := forget_old _ now).
    assert (sublist f (held l b)) as Hfs.
    { unfold f. etrans; [apply forget_old_sublist|].
      destruct (held_subseteq t l b Ht) as [->| ->]; [done|apply sublist_nil_l]. }
    set (g := if (_ <? per_minute l)%N then _ else _).
    assert (N.of_nat (length g) ≤ per_minute l)%N as Hg.
    { unfold g. destruct (N.ltb_spec (N.of_nat (length f)) (per_minute l)); [rewrite length_app; cbn; lia|].
      apply sublist_length in Hfs. specialize (Hf b). lia. }
    assert (sublist g (failures_of b (evs ++ [Failed a now]))) as Hgs.
    { rewrite failures_of_app. cbn. rewrite decide_True by done.
      assert (sublist (f ++ [now]) (failures_of b evs ++ [now])) as Hboth.
      { apply sublist_app; [by etrans|done]. }
      unfold g. destruct (_ <? _)%N; [done|]. etrans; [|exact Hboth]. by apply sublist_inserts_r. }
    assert (∀ c, held (with_table (<[b:=g]> t) l) c = if decide (b = c) then g else default [] (t !! c)) as Hheld.
    { intros c. unfold held. cbn. case_decide; subst; [by rewrite lookup_insert_eq|by rewrite lookup_insert_ne]. }
    split; [done| | |]; cbn [table capacity per_minute with_table].
    + destruct (t !! b) eqn:Hb; [rewrite map_size_insert_Some by eauto; done|].
      rewrite map_size_insert_None by done. specialize (Hroom eq_refl). lia.
    + intros c. rewrite Hheld. case_decide; [done|].
      destruct (held_subseteq t l c Ht) as [->| ->]; [apply Hf|cbn; lia].
    + intros c. rewrite Hheld. case_decide as Hbc; [by rewrite <- Hbc|].
      destruct (held_subseteq t l c Ht) as [->| ->]; [apply Hsub'|apply sublist_nil_l].
Qed.

Lemma limiter_step_per_minute e l : per_minute (limiter_step e l).2 = per_minute l ∧ capacity (limiter_step e l).2 = capacity l.
Proof.
  destruct e; cbn; [unfold FailureLimiter.limited|unfold FailureLimiter.failed].
  - destruct (_ =? 0)%N; [done|]. destruct (table l !! _); [|done]. by destruct (forget_old _ _).
  - by destruct (_ =? 0)%N.
Qed.

Lemma limiter_run_snd e events l : (limiter_run (e :: events) l).2 = (limiter_run events (limiter_step e l).2).2.
Proof. cbn. destruct (limiter_step e l) as [y l1]. cbn. by destruct (limiter_run events l1). Qed.

Lemma bounded_run events l evs :
  (0 < per_minute l)%N → bounded l evs → bounded (limiter_run events l).2 (evs ++ events).
Proof.
  revert l evs. induction events as [|e events IH]; intros l evs Hper Hb; [by rewrite app_nil_r|].
  rewrite limiter_run_snd. replace (evs ++ e :: events) with ((evs ++ [e]) ++ events) by by rewrite <- app_assoc.
  apply IH; [|by apply bounded_step]. by destruct (limiter_step_per_minute e l) as [-> _].
Qed.

Lemma new_bounded n c : bounded (FailureLimiter.new n c) [].
Proof.
  split; cbn.
  - lia.
  - rewrite map_size_empty. lia.
  - intros a. unfold held. cbn. rewrite lookup_empty. cbn. lia.
  - intros a. unfold held. cbn. rewrite lookup_empty. done.
Qed.

Lemma limiter_run_kept events l :
  per_minute (limiter_run events l).2 = per_minute l ∧ capacity (limiter_run events l).2 = capacity l.
Proof.
  revert l. induction events as [|e events IH]; intros l; [done|]. rewrite limiter_run_snd.
  destruct (IH (limiter_step e l).2) as [-> ->]. apply limiter_step_per_minute.
Qed.

Lemma forget_old_head f now x rest : forget_old f now = x :: rest → (now < wadd x WINDOW)%N.
Proof.
  induction f as [|y f IH]; [done|]. cbn. destruct (N.leb_spec (wadd y WINDOW) now); [done|]. by intros [= <- <-].
Qed.

(** Of each address the limiter holds at most as many failures as it
    allows, and of addresses at most as many as it may; and it limits an address
    only when it has counted as many failures of that address as are allowed,
    the oldest of them less than a minute ago. *)
Theorem the_limiter_is_bounded (n c : N) (events : list Event) (a : IpAddr) (now : N) :
  (0 < n)%N →
  let l := (limiter_run events (FailureLimiter.new n c)).2 in
  (N.of_nat (FailureLimiter.addresses l) ≤ N.max c 1)%N ∧
  (N.of_nat (length (held l a)) ≤ n)%N ∧
  (∀ wait, (FailureLimiter.limited a now l).1 = Some wait →
    ∃ f, sublist f (failures_of (counted_as a) events) ∧ N.of_nat (length f) = n ∧
      Forall (λ at_, (now < wadd at_ WINDOW)%N) (take 1 f) ∧ (1 ≤ wait)%N).
Proof.
  intros Hn. cbn zeta. set (l := (limiter_run _ _).2).
  assert (bounded l events) as [Hc Hs Hf Hsub] by (apply (bounded_run events _ []); [done|apply new_bounded]).
  destruct (limiter_run_kept events (FailureLimiter.new n c)) as [Hper Hcap].
  change (limiter_run events (FailureLimiter.new n c)).2 with l in Hper, Hcap. cbn in Hper, Hcap.
  split_and!; [by rewrite <- Hcap|by rewrite <- Hper|].
  intros wait. unfold FailureLimiter.limited. rewrite Hper. destruct (N.eqb_spec n 0); [lia|].
  destruct (table l !! counted_as a) as [f|] eqn:Ha; [|done].
  assert (held l (counted_as a) = f) as Hheld by (unfold held; by rewrite Ha).
  pose proof (forget_old_sublist f now) as Hfs. pose proof (forget_old_head f now) as Hh.
  destruct (forget_old f now) as [|oldest rest] eqn:Hfo; [done|]. cbn [fst].
  destruct (N.leb_spec n (N.of_nat (length (oldest :: rest)))) as [Hle|]; [|done]. intros [= <-].
  exists (oldest :: rest). split_and!; [|..].
  - rewrite <- Hheld in Hfs. by etrans.
  - apply sublist_length in Hfs. specialize (Hf (counted_as a)). rewrite Hheld, Hper in Hf. lia.
  - constructor; [by eapply Hh|constructor].
  - lia.
Qed.

(** Addresses with failures are among those that were seen, so a table with
    room for all that are ever seen never has to make room. *)
Definition seen_by (events : list Event) : gset IpAddr := list_to_set (address_of <$> events).

Lemma failed_dom a now l (S : gset IpAddr) :
  dom (table l) ⊆ S → counted_as a ∈ S → dom (table (FailureLimiter.failed a now l)) ⊆ S.
Proof.
  intros Hd Ha. unfold FailureLimiter.failed. destruct (_ =? 0)%N; [done|]. cbn.
  rewrite dom_insert_L. match goal with |- context [if ?b then make_room ?x ?y ?z else _] => set (t := if b then make_room x y z else table l) end.
  assert (dom t ⊆ dom (table l)) as Hsub; [|set_solver].
  unfold t. destruct (_ && _); [|done]. apply subseteq_dom, make_room_subseteq.
Qed.

Lemma limited_dom a now l : dom (table (FailureLimiter.limited a now l).2) ⊆ dom (table l).
Proof.
  unfold FailureLimiter.limited. destruct (_ =? 0)%N; [done|].
  destruct (table l !! counted_as a) as [f|] eqn:Ha; [|done].
  destruct (forget_old f now); cbn; [rewrite dom_delete_L; set_solver|].
  rewrite dom_insert_L. apply elem_of_dom_2 in Ha. set_solver.
Qed.

Lemma room_for_one l (S : gset IpAddr) a :
  dom (table l) ⊆ S → a ∈ S → (N.of_nat (size S) ≤ capacity l)%N → table l !! a = None →
  (N.of_nat (size (table l)) < capacity l)%N.
Proof.
  intros Hd Ha Hs Hn. apply not_elem_of_dom in Hn.
  assert (size ({[a]} ∪ dom (table l)) ≤ size S) as Hle by (apply subseteq_size; set_solver).
  rewrite size_union, size_singleton, size_dom in Hle by set_solver. lia.
Qed.

Lemma run_agrees T (S : gset IpAddr) events l h :
  agree T l h → dom (table l) ⊆ S → seen_by events ⊆ S → (N.of_nat (size S) ≤ capacity l)%N →
  Forall (λ e, countable_until (time_of e)) events → StronglySorted N.le (T :: (time_of <$> events)) →
  (limiter_run events l).1 = (reference_run (per_minute l) events h).1.
Proof.
  revert T l h. induction events as [|e events IH]; intros T l h Hag Hd Hseen Hs Hc Ho; [done|].
  inversion Hc as [|? ? He Hc']; subst. cbn in Ho.
  apply StronglySorted_inv in Ho as [Ho HT]. inversion HT as [|? ? HTe _]; subst.
  apply (agree_later _ _ _ _ HTe) in Hag. unfold seen_by in Hseen. cbn in Hseen.
  assert (address_of e ∈ S) as HeS by set_solver.
  assert (seen_by events ⊆ S) as Hseen' by (unfold seen_by; set_solver).
  destruct e as [a now|a now]; cbn [limiter_run reference_run limiter_step reference_step time_of address_of] in *.
  - destruct (limited_agrees now a l h He Hag) as (Hy & Hag' & Hper).
    pose proof (limited_dom a now l) as Hd'.
    pose proof (limiter_step_per_minute (Asked a now) l) as [_ Hcap]. cbn in Hcap.
    destruct (FailureLimiter.limited a now l) as [y l1]. cbn [fst snd] in *. subst y.
    specialize (IH now l1 h Hag' ltac:(set_solver) Hseen' ltac:(by rewrite Hcap) Hc' Ho).
    rewrite Hper in IH. destruct (limiter_run events l1), (reference_run (per_minute l) events h). cbn in *. congruence.
  - pose proof (failed_agrees now a l h He Hag (room_for_one l S _ Hd HeS Hs)) as Hag'.
    pose proof (failed_dom a now l S Hd HeS) as Hd'.
    pose proof (limiter_step_per_minute (Failed a now) l) as [Hper Hcap]. cbn in Hper, Hcap.
    specialize (IH now _ _ Hag' Hd' Hseen' ltac:(by rewrite Hcap) Hc' Ho).
    rewrite Hper in IH. destruct (limiter_run events (FailureLimiter.failed a now l)).
    destruct (reference_run (per_minute l) events (Reference.failed (per_minute l) a now h)). done.
Qed.

(** C28: The limiter answers exactly as the reference, which keeps a list of
    counted failures for each address for ever and looks at those of the last
    minute.  A failure is counted only when it comes while its address is not
    limited, that is, while fewer than [n] counted failures of it are of the
    last minute; one that comes while it is limited is not remembered, by
    neither.  Assumed are a table with room for all the addresses that are ever
    seen, events in the order of their times, and times to which a minute can be
    added in 64 bits. *)
Theorem the_limiter_is_a_sliding_minute (n c : N) (events : list Event) :
  (N.of_nat (size (seen_by events)) ≤ N.max c 1)%N →
  Forall (λ e, countable_until (time_of e)) events →
  StronglySorted N.le (time_of <$> events) →
  (limiter_run events (FailureLimiter.new n c)).1 = (reference_run n events ∅).1.
Proof.
  intros Hs Hc Ho. apply (run_agrees 0 (seen_by events) events (FailureLimiter.new n c) ∅); try done.
  - split.
    + intros a. unfold held. cbn. rewrite lookup_empty. repeat constructor.
    + intros a. unfold counted. rewrite lookup_empty. repeat constructor.
    + intros a now _. unfold held, counted. cbn. by rewrite !lookup_empty.
  - constructor; [done|]. apply Forall_forall. intros. lia.
Qed.

(** ** Witnesses *)

Definition guesses : list Event :=
  let a := V4 3232235777 in
  [Failed a 1000; Asked a 1001; Failed a 1002; Failed (V6 (N.shiftl 0xffff 32 + 3232235777)) 1003; Asked a 1004;
   Failed a 1005; Asked a 1059; Asked a 1060; Asked a 1064].

(** A failure that comes while the address is limited does not count: with the
    three at 30, 31 and 32 counted as well, it would be limited at 62. *)
Example a_failure_while_limited_is_not_counted :
  let a := V4 1 in
  (limiter_run [Failed a 0; Failed a 1; Failed a 2; Failed a 30; Failed a 31; Failed a 32; Asked a 62]
    (FailureLimiter.new 3 2)).1 = [None].
Proof. vm_compute. reflexivity. Qed.

Lemma the_limiter_is_bounded_witness :
  (N.of_nat (FailureLimiter.addresses (limiter_run guesses (FailureLimiter.new 3 2)).2) ≤ N.max 2 1)%N.
Proof. apply (the_limiter_is_bounded 3 2 guesses (V4 0) 1060). reflexivity. Defined.

Lemma the_limiter_is_a_sliding_minute_witness :
  (limiter_run guesses (FailureLimiter.new 3 2)).1 = [None; Some 56; Some 1; None; None]%N ∧
  (limiter_run guesses (FailureLimiter.new 3 2)).1 = (reference_run 3 guesses ∅).1.
Proof.
  split; [vm_compute; reflexivity|]. apply the_limiter_is_a_sliding_minute.
  - vm_compute. intros H. discriminate H.
  - repeat constructor; vm_compute; reflexivity.
  - repeat constructor; vm_compute; intros H; discriminate H.
Defined.
