(* ===== verification/Net.v ===== *)
(** Addresses as text, as Rust's standard library reads and writes them. *)

From stdpp Require Import pretty.
From S2P Require Import Prelude Text Rate.

(** What is read from the front of a text, and the rest; or nothing is read. *)
Definition Reads (A : Type) : Type := string → option (A * string).

Definition given_char (c : ascii) : Reads unit := λ s,
  match s with String c' s => if Ascii.eqb c' c then Some ((), s) else None | "" => None end.

(** [char::to_digit(radix)] *)
Definition to_digit (radix : N) (c : ascii) : option N :=
  let n := N_of_ascii c in
  let digit :=
    if is_digit c then Some (n - 48)%N
    else if ((97 <=? n) && (n <=? 122))%N then Some (n - 87)%N
    else if ((65 <=? n) && (n <=? 90))%N then Some (n - 55)%N else None in
  d ← digit; if (d <? radix)%N then Some d else None.

(** The digits in front, their value and how many they are. *)
Fixpoint read_digits (radix value : N) (count : nat) (s : string) : N * nat * string :=
  match s with
  | String c rest =>
      match to_digit radix c with
      | Some d => read_digits radix (value * radix + d) (S count) rest
      | None => (value, count, s)
      end
  | "" => (value, count, "")
  end.

(** A number of at most [max_digits] digits that is at most [most]. *)
Definition read_number (radix : N) (max_digits : nat) (allow_zero_prefix : bool) (most : N) : Reads N := λ s,
  let '(value, count, rest) := read_digits radix 0 0 s in
  if (max_digits <? count) || (count =? 0) || (negb allow_zero_prefix && String.prefix "0" s && (1 <? count)) then None
  else if (value <=? most)%N then Some (value, rest) else None.

(** After a separator, but for the first. *)
Definition read_separator {A} (sep : ascii) (first : bool) (inner : Reads A) : Reads A := λ s,
  if first then inner s else '(_, s) ← given_char sep s; inner s.

Definition octet (first : bool) : Reads N := read_separator "." first (read_number 10 3 false 255).
Definition read_ipv4_addr : Reads N := λ s,
  '(a, s) ← octet true s; '(b, s) ← octet false s; '(c, s) ← octet false s; '(d, s) ← octet false s;
  Some (a * 2 ^ 24 + b * 2 ^ 16 + c * 2 ^ 8 + d, s)%N.

(** Up to [left] groups of 16 bits, the last two of which may be written as an
    IPv4 address; and whether they were. *)
Fixpoint read_groups (left : nat) (first : bool) (s : string) : list N * bool * string :=
  match left with
  | O => ([], false, s)
  | S left' =>
      match (if 1 <=? left' then read_separator ":" first read_ipv4_addr s else None) with
      | Some (v4, s) => ([v4 / 2 ^ 16; v4 mod 2 ^ 16]%N, true, s)
      | None =>
          match read_separator ":" first (read_number 16 4 true 65535) s with
          | Some (group, s) => let '(groups, v4, s) := read_groups left' false s in (group :: groups, v4, s)
          | None => ([], false, s)
          end
      end
  end.

Definition of_groups (groups : list N) : N := fold_left (λ n g, n * 2 ^ 16 + g)%N groups 0%N.

Definition read_ipv6_addr : Reads N := λ s,
  let '(front, v4, s) := read_groups 8 true s in
  if length front =? 8 then Some (of_groups front, s) else
  if v4 : bool then None else
  '(_, s) ← given_char ":" s; '(_, s) ← given_char ":" s;
  let '(back, _, s) := read_groups (7 - length front) true s in
  Some (of_groups (front ++ replicate (8 - length front - length back) 0%N ++ back), s).

Definition read_ip_addr : Reads IpAddr := λ s,
  match read_ipv4_addr s with
  | Some (n, s) => Some (V4 n, s)
  | None => '(n, s) ← read_ipv6_addr s; Some (V6 n, s)
  end.

(** The whole text is the address. *)
Definition parse_ip (s : string) : option IpAddr :=
  '(ip, rest) ← read_ip_addr s; if String.eqb rest "" then Some ip else None.

Example addresses_are_read :
  map parse_ip ["127.0.0.1"; "192.0.2.4"; "::"; "::1"; "2001:db8::4"; "::ffff:1.2.3.4"; "1:2:3:4:5:6:7:8"; "1:2:3:4:5:6:1.2.3.4"; "FE80::"]
  = [Some (V4 2130706433); Some (V4 3221225988); Some (V6 0); Some (V6 1); Some (V6 (0x20010db8 * 2 ^ 96 + 4));
     Some (V6 0xffff01020304); Some (V6 0x00010002000300040005000600070008); Some (V6 0x00010002000300040005000601020304);
     Some (V6 (0xfe80 * 2 ^ 112))]%N.
Proof. vm_compute. reflexivity. Qed.
Example other_text_is_no_address :
  map parse_ip [""; "1.2.3"; "1.2.3.256"; "01.2.3.4"; "1.2.3.4."; "1.2.3.4:80"; ":"; "1::2::3"; "1:2:3:4:5:6:7"; "12345::"; "nas"; "::1%eth0"]
  = replicate 12 None.
Proof. vm_compute. reflexivity. Qed.

(** ** As they are written: [Display] *)

(** [{n:x}] *)
Fixpoint to_hex (fuel : nat) (n : N) (rest : string) : string :=
  match fuel with
  | O => rest
  | S fuel =>
      let rest := String (hex_digit (n mod 16)) rest in
      if (n / 16 =? 0)%N then rest else to_hex fuel (n / 16) rest
  end.
Definition write_hex (group : N) : string := to_hex 4 group "".

Definition write_ipv4 (n : N) : string :=
  String.concat "." (map pretty [n / 2 ^ 24; n / 2 ^ 16 mod 256; n / 2 ^ 8 mod 256; n mod 256]%N).

(** The eight groups of 16 bits. *)
Definition segments (n : N) : list N := map (λ i, (N.shiftr n (16 * i) mod 2 ^ 16)%N) [7; 6; 5; 4; 3; 2; 1; 0]%N.

(** The first of the longest runs of zeros, where it begins and how long it
    is. *)
Fixpoint longest_zeros (i : nat) (l : list N) (longest current : nat * nat) : nat * nat :=
  match l with
  | [] => longest
  | segment :: l =>
      if (segment =? 0)%N then
        let current := (if current.2 =? 0 then i else current.1, S current.2) in
        longest_zeros (S i) l (if longest.2 <? current.2 then current else longest) current
      else longest_zeros (S i) l longest (0, 0)
  end.

Definition write_ipv6 (n : N) : string :=
  match to_ipv4_mapped n with
  | Some v4 => "::ffff:" ++ write_ipv4 v4
  | None =>
      let l := segments n in
      let colons l := String.concat ":" (map write_hex l) in
      let '(start, len) := longest_zeros 0 l (0, 0) (0, 0) in
      if 1 <? len then (colons (take start l) ++ "::" ++ colons (drop (start + len) l))%string else colons l
  end.

Definition write_ip (ip : IpAddr) : string := match ip with V4 n => write_ipv4 n | V6 n => write_ipv6 n end.
(** [SocketAddr] *)
Definition write_socket (addr : IpAddr * N) : string :=
  match addr.1 with
  | V4 n => write_ipv4 n ++ ":" ++ pretty addr.2
  | V6 n => "[" ++ write_ipv6 n ++ "]:" ++ pretty addr.2
  end.

Example addresses_are_written :
  map write_socket [(V4 2130706433, 8443); (V6 1, 80); (V6 0, 1); (V6 (0x20010db8 * 2 ^ 96 + 4), 2); (V6 0xffff01020304, 3);
    (V6 0x00010000000000040000000000000008, 4); (V6 0x00010002000300000005000600070008, 5)]%N =
  ["127.0.0.1:8443"; "[::1]:80"; "[::]:1"; "[2001:db8::4]:2"; "[::ffff:1.2.3.4]:3"; "[1:0:0:4::8]:4"; "[1:2:3:0:5:6:7:8]:5"].
Proof. vm_compute. reflexivity. Qed.

(** [is_unspecified], [is_loopback]'s own address *)
Definition is_unspecified (ip : IpAddr) : bool := match ip with V4 n | V6 n => (n =? 0)%N end.
Definition LOCALHOST (ip : IpAddr) : IpAddr := match ip with V4 _ => V4 2130706433 | V6 _ => V6 1 end.

(** [local] of [serve.rs]: where a process on this host reaches a server that
    listens on [listen]. *)
Definition local (listen : IpAddr * N) : IpAddr * N :=
  (if is_unspecified listen.1 then LOCALHOST listen.1 else listen.1, listen.2).

(** ** An IPv4 address is read back from how it is written *)

Lemma read_digits_all d value count rest :
  all_bytes is_digit d = true → match rest with "" => True | String c _ => to_digit 10 c = None end →
  read_digits 10 value count (d ++ rest) = (fold_left push_digit (str_bytes d) value, count + String.length d, rest).
Proof.
  revert value count. induction d as [|c d IH]; intros value count Hd Hr.
  - rewrite Nat.add_0_r. destruct rest as [|c rest]; [done|]. change ("" ++ String c rest)%string with (String c rest). cbn [read_digits].
    by rewrite Hr.
  - change (is_digit c && all_bytes is_digit d = true) in Hd. apply andb_true_iff in Hd as [Hc Hd].
    rewrite cons_app. cbn [read_digits]. assert (to_digit 10 c = Some (digit_value c)) as ->.
    { unfold to_digit. rewrite Hc. unfold digit_value. unfold is_digit in Hc. apply andb_true_iff in Hc as [?%N.leb_le ?%N.leb_le].
      cbn. rewrite (proj2 (N.ltb_lt _ _)); [done|lia]. }
    rewrite IH by done. cbn [String.length]. rewrite Nat.add_succ_r. done.
Qed.

Lemma octet_written o : (o < 256)%N →
  String.length (pretty o) ≤ 3 ∧ (String.prefix "0" (pretty o) = true → String.length (pretty o) = 1).
Proof.
  assert (forallb (λ o, (String.length (pretty (N.of_nat o)) <=? 3) &&
    (negb (String.prefix "0" (pretty (N.of_nat o))) || (String.length (pretty (N.of_nat o)) =? 1))) (seq 0 256) = true) as Hall by (by vm_compute).
  intros Ho. rewrite forallb_forall in Hall. specialize (Hall (N.to_nat o)). rewrite N2Nat.id in Hall.
  specialize (Hall ltac:(apply in_seq; lia)). apply andb_true_iff in Hall as [Hl%Nat.leb_le Hp]. split; [done|].
  intros Hz. rewrite Hz in Hp. by apply Nat.eqb_eq.
Qed.

Lemma prefix_app_first c s rest : s ≠ "" → String.prefix (String c "") (s ++ rest) = String.prefix (String c "") s.
Proof. destruct s; [done|]. intros _. rewrite cons_app. cbn [String.prefix]. by destruct (Ascii.ascii_dec _ _), s, rest. Qed.

Lemma octet_read o rest : (o < 256)%N → match rest with "" => True | String c _ => to_digit 10 c = None end →
  read_number 10 3 false 255 (pretty o ++ rest)%string = Some (o, rest).
Proof.
  intros Ho Hr. destruct (pretty_digits o) as (Hd & Hv & Hl), (octet_written o Ho) as [H3 H0]. unfold read_number.
  rewrite read_digits_all by done. change (fold_left push_digit (str_bytes (pretty o)) 0%N) with (digits_value (pretty o)).
  rewrite Hv, Nat.add_0_l, (prefix_app_first "0") by (by intros Hp; rewrite Hp in Hl).
  destruct (Nat.ltb_spec 3 (String.length (pretty o))); [lia|]. destruct (Nat.eqb_spec (String.length (pretty o)) 0); [done|].
  cbn [orb negb andb]. destruct (String.prefix "0" (pretty o)) eqn:Hz.
  - rewrite H0 by done. cbn. by rewrite (proj2 (N.leb_le o 255)) by lia.
  - cbn. by rewrite (proj2 (N.leb_le o 255)) by lia.
Qed.

Lemma octet_later o rest : (o < 256)%N → match rest with "" => True | String c _ => to_digit 10 c = None end →
  octet false (String "." (pretty o ++ rest)) = Some (o, rest).
Proof. intros Ho Hr. unfold octet, read_separator. cbn. by apply octet_read. Qed.

Lemma ipv4_read_back n : (n < 2 ^ 32)%N → parse_ip (write_ipv4 n) = Some (V4 n).
Proof.
  intros Hn. unfold parse_ip, read_ip_addr, read_ipv4_addr.
  set (a := (n / 2 ^ 24)%N). set (b := (n / 2 ^ 16 mod 256)%N). set (c := (n / 2 ^ 8 mod 256)%N). set (d := (n mod 256)%N).
  change (write_ipv4 n) with (pretty a ++ String "." (pretty b ++ String "." (pretty c ++ String "." (pretty d))))%string.
  assert (a < 256 ∧ b < 256 ∧ c < 256 ∧ d < 256)%N as (Ha & Hb & Hc & Hd).
  { unfold a, b, c, d. split_and!; try by apply N.mod_lt. apply N.Div0.div_lt_upper_bound. exact Hn. }
  rewrite <-(str_app_nil (pretty d)). change (octet true (pretty a ++ ?x)%string) with (read_number 10 3 false 255 (pretty a ++ x)%string).
  rewrite octet_read by done. cbn [mbind option_bind]. do 3 (rewrite octet_later by done; cbn [mbind option_bind]). cbn. do 2 f_equal.
  unfold a, b, c, d. change (2 ^ 24)%N with (256 * (256 * 256))%N. change (2 ^ 16)%N with (256 * 256)%N. change (2 ^ 8)%N with 256%N.
  rewrite <-!N.Div0.div_div. remember (n / 256)%N as x eqn:Hx. remember (x / 256)%N as y eqn:Hy.
  pose proof (N.div_mod n 256 ltac:(done)). pose proof (N.div_mod x 256 ltac:(done)). pose proof (N.div_mod y 256 ltac:(done)).
  rewrite <-Hx, <-Hy in *. lia.
Qed.
