(* ===== verification/Clock.v ===== *)
(** Time as the API and the CLI write it ([clock.rs]), and its equivalence with
    a calendar that counts the days one by one. *)

From stdpp Require Import pretty.
From S2P Require Import Prelude.

(** [{n:0w}]: at least [w] digits. *)
Fixpoint zeros (n : nat) : string := match n with O => "" | S n => String "0" (zeros n) end.
Definition padded (w : nat) (n : N) : string :=
  (zeros (w - String.length (pretty n)) ++ pretty n)%string.

(** Days since 1970-01-01 to a civil date, on [i64]; [/] truncates, and
    [div_euclid] and [rem_euclid] round down. *)
Definition civil (days : Z) : Z * Z * Z :=
  let z := (days + 719468)%Z in
  let era := (z / 146097)%Z in
  let doe := (z mod 146097)%Z in
  let yoe := Z.quot (doe - Z.quot doe 1460 + Z.quot doe 36524 - Z.quot doe 146096) 365 in
  let doy := (doe - (365 * yoe + Z.quot yoe 4 - Z.quot yoe 100))%Z in
  let mp := Z.quot (5 * doy + 2) 153 in
  let day := (doy - Z.quot (153 * mp + 2) 5 + 1)%Z in
  let month := if (mp <? 10)%Z then (mp + 3)%Z else (mp - 9)%Z in
  let year := (yoe + era * 400 + (if (month <=? 2)%Z then 1 else 0))%Z in
  (year, month, day).

Definition rfc3339 (unix : N) : string :=
  let days := (unix / 86400)%N in
  let rest := (unix mod 86400)%N in
  let '(year, month, day) := civil (Z.of_N days) in
  (padded 4 (Z.to_N year) ++ "-" ++ padded 2 (Z.to_N month) ++ "-" ++ padded 2 (Z.to_N day) ++ "T"
   ++ padded 2 (rest / 3600) ++ ":" ++ padded 2 (rest mod 3600 / 60) ++ ":" ++ padded 2 (rest mod 60) ++ "Z")%string.

(** [SystemClock]: whole seconds of the time since the epoch, of which there is
    none before it. *)
Definition system_now (since_epoch : option N) : N := default 0%N since_epoch.

(** [ManualClock]: an atomic number, whose additions wrap. *)
Record ManualClock := mkManual { seconds : N }.
Definition manual_at (secs : N) : ManualClock := mkManual secs.
Definition advance (secs : N) (c : ManualClock) : ManualClock := mkManual (wadd (seconds c) secs).

(** ** The Gregorian calendar *)

Definition leap (y : Z) : bool :=
  ((y mod 4 =? 0) && negb (y mod 100 =? 0) || (y mod 400 =? 0))%Z.
Definition days_in (y m : Z) : Z :=
  if (m =? 2)%Z then if leap y then 29 else 28
  else if ((m =? 4) || (m =? 6) || (m =? 9) || (m =? 11))%Z then 30 else 31.
Definition next_day (date : Z * Z * Z) : Z * Z * Z :=
  let '(y, m, d) := date in
  if (d <? days_in y m)%Z then (y, m, d + 1)%Z
  else if (m <? 12)%Z then (y, m + 1, 1)%Z else (y + 1, 1, 1)%Z.

(** ** Years from March *)

Local Open Scope Z_scope.

(** A day is of an era of 400 years, a year of it from March to February, and
    a day of that year. *)
Definition year_start (yoe : Z) : Z := 365 * yoe + yoe / 4 - yoe / 100.
Definition year_days (yoe : Z) : Z := if leap (yoe + 1) then 366 else 365.

Definition of_march (era yoe doy : Z) : Z * Z * Z :=
  let mp := (5 * doy + 2) / 153 in
  let month := if mp <? 10 then mp + 3 else mp - 9 in
  (yoe + era * 400 + (if month <=? 2 then 1 else 0), month, doy - (153 * mp + 2) / 5 + 1).

Lemma year_start_next yoe : 0 ≤ yoe < 399 → year_start (yoe + 1) = year_start yoe + year_days yoe.
Proof.
  intros Hy. unfold year_start, year_days, leap.
  destruct (Z.eqb_spec ((yoe + 1) mod 4) 0), (Z.eqb_spec ((yoe + 1) mod 100) 0), (Z.eqb_spec ((yoe + 1) mod 400) 0);
    cbn [andb orb negb]; Z.to_euclidean_division_equations; lia.
Qed.

Definition year_of (doe : Z) : Z := (doe - doe / 1460 + doe / 36524 - doe / 146096) / 365.

Lemma year_of_bounds doe :
  0 ≤ doe < 146097 → 0 ≤ year_of doe ≤ 399 ∧ year_start (year_of doe) ≤ doe <
    (if year_of doe =? 399 then 146097 else year_start (year_of doe + 1)).
Proof.
  intros Hd. unfold year_of, year_start.
  pose proof (Z.div_mod doe 1460 ltac:(lia)). pose proof (Z.mod_pos_bound doe 1460 ltac:(lia)).
  pose proof (Z.div_mod doe 36524 ltac:(lia)). pose proof (Z.mod_pos_bound doe 36524 ltac:(lia)).
  set (q1 := doe / 1460) in *. set (q2 := doe / 36524) in *.
  assert (doe / 146096 = if doe =? 146096 then 1 else 0) as ->.
  { destruct (Z.eqb_spec doe 146096) as [->|]; [done|]. apply Z.div_small. lia. }
  destruct (Z.eqb_spec doe 146096) as [->|]; [vm_compute; split; split; done|].
  set (v := doe - q1 + q2 - 0).
  pose proof (Z.div_mod v 365 ltac:(lia)). pose proof (Z.mod_pos_bound v 365 ltac:(lia)).
  set (y := v / 365) in *.
  pose proof (Z.div_mod y 4 ltac:(lia)). pose proof (Z.mod_pos_bound y 4 ltac:(lia)).
  pose proof (Z.div_mod y 100 ltac:(lia)). pose proof (Z.mod_pos_bound y 100 ltac:(lia)).
  assert (q2 = 0 ∨ q2 = 1 ∨ q2 = 2 ∨ q2 = 3) as Hq2 by lia.
  pose proof (Z.div_mod (y + 1) 4 ltac:(lia)). pose proof (Z.mod_pos_bound (y + 1) 4 ltac:(lia)).
  pose proof (Z.div_mod (y + 1) 100 ltac:(lia)). pose proof (Z.mod_pos_bound (y + 1) 100 ltac:(lia)).
  assert (0 ≤ y ≤ 399) by lia. split; [done|]. destruct (Z.eqb_spec y 399).
  all: assert (y / 100 = 0 ∨ y / 100 = 1 ∨ y / 100 = 2 ∨ y / 100 = 3) as Hb by lia.
  all: destruct Hq2 as [->|[->|[->| ->]]]; destruct Hb as [Hb|[Hb|[Hb|Hb]]]; rewrite Hb in *; lia.
Qed.

Lemma year_start_mono y1 y2 : 0 ≤ y1 < y2 → year_start (y1 + 1) ≤ year_start y2.
Proof. intros Hy. unfold year_start. Z.to_euclidean_division_equations. lia. Qed.

(** A day of an era is of one year only. *)
Lemma year_of_unique doe y :
  0 ≤ doe < 146097 → 0 ≤ y ≤ 399 →
  year_start y ≤ doe < (if y =? 399 then 146097 else year_start (y + 1)) → year_of doe = y.
Proof.
  intros Hd Hy Hb. destruct (year_of_bounds doe Hd) as [Hy' Hb']. set (y' := year_of doe) in *.
  destruct (Z.lt_trichotomy y y') as [Hlt|[->|Hlt]]; [|done|].
  - pose proof (year_start_mono y y' ltac:(lia)). destruct (Z.eqb_spec y 399); lia.
  - pose proof (year_start_mono y' y ltac:(lia)). destruct (Z.eqb_spec y' 399); lia.
Qed.

Lemma year_end y :
  0 ≤ y ≤ 399 → (if y =? 399 then 146097 else year_start (y + 1)) = year_start y + year_days y.
Proof. intros Hy. destruct (Z.eqb_spec y 399) as [->|]; [done|]. apply year_start_next. lia. Qed.

(** Where a day is, counted from 0000-03-01. *)
Definition place_of (z : Z) : Z * Z * Z :=
  let doe := z mod 146097 in (z / 146097, year_of doe, doe - year_start (year_of doe)).

Lemma civil_of_march days :
  0 ≤ days + 719468 → civil days = let '(era, yoe, doy) := place_of (days + 719468) in of_march era yoe doy.
Proof.
  intros Hz. unfold civil, place_of. set (z := days + 719468) in *.
  pose proof (Z.mod_pos_bound z 146097 ltac:(lia)) as Hd. set (doe := z mod 146097) in *.
  rewrite !(Z.quot_div_nonneg doe) by lia.
  assert (0 ≤ doe - doe / 1460 + doe / 36524 - doe / 146096) as H0 by (Z.to_euclidean_division_equations; lia).
  rewrite (Z.quot_div_nonneg (doe - doe / 1460 + doe / 36524 - doe / 146096)) by lia.
  fold (year_of doe). destruct (year_of_bounds doe Hd) as [Hy Hb]. set (y := year_of doe) in *.
  rewrite !(Z.quot_div_nonneg y) by lia. fold (year_start y). set (doy := doe - year_start y) in *.
  rewrite (Z.quot_div_nonneg (5 * doy + 2)) by lia.
  assert (0 ≤ (5 * doy + 2) / 153) by (apply Z.div_pos; lia).
  rewrite (Z.quot_div_nonneg (153 * ((5 * doy + 2) / 153) + 2)) by lia. done.
Qed.

Definition next_place (p : Z * Z * Z) : Z * Z * Z :=
  let '(era, yoe, doy) := p in
  if doy + 1 <? year_days yoe then (era, yoe, doy + 1)
  else if yoe <? 399 then (era, yoe + 1, 0) else (era + 1, 0, 0).

Lemma place_next z : place_of (z + 1) = next_place (place_of z).
Proof.
  unfold place_of, next_place. pose proof (Z.div_mod z 146097 ltac:(lia)) as Hz.
  pose proof (Z.mod_pos_bound z 146097 ltac:(lia)) as Hd. set (doe := z mod 146097) in *. set (era := z / 146097) in *.
  destruct (year_of_bounds doe Hd) as [Hy Hb]. set (y := year_of doe) in *. rewrite year_end in Hb by done.
  destruct (decide (doe = 146096)) as [He|Hne].
  - assert ((z + 1) / 146097 = era + 1 ∧ (z + 1) mod 146097 = 0) as [-> ->] by (Z.to_euclidean_division_equations; lia).
    assert (y = 399) as Hy399 by (unfold y; rewrite He; done). rewrite Hy399 in *.
    change (year_start 399 + year_days 399) with 146097 in Hb. change (year_start 399) with 145731. change (year_days 399) with 366.
    rewrite He. done.
  - assert ((z + 1) / 146097 = era ∧ (z + 1) mod 146097 = doe + 1) as [-> ->] by (Z.to_euclidean_division_equations; lia).
    destruct (Z.ltb_spec (doe - year_start y + 1) (year_days y)) as [Hin|Hout].
    + rewrite (year_of_unique (doe + 1) y); [|lia|done|rewrite year_end by done; lia]. f_equal. lia.
    + destruct (Z.ltb_spec y 399) as [Hlt|Hge].
      * assert (year_start (y + 1) = doe + 1) as Hst by (rewrite year_start_next by lia; lia).
        rewrite (year_of_unique (doe + 1) (y + 1)); [f_equal; lia|lia|lia|].
        rewrite year_end by lia. rewrite Hst. unfold year_days. destruct (leap _); lia.
      * assert (y = 399) as Hy399 by lia. rewrite Hy399 in *. exfalso.
        change (year_start 399) with 145731 in *. change (year_days 399) with 366 in *. lia.
Qed.

Lemma leap_era y era : leap (y + era * 400) = leap y.
Proof.
  unfold leap. assert ((y + era * 400) mod 4 = y mod 4 ∧ (y + era * 400) mod 100 = y mod 100 ∧
    (y + era * 400) mod 400 = y mod 400) as (-> & -> & ->); [|done].
  Z.to_euclidean_division_equations. lia.
Qed.

(** The months of a year from March: the [mp]th has days up to [month_end]. *)
Definition month_start (mp : Z) : Z := (153 * mp + 2) / 5.

Lemma month_of doy mp : 0 ≤ mp ≤ 11 → month_start mp ≤ doy < month_start (mp + 1) → (5 * doy + 2) / 153 = mp.
Proof. unfold month_start. intros Hm Hd. Z.to_euclidean_division_equations. lia. Qed.

Lemma month_bounds doy : 0 ≤ doy ≤ 365 →
  0 ≤ (5 * doy + 2) / 153 ≤ 11 ∧ month_start ((5 * doy + 2) / 153) ≤ doy < month_start ((5 * doy + 2) / 153 + 1).
Proof. unfold month_start. intros Hd. Z.to_euclidean_division_equations. lia. Qed.

(** Of the twelve months but the last, February, the length is the calendar's. *)
Lemma month_days y mp : 0 ≤ mp ≤ 10 →
  days_in y (if mp <? 10 then mp + 3 else mp - 9) = month_start (mp + 1) - month_start mp.
Proof.
  intros Hm. assert (mp = 0 ∨ mp = 1 ∨ mp = 2 ∨ mp = 3 ∨ mp = 4 ∨ mp = 5 ∨ mp = 6 ∨ mp = 7 ∨ mp = 8 ∨ mp = 9 ∨ mp = 10)
    as Hc by lia.
  by repeat (destruct Hc as [->|Hc]; [reflexivity|]); subst.
Qed.

Ltac pairs := repeat match goal with |- (_, _) = (_, _) => apply f_equal2 end; lia.

Lemma march_next era yoe doy :
  0 ≤ yoe ≤ 399 → 0 ≤ doy < year_days yoe →
  (let '(era, yoe, doy) := next_place (era, yoe, doy) in of_march era yoe doy) = next_day (of_march era yoe doy).
Proof.
  intros Hy Hd. unfold next_place.
  assert (year_days yoe = 365 ∨ year_days yoe = 366) as Hyd by (unfold year_days; destruct (leap _); auto).
  assert (days_in (yoe + era * 400 + 1) 2 = year_days yoe - 337) as Hfeb.
  { unfold days_in, year_days. cbn. replace (yoe + era * 400 + 1) with (yoe + 1 + era * 400) by lia.
    rewrite leap_era. by destruct (leap (yoe + 1)). }
  destruct (month_bounds doy ltac:(lia)) as [Hm Hb]. unfold of_march at 2, next_day.
  set (mp := (5 * doy + 2) / 153) in *. fold (month_start mp).
  destruct (decide (mp = 11)) as [H11|Hne].
  - (* February *)
    rewrite H11 in *. change (month_start 11) with 337 in *. change (11 <? 10) with false.
    change (11 - 9) with 2. cbv beta iota zeta. change (2 <=? 2) with true. cbv iota. rewrite Hfeb.
    destruct (Z.ltb_spec (doy + 1) (year_days yoe)) as [Hin|Hout].
    + destruct (Z.ltb_spec (doy - 337 + 1) (year_days yoe - 337)); [|lia].
      unfold of_march. rewrite (month_of (doy + 1) 11); [|lia|change (month_start 11) with 337; change (month_start (11 + 1)) with 367; lia].
      fold (month_start 11). change (month_start 11) with 337. cbn. change (11 - 9) with 2. change (2 <=? 2) with true. cbv iota. pairs.
    + destruct (Z.ltb_spec (doy - 337 + 1) (year_days yoe - 337)); [lia|]. change (2 <? 12) with true.
      destruct (Z.ltb_spec yoe 399); unfold of_march; change ((5 * 0 + 2) / 153) with 0; change ((153 * 0 + 2) / 5) with 0; cbv zeta; change (0 <? 10) with true; cbv iota; change (0 + 3 <=? 2) with false; cbv iota; pairs.
  - pose proof (month_days (yoe + era * 400 + (if (if mp <? 10 then mp + 3 else mp - 9) <=? 2 then 1 else 0)) mp ltac:(lia)) as Hdays.
    rewrite Hdays. assert (month_start (mp + 1) ≤ 337) as Hlast by (unfold month_start; Z.to_euclidean_division_equations; lia).
    destruct (Z.ltb_spec (doy + 1) (year_days yoe)); [|lia]. unfold of_march.
    destruct (Z.ltb_spec (doy - month_start mp + 1) (month_start (mp + 1) - month_start mp)) as [Hin|Hout].
    + rewrite (month_of (doy + 1) mp) by lia. fold (month_start mp). pairs.
    + rewrite (month_of (doy + 1) (mp + 1)); [|lia|].
      * fold (month_start (mp + 1)). replace (doy + 1 - month_start (mp + 1) + 1) with 1 by lia.
        destruct (Z.ltb_spec mp 10), (Z.ltb_spec (mp + 1) 10); try lia.
        -- destruct (Z.leb_spec (mp + 3) 2), (Z.leb_spec (mp + 1 + 3) 2), (Z.ltb_spec (mp + 3) 12); try lia. pairs.
        -- destruct (Z.leb_spec (mp + 3) 2), (Z.leb_spec (mp + 1 - 9) 2), (Z.ltb_spec (mp + 3) 12); try lia. pairs.
        -- destruct (Z.leb_spec (mp - 9) 2), (Z.leb_spec (mp + 1 - 9) 2), (Z.ltb_spec (mp - 9) 12); try lia. pairs.
      * unfold month_start in *. Z.to_euclidean_division_equations. lia.
Qed.

Lemma civil_next days : 0 ≤ days + 719468 → civil (days + 1) = next_day (civil days).
Proof.
  intros Hz. rewrite !civil_of_march by lia. replace (days + 1 + 719468) with (days + 719468 + 1) by lia.
  rewrite place_next. unfold place_of. set (z := days + 719468) in *.
  pose proof (Z.mod_pos_bound z 146097 ltac:(lia)) as Hd.
  destruct (year_of_bounds (z mod 146097) Hd) as [Hy Hb]. rewrite year_end in Hb by done.
  rewrite march_next; [done|done|lia].
Qed.

(** The date that is written is the one reached by counting the days from
    1970-01-01 in the Gregorian calendar, whatever the time; and the time of
    day is the rest, in hours, minutes and seconds. *)
Theorem dates_are_counted (unix : N) :
  let '(year, month, day) := Nat.iter (N.to_nat (unix / 86400)) next_day (1970, 1, 1) in
  ∃ h m s : N, (h < 24 ∧ m < 60 ∧ s < 60 ∧ unix mod 86400 = h * 3600 + m * 60 + s)%N ∧
  rfc3339 unix = (padded 4 (Z.to_N year) ++ "-" ++ padded 2 (Z.to_N month) ++ "-" ++ padded 2 (Z.to_N day) ++ "T"
    ++ padded 2 h ++ ":" ++ padded 2 m ++ ":" ++ padded 2 s ++ "Z")%string.
Proof.
  assert (∀ n : nat, civil (Z.of_nat n) = Nat.iter n next_day (1970, 1, 1)) as Hcivil.
  { induction n as [|n IH]; [done|]. change (Nat.iter (S n) next_day (1970, 1, 1)) with (next_day (Nat.iter n next_day (1970, 1, 1))).
    rewrite <- IH, <- civil_next by lia. f_equal. lia. }
  unfold rfc3339. replace (Z.of_N (unix / 86400)) with (Z.of_nat (N.to_nat (unix / 86400))) by lia.
  rewrite Hcivil. destruct (Nat.iter _ next_day _) as [[year month] day].
  pose proof (N.mod_lt unix 86400 ltac:(done)) as Hr. set (r := (unix mod 86400)%N) in *.
  exists (r / 3600)%N, (r mod 3600 / 60)%N, (r mod 60)%N. split; [|done]. zify.
  Z.to_euclidean_division_equations. lia.
Qed.

Example new_year : rfc3339 1767225600 = "2026-01-01T00:00:00Z".
Proof. vm_compute. reflexivity. Qed.
