(* ===== verification/Config.v ===== *)
(** The configuration ([config.rs]): sizes and durations as they are written,
    where the file is found, what is refused, and the limits it sets. *)

From stdpp Require Import pretty.
From S2P Require Import Prelude Text Ids Shelf Records Rate.

(** ** Sizes *)

Inductive SizeError :=
| NotASize (text : string)
| NoWholeNumber (text : string)
| TooManyBytes (text : string).

(** The units and by how many bits they shift. *)
Definition shift_of (unit : string) : option N :=
  if String.eqb unit "" then Some 0%N
  else if String.eqb unit "KiB" then Some 10%N
  else if String.eqb unit "MiB" then Some 20%N
  else if String.eqb unit "GiB" then Some 30%N
  else if String.eqb unit "TiB" then Some 40%N
  else None.

Definition parse_size (text : string) : outcome SizeError (option N) :=
  if String.eqb text "unlimited" then Ok None else
  let '(number, unit) := span is_digit text in
  match shift_of (trim_start_matches " " unit) with
  | None => Err (NotASize text)
  | Some shift =>
      let spaces := String.length unit - String.length (trim_start_matches " " unit) in
      number ← ok_or (NoWholeNumber text) (n ← parse_u64 number; if spaces <=? 1 then Some n else None);
      bytes ← ok_or (TooManyBytes text) (checked_mul number (N.shiftl 1 shift));
      Ok (Some bytes)
  end.

(** ** Durations *)

(** [text.chars().last()], and the text before it, for a last character of one
    byte; the last byte of any other is none of the units. *)
Fixpoint split_last (s : string) : option (string * ascii) :=
  match s with
  | "" => None
  | String c "" => Some ("", c)
  | String c s => match split_last s with Some (l, x) => Some (String c l, x) | None => None end
  end.

Definition secs_of (unit : ascii) : option N :=
  if Ascii.eqb unit "s" then Some 1%N
  else if Ascii.eqb unit "m" then Some 60%N
  else if Ascii.eqb unit "h" then Some 3600%N
  else if Ascii.eqb unit "d" then Some 86400%N
  else if Ascii.eqb unit "w" then Some (7 * 86400)%N
  else None.

(** [None] is the one message. *)
Definition parse_duration (text : string) : option N :=
  '(number, unit) ← split_last text;
  each ← secs_of unit;
  if String.eqb number "" || negb (all_bytes is_digit number) then None else
  n ← parse_u64 number;
  checked_mul n each.

(** ** What the file may hold *)

Inductive LogLevel := Error | Warning | Info | Verbose | Debugging.

Definition default_level : LogLevel := Info.

Module LogLevel.
Definition parse (text : string) : option LogLevel :=
  if String.eqb text "error" then Some Error
  else if String.eqb text "warning" then Some Warning
  else if String.eqb text "info" then Some Info
  else if String.eqb text "verbose" then Some Verbose
  else if String.eqb text "debug" then Some Debugging
  else None.
End LogLevel.

Inductive ListenMode := TlsMode | PlainMode.

#[global] Instance ListenMode_eq_dec : EqDecision ListenMode.
Proof. solve_decision. Defined.

(** A path is its text. *)
Record Server := mkServer { log_level : LogLevel; data_dir : string }.
Record Listen := mkListen { address : IpAddr * N; mode : ListenMode; behind_proxy : bool }.
Record Tls := mkTls { cert_file : string; key_file : string }.
Record LimitsSection := mkLimitsSection {
  limit_item_bytes : option N;
  workspace_quota_bytes : N;
  auth_failures_per_minute : N;
}.
Record Rewriting := mkRewriting { rewrite_lease_secs : N }.
Record Staging := mkStaging { max_age_hours : N }.
Record Config := mkConfig {
  server : Server;
  listen : Listen;
  tls : option Tls;
  limits_section : LimitsSection;
  rewriting : Rewriting;
  staging_section : Staging;
}.

Definition default_server : Server := mkServer default_level "/var/lib/passalong-server".
Definition default_listen : Listen := mkListen (V4 0, 8443%N) TlsMode false.
Definition default_section : LimitsSection := mkLimitsSection None (N.shiftl 20 30) 10.
Definition default_config : Config :=
  mkConfig default_server default_listen None default_section (mkRewriting 600) (mkStaging 24).

Definition with_level (level : LogLevel) (c : Config) : Config :=
  mkConfig (mkServer level (data_dir (server c))) (listen c) (tls c) (limits_section c) (rewriting c)
    (staging_section c).

(** [Path::join]: an absolute path replaces what it is joined to. *)
Definition join (a b : string) : string :=
  if String.prefix "/" b then b
  else match split_last a with
    | None => b
    | Some (_, "/"%char) => (a ++ b)%string
    | Some _ => (a ++ "/" ++ b)%string
    end.

Definition control_database (c : Config) : string := join (data_dir (server c)) "control.sqlite".
Definition workspace_dir (c : Config) (w : WorkspaceId) : string :=
  join (join (data_dir (server c)) "workspaces") (text w).

Definition limits_for (c : Config) (quota : option N) : Limits := {|
  quota_bytes := default (workspace_quota_bytes (limits_section c)) quota;
  max_item_bytes := limit_item_bytes (limits_section c);
  staging_secs := smul (max_age_hours (staging_section c)) 3600;
  lease_secs := rewrite_lease_secs (rewriting c);
  check_plaintext_content := true;
|}.

(** The file [init] and [service install] write: the sample, with the paths
    filled in.  [SAMPLE] is the text of [config.sample.toml]. *)
Definition initial_line (data_dir config_dir line : string) : string :=
  if String.prefix "data_dir = " line then "data_dir = " ++ debug data_dir
  else if String.prefix "cert_file = " line then "cert_file = " ++ debug (join config_dir "tls/cert.pem")
  else if String.prefix "key_file = " line then "key_file = " ++ debug (join config_dir "tls/key.pem")
  else line.
Definition initial_file (SAMPLE data_dir config_dir : string) : string :=
  (String.concat newline (map (initial_line data_dir config_dir) (lines SAMPLE)) ++ newline)%string.

(** ** Finding and reading it *)

Module Loading.
(** A size in the file: a number, or text. *)
Inductive SizeText := SizeNumber (bytes : N) | SizeWritten (written : string).

Definition size_or_unlimited (x : SizeText) : option (option N) :=
  match x with
  | SizeNumber bytes => Some (Some bytes)
  | SizeWritten written => match parse_size written with Ok n => Some n | _ => None end
  end.

(** A quota cannot be unlimited: the disk is not. *)
Definition size (x : SizeText) : option N := size_or_unlimited x ≫= id.

(** What the configuration needs of the world. *)
Record Environment := mkEnvironment {
  var : string → option string;
  is_file : string → bool;
}.

Inductive ConfigError :=
| NotAFile (by_ path : string)
| NoFile (looked : list string)
| Unreadable (path : string)
| Malformed (path : string)
| BadLevel (level : string)
| PlainInPublic (path : string) (address : IpAddr * N).

Definition APP : string := "passalong-server".
Definition FILE_VARIABLE : string := "PASSALONG_SERVER_CONFIG_FILE".
Definition LEVEL_VARIABLE : string := "PASSALONG_SERVER_LOG_LEVEL".

(** An environment variable; empty counts as unset. *)
Definition set (env : Environment) (name : string) : option string :=
  value ← var env name;
  if String.eqb value "" then None else Some value.

(** Where it is looked for when it is not named, in order. *)
Definition places (env : Environment) : list string :=
  match set env "XDG_CONFIG_HOME" with Some xdg => [join (join xdg APP) "config.toml"] | None => [] end ++
  match set env "HOME" with Some home => [join (join (join home ".config") APP) "config.toml"] | None => [] end ++
  [join (join "/etc" APP) "config.toml"; "./config.toml"].

Definition named (explicit : option string) (env : Environment) : option (string * string) :=
  match explicit with
  | Some path => Some ("--config", path)
  | None => (λ path, (FILE_VARIABLE, path)) <$> set env FILE_VARIABLE
  end.

Definition find (explicit : option string) (env : Environment) : outcome ConfigError string :=
  match named explicit env with
  | Some (by_, path) => if is_file env path then Ok path else Err (NotAFile by_ path)
  | None =>
      match List.find (is_file env) (places env) with
      | Some found => Ok found
      | None => Err (NoFile (places env))
      end
  end.

Definition is_loopback (a : IpAddr) : bool :=
  match a with
  | V4 n => (N.shiftr n 24 =? 127)%N
  | V6 n => (n =? 1)%N
  end.

Section parse.
(** [toml::from_str], given how the two sizes are read. *)
Context (from_toml : (SizeText → option (option N)) → (SizeText → option N) → string → option Config).

Definition parse (text path : string) (env : Environment) : outcome ConfigError Config :=
  config ← ok_or (Malformed path) (from_toml size_or_unlimited size text);
  config ← match set env LEVEL_VARIABLE with
    | Some level => level ← ok_or (BadLevel level) (LogLevel.parse level); Ok (with_level level config)
    | None => Ok config
    end;
  let public := negb (is_loopback (address (listen config)).1) in
  if bool_decide (mode (listen config) = PlainMode) && public && negb (behind_proxy (listen config))
  then Err (PlainInPublic path (address (listen config)))
  else Ok config.

(** [read] is [std::fs::read_to_string]. *)
Definition load (read : string → option string) (explicit : option string) (env : Environment)
    : outcome ConfigError (Config * string) :=
  path ← find explicit env;
  text ← ok_or (Unreadable path) (read path);
  config ← parse text path env;
  Ok (config, path).
End parse.
End Loading.

(** ** Sizes and durations are exact *)

Lemma trim_start_matches_spec c s :
  ∃ n, s = (string_of_list_ascii (replicate n c) ++ trim_start_matches c s)%string ∧
    String.length s = n + String.length (trim_start_matches c s).
Proof.
  induction s as [|c' s (n & Hn & Hl)]; [by exists 0|]. cbn. destruct (Ascii.eqb_spec c' c) as [->|].
  - exists (S n). cbn. split; [by rewrite Hn at 1|]. by rewrite Hl.
  - by exists 0.
Qed.

Lemma span_at p a b :
  all_bytes p a = true → match b with "" => True | String c _ => p c = false end → span p (a ++ b)%string = (a, b).
Proof.
  intros Ha Hb. induction a as [|c a IH].
  - destruct b as [|c b]; [done|]. change (span p (String c b) = ("", String c b)). cbn. by rewrite Hb.
  - unfold all_bytes in Ha. cbn in Ha. apply andb_true_iff in Ha as [Hc Ha].
    change (span p (String c (a ++ b)) = (String c a, b)). cbn. rewrite Hc, IH; done.
Qed.

Lemma parse_digits_Some s n :
  parse_digits s = Some n ↔ s ≠ "" ∧ all_bytes is_digit s = true ∧ digits_value s = n ∧ (n ≤ u64_max)%N.
Proof.
  unfold parse_digits. destruct (all_bytes is_digit s), (N.leb_spec (digits_value s) u64_max) as [Hle|Hle], s as [|c s];
    cbn [String.length negb Nat.eqb andb]; split; intros Heq; try done; try (by destruct Heq as (? & ? & ? & ?)).
  - by injection Heq as <-.
  - by destruct Heq as (_ & _ & -> & _).
  - destruct Heq as (_ & _ & <- & ?). lia.
Qed.

Lemma checked_mul_Some a b n : checked_mul a b = Some n ↔ n = (a * b)%N ∧ (n ≤ u64_max)%N.
Proof.
  unfold checked_mul. destruct (N.leb_spec (a * b) u64_max); split; intros Heq; try done.
  - by injection Heq as <-.
  - by destruct Heq as [-> _].
  - destruct Heq as [-> ?]. lia.
Qed.

(** What a size is: digits, at most one space, and a unit. *)
Definition is_size (text : string) (bytes : N) : Prop :=
  ∃ digits sep unit shift, text = (digits ++ sep ++ unit)%string ∧
    digits ≠ "" ∧ all_bytes is_digit digits = true ∧ (sep = "" ∨ sep = " ") ∧ shift_of unit = Some shift ∧
    bytes = (digits_value digits * 2 ^ shift)%N ∧ (bytes ≤ u64_max)%N.

Lemma shift_of_cases unit shift : shift_of unit = Some shift →
  (unit, shift) ∈ [("", 0%N); ("KiB", 10%N); ("MiB", 20%N); ("GiB", 30%N); ("TiB", 40%N)].
Proof.
  unfold shift_of.
  repeat (match goal with |- context [String.eqb unit ?u] => destruct (String.eqb_spec unit u) as [->|_] end;
    [intros [= <-]; set_solver|]). done.
Qed.

Lemma units_are_trimmed unit shift sep : shift_of unit = Some shift → sep = "" ∨ sep = " " →
  trim_start_matches " " (sep ++ unit)%string = unit ∧
  String.length (sep ++ unit) - String.length unit ≤ 1 ∧
  match (sep ++ unit)%string with "" => True | String c _ => is_digit c = false end.
Proof.
  intros Hu Hs. apply shift_of_cases in Hu.
  destruct Hs as [-> | ->]; repeat (apply elem_of_cons in Hu as [[= -> ->]|Hu]; [vm_compute; split_and!; done || lia|]);
    by apply elem_of_nil in Hu.
Qed.

(** [parse_size] accepts exactly the texts that are sizes, as the number of
    bytes they stand for, never wrapped around; and "unlimited". *)
Theorem sizes_are_exact (text : string) (bytes : option N) :
  parse_size text = Ok bytes ↔
    match bytes with Some n => is_size text n | None => text = "unlimited" end.
Proof.
  unfold parse_size. destruct (String.eqb_spec text "unlimited") as [->|Hne].
  { split; [by intros [= <-]|]. destruct bytes as [n|]; [|done].
    intros (digits & sep & unit & shift & Ht & Hd & Ha & _). destruct digits as [|c digits]; [done|].
    cbn in Ht. injection Ht as <- _. by cbn in Ha. }
  split.
  - pose proof (span_app is_digit text) as Hsp. pose proof (span_all is_digit text) as Hall.
    destruct (span is_digit text) as [number unit]. cbn in Hsp, Hall. intros Hp.
    destruct (shift_of _) as [shift|] eqn:Hu; [|done].
    destruct (trim_start_matches_spec " " unit) as (k & Hk & Hlen).
    rewrite (parse_u64_digits _ Hall) in Hp.
    destruct (parse_digits number) as [n|] eqn:Hn; [|done]. apply parse_digits_Some in Hn as (Hne' & _ & Hv & _).
    cbn in Hp. destruct (Nat.leb_spec (String.length unit - String.length (trim_start_matches " " unit)) 1); [|done].
    cbn in Hp. destruct (checked_mul n (N.shiftl 1 shift)) as [b|] eqn:Hb; [|done]. injection Hp as <-.
    apply checked_mul_Some in Hb as [-> Hb]. rewrite N.shiftl_1_l in *.
    exists number, (string_of_list_ascii (replicate k " "%char)), (trim_start_matches " " unit), shift.
    split_and!; [by rewrite <- Hk, Hsp|done|done| |done|by rewrite Hv|done].
    assert (k = 0 ∨ k = 1) as [-> | ->] by lia; auto.
  - destruct bytes as [n|]; [|done].
    intros (digits & sep & unit & shift & -> & Hd & Ha & Hs & Hu & -> & Hb).
    destruct (units_are_trimmed unit shift sep Hu Hs) as (Ht & Hsp & Hc).
    rewrite (span_at is_digit digits _ Ha Hc), Ht, Hu, (parse_u64_digits _ Ha).
    assert (digits_value digits ≤ u64_max)%N as Hle.
    { etrans; [|exact Hb]. rewrite <- (N.mul_1_r (digits_value digits)) at 1. apply N.mul_le_mono_l.
      pose proof (N.pow_nonzero 2 shift ltac:(done)). lia. }
    rewrite (proj2 (parse_digits_Some digits _) (conj Hd (conj Ha (conj eq_refl Hle)))). cbn.
    rewrite (proj2 (Nat.leb_le _ _) Hsp). cbn. rewrite N.shiftl_1_l.
    by rewrite (proj2 (checked_mul_Some _ _ _) (conj eq_refl Hb)).
Qed.

Lemma split_last_Some s l c : split_last s = Some (l, c) ↔ s = (l ++ String c "")%string.
Proof.
  revert l. induction s as [|c' s IH]; intros l.
  { split; [done|]. by destruct l. }
  cbn. destruct s as [|c'' s].
  - split; [by intros [= <- <-]|]. destruct l as [|? l]; [by intros [= ->]|]. by destruct l.
  - destruct (split_last (String c'' s)) as [[l' x]|] eqn:Hs.
    + destruct l as [|c1 l]; [split; [done|by intros [=]]|].
      change ((Some (String c' l', x) = Some (String c1 l, c)) ↔
        String c' (String c'' s) = String c1 (l ++ String c "")). split.
      * intros [= <- <- <-]. f_equal. by apply IH.
      * intros [= <- Hl]. apply IH in Hl. by injection Hl as -> ->.
    + split; [done|]. destruct l as [|c1 l]; [by intros [=]|]. intros [= <- Hl]. by apply IH in Hl.
Qed.

(** What a duration is: digits and a unit. *)
Definition is_duration (text : string) (secs : N) : Prop :=
  ∃ digits unit each, text = (digits ++ String unit "")%string ∧ digits ≠ "" ∧ all_bytes is_digit digits = true ∧
    secs_of unit = Some each ∧ secs = (digits_value digits * each)%N ∧ (secs ≤ u64_max)%N.

Theorem durations_are_exact (text : string) (secs : N) :
  parse_duration text = Some secs ↔ is_duration text secs.
Proof.
  unfold parse_duration, is_duration. split.
  - destruct (split_last text) as [[number unit]|] eqn:Hl; [|done]. apply split_last_Some in Hl. cbn.
    destruct (secs_of unit) as [each|] eqn:Hu; [|done]. cbn.
    destruct (String.eqb_spec number "") as [|Hne]; [done|]. destruct (all_bytes is_digit number) eqn:Ha; [|done]. cbn.
    rewrite (parse_u64_digits _ Ha). destruct (parse_digits number) as [n|] eqn:Hn; [|done]. cbn.
    apply parse_digits_Some in Hn as (_ & _ & <- & _). intros [-> Hb]%checked_mul_Some.
    by exists number, unit, each.
  - intros (digits & unit & each & -> & Hne & Ha & Hu & -> & Hb).
    rewrite (proj2 (split_last_Some _ digits unit) eq_refl). cbn. rewrite Hu. cbn.
    apply String.eqb_neq in Hne as Hne'. rewrite Hne', Ha. cbn.
    assert (1 ≤ each)%N as H1.
    { unfold secs_of in Hu. repeat (destruct (Ascii.eqb _ _); [injection Hu as <-; done|]). done. }
    assert (digits_value digits ≤ u64_max)%N as Hle.
    { etrans; [|exact Hb]. rewrite <- (N.mul_1_r (digits_value digits)) at 1. by apply N.mul_le_mono_l. }
    rewrite (parse_u64_digits _ Ha), (proj2 (parse_digits_Some digits _) (conj Hne (conj Ha (conj eq_refl Hle)))).
    by apply checked_mul_Some.
Qed.

(** ** What is loaded *)

Import Loading.

Lemma bind_ok {E A B} (x : outcome E A) (f : A → outcome E B) b : x ≫= f = Ok b → ∃ a, x = Ok a ∧ f a = Ok b.
Proof. destruct x as [a| | |]; intros H; [by exists a|done..]. Qed.

Lemma ok_or_ok {E A} (e : E) (x : option A) a : ok_or e x = Ok a → x = Some a.
Proof. destruct x; [by intros [= ->]|done]. Qed.

Lemma find_first {A} (p : A → bool) l x :
  List.find p l = Some x ↔ ∃ before after, l = before ++ x :: after ∧ p x = true ∧ Forall (λ y, p y = false) before.
Proof.
  induction l as [|y l IH]; cbn.
  { split; [done|]. intros (before & after & Hl & _). by destruct before. }
  destruct (p y) eqn:Hy.
  - split; [intros [= ->]; by exists [], l|]. intros (before & after & Hl & Hx & Hb).
    destruct before as [|z before]; [by injection Hl as ->|]. injection Hl as <- _.
    apply Forall_cons in Hb as [Hz _]. congruence.
  - rewrite IH. split; intros (before & after & Hl & Hx & Hb).
    + exists (y :: before), after. cbn. split_and!; [by rewrite Hl|done|by constructor].
    + destruct before as [|z before]; [injection Hl as -> _; congruence|]. injection Hl as -> Hl.
      apply Forall_cons in Hb as [_ Hb]. by exists before, after.
Qed.

Section loaded.
Context (from_toml : (SizeText → option (option N)) → (SizeText → option N) → string → option Config)
  (read : string → option string).

(** A configuration that is loaded is the text of the one file that was
    meant: the one named, or else the first that is there; its level is the
    environment's where that sets one; and it never has plain HTTP on an
    address that others can reach, unless a proxy is said to be in front. *)
Theorem a_loaded_configuration_is_safe (explicit : option string) (env : Environment) (c : Config) (path : string)
    (Hload : load from_toml read explicit env = Ok (c, path)) :
  is_file env path = true ∧
  match named explicit env with
  | Some (_, meant) => path = meant
  | None => ∃ before after, places env = before ++ path :: after ∧ Forall (λ p, is_file env p = false) before
  end ∧
  (∃ text written, read path = Some text ∧ from_toml size_or_unlimited size text = Some written ∧
    c = match set env LEVEL_VARIABLE ≫= LogLevel.parse with Some level => with_level level written | None => written end ∧
    (∀ level, set env LEVEL_VARIABLE = Some level → is_Some (LogLevel.parse level))) ∧
  (mode (listen c) = PlainMode → is_loopback (address (listen c)).1 = true ∨ behind_proxy (listen c) = true).
Proof.
  apply bind_ok in Hload as (path' & Hf & Hload). apply bind_ok in Hload as (text & Ht & Hload).
  apply bind_ok in Hload as (c' & Hp & Hload). injection Hload as -> ->. apply ok_or_ok in Ht.
  unfold parse in Hp. apply bind_ok in Hp as (written & Hw & Hp). apply ok_or_ok in Hw.
  apply bind_ok in Hp as (config & Hc & Hp). unfold find in Hf.
  assert (config = c) as -> by (destruct (_ && _); [done|by injection Hp as ->]).
  assert (is_file env path = true ∧ match named explicit env with
    | Some (_, meant) => path = meant
    | None => ∃ before after, places env = before ++ path :: after ∧ Forall (λ p, is_file env p = false) before
    end) as [Hfile Hnamed].
  { destruct (named explicit env) as [[by_ meant]|].
    - destruct (is_file env meant) eqn:Hm; [by injection Hf as ->|done].
    - destruct (List.find _ _) as [found|] eqn:Hfound; [|done]. injection Hf as ->.
      apply find_first in Hfound as (before & after & Hl & Hx & Hb). eauto. }
  split_and!; [done|done| |].
  - exists text, written. split_and!; [done|done| |].
    + destruct (set env LEVEL_VARIABLE) as [level|]; [|by injection Hc as <-]. cbn.
      apply bind_ok in Hc as (lv & Hlv & Hc). apply ok_or_ok in Hlv as ->. by injection Hc as <-.
    + intros level Hl. rewrite Hl in Hc. apply bind_ok in Hc as (lv & ->%ok_or_ok & _). by exists lv.
  - intros Hplain. rewrite bool_decide_true in Hp by done.
    destruct (is_loopback _); [by left|]. destruct (behind_proxy _); [by right|done].
Qed.
End loaded.

Module Sample.
Definition env : Environment := mkEnvironment
  (λ name, if String.eqb name "HOME" then Some "/home/ann" else if String.eqb name "PASSALONG_SERVER_LOG_LEVEL" then Some "debug" else None)
  (λ path, String.eqb path "/home/ann/.config/passalong-server/config.toml" || String.eqb path "/etc/passalong-server/config.toml").
(** A reader of files that hold one line, a quota. *)
Definition quota_only (_ : SizeText → option (option N)) (size : SizeText → option N) (text : string) : option Config :=
  quota ← size (SizeWritten text);
  Some (mkConfig default_server (mkListen (V4 2130706433, 8080%N) PlainMode false) None
    (mkLimitsSection None quota 10) (mkRewriting 600) (mkStaging 24)).
Definition path : string := "/home/ann/.config/passalong-server/config.toml".
Definition loaded : Config := mkConfig (mkServer Debugging "/var/lib/passalong-server")
  (mkListen (V4 2130706433, 8080%N) PlainMode false) None (mkLimitsSection None 21474836480 10) (mkRewriting 600) (mkStaging 24).
End Sample.

Example sizes :
  parse_size "20 GiB" = Ok (Some 21474836480%N) ∧ parse_size "7" = Ok (Some 7%N) ∧
  parse_size "18446744073709551615" = Ok (Some u64_max) ∧
  parse_size "16777216TiB" = Err (TooManyBytes "16777216TiB") ∧ parse_size "GiB" = Err (NoWholeNumber "GiB") ∧
  parse_size "1.5GiB" = Err (NotASize "1.5GiB").
Proof. vm_compute. auto 10. Qed.

Lemma a_loaded_configuration_is_safe_witness :
  load Sample.quota_only (λ _, Some "20 GiB") None Sample.env = Ok (Sample.loaded, Sample.path) ∧
  is_loopback (address (listen Sample.loaded)).1 = true.
Proof.
  assert (load Sample.quota_only (λ _, Some "20 GiB") None Sample.env = Ok (Sample.loaded, Sample.path)) as H
    by (vm_compute; reflexivity).
  split; [exact H|].
  destruct (a_loaded_configuration_is_safe Sample.quota_only (λ _, Some "20 GiB") None Sample.env _ _ H)
    as (_ & _ & _ & Hs).
  destruct (Hs eq_refl) as [Hl|Hb]; [exact Hl|discriminate Hb].
Defined.
