(* ===== verification/Plan.v ===== *)
(** What installing the service will do, as a list: [service/plan.rs] and
    [service/unit.rs] of [passalong-server-cli]. *)

From S2P Require Import Prelude Text Rate Config.

(** ** The files it writes ([unit.rs]) *)

Definition USER : string := "passalong-server".
Definition UNIT : string := "passalong-server.service".
Definition MARKER : string := "# Written by `passalong-server service install`.".

Definition TEMPLATE : string := "# systemd system unit for `passalong-server serve`.
# Written by `passalong-server service install`.
#
# That command writes this unit, creates the `passalong-server` user and its
# directories, enables the unit, and starts it; `service remove` takes the
# unit away again and nothing else. A test keeps the copy in the repository,
# docs/service/passalong-server.service, identical to what it writes.
# Logs:
#   journalctl -u passalong-server.service -f
# Commands run as the service's user, never as root:
#   sudo -u passalong-server passalong-server key list
#
# Unlike the client's unit this is a system unit: a server has no desktop
# session and must run before anyone logs in.

[Unit]
Description=passalong-server: clipboard and file sharing between your devices
Documentation=https://github.com/joelee/passalong-server
After=network-online.target
Wants=network-online.target

[Service]
Type=simple
ExecStart={{binary}} serve
User=passalong-server
Group=passalong-server
# /var/lib/passalong-server and /etc/passalong-server, owned and private.
StateDirectory=passalong-server
StateDirectoryMode=0700
ConfigurationDirectory=passalong-server
ConfigurationDirectoryMode=0700
Restart=on-failure
RestartSec=5
# `serve` lets requests in flight finish for up to 30 seconds.
TimeoutStopSec=45
# error, warning, info, verbose, or debug
Environment=PASSALONG_SERVER_LOG_LEVEL=info

# Hardening: the server needs the network and its state directory only.
NoNewPrivileges=true
ProtectSystem=strict
ProtectHome=true
PrivateTmp=true
PrivateDevices=true
ProtectKernelTunables=true
ProtectKernelModules=true
ProtectControlGroups=true
RestrictAddressFamilies=AF_INET AF_INET6 AF_UNIX
RestrictNamespaces=true
LockPersonality=true
MemoryDenyWriteExecute=true
SystemCallArchitectures=native
SystemCallFilter=@system-service
CapabilityBoundingSet=
# Listening below port 1024 would need: AmbientCapabilities=CAP_NET_BIND_SERVICE

[Install]
WantedBy=multi-user.target
".

Definition render_unit (binary : string) : string := replace "{{binary}}" binary TEMPLATE.
Definition render_sysusers (data_dir : string) : string :=
  "# The user `passalong-server serve` runs as." ++ newline ++ MARKER ++ newline ++
  "u " ++ USER ++ " - " ++ String "034" (USER ++ String "034" (" " ++ data_dir ++ " /usr/sbin/nologin" ++ newline)).

(** ** The plan ([plan.rs]) *)

Record Layout := mkLayout {
  binary : string;
  unit_file : string;
  sysusers_file : string;
  config_dir : string;
  layout_data_dir : string;
}.
Definition default_layout : Layout := mkLayout "/usr/local/bin/passalong-server"
  (join "/etc/systemd/system" UNIT) "/etc/sysusers.d/passalong-server.conf" "/etc/passalong-server"
  "/var/lib/passalong-server".
Definition config_file (l : Layout) : string := join (config_dir l) "config.toml".

Inductive Owner := Root | Service.

(** Modes are those of [chmod]. *)
Inductive Action :=
| InstallBinary (from to : string)
| MakeDir (path : string) (mode : N) (owner : Owner)
| WriteFile (path content : string) (mode : N) (owner : Owner)
| MakePair (cert_file key_file : string) (names : list string)
| RemoveFile (path : string)
| Run (program : string) (args : list string).

Inductive Existing := Absent | Same | Ours | Foreign.

(** [found] is the file's content, if there is a file. *)
Definition existing_of (found : option string) (wanted : string) : Existing :=
  match found with
  | None => Absent
  | Some found =>
      if String.eqb found wanted then Same
      else if existsb (String.eqb MARKER) (lines found) then Ours else Foreign
  end.

#[global] Instance Existing_eq_dec : EqDecision Existing.
Proof. solve_decision. Defined.

Record Found := mkFound {
  running : string;
  binary_installed : bool;
  found_unit : Existing;
  found_sysusers : Existing;
  config_exists : bool;
  found_tls : option (string * string);
  cert_exists : bool;
  key_exists : bool;
}.
Record Wanted := mkWanted { names : list string; initial_config : string }.

(** [not_started]: the pair that is missing, when the unit is not started. *)
Record Plan := mkPlan { actions : list Action; not_started : option (string * string) }.

(** Why nothing is planned. *)
Inductive InTheWay := IsForeign (path : string) | HalfAPair (cert_file key_file : string).

Definition dirs (l : Layout) : list Action :=
  map (λ path, MakeDir path 448 Service)
    [config_dir l; join (config_dir l) "tls"; layout_data_dir l; join (layout_data_dir l) "workspaces"].

Definition plan_install (l : Layout) (f : Found) (w : Wanted) : outcome InTheWay Plan :=
  if bool_decide (found_unit f = Foreign) then Err (IsForeign (unit_file l))
  else if bool_decide (found_sysusers f = Foreign) then Err (IsForeign (sysusers_file l))
  else match found_tls f with
    | Some (cert, key) => if Bool.eqb (cert_exists f) (key_exists f) then Ok () else Err (HalfAPair cert key)
    | None => Ok ()
    end ≫= λ _,
    let install := negb (String.eqb (running f) (binary l)) && negb (binary_installed f) in
    let pair_there := cert_exists f && key_exists f in
    let make_pair := match found_tls f, names w with Some _, _ :: _ => negb pair_there | _, _ => false end in
    let new_unit := negb (bool_decide (found_unit f = Same)) in
    let not_started := match found_tls f with
      | Some files => if pair_there || make_pair then None else Some files
      | None => None
      end in
    Ok (mkPlan
      ((if install then [InstallBinary (running f) (binary l)] else []) ++
       (if bool_decide (found_sysusers f = Same) then []
        else [WriteFile (sysusers_file l) (render_sysusers (layout_data_dir l)) 420 Root;
          Run "systemd-sysusers" [sysusers_file l]]) ++
       dirs l ++
       (if config_exists f then [] else [WriteFile (config_file l) (initial_config w) 384 Service]) ++
       match found_tls f with
       | Some (cert, key) => if make_pair then [MakePair cert key (names w)] else []
       | None => []
       end ++
       (if new_unit
        then [WriteFile (unit_file l) (render_unit (binary l)) 420 Root; Run "systemctl" ["daemon-reload"]] else []) ++
       Run "systemctl" ["enable"; UNIT] ::
       match not_started with
       | None => [Run "systemctl" [if install || new_unit then "restart" else "start"; UNIT]]
       | Some _ => []
       end)
      not_started).

(** The unit goes, and nothing else does. *)
Definition plan_remove (l : Layout) (unit : Existing) : outcome InTheWay (list Action) :=
  match unit with
  | Absent => Ok []
  | Foreign => Err (IsForeign (unit_file l))
  | Same | Ours => Ok [Run "systemctl" ["disable"; "--now"; UNIT]; RemoveFile (unit_file l);
      Run "systemctl" ["daemon-reload"]]
  end.

(** What is written is known again as the command's own. *)
Example what_is_written_is_ours :
  existsb (String.eqb MARKER) (lines (render_unit "/usr/local/bin/passalong-server")) = true ∧
  existsb (String.eqb MARKER) (lines (render_sysusers "/var/lib/passalong-server")) = true ∧
  existing_of (Some (render_unit "/opt/old")) (render_unit "/usr/local/bin/passalong-server") = Ours.
Proof. vm_compute. auto. Qed.
