(* ===== verification/Install.v ===== *)
(** Installing and removing the service: [service/mod.rs] of
    [passalong-server-cli], on a host as [service/system.rs] shows it. *)

From S2P Require Import Prelude Text Rate Config Plan.

(** ** The host *)

(** A user id and a group id. *)
Abbreviation Ids := (N * N)%type (only parsing).

(** The trait [System]: what is asked of a host, and what is done to it. *)
Class System (H : Type) := {
  is_root : H → bool;
  running_binary : H → outcome string string;
  sys_read : H → string → option string;
  sys_exists : H → string → bool;
  same_content : H → string → string → bool;
  user_ids : H → string → option Ids;
  make_dir : string → N → option Ids → M string H unit;
  write_file : string → string → N → option Ids → M string H unit;
  install_binary : string → string → M string H unit;
  remove_file : string → M string H unit;
  run : string → list string → M string H unit;
  sys_now : H → N;
}.

(** [str::parse::<u32>] *)
Definition parse_u32 (s : string) : option N := n ← parse_u64 s; if (n <=? 4294967295)%N then Some n else None.

(** The ids of [name] in the text of a [passwd] file. *)
Definition ids_of_line (name line : string) : option Ids :=
  match split ":" line with
  | first :: fields =>
      if negb (String.eqb first name) then None else
      uid ← fields !! 1 ≫= parse_u32;
      gid ← fields !! 2 ≫= parse_u32;
      Some (uid, gid)
  | [] => None
  end.
Definition ids_in (passwd name : string) : option Ids := head (omap (ids_of_line name) (lines passwd)).

Example ids_are_read_from_passwd :
  let passwd := ("root:x:0:0::/root:/bin/bash" ++ newline ++
    "passalong-server:x:987:985:passalong-server:/var/lib/passalong-server:/usr/sbin/nologin" ++ newline ++
    "broken:x:abc:1::/:/bin/sh" ++ newline)%string in
  ids_in passwd "passalong-server" = Some (987, 985)%N ∧ ids_in passwd "root" = Some (0, 0)%N ∧
  ids_in passwd "passalong" = None ∧ ids_in passwd "broken" = None.
Proof. vm_compute. auto. Qed.

(** [tls::self_signed]: the certificate and the key, for names at a time. *)
Class Pairs := {
  self_signed : list string → N → outcome string (string * string);
  pin_of_pem : string → outcome string string;
}.

(** Why a command stops. *)
Inductive Refusal :=
| NotRoot
| Planned (why : InTheWay)
| BadConfig (why : Loading.ConfigError)
| NoTlsSection (path : string)
| Said (message : string)
| NoUser.

(** An error of the host, told. *)
Definition saying {H A} (m : M string H A) : M Refusal H A := λ h, let '(x, h) := m h in (map_err Said x, h).
Definition saying_only {H A} (x : outcome string A) : M Refusal H A := lift (map_err Said x).

Inductive ServiceCommand := Install (host ip : list string) | Remove.

Section service.
Context {H : Type} `{Sys : System H} `{Tls : Pairs}.
Context (from_toml : (Loading.SizeText → option (option N)) → (Loading.SizeText → option N) → string → option Config).
Context (env : Loading.Environment) (SAMPLE : string).
#[local] Abbreviation Do := (M Refusal H) (only parsing).

Definition must_be_root : Do unit := λ h, if is_root h then (Ok (), h) else (Err NotRoot, h).

(** Where the pair is expected, if the configuration serves TLS itself. *)
Definition pair_of (text file : string) : outcome Refusal (option (string * string)) :=
  config ← map_err BadConfig (Loading.parse from_toml text file env);
  match mode (listen config), tls config with
  | TlsMode, Some t => Ok (Some (cert_file t, key_file t))
  | TlsMode, None => Err (NoTlsSection file)
  | PlainMode, _ => Ok None
  end.

Definition look (l : Layout) (w : Wanted) (h : H) : outcome Refusal Found :=
  let file := config_file l in
  let there := sys_read h file in
  tls ← pair_of (default (initial_config w) there) file;
  running ← map_err Said (running_binary h);
  Ok (mkFound running (same_content h running (binary l))
    (existing_of (sys_read h (unit_file l)) (render_unit (binary l)))
    (existing_of (sys_read h (sysusers_file l)) (render_sysusers (layout_data_dir l)))
    (bool_decide (is_Some there) || sys_exists h file) tls
    (from_option (λ files, sys_exists h files.1) false tls)
    (from_option (λ files, sys_exists h files.2) false tls)).

Definition ids (owner : Owner) : Do (option Ids) := λ h,
  match owner with
  | Root => (Ok (Some (0, 0)%N), h)
  | Service => match user_ids h USER with Some i => (Ok (Some i), h) | None => (Err NoUser, h) end
  end.

Definition perform (a : Action) : Do unit :=
  match a with
  | InstallBinary from to => saying (install_binary from to)
  | MakeDir path mode owner => who ← ids owner; saying (make_dir path mode who)
  | WriteFile path content mode owner => who ← ids owner; saying (write_file path content mode who)
  | MakePair cert_file key_file names => λ h,
      (files ← saying_only (self_signed names (sys_now h));
       saying_only (pin_of_pem files.1);;
       who ← ids Service;
       saying (write_file key_file files.2 384 who);;
       saying (write_file cert_file files.1 420 who)) h
  | RemoveFile path => saying (remove_file path)
  | Run program args => saying (run program args)
  end.

(** What was done is told with the error. *)
Fixpoint perform_all (done actions : list Action) : M (Refusal * list Action) H (list Action) :=
  match actions with
  | [] => mret done
  | a :: actions => λ h,
      match perform a h with
      | (Ok _, h) => perform_all (done ++ [a]) actions h
      | (Err e, h) => (Err (e, done), h)
      | (Killed, h) => (Killed, h)
      | (Spinning, h) => (Spinning, h)
      end
  end.

(** Before anything is done. *)
Definition before {A} (m : Do A) : M (Refusal * list Action) H A := λ h,
  let '(x, h) := m h in (map_err (λ e, (e, [])) x, h).

(** What was done, and the pair that is missing when the unit is not started. *)
Definition service (l : Layout) (command : ServiceCommand)
    : M (Refusal * list Action) H (list Action * option (string * string)) :=
  match command with
  | Install host ip =>
      before must_be_root;;
      let w := mkWanted (host ++ ip) (initial_file SAMPLE (layout_data_dir l) (config_dir l)) in
      found ← before (λ h, (look l w h, h));
      plan ← before (lift (map_err Planned (plan_install l found w)));
      done ← perform_all [] (actions plan);
      mret (done, not_started plan)
  | Remove =>
      before must_be_root;;
      todo ← before (λ h, (map_err Planned
        (plan_remove l (existing_of (sys_read h (unit_file l)) (render_unit (binary l)))), h));
      done ← perform_all [] todo;
      mret (done, None)
  end.
End service.
