(* ===== verification/Installed.v ===== *)
(** What installing the service leaves on a host: the laws of a host, the files
    a command may change, and that an install that ended is finished. *)

From S2P Require Import Prelude Text Rate Config Plan Install.

(** ** What a host is expected to do *)

(** A file is written aside, under this name, and then moved into place. *)
Definition beside (path : string) : string := (path ++ ".new")%string.

(** [file h p]: the bytes of the file at [p], if one is there; different paths
    are different files.  [theirs]: what the programs that are run keep for
    themselves, as the users of the host and the links of enabled units. *)
Class HostFiles (H : Type) := {
  file : H → string → option string;
  theirs : string → Prop;
}.

Section laws.
Context {H : Type} `{Sys : System H} `{Host : !HostFiles H}.

(** Nothing but the files at [paths] changed. *)
Definition touches (paths : list string) (h h' : H) : Prop :=
  (∀ q, q ∉ paths → ¬ theirs q →
    file h' q = file h q ∧ sys_read h' q = sys_read h q ∧ (sys_exists h q = true → sys_exists h' q = true)) ∧
  running_binary h' = running_binary h ∧ is_root h' = is_root h.

(** A call changes the files it is about and those beside them, whether it ends
    well or not; when it does, its file is as asked. *)
Class LawfulSystem := {
  read_file h p text : sys_read h p = Some text → file h p = Some text;
  exists_file h p : is_Some (file h p) → sys_exists h p = true;
  same_content_file h p q : same_content h p q = true ↔ ∃ b, file h p = Some b ∧ file h q = Some b;
  make_dir_law p mode who h : touches [] h (make_dir p mode who h).2;
  write_file_law p content mode who h : let '(x, h') := write_file p content mode who h in
    touches [p; beside p] h h' ∧ (x = Ok () → sys_read h' p = Some content);
  install_binary_law from to h : let '(x, h') := install_binary from to h in
    touches [to; beside to] h h' ∧ (x = Ok () → ∃ b, file h from = Some b ∧ file h' to = Some b);
  remove_file_law p h : let '(x, h') := remove_file p h in touches [p] h h' ∧ (x = Ok () → file h' p = None);
  run_law program args h : touches [] h (run program args h).2;
}.
End laws.
#[global] Arguments LawfulSystem H {Sys Host} : rename.

Section facts.
Context {H : Type} `{Law : LawfulSystem H} `{Tls : Pairs}.

(** [m] changes nothing but [paths], and ends well only as [Q] says. *)
Definition minds {A} (paths : list string) (m : M Refusal H A) (Q : H → A → H → Prop) : Prop :=
  ∀ h, let '(x, h') := m h in touches paths h h' ∧ ∀ a, x = Ok a → Q h a h'.

Lemma touches_refl paths h : touches paths h h.
Proof. by split. Qed.
Lemma touches_more paths paths' h h' : paths ⊆ paths' → touches paths h h' → touches paths' h h'.
Proof. intros Hs [Hf Hr]. split; [|done]. intros q Hq. apply Hf. set_solver. Qed.
Lemma touches_trans paths h1 h2 h3 : touches paths h1 h2 → touches paths h2 h3 → touches paths h1 h3.
Proof.
  intros [Hf1 [Hr1 Hs1]] [Hf2 [Hr2 Hs2]]. split; [|split; congruence]. intros q Hq Ht.
  destruct (Hf1 q Hq Ht) as (?&?&?), (Hf2 q Hq Ht) as (?&?&?). split_and!; [congruence..|auto].
Qed.

Lemma minds_more {A} paths paths' (m : M Refusal H A) Q : paths ⊆ paths' → minds paths m Q → minds paths' m Q.
Proof.
  intros Hs Hm h. specialize (Hm h). destruct (m h) as [x h']. destruct Hm as [Ht Hq].
  split; [by eapply touches_more|done].
Qed.
Lemma minds_saying {A} paths (m : M string H A) (Q : H → A → H → Prop) :
  (∀ h, let '(x, h') := m h in touches paths h h' ∧ ∀ a, x = Ok a → Q h a h') → minds paths (saying m) Q.
Proof.
  intros Hm h. specialize (Hm h). unfold saying. destruct (m h) as [x h']. destruct Hm as [Ht Hq].
  split; [done|]. destruct x; cbn; naive_solver.
Qed.
Lemma minds_bind {A B} paths paths' (m : M Refusal H A) (f : A → M Refusal H B) Q R :
  minds paths m Q → (∀ a, minds paths' (f a) R) →
  minds (paths ++ paths') (m ≫= f) (λ h b h', ∃ a h1, Q h a h1 ∧ touches paths' h1 h' ∧ R h1 b h').
Proof.
  intros Hm Hf h. specialize (Hm h). unfold mbind, M_bind. destruct (m h) as [[a|e| |] h1]; destruct Hm as [Ht Hq];
    [|by (split; [eapply touches_more; [|exact Ht]; set_solver|done])..].
  specialize (Hf a h1). destruct (f a h1) as [x h2]. destruct Hf as [Ht2 Hr].
  split; [|intros b ->; exists a, h1; auto]. eapply touches_trans; [|eapply touches_more; [|exact Ht2]; set_solver].
  eapply touches_more; [|exact Ht]. set_solver.
Qed.
Lemma minds_post {A} paths (m : M Refusal H A) Q R :
  minds paths m Q → (∀ h a h', Q h a h' → R h a h') → minds paths m R.
Proof. intros Hm HQR h. specialize (Hm h). destruct (m h) as [x h']. naive_solver. Qed.
Lemma minds_ids owner : minds [] (ids owner) (λ h _ h', h' = h).
Proof.
  intros h. unfold ids. destruct owner; [|destruct (user_ids h USER)]; (split; [apply touches_refl|by intros]).
Qed.
Lemma minds_lift {A} (x : outcome Refusal A) : minds [] (lift x) (λ h _ h', h' = h).
Proof. intros h. split; [apply touches_refl|by intros]. Qed.

(** The files an action is about. *)
Definition touched (a : Action) : list string :=
  match a with
  | InstallBinary _ to => [to; beside to]
  | WriteFile p _ _ _ => [p; beside p]
  | MakePair cert key _ => [cert; beside cert; key; beside key]
  | RemoveFile p => [p]
  | MakeDir _ _ _ | Run _ _ => []
  end.
Definition all_touched (l : list Action) : list string := l ≫= touched.

(** An action that ended well. *)
Definition done_by (a : Action) (h : H) (_ : unit) (h' : H) : Prop :=
  match a with
  | InstallBinary from to => ∃ b, file h from = Some b ∧ file h' to = Some b
  | WriteFile p content _ _ => sys_read h' p = Some content
  | MakePair cert key _ => key ≠ cert → key ≠ beside cert → ¬ theirs key →
      is_Some (sys_read h' cert) ∧ is_Some (sys_read h' key)
  | RemoveFile p => file h' p = None
  | MakeDir _ _ _ | Run _ _ => True
  end.

Lemma minds_write p content mode who :
  minds [p; beside p] (saying (write_file p content mode who)) (λ _ _ h', sys_read h' p = Some content).
Proof.
  apply minds_saying. intros h. pose proof (write_file_law p content mode who h) as Hl.
  destruct (write_file p content mode who h) as [x h']. destruct Hl as [Ht Hok]. split; [done|]. intros [] Hx. by apply Hok.
Qed.

(** A step that changes nothing, before one that does. *)
Lemma minds_after {A B} paths (m : M Refusal H A) (f : A → M Refusal H B) R :
  minds [] m (λ h _ h', h' = h) → (∀ a, minds paths (f a) R) → minds paths (m ≫= f) R.
Proof.
  intros Hm Hf h. specialize (Hm h). unfold mbind, M_bind. destruct (m h) as [[a|e| |] h1]; destruct Hm as [Ht Hq];
    [|by (split; [eapply touches_more; [apply list_subseteq_nil|exact Ht]|done])..].
  rewrite (Hq a eq_refl). apply Hf.
Qed.

Lemma minds_pair (now : H) cert key names :
  minds [cert; beside cert; key; beside key]
    (files ← saying_only (self_signed names (sys_now now));
     saying_only (pin_of_pem files.1);;
     who ← ids Service;
     saying (write_file key files.2 384 who);;
     saying (write_file cert files.1 420 who))
    (done_by (MakePair cert key names)).
Proof.
  apply minds_after; [apply minds_lift|]. intros files. apply minds_after; [apply minds_lift|]. intros _.
  apply minds_after; [apply minds_ids|]. intros who.
  apply (minds_more ([key; beside key] ++ [cert; beside cert])); [set_solver|].
  eapply minds_post; [apply minds_bind; [apply minds_write|intros _; apply minds_write]|].
  intros h [] h' (_ & h1 & Hkey & [Hf _] & Hcert) Hkc Hkb Hth. split; [by eexists|].
  destruct (Hf key ltac:(set_solver) Hth) as (_ & -> & _). by eexists.
Qed.

Lemma perform_minds a : minds (touched a) (perform a) (done_by a).
Proof.
  destruct a as [from to|path mode owner|path content mode owner|cert key names|path|program args]; cbn [perform touched done_by].
  - apply minds_saying. intros h. pose proof (install_binary_law from to h) as Hl.
    destruct (install_binary from to h) as [x h']. destruct Hl as [Ht Hok]. split; [done|]. intros [] Hx. by apply Hok.
  - apply minds_after; [apply minds_ids|]. intros who. apply minds_saying. intros h.
    pose proof (make_dir_law path mode who h) as Hl. by destruct (make_dir path mode who h).
  - apply minds_after; [apply minds_ids|]. intros who. apply minds_write.
  - intros h. apply (minds_pair h).
  - apply minds_saying. intros h. pose proof (remove_file_law path h) as Hl.
    destruct (remove_file path h) as [x h']. destruct Hl as [Ht Hok]. split; [done|]. intros [] Hx. by apply Hok.
  - apply minds_saying. intros h. pose proof (run_law program args h) as Hl. by destruct (run program args h).
Qed.

Lemma all_touched_app l1 l2 : all_touched (l1 ++ l2) = all_touched l1 ++ all_touched l2.
Proof. apply bind_app. Qed.

Lemma perform_all_touches l done h : touches (all_touched l) h (perform_all done l h).2.
Proof.
  revert done h. induction l as [|a l IH]; intros done h; [apply touches_refl|].
  assert (all_touched (a :: l) = touched a ++ all_touched l) as -> by done.
  cbn [perform_all]. pose proof (perform_minds a h) as Ha. destruct (perform a h) as [[[]|e| |] h1]; destruct Ha as [Ht _];
    [|eapply touches_more; [|exact Ht]; set_solver..].
  eapply touches_trans; [eapply touches_more; [|exact Ht]|eapply touches_more; [|apply IH]]; set_solver.
Qed.

(** What came before an action that ended well, and what came after. *)
Lemma perform_all_split l1 a l2 done h d h' :
  perform_all done (l1 ++ a :: l2) h = (Ok d, h') →
  ∃ h1 h2, touches (all_touched l1) h h1 ∧ done_by a h1 () h2 ∧ touches (all_touched l2) h2 h'.
Proof.
  revert done h. induction l1 as [|b l1 IH]; intros done h; cbn [perform_all app].
  - pose proof (perform_minds a h) as Ha. destruct (perform a h) as [[[]|e| |] h1]; [|done..]. destruct Ha as [_ Ha]. intros Hr.
    exists h, h1. split; [apply touches_refl|]. split; [by apply Ha|].
    pose proof (perform_all_touches l2 (done ++ [a]) h1) as Ht. by rewrite Hr in Ht.
  - pose proof (perform_minds b h) as Hb. destruct (perform b h) as [[[]|e| |] h0]; [|done..]. destruct Hb as [Ht _].
    intros (h1 & h2 & Hx & Hy & Hz)%IH. exists h1, h2. split_and!; [|done..].
    assert (all_touched (b :: l1) = touched b ++ all_touched l1) as -> by done.
    eapply touches_trans; eapply touches_more; [|exact Ht| |exact Hx]; set_solver.
Qed.

(** What an install may change, given what was found. *)
Inductive may_change (l : Layout) (f : Found) : string → Prop :=
| change_beside p : may_change l f (beside p)
| change_binary : may_change l f (binary l)
| change_sysusers : found_sysusers f = Absent ∨ found_sysusers f = Ours → may_change l f (sysusers_file l)
| change_unit : found_unit f = Absent ∨ found_unit f = Ours → may_change l f (unit_file l)
| change_config : config_exists f = false → may_change l f (config_file l)
| change_pair cert key : found_tls f = Some (cert, key) → cert_exists f = false → key_exists f = false →
    may_change l f cert
| change_pair_key cert key : found_tls f = Some (cert, key) → cert_exists f = false → key_exists f = false →
    may_change l f key.
#[local] Hint Constructors may_change : core.

Lemma dirs_touched l : all_touched (dirs l) = [].
Proof. done. Qed.

Lemma all_touched_if (b : bool) l : all_touched (if b then l else []) = if b then all_touched l else [].
Proof. by destruct b. Qed.

(** The parts of a plan. *)
Definition make_pair (f : Found) (w : Wanted) : bool :=
  match found_tls f, names w with Some _, _ :: _ => negb (cert_exists f && key_exists f) | _, _ => false end.
Definition new_binary (l : Layout) (f : Found) : bool := negb (String.eqb (running f) (binary l)) && negb (binary_installed f).
Definition write_sysusers (l : Layout) (f : Found) : list Action :=
  if bool_decide (found_sysusers f = Same) then []
  else [WriteFile (sysusers_file l) (render_sysusers (layout_data_dir l)) 420 Root; Run "systemd-sysusers" [sysusers_file l]].
Definition write_unit (l : Layout) (f : Found) : list Action :=
  if bool_decide (found_unit f = Same) then []
  else [WriteFile (unit_file l) (render_unit (binary l)) 420 Root; Run "systemctl" ["daemon-reload"]].
Definition write_pair (f : Found) (w : Wanted) : list Action :=
  match found_tls f with Some (cert, key) => if make_pair f w then [MakePair cert key (names w)] else [] | None => [] end.
Definition started (l : Layout) (f : Found) (missing : option (string * string)) : list Action :=
  Run "systemctl" ["enable"; UNIT] ::
  match missing with
  | None => [Run "systemctl" [if new_binary l f || negb (bool_decide (found_unit f = Same)) then "restart" else "start"; UNIT]]
  | Some _ => []
  end.
Definition missing_pair (f : Found) (w : Wanted) : option (string * string) :=
  match found_tls f with Some files => if (cert_exists f && key_exists f) || make_pair f w then None else Some files | None => None end.

Lemma plan_install_parts l f w p : plan_install l f w = Ok p →
  found_unit f ≠ Foreign ∧ found_sysusers f ≠ Foreign ∧ (is_Some (found_tls f) → cert_exists f = key_exists f) ∧
  p = mkPlan ((if new_binary l f then [InstallBinary (running f) (binary l)] else []) ++ write_sysusers l f ++ dirs l ++
    (if config_exists f then [] else [WriteFile (config_file l) (initial_config w) 384 Service]) ++ write_pair f w ++
    write_unit l f ++ started l f (missing_pair f w)) (missing_pair f w).
Proof.
  unfold plan_install, write_unit, started, write_sysusers, write_pair, missing_pair, make_pair, new_binary.
  case_bool_decide as Hu; [done|]. case_bool_decide as Hs; [done|].
  destruct (found_tls f) as [[cert key]|]; [destruct (Bool.eqb (cert_exists f) (key_exists f)) eqn:Heq; [|done]|];
    unfold mbind, outcome_bind, recast; intros [= <-].
  - apply Bool.eqb_prop in Heq. split_and!; [done..|]. f_equal. by destruct (bool_decide (found_unit f = Same)), (bool_decide (found_sysusers f = Same)).
  - split_and!; [done..|by intros []|]. f_equal. by destruct (bool_decide (found_unit f = Same)), (bool_decide (found_sysusers f = Same)).
Qed.

Lemma plan_install_may_change l f w p :
  plan_install l f w = Ok p → Forall (may_change l f) (all_touched (actions p)).
Proof.
  intros (Hu & Hs & Htls & ->)%plan_install_parts. cbn [actions]. rewrite !all_touched_app, dirs_touched, !Forall_app.
  assert (found_unit f ≠ Same → found_unit f = Absent ∨ found_unit f = Ours) by (destruct (found_unit f); naive_solver).
  assert (found_sysusers f ≠ Same → found_sysusers f = Absent ∨ found_sysusers f = Ours)
    by (destruct (found_sysusers f); naive_solver).
  split_and!.
  - destruct (new_binary l f); repeat constructor.
  - unfold write_sysusers. case_bool_decide; repeat apply Forall_cons_2; try apply Forall_nil_2; auto.
  - constructor.
  - destruct (config_exists f) eqn:Hc; repeat constructor; auto.
  - unfold write_pair. destruct (found_tls f) as [[cert key]|] eqn:Hf; [|constructor].
    specialize (Htls ltac:(by eexists)). unfold make_pair. rewrite Hf. destruct (names w); [constructor|].
    destruct (cert_exists f) eqn:Hc, (key_exists f) eqn:Hk; try done; repeat apply Forall_cons_2; try apply Forall_nil_2; eauto.
  - unfold write_unit. case_bool_decide; repeat apply Forall_cons_2; try apply Forall_nil_2; auto.
  - unfold started. destruct (missing_pair f w); constructor.
Qed.

Lemma render_unit_marked path : existsb (String.eqb MARKER) (lines (render_unit path)) = true.
Proof. vm_compute. reflexivity. Qed.

Lemma existing_marked found wanted : existing_of (Some found) wanted = Ours → existsb (String.eqb MARKER) (lines found) = true.
Proof. unfold existing_of. destruct (String.eqb found wanted); [done|]. by destruct (existsb _ _). Qed.

Lemma existing_same found wanted : existing_of found wanted = Same → found = Some wanted.
Proof.
  unfold existing_of. destruct found as [t|]; [|done]. destruct (String.eqb_spec t wanted) as [Heq|_]; [congruence|].
  by destruct (existsb _ _).
Qed.
Lemma existing_is_same wanted : existing_of (Some wanted) wanted = Same.
Proof. unfold existing_of. by rewrite String.eqb_refl. Qed.

(** A file no step is about is as it was. *)
Lemma performed_kept l h d h' q : perform_all [] l h = (Ok d, h') → q ∉ all_touched l → ¬ theirs q →
  file h' q = file h q ∧ sys_read h' q = sys_read h q ∧ (sys_exists h q = true → sys_exists h' q = true).
Proof. intros Hp Hq Ht. pose proof (perform_all_touches l [] h) as [Hf _]. rewrite Hp in Hf. by apply Hf. Qed.

Lemma performed_wrote l1 p c m o l2 h d h' : perform_all [] (l1 ++ WriteFile p c m o :: l2) h = (Ok d, h') →
  p ∉ all_touched l2 → ¬ theirs p → sys_read h' p = Some c.
Proof.
  intros (h1 & h2 & _ & Hw & [Hf _])%perform_all_split Hp Ht. destruct (Hf p Hp Ht) as (_ & -> & _). exact Hw.
Qed.

(** A file of the command's own: written when it was not the same. *)
Lemma performed_own l1 p c m o r l2 h d h' :
  perform_all [] (l1 ++ (if bool_decide (existing_of (sys_read h p) c = Same) then [] else [WriteFile p c m o; r]) ++ l2) h =
    (Ok d, h') →
  touched r = [] → p ∉ all_touched l1 → p ∉ all_touched l2 → ¬ theirs p → sys_read h' p = Some c.
Proof.
  case_bool_decide as He; intros Hp Hr H1 H2 Ht.
  - apply existing_same in He. rewrite <-He.
    eapply performed_kept; [exact Hp| |done]. cbn. rewrite all_touched_app. set_solver.
  - eapply performed_wrote; [exact Hp| |done].
    change (p ∉ touched r ++ all_touched l2). by rewrite Hr.
Qed.

(** The pair of files: made when it was not there. *)
Lemma performed_pair l1 cert key names l2 h d h' :
  perform_all [] (l1 ++ MakePair cert key names :: l2) h = (Ok d, h') →
  key ≠ cert → key ≠ beside cert → cert ∉ all_touched l2 → key ∉ all_touched l2 → ¬ theirs cert → ¬ theirs key →
  sys_exists h' cert = true ∧ sys_exists h' key = true.
Proof.
  intros (h1 & h2 & _ & Hw & [Hf _])%perform_all_split Hkc Hkb Hc Hk Htc Htk.
  destruct (Hw Hkc Hkb Htk) as [[c Hcert] [k Hkey]].
  split; apply exists_file; eexists; apply read_file; [rewrite <-Hcert|rewrite <-Hkey]; by apply Hf.
Qed.

(** The binary: the one that runs, byte for byte. *)
Lemma performed_binary from to l2 h d h' :
  perform_all [] ([InstallBinary from to] ++ l2) h = (Ok d, h') →
  from ≠ to → from ≠ beside to → from ∉ all_touched l2 → to ∉ all_touched l2 → ¬ theirs from → ¬ theirs to →
  same_content h' from to = true.
Proof.
  intros Hp Hne Hnb Hf2 Ht2 Hthf Htht. pose proof (perform_all_split [] _ _ _ _ _ _ Hp) as (h1 & h2 & [Hf1 _] & (b & Hb & Hto) & [Hf _]).
  apply same_content_file. exists b. destruct (Hf to Ht2 Htht) as [-> _]. split; [|done].
  destruct (performed_kept _ _ _ _ from Hp) as [-> _]; [|done|]; [|destruct (Hf1 from) as [<- _]; [set_solver|done|done]].
  change (from ∉ [to; beside to] ++ all_touched l2). set_solver.
Qed.

Section commands.
Context (from_toml : (Loading.SizeText → option (option N)) → (Loading.SizeText → option N) → string → option Config).
Context (env : Loading.Environment) (SAMPLE : string).
#[local] Abbreviation look := (look from_toml env) (only parsing).
#[local] Abbreviation service := (service from_toml env SAMPLE) (only parsing).

Lemma look_found l w h f : look l w h = Ok f →
  running_binary h = Ok (running f) ∧ binary_installed f = same_content h (running f) (binary l) ∧
  found_unit f = existing_of (sys_read h (unit_file l)) (render_unit (binary l)) ∧
  found_sysusers f = existing_of (sys_read h (sysusers_file l)) (render_sysusers (layout_data_dir l)) ∧
  config_exists f = bool_decide (is_Some (sys_read h (config_file l))) || sys_exists h (config_file l) ∧
  pair_of from_toml env (default (initial_config w) (sys_read h (config_file l))) (config_file l) = Ok (found_tls f) ∧
  cert_exists f = from_option (λ files, sys_exists h files.1) false (found_tls f) ∧
  key_exists f = from_option (λ files, sys_exists h files.2) false (found_tls f).
Proof.
  unfold Install.look. destruct (pair_of _ _ _ _) as [tls| | |] eqn:Hp; [|done..].
  destruct (running_binary h) as [r| | |] eqn:Hr; [|done..]. cbn. intros [= <-]. done.
Qed.

Lemma may_change_spares l w h f q text : look l w h = Ok f → sys_read h q = Some text →
  existsb (String.eqb MARKER) (lines text) = false → (∀ p, q ≠ beside p) → q ≠ binary l → ¬ may_change l f q.
Proof.
  intros (_ & _ & Hu & Hs & Hc & _ & Hcert & Hkey)%look_found Hq Hm Hb Hbin Hch.
  assert (sys_exists h q = true) as Hex by (apply exists_file; eexists; by apply read_file).
  destruct Hch as [p| |Hor|Hor|Hcf|cert key Htls Hce Hke|cert key Htls Hce Hke]; [by eapply Hb|done|..].
  - rewrite Hs, Hq in Hor. destruct Hor as [Ha|Ho]; [|apply existing_marked in Ho; congruence].
    unfold existing_of in Ha. by repeat case_match.
  - rewrite Hu, Hq in Hor. destruct Hor as [Ha|Ho]; [|apply existing_marked in Ho; congruence].
    unfold existing_of in Ha. by repeat case_match.
  - rewrite Hc, Hex, orb_true_r in Hcf. done.
  - rewrite Hcert, Htls in Hce. cbn in Hce. congruence.
  - rewrite Hkey, Htls in Hke. cbn in Hke. congruence.
Qed.

(** What a command does to a file that its plan is not about. *)
Lemma service_spares l command h q text : sys_read h q = Some text →
  existsb (String.eqb MARKER) (lines text) = false → (∀ p, q ≠ beside p) → q ≠ binary l →
  ∃ paths, touches paths h (service l command h).2 ∧ q ∉ paths.
Proof.
  intros Hq Hm Hb Hbin. destruct command as [host ip|]; cbn [Install.service]; unfold mbind, M_bind, before, must_be_root, lift.
  all: destruct (is_root h); cbn [map_err]; [|exists []; split; [apply touches_refl|set_solver]].
  - match goal with |- context [Install.look _ _ l ?w h] => destruct (look l w h) as [f| | |] eqn:Hl end; cbn [map_err];
      [|exists []; split; [apply touches_refl|set_solver]..].
    destruct (plan_install l f _) as [p| | |] eqn:Hp; cbn [map_err]; [|exists []; split; [apply touches_refl|set_solver]..].
    exists (all_touched (actions p)). split.
    + pose proof (perform_all_touches (actions p) [] h) as Ht. by destruct (perform_all [] (actions p) h) as [[| | |] h'].
    + apply plan_install_may_change in Hp. rewrite Forall_forall in Hp. intros Hin%Hp. by eapply may_change_spares.
  - destruct (plan_remove l _) as [todo| | |] eqn:Hp; cbn [map_err]; [|exists []; split; [apply touches_refl|set_solver]..].
    exists (all_touched todo). split.
    + pose proof (perform_all_touches todo [] h) as Ht. by destruct (perform_all [] todo h) as [[| | |] h'].
    + destruct (decide (q = unit_file l)) as [->|Hne].
      * rewrite Hq in Hp. unfold existing_of in Hp. destruct (String.eqb_spec text (render_unit (binary l))) as [->|_];
          [by rewrite render_unit_marked in Hm|]. by rewrite Hm in Hp.
      * unfold plan_remove in Hp. repeat case_match; simplify_eq; set_solver.
Qed.

(** C29: Installing and removing the service spare what is not the service's own.
    On any host that obeys the laws, and wherever a command fails, is refused or
    dies: a text file that does not carry the marker of `service install` still
    reads as it did, unless it is the installed binary or a file that was
    left beside one ([.new]); this holds for a unit, a configuration or a key that
    an operator put where the command would have written its own.  And whoever
    is not root changes nothing at all. *)
Theorem what_is_not_its_own_is_spared l command h :
  (∀ q text, sys_read h q = Some text → MARKER ∉ lines text → (∀ p, q ≠ beside p) → q ≠ binary l → ¬ theirs q →
    sys_read (service l command h).2 q = Some text) ∧
  (is_root h = false → service l command h = (Err (NotRoot, []), h)).
Proof.
  split.
  - intros q text Hq Hm Hb Hbin Hth.
    assert (existsb (String.eqb MARKER) (lines text) = false) as Hm'.
    { apply not_true_is_false. rewrite existsb_exists. intros (x & Hx & <-%String.eqb_eq). by apply Hm, list_elem_of_In. }
    destruct (service_spares l command h q text) as (paths & [Hf _] & Hin); [done..|].
    destruct (Hf q Hin Hth) as (_ & -> & _). done.
  - intros Hr. destruct command; cbn [Install.service]; unfold mbind, M_bind, before, must_be_root; by rewrite Hr.
Qed.

(** The paths of an install, and where the binary runs from: no two of them the
    same, none beside another, and none that other programs keep. *)
Definition paths_of (l : Layout) (tls : option (string * string)) : list string :=
  [binary l; sysusers_file l; config_file l] ++ from_option (λ files, [files.1; files.2]) [] tls ++ [unit_file l].
Definition own (path : string) : list string := [path; beside path].
Definition apart (l : Layout) (f : Found) : Prop :=
  NoDup (paths_of l (found_tls f) ≫= own) ∧
  (running f ≠ binary l → running f ∉ paths_of l (found_tls f) ≫= own) ∧
  ¬ theirs (running f) ∧ Forall (λ p, ¬ theirs p) (paths_of l (found_tls f)).

Lemma install_runs l host ip h done missing h' :
  service l (Install host ip) h = (Ok (done, missing), h') →
  let w := mkWanted (host ++ ip) (initial_file SAMPLE (layout_data_dir l) (config_dir l)) in
  ∃ f p, is_root h = true ∧ look l w h = Ok f ∧ plan_install l f w = Ok p ∧ not_started p = missing ∧
    perform_all [] (actions p) h = (Ok done, h').
Proof.
  cbn [Install.service]. unfold mbind, M_bind, before, must_be_root, lift, mret, M_ret.
  destruct (is_root h); [|done]. cbn [map_err].
  destruct (look l _ h) as [f| | |] eqn:Hl; [|done..]. cbn [map_err].
  destruct (plan_install l f _) as [p| | |] eqn:Hp; [|done..]. cbn [map_err].
  destruct (perform_all [] (actions p) h) as [[d| | |] h1] eqn:Hr; [|done..]. intros [= <- <- <-]. by exists f, p.
Qed.

(** Where there is nothing left to do. *)
Definition settled (l : Layout) (f : Found) : Prop :=
  (running f = binary l ∨ binary_installed f = true) ∧ found_unit f = Same ∧ found_sysusers f = Same ∧
  config_exists f = true ∧ (is_Some (found_tls f) → cert_exists f = true ∧ key_exists f = true).

Lemma settled_plan l f w : settled l f →
  plan_install l f w = Ok (mkPlan (dirs l ++ [Run "systemctl" ["enable"; UNIT]; Run "systemctl" ["start"; UNIT]]) None).
Proof.
  intros (Hb & Hu & Hs & Hc & Ht). unfold plan_install. rewrite Hu, Hs, Hc.
  assert (negb (String.eqb (running f) (binary l)) && negb (binary_installed f) = false) as ->.
  { destruct Hb as [->| ->]; [by rewrite String.eqb_refl|apply andb_false_r]. }
  destruct (found_tls f) as [[cert key]|]; [destruct Ht as [-> ->]; [by eexists|]|]; [|done].
  by destruct (names w).
Qed.

(** The parts of a plan are about different files. *)
Lemma parts_touch l f w :
  all_touched (if new_binary l f then [InstallBinary (running f) (binary l)] else []) ⊆ own (binary l) ∧
  all_touched (write_sysusers l f) ⊆ own (sysusers_file l) ∧
  all_touched (if config_exists f then [] else [WriteFile (config_file l) (initial_config w) 384 Service]) ⊆ own (config_file l) ∧
  all_touched (write_pair f w) ⊆ from_option (λ files, [files.1; files.2]) [] (found_tls f) ≫= own ∧
  all_touched (write_unit l f) ⊆ own (unit_file l) ∧
  all_touched (dirs l) ⊆ [] ∧ ∀ missing, all_touched (started l f missing) ⊆ [].
Proof.
  split_and!.
  - destruct (new_binary l f); unfold own; set_solver.
  - unfold write_sysusers. case_bool_decide; unfold own; set_solver.
  - destruct (config_exists f); unfold own; set_solver.
  - unfold write_pair. destruct (found_tls f) as [[cert key]|]; [|set_solver]. destruct (make_pair f w); unfold own; set_solver.
  - unfold write_unit. case_bool_decide; unfold own; set_solver.
  - by rewrite dirs_touched.
  - intros missing. unfold started. destruct missing; set_solver.
Qed.

Definition pair_area (f : Found) : list string := from_option (λ files, [files.1; files.2]) [] (found_tls f) ≫= own.
Lemma own_self p : p ∈ own p.
Proof. unfold own. set_solver. Qed.
#[local] Hint Resolve own_self : core.

Lemma apart_areas l f : apart l f →
  (own (binary l) ## own (sysusers_file l) ∧ own (binary l) ## own (config_file l) ∧ own (binary l) ## pair_area f ∧
   own (binary l) ## own (unit_file l)) ∧
  (own (sysusers_file l) ## own (config_file l) ∧ own (sysusers_file l) ## pair_area f ∧
   own (sysusers_file l) ## own (unit_file l)) ∧
  (own (config_file l) ## pair_area f ∧ own (config_file l) ## own (unit_file l)) ∧ pair_area f ## own (unit_file l) ∧
  NoDup (pair_area f).
Proof.
  intros [Hnd _]. unfold paths_of in Hnd. rewrite !bind_app in Hnd. fold (pair_area f) in Hnd.
  change ([unit_file l] ≫= own) with (own (unit_file l)) in Hnd.
  change ([binary l; sysusers_file l; config_file l] ≫= own)
    with (own (binary l) ++ own (sysusers_file l) ++ own (config_file l)) in Hnd.
  generalize dependent (own (binary l)). generalize dependent (own (sysusers_file l)). generalize dependent (own (config_file l)).
  generalize dependent (own (unit_file l)). generalize dependent (pair_area f). intros P U C S B Hnd.
  rewrite <-!app_assoc in Hnd. apply NoDup_app in Hnd as (_ & H1 & Hnd). apply NoDup_app in Hnd as (_ & H2 & Hnd).
  apply NoDup_app in Hnd as (_ & H3 & Hnd). apply NoDup_app in Hnd as (Hp & H4 & _).
  split_and!; [..|exact Hp]; intros x Hx Hy; first [apply H1 in Hx|apply H2 in Hx|apply H3 in Hx|apply H4 in Hx]; set_solver.
Qed.

Lemma apart_theirs l f p : apart l f → p ∈ paths_of l (found_tls f) → ¬ theirs p.
Proof. intros (_ & _ & _ & Ht) Hp. rewrite Forall_forall in Ht. by apply Ht. Qed.

(** What an install that started the unit leaves behind, file by file. *)
Section finished.
Context (l : Layout) (f : Found) (w : Wanted) (h h' : H) (d : list Action).
Context (Hl : look l w h = Ok f) (Heq : is_Some (found_tls f) → cert_exists f = key_exists f).
Context (Hns : missing_pair f w = None) (Hapart : apart l f).
#[local] Abbreviation P1 := (if new_binary l f then [InstallBinary (running f) (binary l)] else []) (only parsing).
#[local] Abbreviation P2 := (write_sysusers l f) (only parsing).
#[local] Abbreviation P3 := (dirs l) (only parsing).
#[local] Abbreviation P4 :=
  (if config_exists f then [] else [WriteFile (config_file l) (initial_config w) 384 Service]) (only parsing).
#[local] Abbreviation P5 := (write_pair f w) (only parsing).
#[local] Abbreviation P6 := (write_unit l f) (only parsing).
#[local] Abbreviation P7 := (started l f None) (only parsing).
Context (Hp : perform_all [] (P1 ++ P2 ++ P3 ++ P4 ++ P5 ++ P6 ++ P7) h = (Ok d, h')).

#[local] Ltac elsewhere :=
  rewrite ?all_touched_app, ?not_elem_of_app;
  destruct (parts_touch l f w) as (T1 & T2 & T3 & T4 & T5 & T6 & T7); specialize (T7 None); fold (pair_area f) in T4;
  destruct (apart_areas l f Hapart) as ((?&?&?&?) & (?&?&?) & (?&?) & ? & _);
  repeat split; let Hin := fresh in intros Hin;
  first [apply T1 in Hin|apply T2 in Hin|apply T3 in Hin|apply T4 in Hin|apply T5 in Hin|apply T6 in Hin|apply T7 in Hin];
  first [by apply not_elem_of_nil in Hin
    |match goal with D : ?A ## ?B |- _ => solve [eapply D; [apply own_self|exact Hin]|eapply D; [exact Hin|apply own_self]
      |eapply D; [|exact Hin]; eassumption|eapply D; [exact Hin|]; eassumption] end].
#[local] Ltac not_theirs := apply (apart_theirs l f); [exact Hapart|unfold paths_of; set_solver].

Lemma finished_unit : sys_read h' (unit_file l) = Some (render_unit (binary l)).
Proof using All.
  destruct (look_found _ _ _ _ Hl) as (_ & _ & Hunit & _).
  apply (performed_own (P1 ++ P2 ++ P3 ++ P4 ++ P5) (unit_file l) (render_unit (binary l)) 420 Root
    (Run "systemctl" ["daemon-reload"]) P7 h d h'); [|done|elsewhere|elsewhere|not_theirs].
  rewrite <-Hunit, <-!app_assoc. exact Hp.
Qed.
Lemma finished_sysusers : sys_read h' (sysusers_file l) = Some (render_sysusers (layout_data_dir l)).
Proof using All.
  destruct (look_found _ _ _ _ Hl) as (_ & _ & _ & Hsys & _).
  apply (performed_own P1 (sysusers_file l) (render_sysusers (layout_data_dir l)) 420 Root
    (Run "systemd-sysusers" [sysusers_file l]) (P3 ++ P4 ++ P5 ++ P6 ++ P7) h d h'); [|done|elsewhere|elsewhere|not_theirs].
  rewrite <-Hsys. exact Hp.
Qed.
Lemma finished_config :
  default (initial_config w) (sys_read h' (config_file l)) = default (initial_config w) (sys_read h (config_file l)) ∧
  bool_decide (is_Some (sys_read h' (config_file l))) || sys_exists h' (config_file l) = true.
Proof using All.
  destruct (look_found _ _ _ _ Hl) as (_ & _ & _ & _ & Hconf & _). destruct (config_exists f) eqn:Hc.
  - destruct (performed_kept _ _ _ _ (config_file l) Hp) as (_ & -> & Hex); [elsewhere|not_theirs|].
    split; [done|]. symmetry in Hconf. apply orb_true_iff in Hconf as [->|He]; [done|]. by rewrite (Hex He), orb_true_r.
  - assert (sys_read h' (config_file l) = Some (initial_config w)) as ->.
    { apply (performed_wrote (P1 ++ P2 ++ P3) _ _ 384 Service (P5 ++ P6 ++ P7) h d); [|elsewhere|not_theirs].
      rewrite <-!app_assoc. exact Hp. }
    split; [|done]. symmetry in Hconf. apply orb_false_iff in Hconf as [Hr _]. apply bool_decide_eq_false in Hr.
    by destruct (sys_read h (config_file l)) eqn:Hread; [destruct Hr; eexists|].
Qed.

Lemma finished_pair cert key : found_tls f = Some (cert, key) → sys_exists h' cert = true ∧ sys_exists h' key = true.
Proof using All.
  intros Htls. destruct (look_found _ _ _ _ Hl) as (_ & _ & _ & _ & _ & _ & Hcert & Hkey).
  assert (cert ∈ pair_area f ∧ key ∈ pair_area f ∧ ¬ theirs cert ∧ ¬ theirs key) as (Hca & Hka & Htc & Htk).
  { unfold pair_area. rewrite Htls. cbn. split_and!; [set_solver|set_solver|..]; apply (apart_theirs l f _ Hapart);
      unfold paths_of; rewrite Htls; set_solver. }
  rewrite Htls in Hcert, Hkey. cbn in Hcert, Hkey. unfold missing_pair in Hns. unfold write_pair in Hp. rewrite Htls in Hns, Hp.
  destruct (make_pair f w) eqn:Hmake.
  - assert (NoDup (pair_area f)) as Hnd by (by destruct (apart_areas l f Hapart) as (_ & _ & _ & _ & ?)). unfold pair_area in Hnd. rewrite Htls in Hnd. cbn in Hnd.
    rewrite !NoDup_cons in Hnd. destruct Hnd as (N1 & N2 & _).
    apply (performed_pair (P1 ++ P2 ++ P3 ++ P4) cert key (names w) (P6 ++ P7) h d); [|set_solver|set_solver|elsewhere|elsewhere|done..].
    rewrite <-!app_assoc. exact Hp.
  - rewrite orb_false_r in Hns. destruct (cert_exists f && key_exists f) eqn:Hboth; [|done].
    apply andb_true_iff in Hboth as [Hc Hk]. rewrite Hcert in Hc. rewrite Hkey in Hk.
    split; eapply (performed_kept _ _ _ _ _ Hp); try done; rewrite ?all_touched_app, ?not_elem_of_app; cbn [all_touched mbind list_bind];
      split_and!; try (apply not_elem_of_nil); elsewhere.
Qed.

Lemma parts_in_paths : all_touched (P2 ++ P3 ++ P4 ++ P5 ++ P6 ++ P7) ⊆ paths_of l (found_tls f) ≫= own.
Proof using All.
  clear Hp Hl Heq Hns Hapart. destruct (parts_touch l f w) as (_ & T2 & T3 & T4 & T5 & T6 & T7). specialize (T7 None).
  unfold paths_of. rewrite !bind_app, !all_touched_app. cbn [mbind list_bind].
  generalize dependent (own (binary l)). generalize dependent (own (sysusers_file l)). generalize dependent (own (config_file l)).
  generalize dependent (own (unit_file l)). set_solver.
Qed.

Lemma finished_binary : running f = binary l ∨ same_content h' (running f) (binary l) = true.
Proof using All.
  destruct (decide (running f = binary l)) as [|Hne]; [by left|right].
  destruct (look_found _ _ _ _ Hl) as (_ & Hbin & _). destruct Hapart as (_ & Hrun & Hthr & Hth).
  assert (running f ∉ paths_of l (found_tls f) ≫= own) as Hout by auto.
  assert (running f ∉ all_touched (P2 ++ P3 ++ P4 ++ P5 ++ P6 ++ P7)) as Hrest by (intros Hin%parts_in_paths; done).
  assert (binary l ∉ all_touched (P2 ++ P3 ++ P4 ++ P5 ++ P6 ++ P7)) as Hbrest by elsewhere.
  assert (¬ theirs (binary l)) as Hthb by not_theirs.
  unfold new_binary in Hp. destruct (String.eqb_spec (running f) (binary l)) as [|_]; [done|].
  destruct (binary_installed f) eqn:Hi; cbn [negb andb] in Hp.
  - symmetry in Hbin. apply same_content_file in Hbin as (b & Hb1 & Hb2). apply same_content_file. exists b.
    destruct (performed_kept _ _ _ _ (running f) Hp) as [-> _]; [done..|].
    by destruct (performed_kept _ _ _ _ (binary l) Hp) as [-> _].
  - assert (running f ≠ beside (binary l)) by (intros Heqb; apply Hout; rewrite Heqb; unfold paths_of; set_solver).
    by eapply performed_binary.
Qed.

Lemma finished_settled (w' : Wanted) : initial_config w' = initial_config w → ∃ f', look l w' h' = Ok f' ∧ settled l f'.
Proof using All.
  intros Hw. destruct (look_found _ _ _ _ Hl) as (Hrun & _ & _ & _ & _ & Hpair & _).
  assert (running_binary h' = Ok (running f)) as Hrun'.
  { pose proof (perform_all_touches (P1 ++ P2 ++ P3 ++ P4 ++ P5 ++ P6 ++ P7) [] h) as (_ & Hr & _). rewrite Hp in Hr. by rewrite <-Hrun. }
  destruct finished_config as [Htext Hthere]. rewrite <-Htext in Hpair. rewrite <-Hw in Hpair.
  eexists. split.
  - unfold Install.look. rewrite Hpair, Hrun'. reflexivity.
  - unfold settled. cbn [running binary_installed found_unit found_sysusers config_exists found_tls cert_exists key_exists].
    rewrite finished_unit, finished_sysusers, !existing_is_same. split_and!; [apply finished_binary|done..|].
    intros [[cert key] Htls]. rewrite Htls. exact (finished_pair cert key Htls).
Qed.
End finished.

(** An install that ended is finished.  When [service install] has ended well
    and started the unit, its files are in place: the unit and the user's
    file as they are rendered, the binary that ran, both files of a configured
    pair.  And to run it again, with whatever names, comes to setting the
    directories' modes, enabling the unit and starting it: nothing is
    written, no key is made anew, and the unit that runs is not restarted. *)
Theorem an_install_that_ended_is_finished l host ip h done h' f :
  service l (Install host ip) h = (Ok (done, None), h') →
  look l (mkWanted (host ++ ip) (initial_file SAMPLE (layout_data_dir l) (config_dir l))) h = Ok f → apart l f →
  (sys_read h' (unit_file l) = Some (render_unit (binary l)) ∧
   sys_read h' (sysusers_file l) = Some (render_sysusers (layout_data_dir l)) ∧
   (running f = binary l ∨ same_content h' (running f) (binary l) = true) ∧
   (∀ cert key, found_tls f = Some (cert, key) → sys_exists h' cert = true ∧ sys_exists h' key = true)) ∧
  (∀ host' ip', service l (Install host' ip') h' =
    (done ← perform_all [] (dirs l ++ [Run "systemctl" ["enable"; UNIT]; Run "systemctl" ["start"; UNIT]]); mret (done, None)) h').
Proof.
  intros (f' & p & Hroot & Hl & Hplan & Hns & Hp)%install_runs Hl' Hapart. rewrite Hl' in Hl. injection Hl as <-.
  destruct (plan_install_parts _ _ _ _ Hplan) as (_ & _ & Heq & ->). cbn [actions not_started] in Hp, Hns. rewrite Hns in Hp.
  split; [split_and!; eauto using finished_unit, finished_sysusers, finished_binary, finished_pair|].
  intros host' ip'. destruct (finished_settled _ _ _ _ _ _ Hl' Heq Hns Hapart Hp
    (mkWanted (host' ++ ip') (initial_file SAMPLE (layout_data_dir l) (config_dir l))) eq_refl) as (f' & Hl1 & Hsettled).
  match type of Hp with perform_all _ ?acts _ = _ =>
    pose proof (perform_all_touches acts [] h) as (_ & _ & Hr); rewrite Hp in Hr end.
  cbn [Install.service]. unfold mbind, M_bind, before, must_be_root, lift. cbn [snd] in Hr. rewrite Hr, Hroot. cbn [map_err].
  rewrite Hl1. cbn [map_err]. rewrite (settled_plan l f' _ Hsettled). done.
Qed.
End commands.
End facts.
