(* ===== verification/ServiceDemo.v ===== *)
(** A host in memory, as the one of the tests of [service/mod.rs], and what an
    install does on it: the witnesses of Installed, and what a second run
    does not make good. *)

From stdpp Require Import strings gmap.
From S2P Require Import Prelude Text Ids Rate Config Plan Install Installed.

(** A file is text or not; [broken] holds what fails, programs and files. *)
Record Fake := mkFake {
  root : bool;
  files : gmap string (bool * string);
  users : bool;
  broken : list string;
  asked : list string;
}.

Definition shown (program : string) (args : list string) : string := String.concat " " (program :: args).
Definition fails (h : Fake) (what : string) : bool := existsb (String.eqb what) (broken h).
Definition with_files (h : Fake) (fs : gmap string (bool * string)) (what : string) : Fake :=
  mkFake (root h) fs (users h) (broken h) (asked h ++ [what]).
Definition put (p : string) (content : bool * string) (what : string) : M string Fake unit := λ h,
  if fails h p then (Err p, with_files h (delete (beside p) (files h)) what)
  else (Ok (), with_files h (<[p := content]> (delete (beside p) (files h))) what).
Definition me : string := "/home/me/passalong-server".

#[global] Instance fake_system : System Fake := {
  is_root := root;
  running_binary _ := Ok me;
  sys_read h p := match files h !! p with Some (true, text) => Some text | _ => None end;
  sys_exists h p := bool_decide (is_Some (files h !! p));
  same_content h p q := match files h !! p, files h !! q with
    | Some (_, one), Some (_, other) => String.eqb one other | _, _ => false end;
  user_ids h name := if users h && String.eqb name USER then Some (987, 985)%N else None;
  make_dir p _ _ h := (Ok (), with_files h (files h) ("dir " ++ p)%string);
  write_file p content _ _ := put p (true, content) ("write " ++ p)%string;
  install_binary from to h := match files h !! from with
    | Some bytes => put to bytes ("binary " ++ to)%string h
    | None => (Err from, h)
    end;
  remove_file p h := (Ok (), with_files h (delete p (files h)) ("remove " ++ p)%string);
  run program args h :=
    if fails h (shown program args) then (Err (shown program args), h)
    else (Ok (), mkFake (root h) (files h) (users h || String.eqb program "systemd-sysusers") (broken h)
      (asked h ++ [shown program args]));
  sys_now _ := 1800000000%N;
}.
#[global] Instance fake_files : HostFiles Fake := {
  file h p := snd <$> files h !! p;
  theirs _ := False;
}.

Lemma fake_touches (paths : list string) (h h' : Fake) :
  (∀ q, q ∉ paths → files h' !! q = files h !! q) → root h' = root h → touches paths h h'.
Proof.
  intros Hf Hr. split; [|done]. intros q Hq _. cbn. rewrite (Hf q Hq). split_and!; [done|done|auto].
Qed.
Lemma put_spec p content what h : let '(x, h') := put p content what h in
  touches [p; beside p] h h' ∧ (x = Ok () → files h' !! p = Some content).
Proof.
  unfold put. destruct (fails h p).
  - split; [|done]. apply fake_touches; [|done]. intros q Hq. cbn. rewrite lookup_delete_ne; [done|set_solver].
  - split; [|intros _; apply lookup_insert_eq]. apply fake_touches; [|done]. intros q Hq. cbn.
    rewrite lookup_insert_ne; [|set_solver]. rewrite lookup_delete_ne; [done|set_solver].
Qed.

#[global] Instance fake_lawful : LawfulSystem Fake.
Proof.
  split.
  - intros h p text. cbn. destruct (files h !! p) as [[[] t]|]; cbn; congruence.
  - intros h p. cbn. intros [? Hx]. case_bool_decide as Hn; [done|]. destruct Hn. destruct (files h !! p); [by eexists|done].
  - intros h p q. cbn. destruct (files h !! p) as [[b1 t1]|]; [|by split; [|intros (?&?&?)]].
    destruct (files h !! q) as [[b2 t2]|]; [|by split; [|intros (?&?&?)]]. cbn. rewrite String.eqb_eq. naive_solver.
  - intros p mode who h. by apply fake_touches.
  - intros p content mode who h. pose proof (put_spec p (true, content) ("write " ++ p) h) as Hs. cbn.
    destruct (put p (true, content) _ h) as [x h']. destruct Hs as [Ht Hx]. split; [done|]. intros Hok. by rewrite (Hx Hok).
  - intros from to h. cbn. destruct (files h !! from) as [bytes|] eqn:Hf; cbn; [|by split; [apply fake_touches|]].
    pose proof (put_spec to bytes ("binary " ++ to) h) as Hs.
    destruct (put to bytes _ h) as [x h']. destruct Hs as [Ht Hx]. split; [done|]. intros Hok. rewrite (Hx Hok). by eexists.
  - intros p h. cbn. split; [|by rewrite lookup_delete_eq]. apply fake_touches; [|done]. intros q Hq. cbn.
    rewrite lookup_delete_ne; [done|set_solver].
  - intros program args h. cbn. destruct (fails h _); by apply fake_touches.
Qed.

#[global] Instance fake_pairs : Pairs := {
  self_signed names _ := Ok (("certificate of " ++ String.concat "," names)%string, "key");
  pin_of_pem _ := Ok "pin";
}.

(** ** A run on an empty host, and one after it *)

Module Sample.
Definition SAMPLE : string :=
  ("data_dir = " ++ newline ++ "cert_file = " ++ newline ++ "key_file = " ++ newline)%string.
Definition first_file : string := initial_file SAMPLE "/var/lib/passalong-server" "/etc/passalong-server".
Definition pair : string * string := ("/etc/passalong-server/tls/cert.pem", "/etc/passalong-server/tls/key.pem").
Definition config (listening : ListenMode) (tls : option Tls) : Config :=
  mkConfig (mkServer Info "/var/lib/passalong-server") (mkListen (V4 2130706433, 8080%N) listening false) tls
    (mkLimitsSection None 1000 10) (mkRewriting 600) (mkStaging 24).
(** A reader of two files: the first one, and one of an operator. *)
Definition reader (_ : Loading.SizeText → option (option N)) (_ : Loading.SizeText → option N) (text : string) : option Config :=
  if String.eqb text first_file then Some (config TlsMode (Some (mkTls pair.1 pair.2)))
  else if String.eqb text "plain" then Some (config PlainMode None) else None.
Definition env : Loading.Environment := Loading.mkEnvironment (λ _, None) (λ _, false).
Definition empty : Fake := mkFake true {[me := (false, "ELF")]} false [] [].
Definition serve_it : ServiceCommand := Install ["nas.example"] ["192.0.2.4"].
Definition run_it (command : ServiceCommand) (h : Fake) := service reader env SAMPLE default_layout command h.
Definition breaking (what : list string) (h : Fake) : Fake := mkFake (root h) (files h) (users h) what [].
End Sample.
Import Sample.

Example an_empty_host_is_set_up :
  asked (run_it serve_it empty).2 =
    ["binary /usr/local/bin/passalong-server"; "write /etc/sysusers.d/passalong-server.conf";
     "systemd-sysusers /etc/sysusers.d/passalong-server.conf"; "dir /etc/passalong-server"; "dir /etc/passalong-server/tls";
     "dir /var/lib/passalong-server"; "dir /var/lib/passalong-server/workspaces"; "write /etc/passalong-server/config.toml";
     "write /etc/passalong-server/tls/key.pem"; "write /etc/passalong-server/tls/cert.pem";
     "write /etc/systemd/system/passalong-server.service"; "systemctl daemon-reload";
     "systemctl enable passalong-server.service"; "systemctl restart passalong-server.service"].
Proof. vm_compute. reflexivity. Qed.

(** ** The witnesses *)

Definition found_first : Found :=
  mkFound me false Absent Absent false (Some pair) false false.
Definition done_first : list Action :=
  [InstallBinary me "/usr/local/bin/passalong-server";
   WriteFile (sysusers_file default_layout) (render_sysusers "/var/lib/passalong-server") 420 Root;
   Run "systemd-sysusers" [sysusers_file default_layout]] ++ dirs default_layout ++
  [WriteFile "/etc/passalong-server/config.toml" first_file 384 Service;
   MakePair pair.1 pair.2 ["nas.example"; "192.0.2.4"];
   WriteFile (unit_file default_layout) (render_unit "/usr/local/bin/passalong-server") 420 Root;
   Run "systemctl" ["daemon-reload"]; Run "systemctl" ["enable"; UNIT]; Run "systemctl" ["restart"; UNIT]].
Definition installed : Fake := (run_it serve_it empty).2.

Lemma what_is_not_its_own_is_spared_witness :
  let h := with_files empty (<["/etc/passalong-server/config.toml" := (true, "plain")]> (files empty)) "" in
  sys_read (run_it serve_it h).2 "/etc/passalong-server/config.toml" = Some "plain" ∧
  sys_read (run_it serve_it h).2 (unit_file default_layout) = Some (render_unit "/usr/local/bin/passalong-server").
Proof.
  cbv zeta. split; [|vm_compute; reflexivity].
  apply (proj1 (what_is_not_its_own_is_spared reader env SAMPLE default_layout serve_it _)).
  - vm_compute. reflexivity.
  - apply (bool_decide_eq_true_1 _). vm_compute. reflexivity.
  - intros p Hp. apply (f_equal str_rev) in Hp. unfold beside in Hp.
    assert (∀ a b, str_rev (a ++ b)%string = (str_rev b ++ str_rev a)%string) as Hrev by apply str_rev_app.
    rewrite Hrev in Hp. vm_compute in Hp. discriminate Hp.
  - intros Hq. vm_compute in Hq. discriminate Hq.
  - intros [].
Defined.

Lemma an_install_that_ended_is_finished_witness :
  sys_read installed (unit_file default_layout) = Some (render_unit "/usr/local/bin/passalong-server") ∧
  run_it (Install ["other.example"] []) installed =
    (done ← perform_all [] (dirs default_layout ++ [Run "systemctl" ["enable"; UNIT]; Run "systemctl" ["start"; UNIT]]);
     mret (done, None)) installed.
Proof.
  assert (run_it serve_it empty = (Ok (done_first, None), installed)) as Hrun by (vm_compute; reflexivity).
  assert (look reader env default_layout (mkWanted ["nas.example"; "192.0.2.4"] first_file) empty = Ok found_first) as Hlook
    by (vm_compute; reflexivity).
  destruct (an_install_that_ended_is_finished reader env SAMPLE default_layout ["nas.example"] ["192.0.2.4"] empty done_first installed
    found_first Hrun Hlook) as [[Hu _] Hagain].
  - split; [apply (bool_decide_eq_true_1 _); vm_compute; reflexivity|].
    split; [intros _; apply (bool_decide_eq_true_1 _); vm_compute; reflexivity|].
    split; [intros []|]. apply Forall_forall. intros p _ [].
  - split; [exact Hu|]. exact (Hagain ["other.example"] []).
Defined.

(** ** What a second run does not make good *)

(** [systemd-sysusers] failed once: it is never asked again, and there is
    no user. *)
Example no_user_for_ever :
  let first := run_it serve_it (breaking ["systemd-sysusers /etc/sysusers.d/passalong-server.conf"] empty) in
  let second := run_it serve_it (breaking [] first.2) in
  first.1 = Err (Said "systemd-sysusers /etc/sysusers.d/passalong-server.conf",
    [InstallBinary me "/usr/local/bin/passalong-server";
     WriteFile (sysusers_file default_layout) (render_sysusers "/var/lib/passalong-server") 420 Root]) ∧
  second.1 = Err (NoUser, []) ∧ (run_it serve_it second.2).1 = Err (NoUser, []).
Proof. vm_compute. auto. Qed.

(** A new binary was installed, and the run ended before its end: the service
    that runs is not restarted by the next run, which ends well. *)
Example an_old_binary_runs_on :
  let h := with_files installed (<[me := (false, "ELF 2")]> (files installed)) "" in
  let first := run_it serve_it (breaking ["systemctl enable passalong-server.service"] h) in
  let second := run_it serve_it (breaking [] first.2) in
  bool_decide ("binary /usr/local/bin/passalong-server" ∈ asked first.2) = true ∧
  bool_decide ("systemctl restart passalong-server.service" ∈ asked first.2 ++ asked second.2) = false ∧
  match second.1 with Ok (_, None) => true | _ => false end = true.
Proof. vm_compute. auto. Qed.

(** The key was written and the certificate was not: the next run refuses. *)
Example half_a_pair_stops_the_next_run :
  let first := run_it serve_it (breaking [pair.1] empty) in
  (run_it serve_it (breaking [] first.2)).1 = Err (Planned (HalfAPair pair.1 pair.2), []).
Proof. vm_compute. reflexivity. Qed.

(** A unit that is not text is taken for none and written over. *)
Example a_unit_that_is_not_text_is_written_over :
  let h := with_files empty (<[unit_file default_layout := (false, "ExecStart=caf\xe9")]> (files empty)) "" in
  file (run_it serve_it h).2 (unit_file default_layout) = Some (render_unit "/usr/local/bin/passalong-server").
Proof. vm_compute. reflexivity. Qed.

(** What an operator left aside, under the name of a file with [.new], is gone. *)
Example what_is_left_aside_is_gone :
  let aside := beside (unit_file default_layout) in
  let h := with_files empty (<[aside := (true, "mine")]> (files empty)) "" in
  file (run_it serve_it h).2 aside = None.
Proof. vm_compute. reflexivity. Qed.
