(* ===== verification/Bridge.v ===== *)
(** Between HTTP bodies and the core ([passalong-server-api/src/bridge.rs]):
    content that arrives and leaves in bounded pieces, and the range a request
    asks for. *)

From stdpp Require Import pretty.
From S2P Require Import Prelude Text Errors Ids Shelf.

Definition PIECE : nat := 64 * 1024.
Definition DEPTH : nat := 8.

(** ** What is held *)

Record BridgeStats := mkStats { held : N; peak : N }.
Definition no_stats : BridgeStats := mkStats 0 0.

Definition took (bytes : N) (s : BridgeStats) : BridgeStats :=
  let now := wadd (held s) bytes in mkStats now (N.max (peak s) now).
Definition gave (bytes : N) (s : BridgeStats) : BridgeStats := mkStats (wsub (held s) bytes) (peak s).

(** [Result<Bytes, std::io::Error>] *)
Inductive Piece := Bytes (bytes : list byte) | Failure.

(** ** The channel

    [tokio::sync::mpsc], bounded by [DEPTH]: [try_send] is [None] while it is
    full, when a sender waits; [recv] is [None] while it is empty. *)
Class Channel (Ch : Type) := {
  channel : Ch;
  try_send : Piece → Ch → option Ch;
  recv : Ch → option (Piece * Ch);
}.

(** First in, first out, and never more than [DEPTH]. *)
Class LawfulChannel (Ch : Type) `{Channel Ch} := {
  queued : Ch → list Piece;
  channel_law : queued channel = [];
  send_law p c :
    match try_send p c with
    | Some c' => length (queued c) < DEPTH ∧ queued c' = queued c ++ [p]
    | None => DEPTH ≤ length (queued c)
    end;
  recv_law c :
    match recv c with
    | Some (p, c') => queued c = p :: queued c'
    | None => queued c = []
    end;
}.

#[export] Instance list_channel : Channel (list Piece) := {|
  channel := [];
  try_send p c := if length c <? DEPTH then Some (c ++ [p]) else None;
  recv c := match c with [] => None | p :: c => Some (p, c) end;
|}.

#[export] Instance list_channel_lawful : LawfulChannel (list Piece).
Proof.
  refine {| queued c := c |}; [done| |].
  - intros p c. unfold try_send, list_channel. by destruct (Nat.ltb_spec (length c) DEPTH).
  - intros [|p c]; done.
Defined.

(** ** A request's body *)

(** What [poll_frame] yields. *)
Inductive Frame := DataFrame (bytes : list byte) | Trailers | BrokenFrame.

(** The task that pumps the body, and [BodyReader]: the frames that are still
    to come and the rest of the one at hand, the piece whose [send] waits,
    whether the task has returned, the channel, and what was received and not
    read yet. *)
Record Incoming (Ch : Type) := mkIncoming {
  frames : list Frame;
  data : list byte;
  waiting : option Piece;
  over : bool;
  pieces : Ch;
  current : list byte;
  stats : BridgeStats;
}.
Arguments mkIncoming {Ch}.
Arguments frames {Ch}.
Arguments data {Ch}.
Arguments waiting {Ch}.
Arguments over {Ch}.
Arguments pieces {Ch}.
Arguments current {Ch}.
Arguments stats {Ch}.

Section incoming.
Context {Ch : Type} `{Channel Ch}.

Definition read_body (body : list Frame) : Incoming Ch := mkIncoming body [] None false channel [] no_stats.

(** One step of the task; [None] when it waits, or has returned. *)
Definition pump_step (s : Incoming Ch) : option (Incoming Ch) :=
  if over s then None else
  match waiting s with
  | Some p =>
      match try_send p (pieces s) with
      | Some c => Some (mkIncoming (frames s) (data s) None
          (match p with Failure => true | Bytes _ => false end) c (current s) (stats s))
      | None => None
      end
  | None =>
      match data s with
      | _ :: _ =>
          let piece := take PIECE (data s) in
          Some (mkIncoming (frames s) (drop PIECE (data s)) (Some (Bytes piece)) false (pieces s) (current s)
            (took (len64 piece) (stats s)))
      | [] =>
          match frames s with
          | [] => Some (mkIncoming [] [] None true (pieces s) (current s) (stats s))
          | DataFrame bytes :: frames => Some (mkIncoming frames bytes None false (pieces s) (current s) (stats s))
          | Trailers :: frames => Some (mkIncoming frames [] None false (pieces s) (current s) (stats s))
          | BrokenFrame :: frames =>
              Some (mkIncoming frames [] (Some Failure) false (pieces s) (current s) (stats s))
          end
      end
  end.

(** One step of [BodyReader::read] into a buffer of [n] bytes: another round
    of its loop, which answers nothing yet, or its answer.  [None] when
    [blocking_recv] waits. *)
Definition read_step (n : nat) (s : Incoming Ch) : option (option read_event * Incoming Ch) :=
  match current s with
  | [] =>
      match recv (pieces s) with
      | Some (Bytes piece, c) =>
          Some (None, mkIncoming (frames s) (data s) (waiting s) (over s) c piece (stats s))
      | Some (Failure, c) =>
          Some (Some Broken, mkIncoming (frames s) (data s) (waiting s) (over s) c [] (stats s))
      | None => if over s then Some (Some (Data []), s) else None
      end
  | _ :: _ =>
      let n := Nat.min n (length (current s)) in
      Some (Some (Data (take n (current s))),
        mkIncoming (frames s) (data s) (waiting s) (over s) (pieces s) (drop n (current s))
          (gave (N.of_nat n) (stats s)))
  end.

(** Who goes next. *)
Inductive Turn := Pump | Read (n : nat).

(** The answers, in order; a turn of one who waits does nothing. *)
Definition turn_step (t : Turn) (s : Incoming Ch) : option (list read_event * Incoming Ch) :=
  match t with
  | Pump => (λ s, ([], s)) <$> pump_step s
  | Read n => (λ p : option read_event * Incoming Ch, (option_list p.1, p.2)) <$> read_step n s
  end.

Fixpoint play (turns : list Turn) (s : Incoming Ch) : list read_event * Incoming Ch :=
  match turns with
  | [] => ([], s)
  | t :: turns =>
      let '(answers, s) := default ([], s) (turn_step t s) in
      let '(more, s) := play turns s in (answers ++ more, s)
  end.
End incoming.

(** ** A response's body *)

(** [content.read(&mut buf[..want])]: no more than [want] of what comes next. *)
Definition read_upto (want : nat) (content : Reader) : read_event * Reader :=
  match content with
  | [] => (Data [], [])
  | Data piece :: content =>
      if length piece <=? want then (Data piece, content)
      else (Data (take want piece), Data (drop want piece) :: content)
  | e :: content => (e, content)
  end.

(** The task of [stream_out], and [ReaderBody]. *)
Record Outgoing (Ch : Type) := mkOutgoing {
  content : Reader;
  left : N;
  offered : option Piece;
  returned : bool;
  sent : Ch;
  remaining : N;
  gone : bool;
  out_stats : BridgeStats;
}.
Arguments mkOutgoing {Ch}.
Arguments content {Ch}.
Arguments left {Ch}.
Arguments offered {Ch}.
Arguments returned {Ch}.
Arguments sent {Ch}.
Arguments remaining {Ch}.
Arguments gone {Ch}.
Arguments out_stats {Ch}.

Section outgoing.
Context {Ch : Type} `{Channel Ch}.

Definition stream_out (content : Reader) (length : N) : Outgoing Ch :=
  mkOutgoing content length None false channel length false no_stats.

(** One step of the task: it sends what it offers, or reads the next piece, or
    returns.  When the receiver is gone a send fails, and it returns. *)
Definition stream_step (s : Outgoing Ch) : option (Outgoing Ch) :=
  if returned s then None else
  match offered s with
  | Some p =>
      if gone s
      then Some (mkOutgoing (content s) (left s) None true (sent s) (remaining s) true (out_stats s))
      else match try_send p (sent s) with
      | Some c => Some (mkOutgoing (content s) (left s) None false c (remaining s) false (out_stats s))
      | None => None
      end
  | None =>
      if (left s =? 0)%N
      then Some (mkOutgoing (content s) (left s) None true (sent s) (remaining s) (gone s) (out_stats s))
      else
        let want := Nat.min (N.to_nat (left s)) PIECE in
        let '(e, content) := read_upto want (content s) in
        Some (match e with
        | Data [] | Broken =>
            mkOutgoing content (left s) (Some Failure) false (sent s) (remaining s) (gone s) (out_stats s)
        | Data piece =>
            mkOutgoing content (wsub (left s) (len64 piece)) (Some (Bytes piece)) false (sent s) (remaining s)
              (gone s) (took (len64 piece) (out_stats s))
        | Interrupted => mkOutgoing content (left s) None false (sent s) (remaining s) (gone s) (out_stats s)
        end)
  end.

(** [poll_frame]: [None] is [Poll::Pending]; the frame is [None] at the end. *)
Definition poll_frame (s : Outgoing Ch) : option (option Piece * Outgoing Ch) :=
  match recv (sent s) with
  | Some (Failure, c) =>
      Some (Some Failure, mkOutgoing (content s) (left s) (offered s) (returned s) c (remaining s) (gone s) (out_stats s))
  | Some (Bytes piece, c) =>
      Some (Some (Bytes piece), mkOutgoing (content s) (left s) (offered s) (returned s) c
        (ssub (remaining s) (len64 piece)) (gone s) (gave (len64 piece) (out_stats s)))
  | None => if returned s then Some (None, s) else None
  end.

Definition hang_up (s : Outgoing Ch) : Outgoing Ch :=
  mkOutgoing (content s) (left s) (offered s) (returned s) (sent s) (remaining s) true (out_stats s).

(** The connection polls until it is answered the end or a failure, or the
    client goes away; then it drops the body. *)
Inductive OutTurn := Stream | Poll | HangUp.

Definition out_step (t : OutTurn) (s : Outgoing Ch) : option (list (option Piece) * Outgoing Ch) :=
  match t with
  | Stream => (λ s, ([], s)) <$> stream_step s
  | Poll =>
      if gone s then None else
      '(f, s) ← poll_frame s;
      Some ([f], match f with Some (Bytes _) => s | _ => hang_up s end)
  | HangUp => Some ([], hang_up s)
  end.

Fixpoint out_play (turns : list OutTurn) (s : Outgoing Ch) : list (option Piece) * Outgoing Ch :=
  match turns with
  | [] => ([], s)
  | t :: turns =>
      let '(answers, s) := default ([], s) (out_step t s) in
      let '(more, s) := out_play turns s in (answers ++ more, s)
  end.
End outgoing.

(** ** Ranges *)

(** One range of [bytes=..], as inclusive offsets; [Ok None] is the whole. *)
Definition one_range (header : option string) (size : N) : outcome unit (option (N * N)) :=
  match header ≫= λ value, strip_prefix "bytes=" (trim value) with
  | None => Ok None
  | Some spec =>
      if contains "," spec then Ok None else
      match split_once "-" (trim spec) with
      | None => Ok None
      | Some (first, last) =>
          let range :=
            match parse_u64 (trim first), parse_u64 (trim last) with
            | Some a, Some b => if (a <=? b)%N then Some (a, N.min b (ssub size 1)) else None
            | Some a, None => if String.eqb (trim last) "" then Some (a, ssub size 1) else None
            | None, Some n =>
                if String.eqb (trim first) "" && (0 <? n)%N then Some (ssub size n, ssub size 1) else None
            | None, None => None
            end in
          match range with
          | None => Ok None
          | Some (a, b) => if (size =? 0)%N || (size <=? a)%N then Err () else Ok (Some (a, b))
          end
      end
  end.

Example ranges :
  map (λ h, one_range (Some h) 10) ["bytes=0-3"; "bytes=7-"; "bytes=-2"; "bytes=-99"; "bytes=8-99"; " bytes=2-2 "]
    = map (λ r, Ok (Some r)) [(0, 3); (7, 9); (8, 9); (0, 9); (8, 9); (2, 2)]%N ∧
  map (λ h, one_range (Some h) 10)
    ["bytes=0-1,4-5"; "lines=1-2"; "bytes=x-y"; "bytes=5-2"; "bytes=-0"; "bytes="; "bytes=-"] = replicate 7 (Ok None) ∧
  one_range (Some "bytes=10-") 10 = Err () ∧ one_range (Some "bytes=0-") 0 = Err () ∧ one_range None 10 = Ok None.
Proof. vm_compute. auto 10. Qed.

(** ** Ranges are within the content *)

Lemma pretty_ne (n : N) : pretty n ≠ "".
Proof. intros Hp. pose proof (pretty_digits n) as (_ & _ & Hl). by rewrite Hp in Hl. Qed.

Lemma trim_range (s : string) (n : N) l : s = (l ++ pretty n)%string ∨ s = (l ++ "-")%string →
  (∃ c r, s = String c r ∧ visible c = true) → trim s = s.
Proof.
  intros Hs (c & r & Hr & Hc). rewrite Hr in *. destruct Hs as [Hs|Hs].
  - pose proof (pretty_digits n) as (Hd & _ & _).
    destruct (text_last _ _ Hd (pretty_ne n)) as (l' & d & Hl & Hdd). rewrite Hl, <- str_app_assoc in Hs.
    by apply (trim_visible c d r _ Hc (digit_visible d Hdd) Hs).
  - by eapply (trim_visible _ "-"%char).
Qed.

(** Of a header that is "bytes=", digits or nothing, "-", and digits or
    nothing, both parts are read as they are. *)
Lemma range_parts (first last : string) size :
  all_bytes is_digit first = true → all_bytes is_digit last = true →
  (first = "" → last ≠ "") → last = "" ∨ (∃ n : N, last = pretty n) →
  one_range (Some ("bytes=" ++ first ++ "-" ++ last)%string) size =
    match
      match parse_digits first, parse_digits last with
      | Some a, Some b => if (a <=? b)%N then Some (a, N.min b (ssub size 1)) else None
      | Some a, None => if String.eqb last "" then Some (a, ssub size 1) else None
      | None, Some n => if String.eqb first "" && (0 <? n)%N then Some (ssub size n, ssub size 1) else None
      | None, None => None
      end
    with
    | None => Ok None
    | Some (a, b) => if (size =? 0)%N || (size <=? a)%N then Err () else Ok (Some (a, b))
    end.
Proof.
  intros Hf Hl Hne Hlast. unfold one_range. cbn [mbind option_bind].
  assert (∃ (n : N) l, (first ++ "-" ++ last = l ++ pretty n ∨ first ++ "-" ++ last = l ++ "-"))%string as (n & l & Hend).
  { destruct Hlast as [->|[n ->]].
    - exists 0%N, first. by right.
    - exists n, (first ++ "-")%string. left. by rewrite str_app_assoc. }
  assert (trim ("bytes=" ++ first ++ "-" ++ last) = "bytes=" ++ first ++ "-" ++ last)%string as ->.
  { apply (trim_range _ n ("bytes=" ++ l)%string); [rewrite !str_app_assoc; destruct Hend as [->| ->]; auto|].
    by eexists _, _. }
  rewrite strip_prefix_app. cbn [mbind option_bind].
  assert (contains "," (first ++ "-" ++ last) = false) as ->.
  { by rewrite !contains_app, (contains_digits _ first), (contains_digits _ last) by done. }
  assert (trim (first ++ "-" ++ last) = first ++ "-" ++ last)%string as ->.
  { apply (trim_range _ n l); [done|]. destruct (decide (first = "")) as [->|Hnf]; [by eexists _, _|].
    destruct (text_first _ _ Hf Hnf) as (c & r & -> & Hc). eexists c, _. split; [done|by apply digit_visible]. }
  change ("-" ++ last)%string with (String "-" last). rewrite split_once_digits by done.
  by rewrite !trim_digits, !parse_u64_digits by done.
Qed.

(** The range a request asks for lies within the content, so that its
    length does not wrap around; each of the three forms gives the bytes it
    names, cut off at the end, and is refused only when it lies beyond. *)
Theorem ranges_lie_within (size : N) :
  (∀ header a b, one_range header size = Ok (Some (a, b)) → (a ≤ b ∧ b < size)%N) ∧
  (∀ a b : N, (a ≤ b ∧ b ≤ u64_max)%N →
    one_range (Some ("bytes=" ++ pretty a ++ "-" ++ pretty b)%string) size =
      if (a <? size)%N then Ok (Some (a, N.min b (size - 1))) else Err ()) ∧
  (∀ a : N, (a ≤ u64_max)%N →
    one_range (Some ("bytes=" ++ pretty a ++ "-")%string) size =
      if (a <? size)%N then Ok (Some (a, size - 1)%N) else Err ()) ∧
  (∀ n : N, (0 < n ∧ n ≤ u64_max)%N →
    one_range (Some ("bytes=-" ++ pretty n)%string) size =
      if (0 <? size)%N then Ok (Some (size - n, size - 1)%N) else Err ()).
Proof.
  split_and!.
  - intros header a b. unfold one_range. destruct (_ ≫= _) as [spec|]; [|done].
    destruct (contains _ _); [done|]. destruct (split_once _ _) as [[first last]|]; [|done].
    destruct (parse_u64 (trim first)) as [x|], (parse_u64 (trim last)) as [y|].
    + destruct (N.leb_spec x y); [|done].
      destruct (N.eqb_spec size 0), (N.leb_spec size x); cbn; try done. intros [= <- <-]. unfold ssub. lia.
    + destruct (String.eqb _ _); [|done].
      destruct (N.eqb_spec size 0), (N.leb_spec size x); cbn; try done. intros [= <- <-]. unfold ssub. lia.
    + destruct (String.eqb _ _), (N.ltb_spec 0 y); cbn [andb]; try done. unfold ssub.
      destruct (N.eqb_spec size 0), (N.leb_spec size (size - y)); cbn; try done. intros [= <- <-]. lia.
    + done.
  - intros a b Hab. pose proof (pretty_digits a) as (Ha & _ & _). pose proof (pretty_digits b) as (Hb & _ & _).
    rewrite range_parts; [|done|done|intros Hp; by destruct (pretty_ne a)|by eauto].
    rewrite !parse_digits_pretty by lia. destruct (N.leb_spec a b); [|lia]. unfold ssub.
    destruct (N.ltb_spec a size), (N.eqb_spec size 0), (N.leb_spec size a); cbn; done || lia.
  - intros a Ha. pose proof (pretty_digits a) as (Hd & _ & _).
    rewrite (range_parts _ ""); [|done|done|intros Hp; by destruct (pretty_ne a)|by left].
    rewrite parse_digits_pretty by lia. cbn. unfold ssub.
    destruct (N.ltb_spec a size), (N.eqb_spec size 0), (N.leb_spec size a); cbn; done || lia.
  - intros n Hn. pose proof (pretty_digits n) as (Hd & _ & _).
    pose proof (range_parts "" (pretty n) size eq_refl Hd) as Hr.
    change ("bytes=" ++ "" ++ "-" ++ pretty n)%string with ("bytes=-" ++ pretty n)%string in Hr.
    rewrite Hr; [|intros _; apply pretty_ne|by eauto].
    rewrite parse_digits_pretty by lia. cbn. destruct (N.ltb_spec 0 n); [|lia]. unfold ssub.
    destruct (N.ltb_spec 0 size), (N.eqb_spec size 0), (N.leb_spec size (size - n)); cbn; done || lia.
Qed.

(** ** A body arrives whole, or its reader is told *)

Definition bytes_of (p : Piece) : list byte := match p with Bytes bytes => bytes | Failure => [] end.
Definition is_bytes (p : Piece) : Prop := match p with Bytes bytes => bytes ≠ [] ∧ length bytes ≤ PIECE | Failure => False end.

(** What a body yields before it ends or breaks, and which of the two. *)
Fixpoint arriving (frames : list Frame) : list byte :=
  match frames with
  | DataFrame bytes :: frames => bytes ++ arriving frames
  | Trailers :: frames => arriving frames
  | BrokenFrame :: _ | [] => []
  end.
Fixpoint unbroken (frames : list Frame) : bool :=
  match frames with
  | BrokenFrame :: _ => false
  | _ :: frames => unbroken frames
  | [] => true
  end.

(** Whether the reader was told that the content ended, or that it broke. *)
Fixpoint verdict (answers : list read_event) : option bool :=
  match answers with
  | [] => None
  | Data [] :: _ => Some true
  | Broken :: _ => Some false
  | _ :: answers => verdict answers
  end.

Definition reads_something (t : Turn) : Prop := match t with Pump => True | Read n => n ≠ 0 end.

Lemma PIECE_is : N.of_nat PIECE = 65536%N.
Proof. unfold PIECE. by rewrite Nat2N.inj_mul. Qed.
Lemma PIECE_pos : 0 < PIECE.
Proof. pose proof PIECE_is. lia. Qed.
Opaque PIECE.

Lemma piece_bounds (d : list byte) : d ≠ [] → take PIECE d ≠ [] ∧ length (take PIECE d) ≤ PIECE.
Proof.
  intros Hd. split; [|rewrite length_take; lia]. intros Ht%(f_equal length). rewrite length_take in Ht.
  pose proof PIECE_pos. destruct d; [done|]. cbn in Ht. lia.
Qed.

Section incoming_facts.
Context {Ch : Type} `{Chan : !Channel Ch} `{LawfulChan : !LawfulChannel Ch}.
Implicit Types (s : Incoming Ch).

(** The pieces between the body and the reader, in order. *)
Definition on_way s : list Piece := queued (pieces s) ++ option_list (waiting s).

(** A transfer of [body] of which [got] was read: it flows, or its failure is
    on its way, or it has ended. *)
Inductive transfer (body : list Frame) (got : list byte) s : Prop :=
| flows :
    Forall is_bytes (on_way s) → over s = false → unbroken (frames s) = unbroken body →
    got ++ current s ++ concat (map bytes_of (on_way s)) ++ data s ++ arriving (frames s) = arriving body →
    transfer body got s
| breaks ps :
    on_way s = ps ++ [Failure] → Forall is_bytes ps → data s = [] → unbroken body = false →
    got ++ current s ++ concat (map bytes_of ps) = arriving body →
    (over s = true → waiting s = None) → (over s = false → waiting s = Some Failure) →
    transfer body got s
| has_ended :
    Forall is_bytes (on_way s) → over s = true → waiting s = None → unbroken body = true →
    got ++ current s ++ concat (map bytes_of (on_way s)) = arriving body →
    transfer body got s.

Lemma transfer_starts body : transfer body [] (read_body body).
Proof.
  by apply flows; unfold on_way; cbn; rewrite ?channel_law.
Qed.

Lemma pump_transfer body got s s' : transfer body got s → pump_step s = Some s' → transfer body got s'.
Proof.
  unfold pump_step. destruct s as [fs d w o ch cu st]; cbn. destruct o; [done|]. unfold on_way.
  intros Htr Hstep. destruct w as [p|].
  - pose proof (send_law p ch) as Hs. destruct (try_send p ch) as [c|]; [|done]. destruct Hs as [_ Hq].
    injection Hstep as <-.
    destruct Htr as [Hb Ho Hu He|ps Hps Hb Hd Hu He Hot Hof|Hb Ho]; unfold on_way in *; cbn in *; [| |done].
    + assert (p ≠ Failure) as Hp.
      { intros ->. apply Forall_app in Hb as [_ Hb]. by apply Forall_cons in Hb as [[] _]. }
      destruct p as [b|]; [|done]. apply flows; unfold on_way; cbn; rewrite ?Hq, ?app_nil_r; done.
    + injection (Hof eq_refl) as ->. apply app_inj_tail in Hps as [Hps _].
      apply (breaks _ _ _ ps); unfold on_way; cbn; rewrite ?Hq, ?app_nil_r; try done. by rewrite Hps.
  - destruct Htr as [Hb Ho Hu He|ps Hps Hb Hd Hu He Hot Hof|Hb Ho]; unfold on_way in *; cbn in *; [|by specialize (Hof eq_refl)|done].
    rewrite app_nil_r in *. destruct d as [|x d].
    + destruct fs as [|[b| |] fs]; injection Hstep as <-; cbn in *.
      * apply has_ended; unfold on_way; cbn; rewrite ?app_nil_r; try done. by rewrite app_nil_r in He.
      * apply flows; unfold on_way; cbn; rewrite ?app_nil_r; done.
      * apply flows; unfold on_way; cbn; rewrite ?app_nil_r; done.
      * apply (breaks _ _ _ (queued ch)); unfold on_way; cbn; try done. by rewrite app_nil_r in He.
    + injection Hstep as <-. destruct (piece_bounds (x :: d)) as [Hne Hle]; [done|].
      apply flows; unfold on_way; cbn [pieces waiting over current frames data option_list]; try done.
      * apply Forall_app. by split; [|apply Forall_singleton].
      * rewrite map_app, concat_app. 
        change (concat (map bytes_of (option_list (Some (Bytes (take PIECE (x :: d))))))) with (take PIECE (x :: d) ++ []).
        rewrite app_nil_r, <- !app_assoc.
        rewrite (app_assoc (take PIECE _)), take_drop. done.
Qed.

(** An answer, and what follows from it. *)
Lemma read_transfer body got s n answer s' :
  transfer body got s → n ≠ 0 → read_step n s = Some (answer, s') →
  match answer with
  | None => transfer body got s'
  | Some (Data []) => got = arriving body ∧ unbroken body = true
  | Some (Data piece) => transfer body (got ++ piece) s'
  | Some Broken => got = arriving body ∧ unbroken body = false
  | Some Interrupted => False
  end.
Proof.
  unfold read_step. destruct s as [fs d w o ch cu st]; cbn. intros Htr Hn Hstep. destruct cu as [|x cu].
  - pose proof (recv_law ch) as Hr. destruct (recv ch) as [[[b|] c]|]; [| |destruct o; [|done]].
    + injection Hstep as <- <-.
      destruct Htr as [Hb Ho Hu He|ps Hps Hb Hd Hu He Hot Hof|Hb Ho Hw Hu He]; cbn in *; unfold on_way in *; cbn in *;
        rewrite Hr in *.
      * apply Forall_cons in Hb as [_ Hb]. apply flows; unfold on_way; cbn; try done. cbn in He. by rewrite <- app_assoc in He.
      * destruct ps as [|p ps]; [done|]. injection Hps as <- Hps. apply Forall_cons in Hb as [_ Hb].
        by apply (breaks _ _ _ ps).
      * apply Forall_cons in Hb as [_ Hb]. by apply has_ended.
    + injection Hstep as <- <-.
      destruct Htr as [Hb Ho Hu He|ps Hps Hb Hd Hu He Hot Hof|Hb Ho Hw Hu He]; cbn in *; unfold on_way in *; cbn in *;
        rewrite Hr in *.
      * by apply Forall_cons in Hb as [[] _].
      * destruct ps as [|p ps].
        -- cbn in He. by rewrite app_nil_r in He.
        -- injection Hps as <- _. by apply Forall_cons in Hb as [[] _].
      * by apply Forall_cons in Hb as [[] _].
    + injection Hstep as <- <-.
      destruct Htr as [Hb Ho Hu He|ps Hps Hb Hd Hu He Hot Hof|Hb Ho Hw Hu He]; cbn in *; unfold on_way in *; cbn in *; [done| |].
      * rewrite Hot, Hr in Hps by done. by destruct ps.
      * rewrite Hw, Hr in He. cbn in He. by rewrite app_nil_r in He.
  - injection Hstep as <- <-. destruct n as [|n]; [done|]. cbn [Nat.min take length].
    assert (∀ A, (got ++ x :: take (Nat.min n (length cu)) cu) ++ drop (Nat.min n (length cu)) cu ++ A = got ++ (x :: cu) ++ A) as Happ.
    { intros A. rewrite <- app_assoc. cbn. by rewrite (app_assoc (take _ _)), take_drop. }
    destruct Htr as [Hb Ho Hu He|ps Hps Hb Hd Hu He Hot Hof|Hb Ho Hw Hu He]; cbn [pieces waiting over current frames data] in *.
    + apply flows; unfold on_way in *; cbn [pieces waiting over current frames data drop] in *; try done. by rewrite Happ.
    + apply (breaks _ _ _ ps); unfold on_way in *; cbn [pieces waiting over current frames data drop] in *; try done. by rewrite Happ.
    + apply has_ended; unfold on_way in *; cbn [pieces waiting over current frames data drop] in *; try done. by rewrite Happ.
Qed.

(** What was read so far, and what a verdict then says. *)
Definition told (body : list Frame) (got : list byte) (answers : list read_event) : Prop :=
  ∃ rest, got ++ yielded answers ++ rest = arriving body ∧
    match verdict answers with Some b => rest = [] ∧ unbroken body = b | None => True end.

Lemma transfer_told body got s : transfer body got s → told body got [].
Proof. intros [? ? ? He|? ? ? ? ? He|? ? ? ? He]; unfold told; rewrite <- He; by eexists. Qed.

Lemma turn_transfer body got t s answers s' :
  transfer body got s → reads_something t → turn_step t s = Some (answers, s') →
  (verdict answers = None ∧ transfer body (got ++ yielded answers) s') ∨
  (is_Some (verdict answers) ∧ ∀ more, told body got (answers ++ more)).
Proof.
  intros Htr Hn. destruct t as [|n]; cbn.
  - destruct (pump_step s) as [s1|] eqn:Hs; [|done]. intros [= <- <-]. left. split; [done|]. cbn.
    rewrite app_nil_r. by eapply pump_transfer.
  - destruct (read_step n s) as [[answer s1]|] eqn:Hs; [|done]. intros [= <- <-].
    pose proof (read_transfer _ _ _ _ _ _ Htr Hn Hs) as Hr.
    destruct answer as [[[|x piece]| |]|]; cbn in *; [right|left|done|right|left].
    + split; [done|]. intros more. exists []. cbn. rewrite app_nil_r. tauto.
    + split; [done|]. by rewrite app_nil_r.
    + split; [done|]. intros more. exists []. cbn. rewrite app_nil_r. tauto.
    + by rewrite app_nil_r.
Qed.

Lemma verdict_app a b : verdict a = None → verdict (a ++ b) = verdict b ∧ yielded (a ++ b) = yielded a ++ yielded b.
Proof.
  induction a as [|[[|x p]| |] a IH]; cbn; intros Hv; try done; destruct (IH Hv) as [-> ->]; [|done].
  split; [done|]. by rewrite <- app_assoc.
Qed.

Lemma play_told body turns got s :
  transfer body got s → Forall reads_something turns → told body got (play turns s).1.
Proof.
  revert got s. induction turns as [|t turns IH]; intros got s Htr Hn; [by eapply transfer_told|].
  apply Forall_cons in Hn as [Ht Hn]. cbn.
  destruct (turn_step t s) as [[answers s1]|] eqn:Hs; cbn.
  - destruct (turn_transfer _ _ _ _ _ _ Htr Ht Hs) as [[Hv Htr']|[_ Htold]].
    + specialize (IH _ _ Htr' Hn). destruct (play turns s1) as [more s2]. cbn in *.
      destruct (verdict_app answers more Hv) as [Hv' Hy]. destruct IH as (rest & He & Hm).
      exists rest. rewrite Hv', Hy, <- !app_assoc. by rewrite <- app_assoc in He.
    + destruct (play turns s1) as [more s2]. apply Htold.
  - specialize (IH _ _ Htr Hn). by destruct (play turns s) as [more s2].
Qed.
End incoming_facts.

(** ** Every transfer ends *)

(** How many turns are left at most: a byte may be split off, sent, received
    and read on its own. *)
Definition frame_work (f : Frame) : nat :=
  match f with DataFrame bytes => 1 + 4 * length bytes | Trailers => 1 | BrokenFrame => 3 end.
Definition piece_work (p : Piece) : nat := 1 + length (bytes_of p).
Definition work_of (body : list Frame) : nat := 1 + list_sum (map frame_work body).

Section ends.
Context {Ch : Type} `{Chan : !Channel Ch} `{LawfulChan : !LawfulChannel Ch}.
Implicit Types (s : Incoming Ch).

Definition work s : nat :=
  (if over s then 0 else 1) + list_sum (map frame_work (frames s)) + 4 * length (data s)
  + match waiting s with Some p => 1 + piece_work p | None => 0 end
  + list_sum (map piece_work (queued (pieces s))) + length (current s).

(** The two never wait for each other. *)
Lemma one_can_go s n : is_Some (turn_step Pump s) ∨ is_Some (turn_step (Read n) s).
Proof.
  destruct s as [fs d w o ch cu st]. cbn. unfold pump_step, read_step. cbn. destruct cu as [|x cu]; [|by right].
  pose proof (recv_law ch) as Hr. destruct (recv ch) as [[[b|] c]|]; [by right|by right|].
  destruct o; [by right|]. left. destruct w as [p|].
  - pose proof (send_law p ch) as Hs. destruct (try_send p ch); [done|]. rewrite Hr in Hs. cbn in Hs.
    unfold DEPTH in Hs. lia.
  - destruct d; [|done]. by destruct fs as [|[] fs].
Qed.

Lemma turn_works t s answers s' :
  reads_something t → turn_step t s = Some (answers, s') → verdict answers = None → work s' < work s.
Proof.
  destruct s as [fs d w o ch cu st], t as [|n]; cbn; intros Hn.
  - unfold pump_step. cbn. destruct o; [done|]. unfold work. cbn. destruct w as [p|].
    + pose proof (send_law p ch) as Hs. destruct (try_send p ch) as [c|]; [|done]. intros [= <- <-] _. cbn.
      destruct Hs as [_ ->]. rewrite map_app, list_sum_app. cbn. destruct p; cbn; lia.
    + destruct d as [|x d].
      * destruct fs as [|[b| |] fs]; intros [= <- <-] _; cbn; lia.
      * intros [= <- <-] _. cbn [over frames data waiting pieces current].
        pose proof PIECE_pos. unfold piece_work. cbn [bytes_of]. rewrite length_take, length_drop. cbn [length].
        fold (list_sum (map frame_work fs)). lia.
  - unfold read_step. cbn. unfold work. destruct cu as [|x cu].
    + pose proof (recv_law ch) as Hr. destruct (recv ch) as [[[b|] c]|].
      * intros [= <- <-] _. cbn. rewrite Hr. cbn. unfold piece_work, list_sum. cbn. lia.
      * by intros [= <- <-].
      * destruct o; [|done]. by intros [= <- <-].
    + intros [= <- <-] _. cbn [over frames data waiting pieces current]. rewrite length_drop. cbn [length].
      unfold piece_work. cbn. unfold list_sum. lia.
Qed.

Lemma play_app t1 t2 s :
  play (t1 ++ t2) s = ((play t1 s).1 ++ (play t2 (play t1 s).2).1, (play t2 (play t1 s).2).2).
Proof.
  revert s. induction t1 as [|t t1 IH]; intros s; cbn; [by destruct (play t2 s)|].
  destruct (default ([], s) (turn_step t s)) as [answers s1]. rewrite IH.
  destruct (play t1 s1) as [more s2]. cbn. by rewrite app_assoc.
Qed.

Lemma play_works turns s :
  Forall reads_something turns → verdict (play turns s).1 = None → work (play turns s).2 ≤ work s.
Proof.
  revert s. induction turns as [|t turns IH]; intros s Hn; [done|]. apply Forall_cons in Hn as [Ht Hn]. cbn.
  destruct (turn_step t s) as [[answers s1]|] eqn:Hs; cbn.
  - pose proof (IH s1 Hn) as IH1. destruct (play turns s1) as [more s2]. cbn in *. intros Hv.
    assert (verdict answers = None) as Hva.
    { clear -Hv. induction answers as [|[[|]| |] l IHl]; cbn in *; auto; done. }
    rewrite (proj1 (verdict_app _ _ Hva)) in Hv. pose proof (turn_works _ _ _ _ Ht Hs Hva). specialize (IH1 Hv). lia.
  - pose proof (IH s Hn) as IH1. by destruct (play turns s).
Qed.

(** A round in which both have a turn. *)
Definition fair (round : list Turn) : Prop := Pump ∈ round ∧ ∃ n, Read n ∈ round.

Lemma round_works round s :
  Forall reads_something round → fair round → verdict (play round s).1 = None → work (play round s).2 < work s.
Proof.
  intros Hn [Hp [n Hr]].
  assert (Exists (λ t, is_Some (turn_step t s)) round) as Hex.
  { apply Exists_exists. destruct (one_can_go s n); eauto. }
  clear Hp Hr. induction round as [|t round IH]; [by apply Exists_nil in Hex|].
  apply Forall_cons in Hn as [Ht Hn]. cbn. destruct (turn_step t s) as [[answers s1]|] eqn:Hs; cbn.
  - pose proof (play_works round s1 Hn) as Hw. destruct (play round s1) as [more s2]. cbn in *. intros Hv.
    assert (verdict answers = None) as Hva.
    { clear -Hv. induction answers as [|[[|]| |] l IHl]; cbn in *; auto; done. }
    rewrite (proj1 (verdict_app _ _ Hva)) in Hv. pose proof (turn_works _ _ _ _ Ht Hs Hva). specialize (Hw Hv). lia.
  - apply Exists_cons in Hex as [[? Hex]|Hex]; [congruence|]. specialize (IH Hn Hex).
    by destruct (play round s).
Qed.

Lemma rounds_decide rounds s :
  Forall fair rounds → Forall (Forall reads_something) rounds → work s < length rounds →
  is_Some (verdict (play (concat rounds) s).1).
Proof.
  revert s. induction rounds as [|round rounds IH]; intros s Hf Hn Hl; [cbn in Hl; lia|].
  apply Forall_cons in Hf as [Hf1 Hf]. apply Forall_cons in Hn as [Hn1 Hn]. cbn [concat]. rewrite play_app. cbn.
  destruct (verdict (play round s).1) as [b|] eqn:Hv.
  - exists b. clear -Hv. induction (play round s).1 as [|[[|]| |] l IHl]; cbn in *; auto; done.
  - rewrite (proj1 (verdict_app _ _ Hv)). apply IH; [done..|].
    pose proof (round_works round s Hn1 Hf1 Hv). cbn in Hl. lia.
Qed.
End ends.

(** ** What is in flight is bounded *)

Section bounded.
Context {Ch : Type} `{Chan : !Channel Ch} `{LawfulChan : !LawfulChannel Ch}.
Implicit Types (s : Incoming Ch).

Definition small (p : Piece) : Prop := length (bytes_of p) ≤ PIECE.
Definition in_flight s : nat := length (current s) + length (concat (map bytes_of (on_way s))).

Definition LIMIT : nat := (DEPTH + 2) * PIECE.

Record bounded s : Prop := mkBounded {
  bounded_small : Forall small (on_way s);
  bounded_current : length (current s) ≤ PIECE;
  bounded_depth : length (queued (pieces s)) ≤ DEPTH;
  bounded_held : held (stats s) = N.of_nat (in_flight s);
  bounded_peak : (peak (stats s) ≤ N.of_nat LIMIT)%N;
}.

Lemma small_sum l : Forall small l → length (concat (map bytes_of l)) ≤ length l * PIECE.
Proof. induction 1 as [|p l Hp _ IH]; [done|]. cbn. unfold small in Hp. rewrite length_app. lia. Qed.

Lemma bounded_in_flight s : bounded s → in_flight s ≤ LIMIT.
Proof.
  intros [Hs Hc Hd _ _]. unfold in_flight, LIMIT. pose proof (small_sum _ Hs) as Hl. unfold on_way in Hl at 2.
  rewrite length_app in Hl. assert (length (option_list (waiting s)) ≤ 1) by (destruct (waiting s); cbn; lia). nia.
Qed.

Lemma LIMIT_fits : (N.of_nat LIMIT < two64)%N.
Proof. unfold LIMIT. rewrite Nat2N.inj_mul, PIECE_is. done. Qed.

Lemma bounded_starts body : bounded (read_body (Ch := Ch) body).
Proof. split; unfold in_flight, on_way; cbn; rewrite ?channel_law; cbn; try done; lia. Qed.

Lemma turn_bounded t s answers s' : turn_step t s = Some (answers, s') → bounded s → bounded s'.
Proof.
  intros Hstep Hb. assert (bounded s) as Hb' by done. apply bounded_in_flight in Hb' as Hin.
  destruct Hb as [Hs Hc Hd Hh Hp]. destruct s as [fs d w o ch cu [h pk]], t as [|n]; cbn [turn_step current pieces waiting stats held peak] in *.
  - unfold pump_step in Hstep. cbn in Hstep. destruct o; [done|]. destruct w as [p|].
    + pose proof (send_law p ch) as Hl. destruct (try_send p ch) as [c|]; [|done]. injection Hstep as _ <-.
      destruct Hl as [Hl Hq].
      split; unfold in_flight, on_way in *; cbn in *; rewrite ?Hq, ?app_nil_r; try done. rewrite length_app. cbn. lia.
    + destruct d as [|x d].
      * destruct fs as [|[b| |] fs]; injection Hstep as _ <-; split; unfold in_flight, on_way in *; cbn in *;
          rewrite ?map_app, ?concat_app, ?app_nil_r in *; try done.
        apply Forall_app. split; [done|]. repeat constructor. unfold small. cbn. lia.
      * injection Hstep as _ <-. unfold in_flight, on_way in *. cbn [pieces waiting current stats] in *.
        rewrite app_nil_r in *. destruct (piece_bounds (x :: d)) as [_ Hle]; [done|].
        assert (length (concat (map bytes_of (queued ch))) ≤ DEPTH * PIECE) as Hsum.
        { pose proof (small_sum _ Hs). nia. }
        pose proof LIMIT_fits as Hfit. unfold LIMIT in *. unfold took, len64. cbn [held peak].
        assert (wadd h (N.of_nat (length (take PIECE (x :: d)))) =
          N.of_nat (length cu + length (concat (map bytes_of (queued ch ++ option_list (Some (Bytes (take PIECE (x :: d))))))))) as Hw.
        { rewrite map_app, concat_app, length_app.
          change (concat (map bytes_of (option_list (Some (Bytes (take PIECE (x :: d))))))) with (take PIECE (x :: d) ++ []).
          rewrite app_nil_r, wadd_small; lia. }
        split; unfold in_flight, on_way; cbn [pieces waiting current stats held peak]; [|exact Hc|exact Hd|exact Hw|].
        -- apply Forall_app. split; [exact Hs|]. constructor; [exact Hle|constructor].
        -- rewrite Hw, map_app, concat_app, length_app.
           change (concat (map bytes_of (option_list (Some (Bytes (take PIECE (x :: d))))))) with (take PIECE (x :: d) ++ []).
           rewrite app_nil_r. unfold LIMIT. lia.
  - unfold read_step in Hstep. cbn in Hstep. destruct cu as [|x cu].
    + pose proof (recv_law ch) as Hr. destruct (recv ch) as [[[b|] c]|]; [| |destruct o; [|done]]; injection Hstep as _ <-.
      * unfold on_way in *. cbn in *. rewrite Hr in *. cbn in *. apply Forall_cons in Hs as [Hb Hs].
        split; unfold in_flight, on_way in *; cbn in *; try done || lia. rewrite Hh, Hr. cbn. rewrite length_app. lia.
      * unfold on_way in *. cbn in *. rewrite Hr in *. cbn in *. apply Forall_cons in Hs as [_ Hs].
        split; unfold in_flight, on_way in *; cbn in *; try done || lia. rewrite Hh, Hr. done.
      * done.
    + injection Hstep as _ <-. unfold in_flight, on_way in *. cbn [pieces waiting current stats] in *.
      split; unfold in_flight, on_way, gave; cbn [pieces waiting current stats held peak]; try done.
      * rewrite length_drop. lia.
      * pose proof LIMIT_fits as Hfit. rewrite wsub_small; rewrite ?length_drop; cbn [length] in *; lia.
Qed.

Lemma play_bounded turns s : bounded s → bounded (play turns s).2.
Proof.
  revert s. induction turns as [|t turns IH]; intros s Hb; [done|]. cbn.
  destruct (turn_step t s) as [[answers s1]|] eqn:Hs; cbn.
  - apply (turn_bounded _ _ _ _ Hs) in Hb. specialize (IH s1 Hb). by destruct (play turns s1).
  - specialize (IH s Hb). by destruct (play turns s).
Qed.
End bounded.

(** ** What is sent is what was promised *)

Definition delivered (answers : list (option Piece)) : list byte :=
  concat (map (λ f, match f with Some p => bytes_of p | None => [] end) answers).

Lemma read_upto_spec want content e content' :
  want ≠ 0 → read_upto want content = (e, content') →
  match e with
  | Data [] | Broken => True
  | Data piece => length piece ≤ want ∧ yielded content = piece ++ yielded content'
  | Interrupted => yielded content = yielded content'
  end.
Proof.
  intros Hw. destruct content as [|[piece| |] content]; cbn; try by intros [= <- <-].
  destruct (Nat.leb_spec (length piece) want) as [Hle|Hgt].
  - intros [= <- <-]. by destruct piece.
  - destruct want as [|want]; [done|]. destruct piece as [|x piece]; [cbn in Hgt; lia|]. cbn in *. intros [= <- <-].
    cbn. split; [rewrite length_take; lia|]. assert (drop want piece ≠ []) as Hd.
    { intros Hd%(f_equal length). rewrite length_drop in Hd. cbn in Hd. lia. }
    destruct (drop want piece) as [|y l] eqn:Hdr; [done|]. cbn. f_equal.
    by rewrite <- (take_drop want piece) at 1; rewrite Hdr, <- app_assoc.
Qed.

Section outgoing_facts.
Context {Ch : Type} `{Chan : !Channel Ch} `{LawfulChan : !LawfulChannel Ch}.
Implicit Types (s : Outgoing Ch).

Definition out_way s : list Piece := queued (sent s) ++ option_list (offered s).

(** A response of [total] bytes of [c0] of which [out] was sent: it goes on,
    or content that is too short has made it fail. *)
Inductive response (c0 : Reader) (total : N) (out : list byte) s : Prop :=
| goes_on :
    Forall is_bytes (out_way s) →
    out ++ concat (map bytes_of (out_way s)) ++ take (N.to_nat (left s)) (yielded (content s))
      = take (N.to_nat total) (yielded c0) →
    (len64 out + len64 (concat (map bytes_of (out_way s))) + left s)%N = total →
    (returned s = true → left s = 0%N ∧ offered s = None) →
    response c0 total out s
| has_failed ps qs rest :
    out_way s = ps ++ Failure :: qs → Forall is_bytes ps →
    out ++ concat (map bytes_of ps) ++ rest = take (N.to_nat total) (yielded c0) →
    (returned s = true → offered s = None) → response c0 total out s.

Lemma response_starts c total : response c total [] (stream_out c total).
Proof. apply goes_on; unfold out_way; cbn; rewrite ?channel_law; cbn; done. Qed.

Lemma stream_response c0 total out s s' :
  (total < two64)%N → gone s = false → response c0 total out s → stream_step s = Some s' →
  gone s' = false ∧ response c0 total out s'.
Proof.
  unfold stream_step. destruct s as [ct lf ofr rt ch rm gn st]; cbn. intros Htot ->. destruct rt; [done|].
  intros Hr Hstep. destruct ofr as [p|].
  - pose proof (send_law p ch) as Hs. destruct (try_send p ch) as [c|]; [|done]. destruct Hs as [_ Hq].
    injection Hstep as <-. split; [done|].
    assert (out_way (mkOutgoing ct lf None false c rm false st) = out_way (mkOutgoing ct lf (Some p) false ch rm false st)) as Hway
      by (unfold out_way; cbn; by rewrite Hq, app_nil_r).
    destruct Hr as [Hb He Hl Hret|ps qs rest Hw Hb He Hret]; cbn in *.
    + apply goes_on; rewrite ?Hway; done.
    + apply (has_failed _ _ _ _ ps qs rest); rewrite ?Hway; done.
  - destruct (N.eqb_spec lf 0) as [->|Hlf].
    { injection Hstep as <-. split; [done|]. destruct Hr as [Hb He Hl Hret|ps qs rest Hw Hb He Hret]; cbn in *.
      - by apply goes_on.
      - by apply (has_failed _ _ _ _ ps qs rest). }
    set (want := Nat.min (N.to_nat lf) PIECE) in *. assert (want ≠ 0) as Hwant by (pose proof PIECE_pos; lia).
    destruct (read_upto want ct) as [e ct'] eqn:Hread. pose proof (read_upto_spec _ _ _ _ Hwant Hread) as Hspec.
    injection Hstep as <-. unfold out_way in *.
    destruct Hr as [Hb He Hl Hret|ps qs rest Hw Hb He Hret]; unfold out_way in *; cbn [offered sent left content returned] in *;
      rewrite app_nil_r in *.
    + destruct e as [[|x piece]| |]; (split; [done|]).
      * apply (has_failed _ _ _ _ (queued ch) [] (take (N.to_nat lf) (yielded ct))); by unfold out_way.
      * destruct Hspec as [Hlen Hy]. assert (length (x :: piece) ≤ N.to_nat lf ∧ length (x :: piece) ≤ PIECE) as [Hlf1 Hlf2] by (unfold want in Hlen; lia).
        assert (wsub lf (len64 (x :: piece)) = (lf - len64 (x :: piece))%N) as Hsub.
        { unfold len64 in *. apply wsub_small; lia. }
        apply goes_on; unfold out_way; cbn [offered sent left content returned]; [| | |done]; rewrite ?Hsub.
        -- apply Forall_app. split; [done|]. constructor; [|constructor]. split; [done|lia].
        -- rewrite map_app, concat_app. change (concat (map bytes_of (option_list (Some (Bytes (x :: piece)))))) with ((x :: piece) ++ []).
           rewrite app_nil_r, <- He, Hy, <- !app_assoc. f_equal. f_equal. rewrite take_app.
           rewrite (take_ge (x :: piece)) by (unfold len64 in *; lia). do 2 f_equal. unfold len64. lia.
        -- rewrite map_app, concat_app. change (concat (map bytes_of (option_list (Some (Bytes (x :: piece)))))) with ((x :: piece) ++ []).
           unfold len64 in *. rewrite app_nil_r, length_app. lia.
      * apply goes_on; unfold out_way; cbn [offered sent left content returned]; rewrite ?app_nil_r; try done. by rewrite <- Hspec.
      * apply (has_failed _ _ _ _ (queued ch) [] (take (N.to_nat lf) (yielded ct))); by unfold out_way.
    + assert (∀ e, gone e = false → returned e = false → sent e = ch → gone e = false ∧ response c0 total out e) as Hdone.
      { intros e' Hg Hrt Hse. split; [done|].
        apply (has_failed _ _ _ _ ps (qs ++ option_list (offered e')) rest); unfold out_way; rewrite ?Hse, ?Hrt; try done.
        by rewrite Hw, <- app_assoc. }
      destruct e as [[|x piece]| |]; by apply Hdone.
Qed.

Lemma poll_response c0 total out s f s' :
  response c0 total out s → poll_frame s = Some (f, s') →
  gone s' = gone s ∧
  match f with
  | None => out = take (N.to_nat total) (yielded c0) ∧ len64 out = total
  | Some (Bytes piece) => response c0 total (out ++ piece) s'
  | Some Failure => ∃ rest, out ++ rest = take (N.to_nat total) (yielded c0)
  end.
Proof.
  unfold poll_frame. destruct s as [ct lf ofr rt ch rm gn st]; cbn. intros Hr Hstep.
  pose proof (recv_law ch) as Hq. destruct (recv ch) as [[[piece|] c]|]; [| |destruct rt; [|done]]; injection Hstep as <- <-;
    (split; [done|]); destruct Hr as [Hb He Hl Hret|ps qs rest Hw Hb He Hret]; unfold out_way in *; cbn in *; rewrite Hq in *.
  - apply Forall_cons in Hb as [_ Hb]. cbn in *.
    apply goes_on; unfold out_way; cbn; try done; [by rewrite <- app_assoc in *|].
    unfold len64 in *. rewrite !length_app in *. lia.
  - destruct ps as [|p ps]; [done|]. injection Hw as <- Hw. apply Forall_cons in Hb as [_ Hb]. cbn in *.
    apply (has_failed _ _ _ _ ps qs rest); unfold out_way; cbn; try done. by rewrite <- app_assoc in *.
  - by apply Forall_cons in Hb as [[] _].
  - destruct ps as [|p ps]; [by eexists|]. injection Hw as <- _. by apply Forall_cons in Hb as [[] _].
  - destruct (Hret eq_refl) as [-> ->]. cbn in *. rewrite app_nil_r in He. split; [done|].
    unfold len64 in *. cbn [length] in Hl. lia.
  - rewrite Hret in Hw by done. by destruct ps.
Qed.

(** What was sent so far, and what the end of the body then says. *)
Definition answered (c0 : Reader) (total : N) (out : list byte) (answers : list (option Piece)) : Prop :=
  ∃ rest, out ++ delivered answers ++ rest = take (N.to_nat total) (yielded c0) ∧
    (None ∈ answers → rest = [] ∧ len64 (out ++ delivered answers) = total).

Lemma gone_is_silent turns s : gone s = true → (out_play turns s).1 = [].
Proof.
  revert s. induction turns as [|t turns IH]; intros s Hg; [done|]. cbn.
  destruct (out_step t s) as [[answers s1]|] eqn:Hs; cbn.
  - assert (answers = [] ∧ gone s1 = true) as [-> Hg1].
    { destruct t; cbn in Hs.
      - destruct (stream_step s) as [s2|] eqn:Hst; [|done]. injection Hs as <- <-. split; [done|].
        unfold stream_step in Hst. destruct (returned s); [done|]. rewrite Hg in Hst.
        destruct (offered s); [by injection Hst as <-|]. destruct (left s =? 0)%N; [by injection Hst as <-|].
        destruct (read_upto _ _) as [[[|]| |] ct]; by injection Hst as <-.
      - by rewrite Hg in Hs.
      - by injection Hs as <- <-. }
    specialize (IH s1 Hg1). destruct (out_play turns s1). cbn in *. by rewrite IH.
  - specialize (IH s Hg). by destruct (out_play turns s).
Qed.

Lemma out_play_answered c0 total turns out s :
  (total < two64)%N → gone s = false → response c0 total out s → answered c0 total out (out_play turns s).1.
Proof.
  intros Htot. revert out s. induction turns as [|t turns IH]; intros out s Hg Hr.
  { assert (∃ rest, out ++ rest = take (N.to_nat total) (yielded c0)) as [rest Hrest]
      by (destruct Hr as [_ He _ _|ps qs rest _ _ He _]; by eexists).
    exists rest. split; [done|]. by intros ?%elem_of_nil. }
  cbn. destruct (out_step t s) as [[answers s1]|] eqn:Hs; cbn.
  2: { specialize (IH out s Hg Hr). by destruct (out_play turns s). }
  destruct t; cbn in Hs.
  - destruct (stream_step s) as [s2|] eqn:Hst; [|done]. injection Hs as <- <-.
    destruct (stream_response _ _ _ _ _ Htot Hg Hr Hst) as [Hg2 Hr2]. specialize (IH out s2 Hg2 Hr2).
    by destruct (out_play turns s2).
  - rewrite Hg in Hs. destruct (poll_frame s) as [[f s2]|] eqn:Hp; [|done]. cbn in Hs. injection Hs as <- <-.
    destruct (poll_response _ _ _ _ _ _ Hr Hp) as [Hg2 Hf]. destruct f as [[piece|]|].
    + assert (gone s2 = false) as Hg3 by congruence. specialize (IH _ _ Hg3 Hf).
      destruct (out_play turns s2) as [more s3]. destruct IH as (rest & He & Hn). exists rest. unfold delivered. cbn.
      unfold delivered in He, Hn. cbn in He, Hn. rewrite <- !app_assoc in *. split; [done|].
      intros [?|Hin]%elem_of_cons; [done|]. by apply Hn.
    + pose proof (gone_is_silent turns (hang_up s2) eq_refl) as Hsil. destruct (out_play turns _) as [more s3].
      cbn in Hsil. subst more. destruct Hf as [rest Hf]. exists rest. split; [done|]. intros Hin. cbn in Hin.
      apply elem_of_cons in Hin as [?|Hin]; [done|]. by apply elem_of_nil in Hin.
    + pose proof (gone_is_silent turns (hang_up s2) eq_refl) as Hsil. destruct (out_play turns _) as [more s3].
      cbn in Hsil. subst more. destruct Hf as [Hf Hl]. exists []. unfold delivered. cbn. rewrite !app_nil_r. tauto.
  - injection Hs as <- <-. pose proof (gone_is_silent turns (hang_up s) eq_refl) as Hsil.
    destruct (out_play turns (hang_up s)) as [more s3]. cbn in Hsil. subst more. cbn.
    assert (∃ rest, out ++ rest = take (N.to_nat total) (yielded c0)) as [rest Hrest]
      by (destruct Hr as [_ He _ _|ps qs rest _ _ He _]; by eexists).
    exists rest. split; [done|]. by intros ?%elem_of_nil.
Qed.
End outgoing_facts.

(** ** The bridge's promises *)

Section promises.
Context {Ch : Type} `{Chan : !Channel Ch} `{LawfulChan : !LawfulChannel Ch}.

(** C27: Whoever reads a request's body is told what arrived and how it ended.
    As long as both sides go on, in whatever order, the reader gets every byte
    that arrived, in order, and then that the content ended if the body came to
    its end, or that it broke if the body broke: content that was cut short is
    never taken for whole, and no transfer waits for ever. *)
Theorem a_body_arrives_whole (body : list Frame) (rounds : list (list Turn)) :
  Forall fair rounds → Forall (Forall reads_something) rounds → work_of body < length rounds →
  let answers := (play (concat rounds) (read_body (Ch := Ch) body)).1 in
  verdict answers = Some (unbroken body) ∧ yielded answers = arriving body.
Proof.
  intros Hf Hn Hl. cbv zeta.
  assert (Forall reads_something (concat rounds)) as Hn'.
  { clear -Hn. induction Hn as [|r rs Hr _ IH]; [constructor|]. by apply Forall_app. }
  assert (work (read_body (Ch := Ch) body) = work_of body) as Hw.
  { unfold work, work_of. cbn [over frames data waiting pieces current read_body]. rewrite channel_law. cbn. lia. }
  destruct (rounds_decide rounds (read_body (Ch := Ch) body) Hf Hn ltac:(by rewrite Hw)) as [b Hv].
  destruct (play_told body (concat rounds) [] _ (transfer_starts body) Hn') as (rest & He & Hm).
  rewrite Hv in *. destruct Hm as [-> <-]. cbn in He. by rewrite app_nil_r in He.
Qed.

(** At every moment of a transfer what the reader got is the beginning of
    what arrived, and what is held in between is at most [DEPTH + 2] pieces of
    [PIECE] bytes, whatever the size of the content. *)
Theorem what_is_in_flight_is_bounded (body : list Frame) (turns : list Turn) :
  Forall reads_something turns →
  let '(answers, s) := play turns (read_body (Ch := Ch) body) in
  (∃ rest, yielded answers ++ rest = arriving body) ∧
  held (stats s) = N.of_nat (in_flight s) ∧ (in_flight s ≤ LIMIT) ∧ (peak (stats s) ≤ N.of_nat LIMIT)%N.
Proof.
  intros Hn. destruct (play_told body turns [] _ (transfer_starts (Ch := Ch) body) Hn) as (rest & He & _).
  pose proof (play_bounded turns _ (bounded_starts (Ch := Ch) body)) as Hb.
  destruct (play turns (read_body body)) as [answers s]. cbn in *.
  split_and!; [by exists rest|by destruct Hb|by apply bounded_in_flight|by destruct Hb].
Qed.

(** A response sends the content's bytes in order and never more than it
    announced; its end is only reached when exactly the announced number was
    sent, so that content that is too short is an error and not an end. *)
Theorem what_is_sent_was_announced (c : Reader) (total : N) (turns : list OutTurn) :
  (total < two64)%N →
  let answers := (out_play turns (stream_out (Ch := Ch) c total)).1 in
  (∃ rest, delivered answers ++ rest = take (N.to_nat total) (yielded c)) ∧
  (None ∈ answers → len64 (delivered answers) = total ∧ delivered answers = take (N.to_nat total) (yielded c)).
Proof.
  intros Htot. destruct (out_play_answered c total turns [] (stream_out (Ch := Ch) c total) Htot eq_refl (response_starts c total)) as (rest & He & Hn).
  cbn in He. split; [by exists rest|]. intros Hin. destruct (Hn Hin) as [-> Hl]. by rewrite app_nil_r in He.
Qed.
End promises.

(** ** Witnesses *)

Module Crossing.
Definition bytes (l : list N) : list byte := map (λ n, default Byte.x00 (Byte.of_N n)) l.
Definition body : list Frame := [DataFrame (bytes [1; 2; 3]%N); Trailers; DataFrame (bytes [4]%N)].
Definition broken : list Frame := [DataFrame (bytes [1; 2; 3]%N); BrokenFrame].
Definition rounds : list (list Turn) := replicate 25 [Pump; Read 2].
Definition stream : Reader := [Data (bytes [1; 2]%N); Interrupted; Data (bytes [3; 4]%N)].
End Crossing.

Lemma a_body_arrives_whole_witness :
  Forall fair Crossing.rounds ∧ Forall (Forall reads_something) Crossing.rounds ∧
  work_of Crossing.broken < length Crossing.rounds ∧
  let answers := (play (concat Crossing.rounds) (read_body (Ch := list Piece) Crossing.broken)).1 in
  verdict answers = Some false ∧ yielded answers = Crossing.bytes [1; 2; 3]%N.
Proof.
  assert (Forall fair Crossing.rounds) as Hf.
  { apply Forall_replicate. split; [left|exists 2; right; left]. }
  assert (Forall (Forall reads_something) Crossing.rounds) as Hn by (apply Forall_replicate; repeat constructor; discriminate).
  assert (work_of Crossing.broken < length Crossing.rounds) as Hl by (apply Nat.ltb_lt; reflexivity).
  split; [exact Hf|]. split; [exact Hn|]. split; [exact Hl|].
  exact (a_body_arrives_whole (Ch := list Piece) Crossing.broken Crossing.rounds Hf Hn Hl).
Defined.

Lemma what_is_in_flight_is_bounded_witness :
  let '(answers, s) := play [Pump; Pump; Pump; Read 1; Read 2] (read_body (Ch := list Piece) Crossing.body) in
  yielded answers = Crossing.bytes [1; 2]%N ∧ held (stats s) = 1%N ∧ (peak (stats s) ≤ N.of_nat LIMIT)%N.
Proof.
  assert (Forall reads_something [Pump; Pump; Pump; Read 1; Read 2]) as Hn by (repeat constructor; discriminate).
  pose proof (what_is_in_flight_is_bounded (Ch := list Piece) Crossing.body _ Hn) as H.
  assert (play [Pump; Pump; Pump; Read 1; Read 2] (read_body (Ch := list Piece) Crossing.body) =
    (play [Pump; Pump; Pump; Read 1; Read 2] (read_body (Ch := list Piece) Crossing.body))) as _ by reflexivity.
  destruct (play _ _) as [answers s] eqn:Hp. destruct H as (_ & _ & _ & Hpk).
  assert (yielded (play [Pump; Pump; Pump; Read 1; Read 2] (read_body (Ch := list Piece) Crossing.body)).1 = Crossing.bytes [1; 2]%N ∧
    held (stats (play [Pump; Pump; Pump; Read 1; Read 2] (read_body (Ch := list Piece) Crossing.body)).2) = 1%N) as [Hy Hh]
    by (split; vm_compute; reflexivity).
  rewrite Hp in Hy, Hh. split; [exact Hy|]. split; [exact Hh|exact Hpk].
Defined.

Lemma what_is_sent_was_announced_witness :
  (3 < two64)%N ∧
  let answers := (out_play (concat (replicate 9 [Stream; Poll])) (stream_out (Ch := list Piece) Crossing.stream 3)).1 in
  None ∈ answers ∧ delivered answers = Crossing.bytes [1; 2; 3]%N.
Proof.
  assert (3 < two64)%N as Htot by reflexivity. split; [exact Htot|].
  pose proof (what_is_sent_was_announced (Ch := list Piece) Crossing.stream 3
    (concat (replicate 9 [Stream; Poll])) Htot) as [_ H].
  assert (None ∈ (out_play (concat (replicate 9 [Stream; Poll])) (stream_out (Ch := list Piece) Crossing.stream 3)).1) as Hin.
  { vm_compute. do 2 right. left. }
  split; [exact Hin|]. destruct (H Hin) as [_ ->]. vm_compute. reflexivity.
Defined.

(** What is held is more than [DEPTH] pieces when the reader stands still: one
    waits to be sent, and one is being read. *)
Example more_than_the_channel_is_held :
  let frame := DataFrame (replicate PIECE Byte.x00) in
  N.of_nat (in_flight (play (Pump :: Pump :: Pump :: Read 1 :: replicate 30 Pump)
    (read_body (Ch := list Piece) (replicate 10 frame))).2) = ((8 + 2) * 65536)%N.
Proof. vm_compute. reflexivity. Qed.

(** What a client that goes away leaves unread stays counted. *)
Example what_is_dropped_stays_counted :
  let s := (out_play [Stream; HangUp; Stream; Stream] (stream_out (Ch := list Piece) [Data (Crossing.bytes [1; 2]%N)] 2)).2 in
  returned s = true ∧ held (out_stats s) = 2%N.
Proof. vm_compute. split; reflexivity. Qed.
