(* ===== verification/Engines.v ===== *)
(** The running server's state ([engines.rs], [state.rs]): one control
    database, a shelf per workspace, and the engines that were opened over
    them.  An engine is the pair of a workspace's shelf and the shared
    database, for as long as a call of it runs. *)

From S2P Require Import Prelude Errors Random Ids Shelf Records Effects Rules Workspace Upload Rewrite Ledger Engine Operations.
From S2P Require Import Auth Database Sqlite Control Rate Config.

(** [FsShelf::open]: the shelf in a directory, or in one that is not there.
    A directory that could not be made whole is as good as none. *)
Class ShelfDisk (Sh : Type) := open_shelf : option Sh → outcome ApiError unit * option Sh.

(** Opening changes nothing that is kept; a new shelf is empty. *)
Class LawfulDisk (Sh : Type) `{Ext : Externals} `{S : !ItemShelf Sh} `{Lawful : !LawfulShelf Sh} `{Disk : !ShelfDisk Sh} :=
  open_shelf_law : ∀ o : option Sh, from_option view no_shelves (open_shelf o).2 = from_option view no_shelves o.

#[export] Instance memory_disk : ShelfDisk Shelves := λ o, (Ok (), Some (default no_shelves o)).
#[export] Instance memory_disk_lawful `{Externals} : LawfulDisk Shelves.
Proof. by intros []. Qed.

(** [Inner], and what it reaches: the database, the workspaces' directories,
    the engines that are open with their limits, the operating system's
    randomness, how often the clock was read, and the failures counted. *)
Record World (C Sh RS : Type) := mkWorld {
  w_db : C;
  w_shelves : gmap WorkspaceId Sh;
  w_open : gmap WorkspaceId Limits;
  w_random : RS;
  w_ticks : nat;
  w_failures : FailureLimiter;
}.
Arguments mkWorld {C Sh RS}.
Arguments w_db {C Sh RS}.
Arguments w_shelves {C Sh RS}.
Arguments w_open {C Sh RS}.
Arguments w_random {C Sh RS}.
Arguments w_ticks {C Sh RS}.
Arguments w_failures {C Sh RS}.

Section Engines.
Context {C X Sh RS : Type} `{Ext : Externals} `{Db : !Database C X} `{S : !ItemShelf Sh} `{Disk : !ShelfDisk Sh}
  `{Random : !RandomSource RS}.
(** The configuration; the clock every engine shares; and [fuel], as in [Env]. *)
Context (config : Config) (clock : nat → N) (fuel : nat).

(** What runs on the blocking pool. *)
Definition Srv (A : Type) : Type := M ApiError (World C Sh RS) A.

Definition env (limits : Limits) : Env := mkEnv clock limits fuel None.

(** The engine of [w], as its calls see it. *)
Definition engine_of (sh : Sh) (W : World C Sh RS) : Engine Sh (SqliteLedger C) RS :=
  mkEngine sh (mkSqlite (w_db W) None 0) (w_random W) (w_ticks W) 0.
Definition put_engine (w : WorkspaceId) (e : Engine Sh (SqliteLedger C) RS) (W : World C Sh RS) : World C Sh RS :=
  mkWorld (connection (e_ledger e)) (<[w := e_shelf e]> (w_shelves W)) (w_open W) (e_rng e) (e_ticks e) (w_failures W).

(** A call of the engine of [w], which is open. *)
Definition on_engine {A} (w : WorkspaceId) (m : Env → Engine.Do A) : Srv A := λ W,
  match w_open W !! w, w_shelves W !! w with
  | Some limits, Some sh =>
      let '(y, e) := m (env limits) (engine_of sh W) in (y, put_engine w e W)
  | _, _ => (Err ServiceUnavailable, W)
  end.

(** A question to the control database; its errors are logged, not told. *)
Definition on_control {A} (m : M ControlError C A) : Srv A := λ W,
  let '(y, c) := m (w_db W) in
  (match y with Ok a => Ok a | Killed => Killed | Spinning => Spinning | Err _ => Err ServiceUnavailable end,
   mkWorld c (w_shelves W) (w_open W) (w_random W) (w_ticks W) (w_failures W)).

Definition open_dir (w : WorkspaceId) : Srv unit := λ W,
  let '(y, sh) := open_shelf (w_shelves W !! w) in
  (y, mkWorld (w_db W) (partial_alter (λ _, sh) w (w_shelves W)) (w_open W) (w_random W) (w_ticks W) (w_failures W)).

(** [Engine::open], with the limits it is given, before it is shared. *)
Definition open_engine (w : WorkspaceId) (limits : Limits) : Srv unit := λ W,
  match w_shelves W !! w with
  | Some sh => let '(y, e) := Engine.open w (env limits) (engine_of sh W) in (y, put_engine w e W)
  | None => (Err ServiceUnavailable, W)
  end.

Definition share (w : WorkspaceId) (limits : Limits) : Srv unit :=
  modify (λ W, mkWorld (w_db W) (w_shelves W) (<[w := limits]> (w_open W)) (w_random W) (w_ticks W) (w_failures W)).

(** [Engines::get]: opened, and so repaired, on first use; nothing is created
    for a workspace that the control database does not have. *)
Definition get (w : WorkspaceId) : Srv unit :=
  open ← gets (λ W, w_open W !! w);
  match open with
  | Some _ => mret ()
  | None =>
      info ← on_control (Control.workspace_by_id w);
      info ← lift (ok_or NotFound info);
      let limits := limits_for config (wi_quota_bytes info) in
      open_dir w;;
      open_engine w limits;;
      share w limits
  end.

Definition open_workspaces : Srv (gset WorkspaceId) := gets (λ W, dom (w_open W)).

Definition forget (w : WorkspaceId) : Srv unit :=
  modify (λ W, mkWorld (w_db W) (w_shelves W) (delete w (w_open W)) (w_random W) (w_ticks W) (w_failures W)).
End Engines.
