(* ===== verification/Commands.v ===== *)
(** What the operator's commands do ([commands.rs] and [owner.rs] of
    [passalong-server-cli]): on the control database, on the workspaces'
    directories, and through engines of their own.  What is printed is here
    the data it is printed from. *)

From S2P Require Import Prelude Text Errors Random Ids Shelf Records Effects Rules Workspace Upload Rewrite Ledger Engine Operations.
From S2P Require Import Auth Database Sqlite Control Rate Config Engines.

(** The default life of a key. *)
Definition DEFAULT_EXPIRY : string := "90d".

Module WorkspaceCommand.
Inductive t :=
| Create (name : string) (quota : option string)
| List
| Show (name : string)
| Delete (name : string) (yes force : bool).
End WorkspaceCommand.

Module KeyCommand.
Inductive t :=
| Create (workspace label : string) (expires : option string) (never read_only : bool)
| List (workspace : option string)
| Extend (id : string) (expires : option string) (never : bool)
| Revoke (id : string)
| Delete (id : string)
| Prune (older_than : string).
End KeyCommand.

Module RewriteCommand.
Inductive t :=
| Show (workspace : string)
| Abort (workspace : string) (force : bool).
End RewriteCommand.

(** The commands that need the data directory, but for [serve] and [tls]. *)
Module Subcommand.
Inductive t :=
| Workspace (c : WorkspaceCommand.t)
| Key (c : KeyCommand.t)
| Rewrite (c : RewriteCommand.t)
| Audit (limit : N)
| Check.
End Subcommand.

(** Why a command prints an error. *)
Inductive CommandError :=
| ControlSaid (e : ControlError)
| ApiSaid (e : ApiError)
| NotOpened (workspace : string) (e : ApiError)
| BadSize (e : SizeError)
| UnlimitedQuota
| BadDuration (text : string)
| SessionOpen (workspace : string)
| NotConfirmed (workspace : string)
| NoInput
| NoSession (workspace : string)
| LeaseRuns (until : N)
| OnDisk (w : WorkspaceId).

(** A workspace as [workspace show] prints it. *)
Record Shown := mkShown {
  sh_workspace : WorkspaceInfo;
  sh_items : nat;
  sh_plain : nat;
  sh_used : N;
  sh_quota : N;
  sh_reserved : N;
  sh_encryption : EncryptionView;
  sh_keys : list (KeyInfo * KeyState);
}.

(** What [check] found: a mark and a line each, and how many failed. *)
Inductive Mark := IsOk | IsFail | IsNote.
Inductive CheckLine :=
| ConfigurationRead
| DataDirectory (mode : option N)
| ControlFailed (e : CommandError)
| ControlOpened (workspaces : nat)
| WorkspaceOpened (name : string) (items : nat) (session : bool)
| WorkspaceFailed (e : CommandError)
| Stray (name : string)
| NoTlsYet
| NotThereYet (file : string).
Record Checks := mkChecks { check_lines : list (Mark * CheckLine); failed : nat }.

(** What a command prints. *)
Inductive Printed :=
| CreatedWorkspace (w : WorkspaceInfo) (quota : N)
| AllWorkspaces (l : list WorkspaceInfo)
| OneWorkspace (s : Shown)
| DeletedWorkspace (name : string)
| NewKey (token : string) (k : KeyInfo) (state : KeyState)
| AllKeys (l : list (KeyInfo * KeyState))
| ExtendedKey (k : KeyInfo) (state : KeyState)
| RevokedKey (k : KeyInfo) (state : KeyState)
| DeletedKey (k : KeyInfo)
| Pruned (n : nat)
| OneSession (s : SessionView) (ended : bool)
| Aborted (workspace : string) (state : EncryptionState)
| Trail (l : list AuditEntry)
| Checked (c : Checks).

(** Why the program ends with an error. *)
Inductive Failure :=
| CommandFailed (e : CommandError)
| ChecksFailed (c : Checks)
| NoDataDirectory
| NobodyKnown
| NotTheOwner (me owner : N).

(** Standard input: no terminal, what is typed there, or an error. *)
Inductive Stdin := NoTerminal | Typed (line : string) | Broken.

(** The directories of workspaces, and opening the database, beyond what an
    engine does: each may fail.  [dir_names] is what can be read of the
    directory they are in. *)
Class OperatorDisk (C Sh : Type) := {
  open_database : C → bool * C;
  private_dir : option Sh → bool * option Sh;
  dir_exists : option Sh → bool;
  remove_dir_all : option Sh → bool * option Sh;
  dir_names : gmap WorkspaceId Sh → list string;
}.

Section commands.
Context {C X Sh RS : Type} `{Ext : Externals} `{Db : !Database C X} `{Shelf : !ItemShelf Sh} `{Disk : !ShelfDisk Sh}
  `{Op : !OperatorDisk C Sh} `{Random : !RandomSource RS}.
(** The mode of the data directory, if it can be had; and whether a file is
    there. *)
Context (config : Config) (clock : nat → N) (fuel : nat) (stdin : Stdin).
Context (data_mode : option N) (is_file : string → bool).

Definition Cmd (A : Type) : Type := M CommandError (World C Sh RS) A.

Definition said {A} (m : Srv (C := C) (Sh := Sh) (RS := RS) A) : Cmd A := λ W, let '(x, W) := m W in (map_err ApiSaid x, W).

(** A call of the control database. *)
Definition on_ctl {A} (m : Control.Ctl (C := C) (RS := RS) A) : Cmd A := λ W,
  let '(x, s) := m (mkControl (w_db W) (w_random W) (w_ticks W)) in
  (map_err ControlSaid x, mkWorld (db s) (w_shelves W) (w_open W) (control_rng s) (control_ticks s) (w_failures W)).

Definition now : Cmd N := λ W,
  (Ok (clock (w_ticks W)), mkWorld (w_db W) (w_shelves W) (w_open W) (w_random W) (S (w_ticks W)) (w_failures W)).

Definition with_db (c : C) (W : World C Sh RS) : World C Sh RS :=
  mkWorld c (w_shelves W) (w_open W) (w_random W) (w_ticks W) (w_failures W).
Definition on_dir {A} (w : WorkspaceId) (f : option Sh → A * option Sh) : Cmd A := λ W,
  let '(a, sh) := f (w_shelves W !! w) in
  (Ok a, mkWorld (w_db W) (partial_alter (λ _, sh) w (w_shelves W)) (w_open W) (w_random W) (w_ticks W) (w_failures W)).

(** [Host::control] *)
Definition control : Cmd unit := λ W,
  let '(ok, c) := open_database (w_db W) in
  ((if ok then Ok () else Err (ControlSaid Unavailable)), with_db c W).

(** [Host::engine]: opened, and so repaired. *)
Definition open_ledger : Srv (C := C) (Sh := Sh) (RS := RS) unit := λ W,
  let '(ok, c) := open_database (w_db W) in
  ((if ok then Ok () else Err ServiceUnavailable), with_db c W).
Definition limits_of (workspace : WorkspaceInfo) : Limits := limits_for config (wi_quota_bytes workspace).
Definition engine (workspace : WorkspaceInfo) : Cmd unit := λ W,
  let '(x, W) := (open_dir (wi_id workspace);; open_ledger;;
    open_engine clock fuel (wi_id workspace) (limits_of workspace)) W in
  (map_err (NotOpened (wi_name workspace)) x, W).

(** A call of that engine, whose errors are the caller's to tell. *)
Definition calling {A} (workspace : WorkspaceInfo) (m : Env → Engine.Do (Sh := Sh) (L := SqliteLedger C) (RS := RS) A)
    : Srv (C := C) (Sh := Sh) (RS := RS) A := λ W,
  match w_shelves W !! wi_id workspace with
  | Some sh =>
      let '(y, e) := m (env clock fuel (limits_of workspace)) (engine_of sh W) in (y, put_engine (wi_id workspace) e W)
  | None => (Err ServiceUnavailable, W)
  end.

(** Whether standard input, when someone is there, repeats the name. *)
Definition typed_again (name : string) : Cmd bool :=
  match stdin with
  | NoTerminal => mret false
  | Typed line => mret (String.eqb (trim line) name)
  | Broken => throw NoInput
  end.

Definition quota_of (quota : option string) : outcome CommandError (option N) :=
  match quota with
  | None => Ok None
  | Some text =>
      match parse_size text with
      | Ok None => Err UnlimitedQuota
      | Ok (Some bytes) => Ok (Some bytes)
      | Err e => Err (BadSize e)
      | Killed => Killed
      | Spinning => Spinning
      end
  end.

Definition with_state (now : N) (k : KeyInfo) : KeyInfo * KeyState := (k, key_state k now).

Definition workspace (command : WorkspaceCommand.t) : Cmd Printed :=
  control;;
  match command with
  | WorkspaceCommand.Create name quota =>
      quota ← lift (quota_of quota);
      made ← on_ctl (Control.create_workspace clock name quota);
      ok ← on_dir (wi_id made) private_dir;
      if ok : bool then
        mret (CreatedWorkspace made (default (workspace_quota_bytes (limits_section config)) (wi_quota_bytes made)))
      else throw (OnDisk (wi_id made))
  | WorkspaceCommand.List =>
      all ← on_ctl (Control.on_db Control.workspaces);
      mret (AllWorkspaces all)
  | WorkspaceCommand.Show name =>
      found ← on_ctl (Control.on_db (Control.workspace name));
      engine found;;
      view ← said (calling found (λ _, Engine.encryption (wi_id found)));
      items ← said (calling found (λ _, Engine.item_ids (wi_id found) Current));
      plain ← said (calling found (λ _, Engine.item_ids (wi_id found) Plain));
      used ← said (calling found (λ _, Engine.used_bytes (wi_id found)));
      reserved ← said (calling found (λ E, Engine.reserved_bytes (wi_id found) E));
      keys ← on_ctl (Control.on_db (Control.keys (Some name)));
      now ← now;
      mret (OneWorkspace (mkShown found (length items) (length plain) used (quota_bytes (limits_of found)) reserved view
        (map (with_state now) keys)))
  | WorkspaceCommand.Delete name yes force =>
      found ← on_ctl (Control.on_db (Control.workspace name));
      engine found;;
      session ← said (calling found (λ _, Engine.session_view (wi_id found)));
      if bool_decide (is_Some session) && negb force then throw (SessionOpen name) else
      sure ← (if yes then mret true else typed_again name);
      if negb sure then throw (NotConfirmed name) else
      on_ctl (Control.delete_workspace clock name);;
      gone ← on_dir (wi_id found) (λ o, if dir_exists o then remove_dir_all o else (true, o));
      if gone : bool then mret (DeletedWorkspace name) else throw (OnDisk (wi_id found))
  end.

Definition expiry (expires : option string) (never : bool) (default : option string) : outcome CommandError (option N) :=
  if never then Ok None else
  match match expires with Some text => Some text | None => default end with
  | None => Ok None
  | Some text => secs ← ok_or (BadDuration text) (parse_duration text); Ok (Some secs)
  end.

Definition key (command : KeyCommand.t) : Cmd Printed :=
  control;;
  now ← now;
  match command with
  | KeyCommand.Create workspace label expires never read_only =>
      lasts ← lift (expiry expires never (Some DEFAULT_EXPIRY));
      made ← on_ctl (Control.create_key clock fuel workspace label (if read_only then ReadOnly else ReadWrite) lasts);
      mret (NewKey (ApiKey.reveal made.1) made.2 (key_state made.2 now))
  | KeyCommand.List workspace =>
      keys ← on_ctl (Control.on_db (Control.keys workspace));
      mret (AllKeys (map (with_state now) keys))
  | KeyCommand.Extend id expires never =>
      lasts ← lift (expiry expires never None);
      k ← on_ctl (Control.extend_key clock id lasts);
      mret (ExtendedKey k (key_state k now))
  | KeyCommand.Revoke id =>
      k ← on_ctl (Control.revoke_key clock id);
      mret (RevokedKey k (key_state k now))
  | KeyCommand.Delete id =>
      k ← on_ctl (Control.delete_key clock id);
      mret (DeletedKey k)
  | KeyCommand.Prune older_than =>
      secs ← lift (ok_or (BadDuration older_than) (parse_duration older_than));
      pruned ← on_ctl (Control.prune_keys clock secs);
      mret (Pruned pruned)
  end.

Definition rewrite_name (command : RewriteCommand.t) : string :=
  match command with RewriteCommand.Show workspace | RewriteCommand.Abort workspace _ => workspace end.

(** What the operator's abort answers. *)
Definition abort (found : WorkspaceInfo) (session : SessionView) (force : bool) (workspace : string) : Cmd Printed := λ W,
  match calling found (λ E, Engine.operator_abort_rewrite (wi_id found) E force) W with
  | (Ok view, W) => (Ok (Aborted workspace (ev_state view)), W)
  | (Err LeaseHeld, W) => (Err (LeaseRuns (sv_lease_expires_at session)), W)
  | (Err e, W) => (Err (ApiSaid e), W)
  | (Killed, W) => (Killed, W)
  | (Spinning, W) => (Spinning, W)
  end.

Definition rewrite (command : RewriteCommand.t) : Cmd Printed :=
  control;;
  now ← now;
  found ← on_ctl (Control.on_db (Control.workspace (rewrite_name command)));
  engine found;;
  session ← said (calling found (λ _, Engine.session_view (wi_id found)));
  match session with
  | None => throw (NoSession (rewrite_name command))
  | Some session =>
      match command with
      | RewriteCommand.Show _ => mret (OneSession session (sv_lease_expires_at session <=? now)%N)
      | RewriteCommand.Abort workspace force => abort found session force workspace
      end
  end.

Definition audit (limit : N) : Cmd Printed :=
  control;;
  entries ← on_ctl (Control.on_db (Control.audit limit));
  mret (Trail entries).
(** ** [check] *)

Definition step (ok : bool) (line : CheckLine) (c : Checks) : Checks :=
  mkChecks (check_lines c ++ [(if ok then IsOk else IsFail, line)]) (failed c + if ok then 0 else 1).
Definition note (line : CheckLine) (c : Checks) : Checks := mkChecks (check_lines c ++ [(IsNote, line)]) (failed c).

(** [0o777] and [0o700]. *)
Definition mode_bits : option N := (λ mode, N.land mode 511) <$> data_mode.
Definition check_data (c : Checks) : Checks := step (bool_decide (mode_bits = Some 448%N)) (DataDirectory mode_bits) c.

(** What goes wrong is looked at, not passed on. *)
Definition attempted {A} (m : Cmd A) : Cmd (outcome CommandError A) := λ W,
  match m W with
  | (Ok a, W) => (Ok (Ok a), W)
  | (Err e, W) => (Ok (Err e), W)
  | (Killed, W) => (Killed, W)
  | (Spinning, W) => (Spinning, W)
  end.

Definition looked_at (workspace : WorkspaceInfo) : Cmd (nat * bool) :=
  engine workspace;;
  items ← said (calling workspace (λ _, Engine.item_ids (wi_id workspace) Current));
  session ← said (calling workspace (λ _, Engine.session_view (wi_id workspace)));
  mret (length items, bool_decide (is_Some session)).

Fixpoint check_each (workspaces : list WorkspaceInfo) (c : Checks) : Cmd Checks :=
  match workspaces with
  | [] => mret c
  | workspace :: rest =>
      opened ← attempted (looked_at workspace);
      check_each rest (match opened with
        | Ok (items, open) => step true (WorkspaceOpened (wi_name workspace) items open) c
        | Err e => step false (WorkspaceFailed e) c
        | _ => c
        end)
  end.

Definition known (workspaces : list WorkspaceInfo) : list string := map (λ w, text (wi_id w)) workspaces.
Definition check_strays (workspaces : list WorkspaceInfo) (names : list string) (c : Checks) : Checks :=
  fold_left (λ c name, if bool_decide (name ∈ known workspaces) then c else step false (Stray name) c) names c.

Definition check_tls (c : Checks) : Checks :=
  match mode (listen config), tls config with
  | TlsMode, None => note NoTlsYet c
  | TlsMode, Some tls => fold_left (λ c file, if is_file file then c else note (NotThereYet file) c) [cert_file tls; key_file tls] c
  | PlainMode, _ => c
  end.

Definition checked : Cmd Checks :=
  let c := check_data (mkChecks [(IsOk, ConfigurationRead)] 0) in
  found ← attempted (control;; on_ctl (Control.on_db Control.workspaces));
  c ← match found with
    | Ok workspaces =>
        c ← check_each workspaces (step true (ControlOpened (length workspaces)) c);
        names ← gets (λ W, dir_names (w_shelves W));
        mret (check_strays workspaces names c)
    | Err e => mret (step false (ControlFailed e) c)
    | _ => mret c
    end;
  mret (check_tls c).

(** ** The program

    [owner::check]: of [me], who runs it, and of the owner of the data
    directory, each if it can be told. *)
Context (me owner : option N).

Definition same_owner (me owner : N) : outcome Failure unit := if (me =? owner)%N then Ok () else Err (NotTheOwner me owner).
Definition owned : outcome Failure unit :=
  owner ← ok_or NoDataDirectory owner;
  me ← ok_or NobodyKnown me;
  same_owner me owner.

Definition Program (A : Type) : Type := M Failure (World C Sh RS) A.
Definition failing {A} (m : Cmd A) : Program A := λ W, let '(x, W) := m W in (map_err CommandFailed x, W).

Definition check : Program Printed :=
  c ← failing checked;
  if (failed c =? 0)%nat then mret (Checked c) else throw (ChecksFailed c).

Definition run (command : Subcommand.t) : Program Printed :=
  lift owned;;
  match command with
  | Subcommand.Workspace command => failing (workspace command)
  | Subcommand.Key command => failing (key command)
  | Subcommand.Rewrite command => failing (rewrite command)
  | Subcommand.Audit limit => failing (audit limit)
  | Subcommand.Check => check
  end.
End commands.
