(* ===== verification/Handlers.v ===== *)
(** One handler per operation of the API ([handlers/]): what a request asks
    for, which calls of the core it makes, in which order and for whom, and
    what it is answered.

    JSON is read and written by third-party code: a request is what its path,
    query, headers and body say once they are decoded, and a body is the
    structure that is written.  [raw] is [RawValue::from_string], which keeps
    the bytes of a JSON document and of nothing else. *)

From stdpp Require Import pretty.
From S2P Require Import Prelude Text Errors Random Ids Shelf Records Effects Rules Workspace Upload Rewrite Ledger Engine Operations.
From S2P Require Import Auth Database Sqlite Control Rate Clock Config Bridge Engines.

(** ** Requests *)

Inductive Which := OfCurrent | OfPlain | OfStaged.

Inductive Request :=
| GetViewer
| GetWorkspace
| PostProbe
| PostCleanStaging (older_than_secs : N)
| ListItems (bound : option string) (partition : Which)
| ListItemIds (bound : option string) (partition : Which)
| ResolveTyped (input : string)
| FindByKey (content_key : string)
| GetItem (id : string) (partition : Which)
| DeleteOne (id : string) (partition : Which) (expected_key_id : option string)
| GetContent (id : string) (partition : Which) (range : option string)
| PostUpload (id : string) (meta : list byte) (size : string) (expected_key_id : option string) (staged : bool)
| PutContent (upload : string) (length : option string) (body : Reader)
| PostCommit (upload : string)
| DeleteUpload (upload : string)
| PutEncryption (key_id : string) (header : list byte)
| PostFreshStart (key_id : string) (header : list byte)
| PutHeader (expected_key_id : string) (header : list byte)
| GetRewrite
| PostRewrite (kind : RewriteKind) (expected_key_id : option string) (new_key_id : string) (new_header : list byte)
| PostHeartbeat
| PostTakeOver
| PostCommitRewrite (new_key_id : string)
| PostAbortRewrite (new_key_id : string)
| Undecodable (too_large : bool).

(** ** Answers *)

(** An [ApiError] on its way out ([problem.rs]). *)
Record Problem := mkProblem {
  p_error : ApiError;
  p_status : option N;
  p_lease_expires_at : option N;
  p_retry_after : option N;
}.

Definition problem (e : ApiError) : Problem := mkProblem e None None None.
Definition with_status (status : N) (p : Problem) : Problem :=
  mkProblem (p_error p) (Some status) (p_lease_expires_at p) (p_retry_after p).
Definition with_lease (at_ : option N) (p : Problem) : Problem :=
  mkProblem (p_error p) (p_status p) at_ (p_retry_after p).
Definition with_retry (seconds : N) (p : Problem) : Problem :=
  mkProblem (p_error p) (p_status p) (p_lease_expires_at p) (Some seconds).

Record ItemOut := mkItemOut {
  io_id : string;
  io_meta : option (list byte);
  io_stored_bytes : string;
  io_received_at : string;
}.

Record OutcomeOut := mkOutcomeOut { oo_item : option ItemOut; oo_created : bool }.

Record SessionOut := mkSessionOut {
  so_kind : string;
  so_holder : string;
  so_lease_expires_at : string;
  so_new_key_id : string;
  so_new_header : option (list byte);
  so_staged_ids : list string;
  so_source_items : nat;
}.

Record EncryptionOut := mkEncryptionOut {
  eo_state : string;
  eo_key_id : option string;
  eo_header : option (list byte);
  eo_rewrite : option SessionOut;
}.

Inductive Body :=
| NoContent
| ViewerOut (id label role : string) (expires_at max_item_bytes : option string)
| WorkspaceOut (name quota_bytes used_bytes : string) (item_count : nat) (encryption : EncryptionOut)
| RemovedOut (removed : nat)
| ItemsOut (items : list ItemOut)
| IdsOut (ids : list string)
| OneItem (item : ItemOut)
| ResolvedOut (id : string)
| AmbiguousOut (candidates : list string)
| NotFoundOut
| InvalidPrefixOut
| TicketOut (upload_id expires_at : string)
| StoredOut (outcome : OutcomeOut)
| EncryptionBody (e : EncryptionOut)
| SessionBody (s : SessionOut)
| ContentOut (content : list byte) (length size : N) (range : option (N * N))
| BeyondOut (p : Problem) (size : N)
| ProblemOut (code : string) (title : string) (retry : bool) (lease_expires_at : option string)
    (retry_after : option N) (www_authenticate : bool).

Record Response := mkResponse { status : N; body : Body }.

(** [impl IntoResponse for Problem] *)
Definition into_response (p : Problem) : Response :=
  let status := default (http_status (p_error p)) (p_status p) in
  mkResponse status (ProblemOut (code (p_error p)) (error_text (p_error p)) (retryable (p_error p))
    (rfc3339 <$> p_lease_expires_at p) (p_retry_after p) (status =? 401)%N).

Definition role_out (r : Role) : string := match r with ReadWrite => "readWrite" | ReadOnly => "readOnly" end.

Section out.
Context (raw : list byte → option (list byte)).

Definition item_json (id : ItemId) (item : StoredItem) : ItemOut :=
  mkItemOut (text id) (raw (meta (envelope item))) (pretty (item_size item)) (rfc3339 (received_at (envelope item))).

Definition session_json (s : SessionView) : SessionOut := {|
  so_kind := match sv_kind s with Migrate => "migrate" | Rotate => "rotate" end;
  so_holder := api_key_str (sv_holder s);
  so_lease_expires_at := rfc3339 (sv_lease_expires_at s);
  so_new_key_id := text (sv_new_key_id s);
  so_new_header := raw (sv_new_header s);
  so_staged_ids := map text (sv_staged_ids s);
  so_source_items := sv_source_items s;
|}.

Definition encryption_json (v : EncryptionView) : EncryptionOut := {|
  eo_state := match ev_state v with Plaintext => "plaintext" | Sealed => "sealed" | InRewrite => "rewriting" end;
  eo_key_id := text <$> ev_key_id v;
  eo_header := ev_header v ≫= raw;
  eo_rewrite := session_json <$> ev_rewrite v;
|}.
End out.

(** ** What the handlers share *)

(** [option.map(parse).transpose()] *)
Definition opt_parse {A} (parse : string → outcome ApiError A) (x : option string) : outcome ApiError (option A) :=
  match x with Some s => a ← parse s; Ok (Some a) | None => Ok None end.

Definition parse_after (x : option string) : outcome ApiError (option ItemId) := opt_parse ItemId.parse x.

(** A header must be a JSON object. *)
Definition header_bytes (header : list byte) : outcome ApiError (list byte) :=
  match header with
  | Byte.x7b :: _ => Ok header
  | _ => Err (InvalidRequest "a header is a JSON object")
  end.

(** [matches!(b, b'0'..=b'9' | b'a'..=b'f')] twelve times *)
Definition is_content_key (s : string) : bool := (String.length s =? 12) && all_bytes is_hex_byte s.

Section Handlers.
Context {C X Sh RS : Type} `{Ext : Externals} `{Db : !Database C X} `{S : !ItemShelf Sh} `{Disk : !ShelfDisk Sh}
  `{Random : !RandomSource RS}.
Context (config : Config) (clock : nat → N) (fuel : nat) (raw : list byte → option (list byte)).
Context (who : Authenticated).

#[local] Abbreviation Call := (Srv (C := C) (Sh := Sh) (RS := RS)) (only parsing).
#[local] Abbreviation Answer := (M Problem (World C Sh RS) Response) (only parsing).

Definition ws : WorkspaceId := au_workspace who.
Definition me : Caller := au_caller who.

Definition engine {A} (m : Env → Engine.Do (Sh := Sh) (L := SqliteLedger C) (RS := RS) A) : Call A := on_engine clock fuel ws m.
Definition get_engine : Call unit := Engines.get config clock fuel ws.

(** [state.blocking(..).await?]: an error becomes a problem. *)
Definition blocking {A} (m : Call A) : M Problem (World C Sh RS) A := λ W,
  match m W with
  | (Ok a, W) => (Ok a, W)
  | (Err e, W) => (Err (problem e), W)
  | (Killed, W) => (Killed, W)
  | (Spinning, W) => (Spinning, W)
  end.

(** [.ok()] *)
Definition try_ {A} (m : Call A) : Call (option A) := λ W,
  match m W with
  | (Ok a, W) => (Ok (Some a), W)
  | (Err _, W) => (Ok None, W)
  | (Killed, W) => (Killed, W)
  | (Spinning, W) => (Spinning, W)
  end.

(** When the open session's lease ends, if that can be told. *)
Definition lease_end : Call (option N) :=
  session ← try_ (engine (λ _, Engine.session_view ws));
  mret (sv_lease_expires_at <$> (session ≫= id)).

(** What an open rewrite refuses says when the session's lease ends. *)
Definition telling_lease {A} (work : Call A) : M Problem (World C Sh RS) A := λ W,
  match work W with
  | (Ok a, W) => (Ok a, W)
  | (Err e, W) =>
      match e with
      | LeaseHeld | RewriteInProgress =>
          match lease_end W with
          | (Ok lease, W) => (Err (with_lease lease (problem e)), W)
          | (Err _, W) => (Err (problem e), W)
          | (Killed, W) => (Killed, W)
          | (Spinning, W) => (Spinning, W)
          end
      | _ => (Err (problem e), W)
      end
  | (Killed, W) => (Killed, W)
  | (Spinning, W) => (Spinning, W)
  end.

Definition in_workspace {A} (work : Call A) : M Problem (World C Sh RS) A :=
  blocking get_engine;;
  telling_lease work.

Definition answer (status : N) (b : Body) : Answer := mret (mkResponse status b).

(** A staged item, for the holder of the session. *)
Definition staged_item (id : ItemId) : Call StoredItem := engine (λ _, Engine.staged_item ws me id).

(** ** [viewer.rs] *)

Definition get_viewer : Answer :=
  answer 200 (ViewerOut (api_key_str (key me)) (au_label who) (role_out (role me))
    (rfc3339 <$> au_expires_at who) (pretty <$> limit_item_bytes (limits_section config))).

Definition limits_now : Call Limits := λ W,
  (ok_or ServiceUnavailable (w_open W !! ws), W).

Definition get_workspace : Answer :=
  out ← blocking (
    get_engine;;
    info ← on_control (Control.workspace_by_id ws);
    info ← lift (ok_or NotFound info);
    limits ← limits_now;
    used ← engine (λ _, Engine.used_bytes ws);
    ids ← engine (λ _, Engine.item_ids ws Current);
    view ← engine (λ _, Engine.encryption ws);
    mret (WorkspaceOut (wi_name info) (pretty (quota_bytes limits)) (pretty used) (length ids)
      (encryption_json raw view)));
  answer 200 out.

Definition probe_write : Answer :=
  blocking (get_engine;; engine (λ E, Engine.probe_write ws me));;
  answer 204 NoContent.

(** The client's age is accepted and not used: the server's own rule decides. *)
Definition clean_staging : Answer :=
  removed ← blocking (
    match role me with
    | ReadOnly => throw ForbiddenRole
    | ReadWrite => get_engine;; engine (λ E, Engine.clean_staging ws E)
    end);
  answer 200 (RemovedOut removed).

(** ** [items.rs] *)

Fixpoint collect_items (after : option ItemId) (ids : list ItemId) : Call (list (ItemId * StoredItem)) :=
  match ids with
  | [] => mret []
  | id :: ids =>
      if match after with None => true | Some after => bool_decide (key_lt after id) end
      then item ← staged_item id; rest ← collect_items after ids; mret ((id, item) :: rest)
      else collect_items after ids
  end.

Definition list_items (after : option string) (partition : Which) : Answer :=
  items ← blocking (
    get_engine;;
    after ← lift (parse_after after);
    listed ← match partition with
      | OfCurrent => engine (λ _, Engine.items_after ws Current after)
      | OfPlain => engine (λ _, Engine.items_after ws Plain after)
      | OfStaged => ids ← engine (λ _, Engine.staged_item_ids ws me); collect_items after ids
      end;
    mret (map (λ e : ItemId * StoredItem, item_json raw e.1 e.2) listed));
  answer 200 (ItemsOut items).

Definition list_item_ids (after : option string) (partition : Which) : Answer :=
  ids ← blocking (
    get_engine;;
    after ← lift (parse_after after);
    ids ← match partition with
      | OfCurrent => engine (λ _, Engine.item_ids_after ws Current after)
      | OfPlain => engine (λ _, Engine.item_ids_after ws Plain after)
      | OfStaged => engine (λ _, Engine.staged_item_ids ws me)
      end;
    mret (map text (match partition, after with
      | OfStaged, Some after => List.filter (λ id, bool_decide (key_lt after id)) ids
      | _, _ => ids
      end)));
  answer 200 (IdsOut ids).

Definition item_in (id : ItemId) (partition : Which) : Call (option StoredItem) :=
  match partition with
  | OfCurrent => engine (λ _, Engine.item ws Current id)
  | OfPlain => engine (λ _, Engine.item ws Plain id)
  | OfStaged => item ← staged_item id; mret (Some item)
  end.

Definition get_item (id : string) (partition : Which) : Answer :=
  out ← blocking (
    get_engine;;
    id ← lift (ItemId.parse id);
    item ← item_in id partition;
    item ← lift (ok_or NotFound item);
    mret (item_json raw id item));
  answer 200 (OneItem out).

Definition find_by_content_key (content_key : string) : Answer :=
  out ← blocking (
    if negb (is_content_key content_key) then throw (InvalidId "not a content key") else
    get_engine;;
    id ← engine (λ _, Engine.find_by_content_key ws content_key);
    id ← lift (ok_or NotFound id);
    item ← engine (λ _, Engine.item ws Current id);
    item ← lift (ok_or NotFound item);
    mret (item_json raw id item));
  answer 200 (OneItem out).

Definition resolve_item (input : string) : Answer :=
  found ← blocking (get_engine;; engine (λ _, Engine.resolve_item ws input));
  answer 200 (match found with
    | ResolvedId id => ResolvedOut (text id)
    | Ambiguous candidates => AmbiguousOut (map text candidates)
    | ResolvedNotFound => NotFoundOut
    | InvalidPrefix => InvalidPrefixOut
    end).

Definition delete_item (id : string) (partition : Which) (expected_key_id : option string) : Answer :=
  out ← in_workspace (
    id ← lift (ItemId.parse id);
    partition ← match partition with
      | OfCurrent => mret Current
      | OfPlain => mret Plain
      | OfStaged => throw (InvalidRequest "a staged item is dropped with its rewrite, not deleted")
      end;
    expected ← lift (opt_parse KeyId.parse expected_key_id);
    gone ← engine (λ E, Engine.delete_item ws E me partition id expected);
    mret (item_json raw id gone));
  answer 200 (OneItem out).

(** What [get_item_content] finds: the content from the range's first byte on,
    and how much of it is sent; or the size that the range lies beyond. *)
Definition open_range (id : string) (partition : Which) (range : option string)
    : Call (list byte * N * option (N * N) * N + N) :=
  get_engine;;
  id ← lift (ItemId.parse id);
  item ← item_in id partition;
  item ← lift (ok_or NotFound item);
  let size := item_size item in
  match one_range range size with
  | Ok range =>
      let '(first, last) := default (0%N, ssub size 1) range in
      content ← match partition with
        | OfCurrent => engine (λ _, Engine.item_content_from ws Current id first)
        | OfPlain => engine (λ _, Engine.item_content_from ws Plain id first)
        | OfStaged => c ← engine (λ _, Engine.staged_item_content_from ws me id first); mret (Some c)
        end;
      content ← lift (ok_or NotFound content);
      let length := if (size =? 0)%N then 0%N else wadd (wsub last first) 1 in
      mret (inl (content, size, range, length))
  | _ => mret (inr size)
  end.

(** The body is streamed by [stream_out]; what it sends when it is read to its
    end is the first [length] bytes. *)
Definition get_item_content (id : string) (partition : Which) (range : option string) : Answer :=
  opened ← blocking (open_range id partition range);
  match opened with
  | inr size =>
      answer 416 (BeyondOut (with_status 416 (problem (InvalidRequest "the range lies beyond the content"))) size)
  | inl (content, size, range, length) =>
      answer (match range with Some _ => 206%N | None => 200%N end)
        (ContentOut (take (N.to_nat length) content) length size range)
  end.

(** ** [uploads.rs] *)

Definition outcome_json (out : PutOutcome) : Call OutcomeOut :=
  get_engine;;
  staged ← (if out_staged out then try_ (staged_item (out_id out)) else mret None);
  item ← match staged with
    | Some item => mret (Some item)
    | None => engine (λ _, Engine.item ws Current (out_id out))
    end;
  mret (mkOutcomeOut (item_json raw (out_id out) <$> item) (created out)).

Definition begin_upload (id : string) (meta : list byte) (size : string) (expected_key_id : option string)
    (staged : bool) : Answer :=
  answered ← in_workspace (
    id ← lift (ItemId.parse id);
    size ← lift (ok_or (InvalidRequest "`size` is a byte count, as a string of digits") (parse_u64 size));
    expected ← lift (opt_parse KeyId.parse expected_key_id);
    begun ← engine (λ E, Engine.begin_upload ws E me (mkUploadRequest id meta size expected staged));
    match begun with
    | BegunTicket t => mret (mkResponse 201 (TicketOut (text (ticket_upload_id t)) (rfc3339 (ticket_until t))))
    | BegunStored out => out ← outcome_json out; mret (mkResponse 200 (StoredOut out))
    end);
  mret answered.

Definition put_upload_content (upload : string) (length : option string) (body : Reader) : Answer :=
  upload ← blocking (lift (UploadId.parse upload));
  awaited ← blocking (get_engine;; engine (λ E, Engine.upload_state ws E me upload));
  match awaited with
  | Finished => answer 204 NoContent
  | Awaiting announced =>
      if bool_decide (length ≫= parse_u64 = Some announced) then
        blocking (get_engine;; engine (λ E, Engine.put_upload_content ws E me upload body));;
        answer 204 NoContent
      else throw (problem ContentMismatch)
  end.

Definition commit_upload (upload : string) : Answer :=
  upload ← blocking (lift (UploadId.parse upload));
  out ← in_workspace (
    out ← engine (λ E, Engine.commit_upload ws E me upload);
    outcome_json out);
  answer 200 (StoredOut out).

Definition abort_upload (upload : string) : Answer :=
  upload ← blocking (lift (UploadId.parse upload));
  blocking (get_engine;; engine (λ E, Engine.abort_upload ws E me upload));;
  answer 204 NoContent.

(** ** [rewrite.rs] *)

Definition enable_encryption (key_id : string) (header : list byte) : Answer :=
  view ← in_workspace (
    header ← lift (header_bytes header);
    k ← lift (KeyId.parse key_id);
    engine (λ E, Engine.enable_encryption ws E me k header));
  answer 200 (EncryptionBody (encryption_json raw view)).

Definition fresh_start (key_id : string) (header : list byte) : Answer :=
  view ← in_workspace (
    header ← lift (header_bytes header);
    k ← lift (KeyId.parse key_id);
    engine (λ E, Engine.fresh_start ws E me k header));
  answer 200 (EncryptionBody (encryption_json raw view)).

Definition replace_header (expected_key_id : string) (header : list byte) : Answer :=
  view ← in_workspace (
    header ← lift (header_bytes header);
    k ← lift (KeyId.parse expected_key_id);
    engine (λ E, Engine.replace_header ws E me k header));
  answer 200 (EncryptionBody (encryption_json raw view)).

Definition get_rewrite : Answer :=
  session ← in_workspace (
    session ← engine (λ _, Engine.session_view ws);
    lift (ok_or NotFound session));
  answer 200 (SessionBody (session_json raw session)).

Definition begin_rewrite (kind : RewriteKind) (expected_key_id : option string) (new_key_id : string)
    (new_header : list byte) : Answer :=
  session ← in_workspace (
    expected ← lift (opt_parse KeyId.parse expected_key_id);
    k ← lift (KeyId.parse new_key_id);
    header ← lift (header_bytes new_header);
    engine (λ E, Engine.begin_rewrite ws E me (mkRewriteRequest kind expected k header)));
  answer 201 (SessionBody (session_json raw session)).

Definition heartbeat_rewrite : Answer :=
  session ← in_workspace (engine (λ E, Engine.heartbeat_rewrite ws E me));
  answer 200 (SessionBody (session_json raw session)).

Definition take_over_rewrite : Answer :=
  session ← in_workspace (engine (λ E, Engine.take_over_rewrite ws E me));
  answer 200 (SessionBody (session_json raw session)).

Definition commit_rewrite (new_key_id : string) : Answer :=
  view ← in_workspace (
    k ← lift (KeyId.parse new_key_id);
    engine (λ E, Engine.commit_rewrite ws E me k));
  answer 200 (EncryptionBody (encryption_json raw view)).

Definition abort_rewrite (new_key_id : string) : Answer :=
  view ← in_workspace (
    k ← lift (KeyId.parse new_key_id);
    engine (λ E, Engine.abort_rewrite ws E me k));
  answer 200 (EncryptionBody (encryption_json raw view)).

(** ** The router's table *)

Definition handle (r : Request) : Answer :=
  match r with
  | GetViewer => get_viewer
  | GetWorkspace => get_workspace
  | PostProbe => probe_write
  | PostCleanStaging _ => clean_staging
  | ListItems bound partition => list_items bound partition
  | ListItemIds bound partition => list_item_ids bound partition
  | ResolveTyped input => resolve_item input
  | FindByKey content_key => find_by_content_key content_key
  | GetItem id partition => get_item id partition
  | DeleteOne id partition expected => delete_item id partition expected
  | GetContent id partition range => get_item_content id partition range
  | PostUpload id meta size expected staged => begin_upload id meta size expected staged
  | PutContent upload length body => put_upload_content upload length body
  | PostCommit upload => commit_upload upload
  | DeleteUpload upload => abort_upload upload
  | PutEncryption k header => enable_encryption k header
  | PostFreshStart k header => fresh_start k header
  | PutHeader k header => replace_header k header
  | GetRewrite => get_rewrite
  | PostRewrite kind expected k header => begin_rewrite kind expected k header
  | PostHeartbeat => heartbeat_rewrite
  | PostTakeOver => take_over_rewrite
  | PostCommitRewrite k => commit_rewrite k
  | PostAbortRewrite k => abort_rewrite k
  | Undecodable too_large =>
      throw ((if too_large then with_status 413 else id) (problem (InvalidRequest "the body is not what this operation takes")))
  end.
End Handlers.
