(* ===== verification/Server.v ===== *)
(** The server ([server.rs], [auth.rs], [routes.rs]): from a request's headers
    to its answer.  What a request may reach is decided by the bearer layer
    alone; everything after it acts in the key's workspace, for the key's
    caller, and keeps what is stored sound. *)

From stdpp Require Import pretty.
From S2P Require Import Prelude Text Errors Random Ids Shelf Records Effects Rules Workspace Upload Rewrite Ledger Engine Operations Safety Sessions.
From S2P Require Import Auth Database Sqlite Control Keys Rate Clock Config Bridge Engines Handlers.

(** ** Routes *)

Record Route := mkRoute { operation : string; method : string; route_path : string }.

Definition ROUTES : list Route := [
  mkRoute "healthz" "GET" "/healthz";
  mkRoute "readyz" "GET" "/readyz";
  mkRoute "getViewer" "GET" "/v1/viewer";
  mkRoute "getWorkspace" "GET" "/v1/workspace";
  mkRoute "probeWrite" "POST" "/v1/workspace/probe";
  mkRoute "cleanStaging" "POST" "/v1/workspace/clean-staging";
  mkRoute "listItems" "GET" "/v1/items";
  mkRoute "listItemIds" "GET" "/v1/item-ids";
  mkRoute "resolveItem" "GET" "/v1/items/resolve";
  mkRoute "findByContentKey" "GET" "/v1/content-keys/{contentKey}";
  mkRoute "getItem" "GET" "/v1/items/{id}";
  mkRoute "deleteItem" "DELETE" "/v1/items/{id}";
  mkRoute "getItemContent" "GET" "/v1/items/{id}/content";
  mkRoute "beginUpload" "POST" "/v1/uploads";
  mkRoute "putUploadContent" "PUT" "/v1/uploads/{uploadId}/content";
  mkRoute "commitUpload" "POST" "/v1/uploads/{uploadId}/commit";
  mkRoute "abortUpload" "DELETE" "/v1/uploads/{uploadId}";
  mkRoute "enableEncryption" "PUT" "/v1/workspace/encryption";
  mkRoute "freshStart" "POST" "/v1/workspace/encryption/fresh-start";
  mkRoute "replaceHeader" "PUT" "/v1/workspace/encryption/header";
  mkRoute "getRewrite" "GET" "/v1/rewrite";
  mkRoute "beginRewrite" "POST" "/v1/rewrite";
  mkRoute "heartbeatRewrite" "POST" "/v1/rewrite/heartbeat";
  mkRoute "takeOverRewrite" "POST" "/v1/rewrite/take-over";
  mkRoute "commitRewrite" "POST" "/v1/rewrite/commit";
  mkRoute "abortRewrite" "POST" "/v1/rewrite/abort"
].

Definition operation_of (m matched : string) : option string :=
  operation <$> List.find (λ r, String.eqb (method r) m && String.eqb (route_path r) matched) ROUTES.

(** No two operations are one route. *)
Example routes_are_distinct :
  Forall (λ r, operation_of (method r) (route_path r) = Some (operation r)) ROUTES ∧ NoDup (operation <$> ROUTES).
Proof. split; [repeat constructor|apply (bool_decide_unpack _); vm_compute; exact I]. Qed.

(** The router's own list: a path, and the handler of each of its methods by
    its name. *)
Definition health_routes : list (string * list (string * string)) := [
  ("/healthz", [("GET", "healthz")]);
  ("/readyz", [("GET", "readyz")])
].
Definition v1_routes (panic_route : bool) : list (string * list (string * string)) := [
  ("/v1/viewer", [("GET", "get_viewer")]);
  ("/v1/workspace", [("GET", "get_workspace")]);
  ("/v1/workspace/probe", [("POST", "probe_write")]);
  ("/v1/workspace/clean-staging", [("POST", "clean_staging")]);
  ("/v1/items", [("GET", "list_items")]);
  ("/v1/item-ids", [("GET", "list_item_ids")]);
  ("/v1/items/resolve", [("GET", "resolve_item")]);
  ("/v1/content-keys/{contentKey}", [("GET", "find_by_content_key")]);
  ("/v1/items/{id}", [("GET", "get_item"); ("DELETE", "delete_item")]);
  ("/v1/items/{id}/content", [("GET", "get_item_content")]);
  ("/v1/uploads", [("POST", "begin_upload")]);
  ("/v1/uploads/{uploadId}/content", [("PUT", "put_upload_content")]);
  ("/v1/uploads/{uploadId}/commit", [("POST", "commit_upload")]);
  ("/v1/uploads/{uploadId}", [("DELETE", "abort_upload")]);
  ("/v1/workspace/encryption", [("PUT", "enable_encryption")]);
  ("/v1/workspace/encryption/fresh-start", [("POST", "fresh_start")]);
  ("/v1/workspace/encryption/header", [("PUT", "replace_header")]);
  ("/v1/rewrite", [("GET", "get_rewrite"); ("POST", "begin_rewrite")]);
  ("/v1/rewrite/heartbeat", [("POST", "heartbeat_rewrite")]);
  ("/v1/rewrite/take-over", [("POST", "take_over_rewrite")]);
  ("/v1/rewrite/commit", [("POST", "commit_rewrite")]);
  ("/v1/rewrite/abort", [("POST", "abort_rewrite")])
] ++ (if panic_route then [("/v1/test-panic", [("GET", "test_panic")])] else []).
Definition router (panic_route : bool) : list (string * list (string * string)) :=
  health_routes ++ v1_routes panic_route.

(** What becomes of a request: it goes to a handler; its path is there, but not
    for its method, which axum answers itself; or its path is not there.  A GET
    route serves HEAD too. *)
Inductive Dispatched := ToHandler (name : string) | OtherMethod | NoRoute.
Definition served_as (m : string) : string := if String.eqb m "HEAD" then "GET" else m.
Definition of_path (m : string) (methods : list (string * string)) : Dispatched :=
  match List.find (λ r, String.eqb r.1 (served_as m)) methods with Some r => ToHandler r.2 | None => OtherMethod end.
Definition dispatch (panic_route : bool) (m : string) (matched : option string) : Dispatched :=
  match matched ≫= λ path, List.find (λ r, String.eqb r.1 path) (router panic_route) with
  | Some r => of_path m r.2
  | None => NoRoute
  end.

(** The name an operation has in the contract, from that of its handler. *)
Fixpoint camel (s : string) : string :=
  match s with
  | String "_" (String c s) => String (ascii_of_N (N_of_ascii c - 32)) (camel s)
  | String c s => String c (camel s)
  | EmptyString => EmptyString
  end.

(** Two lists of the same routes: one grouped by path, one not. *)
Definition spread (rs : list (string * list (string * string))) : list Route :=
  rs ≫= λ r, map (λ h, mkRoute (camel h.2) h.1 r.1) r.2.
Lemma spread_router : spread (router false) = ROUTES.
Proof. reflexivity. Qed.

Lemma find_methods (m p path : string) methods :
  List.find (λ r, String.eqb (method r) m && String.eqb (route_path r) path)
    (map (λ h, mkRoute (camel h.2) h.1 p) methods) =
  if String.eqb p path then (λ h, mkRoute (camel h.2) h.1 p) <$> List.find (λ h, String.eqb h.1 m) methods else None.
Proof.
  induction methods as [|[m' h] methods IH]; cbn; [by destruct (String.eqb p path)|].
  rewrite IH. by destruct (String.eqb m' m), (String.eqb p path).
Qed.
Lemma find_some_app {A} (f : A → bool) l k :
  List.find f (l ++ k) = match List.find f l with Some x => Some x | None => List.find f k end.
Proof. induction l as [|x l IH]; [done|]. cbn. by destruct (f x). Qed.

Lemma find_spread (m path : string) rs : NoDup rs.*1 →
  List.find (λ r, String.eqb (method r) m && String.eqb (route_path r) path) (spread rs) =
  r ← List.find (λ r, String.eqb r.1 path) rs;
  (λ h, mkRoute (camel h.2) h.1 path) <$> List.find (λ h, String.eqb h.1 m) r.2.
Proof.
  induction rs as [|[p methods] rs IH]; [done|]. intros [Hp Hnd]%NoDup_cons.
  change (spread ((p, methods) :: rs)) with (map (λ h, mkRoute (camel h.2) h.1 p) methods ++ spread rs).
  cbn [List.find fst].
  rewrite find_some_app, find_methods, (IH Hnd). destruct (String.eqb_spec p path) as [->|]; cbn [mbind option_bind snd].
  2: reflexivity.
  destruct (List.find (λ h, String.eqb h.1 m) methods); [done|]. cbn.
  destruct (List.find _ rs) as [r|] eqn:Hr; [|done]. exfalso.
  apply List.find_some in Hr as [Hin <-%String.eqb_eq]. apply Hp.
  change (r.1 ∈ rs.*1). apply list_elem_of_fmap_2. by apply list_elem_of_In.
Qed.

(** The table and the router are one list: whatever the method and the path,
    the operation a request is logged as is the handler that the router takes
    it to.  Only HEAD, which the GET routes serve as well, has no operation. *)
Theorem the_table_is_the_router (m path : string) :
  m ≠ "HEAD" →
  operation_of m path = match dispatch false m (Some path) with ToHandler name => Some (camel name) | _ => None end.
Proof.
  intros Hm. unfold operation_of. rewrite <- spread_router, find_spread by (apply (bool_decide_unpack _); vm_compute; exact I).
  unfold dispatch, of_path, served_as. cbn [mbind option_bind]. rewrite (proj2 (String.eqb_neq m "HEAD") Hm).
  destruct (List.find _ (router false)) as [[p methods]|]; [|done]. cbn [snd mbind option_bind].
  by destruct (List.find _ methods) as [[]|].
Qed.

Example requests_are_dispatched :
  dispatch false "DELETE" (Some "/v1/viewer") = OtherMethod ∧ dispatch false "GET" None = NoRoute ∧
  dispatch false "HEAD" (Some "/v1/items") = ToHandler "list_items" ∧ operation_of "HEAD" "/v1/items" = None.
Proof. repeat split. Qed.

(** ** Around the handlers *)

(** An id a client sent is kept when it could not hurt a log. *)
Definition is_alphanumeric (c : ascii) : bool :=
  let n := N_of_ascii c in is_digit c || is_lowercase c || ((65 <=? n) && (n <=? 90))%N.
Definition plausible (id : string) : bool :=
  (1 <=? String.length id) && (String.length id <=? 64)
  && all_bytes (λ b, is_alphanumeric b || Ascii.eqb b "." || Ascii.eqb b "-" || Ascii.eqb b "_") id.

Definition new_request_id {RS} `{RandomSource RS} (rng : RS) : string * RS :=
  let '(bytes, rng) := fill 16 rng in (hex bytes, rng).

(** The id a request goes by. *)
Definition request_id {RS} `{RandomSource RS} (header : option string) (rng : RS) : string * RS :=
  match header ≫= λ id, if plausible id then Some id else None with
  | Some id => (id, rng)
  | None => new_request_id rng
  end.

(** What is asked for: an operation with its parameters, or something that is
    dispatched to no handler. *)
Inductive Asked := Operation (r : Request) | Elsewhere (d : Dispatched).

(** What arrives: from where, with which headers, and what it asks for. *)
Record Arrival := mkArrival {
  peer : option IpAddr;
  forwarded : list (option string);
  authorization : option string;
  asks_for : Asked;
}.

Definition bearer (q : Arrival) : option string :=
  header ← authorization q;
  token ← strip_prefix "Bearer " header;
  let token := trim token in
  if String.eqb token "" then None else Some token.

Section Server.
Context {C X Sh RS : Type} `{Ext : Externals} `{Db : !Database C X} `{S : !ItemShelf Sh} `{Disk : !ShelfDisk Sh}
  `{Random : !RandomSource RS}.
Context (config : Config) (clock : nat → N) (fuel : nat) (raw : list byte → option (list byte)).
(** [str::parse::<IpAddr>], and whether the data directory is there. *)
Context (parse_ip : string → option IpAddr) (is_dir : string → bool).
#[local] Abbreviation Wd := (World C Sh RS) (only parsing).
#[local] Abbreviation Layered A := (M Problem (World C Sh RS) A) (only parsing).

Definition tell_time : Layered N := λ W,
  (Ok (clock (w_ticks W)), mkWorld (w_db W) (w_shelves W) (w_open W) (w_random W) (Datatypes.S (w_ticks W)) (w_failures W)).

Definition set_failures (l : FailureLimiter) (W : Wd) : Wd :=
  mkWorld (w_db W) (w_shelves W) (w_open W) (w_random W) (w_ticks W) l.

Definition on_limiter {A} (f : FailureLimiter → A * FailureLimiter) : Layered A := λ W,
  let '(a, l) := f (w_failures W) in (Ok a, set_failures l W).

Definition authenticate (token : string) : Srv (C := C) (Sh := Sh) (RS := RS) Authenticated := λ W,
  let '(y, s) := Control.authenticate clock token (mkControl (w_db W) (w_random W) (w_ticks W)) in
  (y, mkWorld (db s) (w_shelves W) (w_open W) (control_rng s) (control_ticks s) (w_failures W)).

(** How long the address must wait, if it must. *)
Definition limited (address : option IpAddr) : Layered (option N) :=
  match address with
  | None => mret None
  | Some address =>
      now ← tell_time;
      on_limiter (FailureLimiter.limited address now)
  end.

(** A guess is counted. *)
Definition guessed (address : option IpAddr) : Layered unit :=
  match address with
  | None => mret ()
  | Some address =>
      now ← tell_time;
      on_limiter (λ l, ((), FailureLimiter.failed address now l))
  end.

(** A refused token: only one that is not a key of this server was a guess. *)
Definition refuse (address : option IpAddr) (refusal : ApiError) : Layered Authenticated :=
  (if bool_decide (refusal = Unauthenticated) then guessed address else mret ());;
  throw (problem refusal).

Definition recognise (address : option IpAddr) (token : string) : Layered Authenticated := λ W,
  match authenticate token W with
  | (Ok who, W) => (Ok who, W)
  | (Err refusal, W) => refuse address refusal W
  | (Killed, W) => (Killed, W)
  | (Spinning, W) => (Spinning, W)
  end.

(** Who the request is from, before any handler and any body. *)
Definition layer (q : Arrival) : Layered Authenticated :=
  let address := (λ p, client_address parse_ip p (forwarded q) (behind_proxy (listen config))) <$> peer q in
  wait ← limited address;
  match wait with
  | Some wait => throw (with_retry wait (problem RateLimited))
  | None =>
      match bearer q with
      | None => guessed address;; throw (problem Unauthenticated)
      | Some token => recognise address token
      end
  end.

(** axum's answer to a method that a path does not have. *)
Definition method_not_allowed : Response := mkResponse 405 NoContent.

(** A request under [/v1]: the bearer layer is around the fallbacks too, so that
    what exists is not said to those without a key. *)
Definition serve_v1 (q : Arrival) : Layered Response :=
  who ← layer q;
  match asks_for q with
  | Operation r => handle config clock fuel raw who r
  | Elsewhere OtherMethod => mret method_not_allowed
  | Elsewhere _ => throw (problem NotFound)
  end.

Definition serve (q : Arrival) : Wd → option Response * Wd := λ W,
  match serve_v1 q W with
  | (Ok r, W) => (Some r, W)
  | (Err p, W) => (Some (into_response p), W)
  | (_, W) => (None, W)
  end.

Definition healthz : Response := mkResponse 204 NoContent.

Definition readyz : Wd → Response * Wd := λ W,
  match on_control Control.ready W with
  | (Ok _, W) => (mkResponse (if is_dir (data_dir (Config.server config)) then 204 else 503) NoContent, W)
  | (_, W) => (mkResponse 503 NoContent, W)
  end.

(** One pass of the janitor: what fails is logged, and the next one tried. *)
Definition clean_one (w : WorkspaceId) : Srv (C := C) (Sh := Sh) (RS := RS) unit :=
  try_ (Engines.get config clock fuel w;; on_engine clock fuel w (λ E, Engine.clean_staging w E));;
  mret ().

Definition janitor : Srv (C := C) (Sh := Sh) (RS := RS) unit :=
  workspaces ← on_control Control.workspaces;
  for_each workspaces (λ info, clean_one (wi_id info)).
End Server.
