(* ===== verification/Logs.v ===== *)
(** Logging ([telemetry.rs]): which fields of an event are written, and the one
    line the server logs for a request ([outer] of [server.rs]). *)

From stdpp Require Import pretty.
From S2P Require Import Prelude Text Random Config Handlers Server.

(** The only field names that are ever written. *)
Definition ALLOWED_FIELDS : list string := [
  "message"; "action"; "address"; "cleanup"; "err"; "forced"; "from"; "generation"; "generations_corrected"; "holder";
  "item"; "key"; "method"; "mode"; "ms"; "operation"; "path"; "request"; "schema"; "staging_places_removed"; "status";
  "to"; "upload"; "workspace"
].
Definition allowed (name : string) : bool := existsb (String.eqb name) ALLOWED_FIELDS.

(** The levels of the tracing library, by the names it gives them. *)
Inductive LevelFilter := ERROR | WARN | INFO | DEBUG | TRACE.
Definition filter_of (level : LogLevel) : LevelFilter :=
  match level with
  | Config.Error => ERROR
  | Warning => WARN
  | Config.Info => INFO
  | Verbose => DEBUG
  | Debugging => TRACE
  end.

(** What text is written to: it takes a text whole, or fails. *)
Class LogWriter (Wr : Type) := write_str : string → Wr → bool * Wr.

(** How a value shows itself: the texts it hands to the writer, one after the
    other, and whether it ends well if the writer took them all. *)
Record Shown := mkShown { pieces : list string; ends_well : bool }.
Definition display (s : string) : Shown := mkShown [s] true.
Definition debugged (s : string) : Shown := mkShown [debug s] true.

Section visitor.
Context {Wr : Type} `{LogWriter Wr}.

Record ListedVisitor := mkVisitor { writer : Wr; result : bool; first : bool }.

Fixpoint write_all (ps : list string) (w : Wr) : bool * Wr :=
  match ps with
  | [] => (true, w)
  | p :: ps => let '(ok, w) := write_str p w in if ok then write_all ps w else (false, w)
  end.

(** [write!], with the gap and, but for a message, the name before the value. *)
Definition name_of (name : string) : list string := if String.eqb name "message" then [] else [name; "="].
Definition write_field (gap name : string) (value : Shown) (w : Wr) : bool * Wr :=
  let '(ok, w) := write_all (gap :: name_of name ++ pieces value) w in (ok && ends_well value, w).

Definition record_debug (v : ListedVisitor) (field : string * Shown) : ListedVisitor :=
  if negb (result v) || negb (allowed field.1) then v else
  let gap := if first v then "" else " " in
  let '(ok, w) := write_field gap field.1 field.2 (writer v) in
  mkVisitor w ok false.

Definition format_fields (fields : list (string * Shown)) (w : Wr) : bool * Wr :=
  let v := fold_left record_debug fields (mkVisitor w true true) in (result v, writer v).
End visitor.

(** ** What is not listed leaves no trace *)

Definition listed (fields : list (string * Shown)) : list (string * Shown) := base.filter (λ f, allowed f.1 = true) fields.

Lemma record_listed {Wr} `{LogWriter Wr} fields v :
  fold_left record_debug fields v = fold_left record_debug (listed fields) v.
Proof.
  revert v. unfold listed. induction fields as [|f fields IH]; intros v; [done|]. rewrite filter_cons. cbn [fold_left].
  case_decide as Hf; [apply IH|]. rewrite IH. f_equal. unfold record_debug. apply not_true_is_false in Hf.
  by rewrite Hf, orb_true_r.
Qed.

(** What is written, to whatever writer, is a function of the fields on the
    list: the others do not even change where it fails. *)
Theorem what_is_not_listed_leaves_no_trace {Wr} `{LogWriter Wr} (fields fields' : list (string * Shown)) (w : Wr) :
  listed fields = listed fields' → format_fields fields w = format_fields fields' w.
Proof. intros Heq. unfold format_fields. by rewrite record_listed, Heq, <- record_listed. Qed.

(** ** What is listed is written *)

(** What a writer was given is behind what it had; a text that it failed to
    take may be there in part. *)
Class LawfulLogWriter (Wr : Type) `{LogWriter Wr} := {
  written : Wr → string;
  write_str_law s w : let '(ok, w') := write_str s w in
    ∃ t rest, written w' = (written w ++ t)%string ∧ s = (t ++ rest)%string ∧ (ok = true → rest = "");
}.

Definition shown (v : Shown) : string := String.concat "" (pieces v).
Definition field_text (f : string * Shown) : string := (String.concat "" (name_of f.1) ++ shown f.2)%string.
Definition line (fields : list (string * Shown)) : string := join_by " " (map field_text (listed fields)).

Section written.
Context {Wr : Type} `{Law : LawfulLogWriter Wr}.

Lemma write_all_law ps (w : Wr) : let '(ok, w') := write_all ps w in
  ∃ t rest, written w' = (written w ++ t)%string ∧ String.concat "" ps = (t ++ rest)%string ∧ (ok = true → rest = "").
Proof.
  revert w. induction ps as [|p ps IH]; intros w; cbn [write_all]; [exists "", ""; by rewrite str_app_nil|].
  pose proof (write_str_law p w) as Hp. destruct (write_str p w) as [[] w1]; destruct Hp as (t & rest & Hw & Hs & Hr).
  - rewrite (Hr eq_refl), str_app_nil in Hs. subst t. specialize (IH w1). destruct (write_all ps w1) as [ok w2].
    destruct IH as (t & rest' & Hw2 & Hc & Hok). exists (p ++ t)%string, rest'. rewrite Hw2, Hw, concat_cons, Hc, !str_app_assoc.
    done.
  - exists t, (rest ++ String.concat "" ps)%string. by rewrite Hw, concat_cons, Hs, str_app_assoc.
Qed.

(** The text of the fields that follow the first. *)
Definition more (fields : list (string * Shown)) : string :=
  String.concat "" (map (λ f, (" " ++ field_text f)%string) fields).
Definition rest_of (first : bool) (fields : list (string * Shown)) : string :=
  if first then join_by " " (map field_text fields) else more fields.
Lemma rest_of_cons first f fields :
  rest_of first (f :: fields) = ((if first then "" else " ") ++ field_text f ++ more fields)%string.
Proof.
  unfold rest_of, more. destruct first; [|cbn [map]; by rewrite concat_cons, str_app_assoc].
  change ("" ++ ?s)%string with s. revert f. induction fields as [|g fields IH]; intros f; [by rewrite str_app_nil|].
  change (join_by " " (map field_text (f :: g :: fields)))
    with (field_text f ++ String " " (join_by " " (map field_text (g :: fields))))%string.
  rewrite IH. cbn [map]. by rewrite concat_cons.
Qed.

Lemma record_one f (w : Wr) first : allowed f.1 = true →
  record_debug (mkVisitor w true first) f =
  let '(ok, w) := write_field (if first then "" else " ") f.1 f.2 w in mkVisitor w ok false.
Proof. intros Hf. unfold record_debug. cbn [result writer Logs.first negb orb]. by rewrite Hf. Qed.
Lemma record_ended fields (v : ListedVisitor (Wr := Wr)) : result v = false → fold_left record_debug fields v = v.
Proof.
  revert v. induction fields as [|f fields IH]; intros v Hv; [done|]. cbn [fold_left].
  replace (record_debug v f) with v; [by apply IH|]. unfold record_debug. by rewrite Hv.
Qed.

Lemma record_law fields (w : Wr) first : Forall (λ f, allowed f.1 = true) fields →
  let v := fold_left record_debug fields (mkVisitor w true first) in
  ∃ t rest, written (writer v) = (written w ++ t)%string ∧ rest_of first fields = (t ++ rest)%string ∧
    (result v = true → rest = "").
Proof.
  revert w first. induction fields as [|f fields IH]; intros w first Hall; [exists "", ""; rewrite str_app_nil; by destruct first|].
  apply Forall_cons in Hall as [Hf Hall]. cbn [fold_left].
  rewrite record_one by done. unfold write_field. rewrite rest_of_cons. set (gap := if first then "" else " ").
  pose proof (write_all_law (gap :: name_of f.1 ++ pieces f.2) w) as Hw.
  assert (String.concat "" (gap :: name_of f.1 ++ pieces f.2) = (gap ++ field_text f)%string) as Htext.
  { rewrite concat_cons. unfold field_text, shown, name_of.
    destruct (String.eqb f.1 "message"); [done|]. cbn [app]. by rewrite !concat_cons, !str_app_assoc. }
  rewrite Htext in Hw. destruct (write_all _ w) as [ok w1]. destruct Hw as (t & rest & Hw & Hs & Hr).
  destruct (ok && ends_well f.2) eqn:Hok.
  - apply andb_true_iff in Hok as [-> _]. rewrite (Hr eq_refl), str_app_nil in Hs. subst t.
    destruct (IH w1 false Hall) as (t & rest' & Hw2 & Hs2 & Hr2).
    exists ((gap ++ field_text f) ++ t)%string, rest'. split_and!; [by rewrite Hw2, Hw, str_app_assoc| |exact Hr2].
    cbn [rest_of] in Hs2. by rewrite Hs2, !str_app_assoc.
  - rewrite record_ended by done. exists t, (rest ++ more fields)%string. split_and!; [done| |done].
    by rewrite <- str_app_assoc, Hs, str_app_assoc.
Qed.

(** The fields on the list are written as [name=value], a space between
    them and the message without its name; and of that text never more than a
    first part, whatever the writer fails to take or a value fails to show.
    When the answer is that all went well, all of it was written. *)
Theorem a_line_is_written_or_cut_short (fields : list (string * Shown)) (w : Wr) :
  let '(ok, w') := format_fields fields w in
  ∃ t rest, written w' = (written w ++ t)%string ∧ line fields = (t ++ rest)%string ∧ (ok = true → rest = "").
Proof.
  unfold format_fields. rewrite record_listed. apply (record_law (listed fields) w true). apply list.Forall_forall.
  intros f [Hf _]%list_elem_of_filter. exact Hf.
Qed.
End written.

(** ** The line of a request *)

(** Where the bearer layer notes the key. *)
Definition KeySlot : Type := option string.
Definition key_shown (slot : KeySlot) : string := default "-" slot.

(** The fields of the event, the message first. *)
Definition request_fields (id : string) (slot : KeySlot) (m : string) (matched : option string) (status ms : N) :
    list (string * Shown) :=
  let op := default "-" (matched ≫= operation_of m) in [
    ("message", display "request"); ("request", display id); ("key", display (key_shown slot)); ("operation", debugged op);
    ("method", display m); ("status", display (pretty status)); ("ms", display (pretty ms))].

(** [problem::internal]: no detail leaves the server. *)
Definition internal : Response :=
  mkResponse 500 (ProblemOut "INTERNAL" "the server failed; its log says how" true None None false).

(** The outermost layer: a request gets its id, and an answer also when its
    handler panicked, which is the case [None]. *)
Record Answered := mkAnswered { response : Response; x_request_id : string; logged : list (string * Shown) }.
Definition outer {RS} `{RandomSource RS} (header : option string) (m : string) (matched : option string)
    (ran : option Response) (slot : KeySlot) (ms : N) (rng : RS) : Answered * RS :=
  let '(id, rng) := request_id header rng in
  let answer := default internal ran in
  (mkAnswered answer id (request_fields id slot m matched (status answer) ms), rng).

Lemma request_id_plausible {RS} `{RandomSource RS} (header : option string) (rng : RS) :
  plausible (request_id header rng).1 = true.
Proof.
  unfold request_id. destruct (header ≫= _) as [id|] eqn:Hid.
  - destruct header as [id'|]; [|done]. cbn [mbind option_bind] in Hid. destruct (plausible id') eqn:Hp; [|done]. by injection Hid as <-.
  - unfold new_request_id. pose proof (fill_length 16 rng) as Hl. destruct (fill 16 rng) as [bytes rng']. cbn [fst] in *.
    unfold plausible. rewrite length_hex, Hl. cbn [Nat.mul Nat.add Nat.leb andb].
    apply (all_bytes_impl is_hex_byte); [|apply hex_all]. intros c Hc. apply orb_true_iff. left. apply orb_true_iff. left.
    apply orb_true_iff. left. unfold is_hex_byte in Hc. unfold is_alphanumeric, is_digit, is_lowercase.
    destruct c as [[] [] [] [] [] [] [] []]; first [discriminate Hc|reflexivity].
Qed.

Lemma operation_in_table m path op : operation_of m path = Some op → op ∈ operation <$> ROUTES.
Proof.
  unfold operation_of. destruct (List.find _ ROUTES) as [r|] eqn:Hr; [|done]. intros [= <-].
  apply List.find_some in Hr as [Hin _]. apply list_elem_of_fmap_2. by apply list_elem_of_In.
Qed.
Lemma operation_visible m matched : all_bytes visible (debug (default "-" (matched ≫= operation_of m))) = true.
Proof.
  destruct (matched ≫= operation_of m) as [op|] eqn:Hop; [|reflexivity]. cbn [default].
  destruct matched as [path|]; [|done]. apply operation_in_table in Hop.
  assert (Forall (λ op, all_bytes visible (debug op) = true) (operation <$> ROUTES)) as Hall
    by (apply (bool_decide_unpack _); vm_compute; exact I).
  by eapply list.Forall_forall in Hall.
Qed.

(** A request is one line of the log, of seven words, whatever a client
    sends as its id, asks for and is: where its method is a word, as HTTP has
    it, and so is the id of its key, nothing it sends can begin another line
    or another field, and each field is read back from its word. *)
Theorem a_request_is_one_line {RS} `{RandomSource RS} (header : option string) (rng : RS) (slot : KeySlot) (m : string)
    (matched : option string) (status ms : N) :
  all_bytes visible m = true → all_bytes visible (key_shown slot) = true →
  let id := (request_id header rng).1 in
  let text := line (request_fields id slot m matched status ms) in
  contains "010" text = false ∧
  split " " text = ["request"; "request=" ++ id; "key=" ++ key_shown slot;
    "operation=" ++ debug (default "-" (matched ≫= operation_of m)); "method=" ++ m;
    "status=" ++ pretty status; "ms=" ++ pretty ms]%string.
Proof.
  intros Hm Hk id text.
  assert (all_bytes visible id = true) as Hid.
  { pose proof (request_id_plausible header rng) as Hp. fold id in Hp. unfold plausible in Hp.
    rewrite !andb_true_iff in Hp. destruct Hp as [_ Hp]. revert Hp. apply all_bytes_impl. intros c.
    destruct c as [[] [] [] [] [] [] [] []]; first [discriminate|reflexivity]. }
  pose proof (operation_visible m matched) as Hop. set (op := debug _) in *.
  assert (∀ n : N, all_bytes visible (pretty n) = true) as Hn.
  { intros n. apply (all_bytes_impl is_digit), (proj1 (pretty_digits n)). exact digit_visible. }
  assert (text = join_by " " ["request"; "request=" ++ id; "key=" ++ key_shown slot; "operation=" ++ op; "method=" ++ m;
    "status=" ++ pretty status; "ms=" ++ pretty ms]%string) as Htext by reflexivity.
  set (ws := _ :: _) in Htext.
  assert (Forall (λ w, all_bytes visible w = true) ws) as Hws.
  { unfold ws. repeat (apply Forall_cons_2); try apply Forall_nil_2; rewrite ?all_bytes_app, ?Hid, ?Hk, ?Hop, ?Hm, ?Hn; reflexivity. }
  rewrite Htext. split.
  - apply (not_contained (λ c, visible c || Ascii.eqb c " ")); [|done]. clear -Hws. induction Hws as [|w ws Hw Hws IH]; [done|].
    assert (all_bytes (λ c, visible c || Ascii.eqb c " ") w = true) as Hw'.
    { revert Hw. apply all_bytes_impl. by intros c ->. }
    destruct ws as [|w' ws]; [done|]. cbn [join_by]. rewrite all_bytes_app, Hw'. exact IH.
  - apply split_join. eapply Forall_impl; [exact Hws|]. intros w Hw. by apply (not_contained visible).
Qed.

(** Every request is answered, the answer bears the id that is logged with its
    status, and that is the client's own wherever it is harmless. *)
Theorem what_is_answered_is_logged {RS} `{RandomSource RS} header m matched ran slot ms (rng : RS) :
  let a := (outer header m matched ran slot ms rng).1 in
  plausible (x_request_id a) = true ∧ (∀ id, header = Some id → plausible id = true → x_request_id a = id) ∧
  logged a = request_fields (x_request_id a) slot m matched (status (response a)) ms ∧
  (ran = None → status (response a) = 500%N).
Proof.
  cbn zeta. unfold outer. pose proof (request_id_plausible header rng) as Hp.
  assert (∀ id, header = Some id → plausible id = true → (request_id header rng).1 = id) as Hown.
  { intros id -> Hid. unfold request_id. cbn [mbind option_bind]. by rewrite Hid. }
  destruct (request_id header rng) as [id rng']. cbn in *. split_and!; [done..|]. by intros ->.
Qed.

(** ** A writer with so much room *)

Lemma substring_all s : substring 0 (String.length s) s = s.
Proof. induction s as [|c s IH]; [done|]. cbn. by rewrite IH. Qed.
Lemma substring_split n s : n ≤ String.length s →
  s = (substring 0 n s ++ substring n (String.length s - n) s)%string.
Proof.
  revert n. induction s as [|c s IH]; intros [|n] Hn; cbn in *; [done|lia|by rewrite substring_all|].
  rewrite cons_app. f_equal. apply IH. lia.
Qed.

Record Buffer := mkBuffer { held : string; room : nat }.
#[export] Instance buffer_writer : LogWriter Buffer := λ s b,
  if String.length s <=? room b then (true, mkBuffer (held b ++ s) (room b - String.length s))
  else (false, mkBuffer (held b ++ substring 0 (room b) s) 0).
#[export] Program Instance lawful_buffer : LawfulLogWriter Buffer := { written := held }.
Next Obligation.
  intros s b. unfold write_str, buffer_writer. destruct (Nat.leb_spec (String.length s) (room b)) as [_|Hlt].
  - exists s, "". by rewrite str_app_nil.
  - exists (substring 0 (room b) s), (substring (room b) (String.length s - room b) s). split_and!; [done| |done].
    apply substring_split. lia.
Qed.

Example what_is_secret_is_dropped :
  let fields := [("message", display "key created"); ("key", display "3f9a1c07b2e4"); ("secret", display "hunter2")] in
  format_fields fields (mkBuffer "" 80) = (true, mkBuffer "key created key=3f9a1c07b2e4" 52) ∧
  (format_fields fields (mkBuffer "" 20)).1 = false ∧ held (format_fields fields (mkBuffer "" 20)).2 = "key created key=3f9a".
Proof. by vm_compute. Qed.
