(* ===== verification/Tenancy.v ===== *)
(** What the server promises to its tenants: a request acts in the workspace
    its key opens, for the key's caller and by the calls the API has, and in no
    other; and whatever is asked for, every workspace stays sound. *)

From S2P Require Import Prelude Text Errors Random Ids Shelf Records Effects Rules Workspace Upload Rewrite Ledger Engine Operations Demo Safety Sessions.
From S2P Require Import Auth Database Sqlite Control Keys Operators Accounts Rate Config Bridge Engines Handlers Server.

(** ** Calls of an engine leave other workspaces alone *)

Section elsewhere.
Context {Sh L RS : Type} `{Ext : Externals} `{Shelf : !ItemShelf Sh} `{Lawful : !LawfulShelf Sh}
  `{Led : !Ledger L} `{LawfulLed : !LawfulLedger L} `{Random : !RandomSource RS}.
Context (w : WorkspaceId) (E : Env).

Definition elsewhere (l l' : L) : Prop := ∀ v, v ≠ w → records l' !! v = records l !! v.
#[local] Instance elsewhere_preorder : PreOrder elsewhere.
Proof. split; [done|]. intros l1 l2 l3 H1 H2 v Hv. by rewrite H2, H1. Qed.

Lemma create_elsewhere l : elsewhere l (ledger_create w l).2.
Proof.
  intros v Hv. pose proof (create_law w l) as Hl. destruct (ledger_create w l) as [y l']. cbn.
  assert (created_in w (records l) !! v = records l !! v) as Hc.
  { unfold created_in. destruct (records l !! w); [done|]. by rewrite lookup_insert_ne. }
  destruct Hl as [[_ ->]|[_ [-> | ->]]]; done.
Qed.
Lemma load_elsewhere l : elsewhere l (ledger_load w l).2.
Proof. intros v _. pose proof (load_law w l) as Hl. destruct (ledger_load w l) as [y l']. cbn. by destruct Hl as [-> _]. Qed.
Lemma transact_elsewhere T X (rule : LedgerRule T X) l x : elsewhere l (transact w rule (l, x)).2.1.
Proof.
  intros v Hv. pose proof (transact_law w rule l x) as Hl. destruct (transact _ _ _) as [y [l' x']]. cbn.
  destruct Hl as [(_ & -> & _)|Hl]; [done|]. destruct (records l !! w) as [r|]; [|by destruct Hl as (_ & -> & _)].
  unfold transacted in Hl. destruct (rule r x) as [[z r'] x1]. destruct Hl as [_ Hl].
  destruct z; [|by destruct Hl as [_ ->]..].
  destruct Hl as [[_ ->]|[_ [-> | ->]]]; [by rewrite lookup_insert_ne|done|by rewrite lookup_insert_ne].
Qed.

Lemma exec_elsewhere o (e : Engine Sh L RS) : elsewhere (e_ledger e) (e_ledger (exec w E o e).2).
Proof.
  apply (exec_follows w E elsewhere); [apply create_elsewhere|apply load_elsewhere|apply transact_elsewhere].
Qed.

(** What only reads leaves every record. *)
Lemma read_records {T} (rule : R Sh RS T) (e : Engine Sh L RS) :
  records (e_ledger (Engine.read w rule e).2) = records (e_ledger e).
Proof.
  unfold Engine.read. pose proof (load_law w (e_ledger e)) as Hl. destruct (ledger_load w (e_ledger e)) as [y l].
  destruct Hl as [<- _]. destruct y; try done. by destruct (rule _).
Qed.

(** The operations that run outside a transaction. *)
Definition reads (o : Op) : bool :=
  match o with
  | DeleteItem _ _ _ _ | EnableEncryption _ _ _ | FreshStart _ _ _ | ReplaceHeader _ _ _ | BeginUpload _ _
  | CommitUpload _ _ | AbortUpload _ _ | BeginRewrite _ _ | HeartbeatRewrite _ | TakeOverRewrite _
  | CommitRewrite _ _ | AbortRewrite _ _ | OperatorAbortRewrite _ | CleanStaging | Open | OpenWithoutRepair => false
  | _ => true
  end.

Lemma reads_records o (e : Engine Sh L RS) :
  reads o = true → records (e_ledger (exec w E o e).2) = records (e_ledger e).
Proof.
  assert (∀ T (rule : R Sh RS T), records (e_ledger (ignore (Engine.read w rule) e).2) = records (e_ledger e)) as Hr
    by (intros; rewrite ignore_ran; apply read_records).
  destruct o; intros H; try discriminate H; unfold exec; first [apply Hr|apply read_records].
Qed.
End elsewhere.

(** ** How far the generation numbers go *)

Lemma stepped_next d r v r' v' :
  has_room r → stepped d r v r' v' → (next_generation r' ≤ next_generation r + 1)%N.
Proof.
  unfold has_room, u64_max. intros Hroom [v1 _|r1 v1 a v2 left He _]; [lia|].
  assert (wadd (next_generation r) 1 = next_generation r + 1)%N as Hw by (apply wadd_small; unfold two64; lia).
  destruct He; subst; cbn; rewrite ?Hw; lia.
Qed.

(** ** Requests are calls of their key *)

(** The calls the API makes for [c]: for no other caller, and none of those
    that are the operator's or the server's own. *)
Definition by_key (c : Caller) (o : Op) : Prop :=
  match caller_of o with
  | Some c' => c' = c
  | None =>
      match o with
      | CleanStaging => role c = ReadWrite
      | Open | OpenWithoutRepair | OperatorAbortRewrite _ => False
      | _ => True
      end
  end.

Section world.
Context {C X Sh RS : Type} `{Ext : Externals} `{Db : !Database C X} `{LawfulDb : !LawfulDatabase C X}
  `{Shelf : !ItemShelf Sh} `{Lawful : !LawfulShelf Sh} `{Disk : !ShelfDisk Sh} `{LawDisk : !LawfulDisk Sh}
  `{Random : !RandomSource RS}.
Context (config : Config) (clock : nat → N) (fuel : nat) (raw : list byte → option (list byte)).
Implicit Types (W : World C Sh RS) (w v : WorkspaceId) (c : Caller).

Definition records_in W : Records := records_of (tables (w_db W)).
Definition shelf_in w W : Shelves := from_option view no_shelves (w_shelves W !! w).

(** One thing that is done in the workspace [w] for [c]; the number says how
    many transactions it may be. *)
Inductive act w c : nat → World C Sh RS → World C Sh RS → Prop :=
| act_quiet W W' :
    tables (w_db W') = tables (w_db W) → (∀ v, v ≠ w → w_shelves W' !! v = w_shelves W !! v) →
    shelf_in w W' = shelf_in w W → act w c 0 W W'
| act_call o W :
    by_key c o → act w c (if reads o then 0 else 1) W (on_engine clock fuel w (λ E, exec w E o) W).2
| act_open limits W : act w c 1 W (open_engine clock fuel w limits W).2.

Inductive acts w c : nat → World C Sh RS → World C Sh RS → Prop :=
| acts_nil W : acts w c 0 W W
| acts_cons n m W W1 W2 : act w c n W W1 → acts w c m W1 W2 → acts w c (n + m) W W2.

Lemma acts_app w c n m W W1 W2 : acts w c n W W1 → acts w c m W1 W2 → acts w c (n + m) W W2.
Proof.
  induction 1 as [W|n k W W0 W1 Ha Hs IH]; intros Hm; [done|]. rewrite <- Nat.add_assoc.
  eapply acts_cons; [done|by apply IH].
Qed.

Lemma acts_one w c n W W' : act w c n W W' → acts w c n W W'.
Proof. intros Ha. rewrite <- (Nat.add_0_r n). eapply acts_cons; [done|apply acts_nil]. Qed.

(** [m] does no more than [n] transactions, all in [w] and for [c]. *)
Definition does w c {Er A} (n : nat) (m : M Er (World C Sh RS) A) : Prop :=
  ∀ W, ∃ k, k ≤ n ∧ acts w c k W (m W).2.

Section does.
Context (w : WorkspaceId) (c : Caller).

Lemma does_mono {Er A} n m (p : M Er (World C Sh RS) A) : n ≤ m → does w c n p → does w c m p.
Proof. intros Hle Hp W. destruct (Hp W) as (k & ? & ?). exists k. split; [lia|done]. Qed.

Lemma does_same {Er A} n (p : M Er (World C Sh RS) A) : (∀ W, (p W).2 = W) → does w c n p.
Proof. intros Hp W. exists 0. rewrite Hp. split; [lia|apply acts_nil]. Qed.

Lemma does_quiet {Er A} n (p : M Er (World C Sh RS) A) :
  (∀ W, tables (w_db (p W).2) = tables (w_db W) ∧ w_shelves (p W).2 = w_shelves W) → does w c n p.
Proof.
  intros Hp W. exists 0. split; [lia|]. apply acts_one. destruct (Hp W) as [Hr Hs].
  apply act_quiet; [done|by rewrite Hs|]. unfold shelf_in. by rewrite Hs.
Qed.

Lemma does_ret {Er A} n (a : A) : does w c n (mret a : M Er (World C Sh RS) A).
Proof. by apply does_same. Qed.
Lemma does_throw {Er A} n (e : Er) : does w c n (throw e : M Er (World C Sh RS) A).
Proof. by apply does_same. Qed.
Lemma does_lift {Er A} n (y : outcome Er A) : does w c n (lift y : M Er (World C Sh RS) A).
Proof. by apply does_same. Qed.
Lemma does_gets {A} n (f : World C Sh RS → A) : does w c n (gets f : M ApiError (World C Sh RS) A).
Proof. by apply does_same. Qed.

Lemma does_bind {Er A B} n m (p : M Er (World C Sh RS) A) (f : A → M Er (World C Sh RS) B) :
  does w c n p → (∀ a, does w c m (f a)) → does w c (n + m) (p ≫= f).
Proof.
  intros Hp Hf W. destruct (Hp W) as (k & Hk & Ha). unfold mbind, M_bind. destruct (p W) as [y W1]. cbn in Ha.
  destruct y as [a| | |]; cbn.
  - destruct (Hf a W1) as (j & Hj & Hb). exists (k + j). split; [lia|by eapply acts_app].
  - exists k. split; [lia|done].
  - exists k. split; [lia|done].
  - exists k. split; [lia|done].
Qed.
Lemma does_bind0 {Er A B} n (p : M Er (World C Sh RS) A) (f : A → M Er (World C Sh RS) B) :
  does w c 0 p → (∀ a, does w c n (f a)) → does w c n (p ≫= f).
Proof. apply (does_bind 0 n). Qed.
Lemma does_bind1 {Er A B} n (p : M Er (World C Sh RS) A) (f : A → M Er (World C Sh RS) B) :
  does w c 1 p → (∀ a, does w c n (f a)) → does w c (S n) (p ≫= f).
Proof. apply (does_bind 1 n). Qed.

Lemma does_first {Er A B} n (p : M Er (World C Sh RS) A) (f : A → M Er (World C Sh RS) B) :
  does w c n p → (∀ a, does w c 0 (f a)) → does w c n (p ≫= f).
Proof. intros Hp Hf. rewrite <- (Nat.add_0_r n). by apply does_bind. Qed.

Lemma does_on_control {A} n (m : M ControlError C A) : asks m → does w c n (on_control m : Srv A).
Proof.
  intros Hm. apply does_quiet. intros W. unfold on_control. destruct (Hm (w_db W)) as [Ht _].
  by destruct (m (w_db W)) as [y d].
Qed.

Lemma does_on_engine {A} o (m : Env → Engine.Do (L := SqliteLedger C) A) :
  by_key c o → (∀ E e, (m E e).2 = (exec w E o e).2) →
  does w c (if reads o then 0 else 1) (on_engine clock fuel w m).
Proof.
  intros Ho Hm W. exists (if reads o then 0 else 1). split; [lia|]. apply acts_one.
  replace (on_engine clock fuel w m W).2 with (on_engine clock fuel w (λ E, exec w E o) W).2; [by apply act_call|].
  unfold on_engine. destruct (w_open W !! w) as [limits|]; [|done]. destruct (w_shelves W !! w) as [sh|]; [|done].
  specialize (Hm (env clock fuel limits) (engine_of sh W)).
  destruct (exec w _ o _) as [y e], (m _ _) as [y' e']. cbn in *. by rewrite Hm.
Qed.

Lemma does_open_dir n : does w c n (open_dir w).
Proof.
  intros W. exists 0. split; [lia|]. apply acts_one. unfold open_dir.
  pose proof (open_shelf_law (w_shelves W !! w)) as Hl. destruct (open_shelf _) as [y sh]. cbn in *.
  apply act_quiet; [done|intros v Hv; cbn; by rewrite lookup_partial_alter_ne|].
  unfold shelf_in. cbn. by rewrite lookup_partial_alter_eq.
Qed.

Lemma does_open_engine limits : does w c 1 (open_engine clock fuel w limits).
Proof. intros W. exists 1. split; [lia|]. apply acts_one, act_open. Qed.

Lemma does_share n limits : does w c n (share w limits).
Proof. by apply does_quiet. Qed.

Lemma does_get : does w c 1 (Engines.get config clock fuel w).
Proof.
  unfold Engines.get. apply does_bind0; [apply does_gets|]. intros [limits|]; [apply does_ret|].
  apply does_bind0; [apply does_on_control, asks_workspace_by_id|]. intros info.
  apply does_bind0; [apply does_lift|]. intros i. cbv zeta. apply does_bind0; [apply does_open_dir|]. intros _.
  apply does_bind1; [apply does_open_engine|]. intros _. apply does_share.
Qed.

Lemma does_blocking {A} n (m : Srv A) : does w c n m → does w c n (blocking m).
Proof.
  intros Hm W. destruct (Hm W) as (k & Hk & Ha). exists k. split; [done|]. unfold blocking. by destruct (m W) as [[]].
Qed.

Lemma does_try {A} n (m : Srv A) : does w c n m → does w c n (try_ m).
Proof.
  intros Hm W. destruct (Hm W) as (k & Hk & Ha). exists k. split; [done|]. unfold try_. by destruct (m W) as [[]].
Qed.
End does.

(** ** Each handler *)

Section handlers.
Context (who : Authenticated).
#[local] Abbreviation w := (au_workspace who) (only parsing).
#[local] Abbreviation c := (au_caller who) (only parsing).

Lemma does_engine {A} o (m : Env → Engine.Do (L := SqliteLedger C) A) :
  by_key c o → (∀ E e, (m E e).2 = (exec w E o e).2) →
  does w c (if reads o then 0 else 1) (engine clock fuel who m).
Proof. apply does_on_engine. Qed.

(** The calls the handlers make, by the operation each is. *)
#[local] Ltac is_op o := apply (does_engine o); [done|intros; unfold exec; by rewrite ?ignore_ran].
#[local] Abbreviation call m := (engine clock fuel who m : Srv (C := C) (Sh := Sh) (RS := RS) _) (only parsing).

Lemma does_item p id : does w c 0 (call (λ _, Engine.item (ws who) p id)).
Proof. is_op (Item p id). Qed.
Lemma does_item_ids p : does w c 0 (call (λ _, Engine.item_ids (ws who) p)).
Proof. is_op (ItemIds p). Qed.
Lemma does_items_after p b : does w c 0 (call (λ _, Engine.items_after (ws who) p b)).
Proof. is_op (ItemsAfter p b). Qed.
Lemma does_item_ids_after p b : does w c 0 (call (λ _, Engine.item_ids_after (ws who) p b)).
Proof. is_op (ItemIdsAfter p b). Qed.
Lemma does_item_content_from p id n : does w c 0 (call (λ _, Engine.item_content_from (ws who) p id n)).
Proof. is_op (ItemContentFrom p id n). Qed.
Lemma does_find_by_content_key k : does w c 0 (call (λ _, Engine.find_by_content_key (ws who) k)).
Proof. is_op (FindByContentKey k). Qed.
Lemma does_resolve_item s : does w c 0 (call (λ _, Engine.resolve_item (ws who) s)).
Proof. is_op (ResolveItem s). Qed.
Lemma does_used_bytes : does w c 0 (call (λ _, Engine.used_bytes (ws who))).
Proof. is_op (UsedBytes). Qed.
Lemma does_encryption : does w c 0 (call (λ _, Engine.encryption (ws who))).
Proof. is_op (Encryption). Qed.
Lemma does_session_view : does w c 0 (call (λ _, Engine.session_view (ws who))).
Proof. is_op (ViewSession). Qed.
Lemma does_staged_item_ids : does w c 0 (call (λ _, Engine.staged_item_ids (ws who) (me who))).
Proof. is_op (StagedItemIds (me who)). Qed.
Lemma does_staged_item id : does w c 0 (call (λ _, Engine.staged_item (ws who) (me who) id)).
Proof. is_op (StagedItem (me who) id). Qed.
Lemma does_staged_item_content_from id n : does w c 0 (call (λ _, Engine.staged_item_content_from (ws who) (me who) id n)).
Proof. is_op (StagedItemContentFrom (me who) id n). Qed.
Lemma does_upload_state u : does w c 0 (call (λ E, Engine.upload_state (ws who) E (me who) u)).
Proof. is_op (StateOfUpload (me who) u). Qed.
Lemma does_put_upload_content u b : does w c 0 (call (λ E, Engine.put_upload_content (ws who) E (me who) u b)).
Proof. is_op (PutUploadContent (me who) u b). Qed.
Lemma does_probe_write : does w c 0 (call (λ _, Engine.probe_write (ws who) (me who))).
Proof. is_op (ProbeWrite (me who)). Qed.
Lemma does_delete_item p id k : does w c 1 (call (λ E, Engine.delete_item (ws who) E (me who) p id k)).
Proof. is_op (DeleteItem (me who) p id k). Qed.
Lemma does_enable_encryption k h : does w c 1 (call (λ E, Engine.enable_encryption (ws who) E (me who) k h)).
Proof. is_op (EnableEncryption (me who) k h). Qed.
Lemma does_fresh_start k h : does w c 1 (call (λ E, Engine.fresh_start (ws who) E (me who) k h)).
Proof. is_op (FreshStart (me who) k h). Qed.
Lemma does_replace_header k h : does w c 1 (call (λ E, Engine.replace_header (ws who) E (me who) k h)).
Proof. is_op (ReplaceHeader (me who) k h). Qed.
Lemma does_begin_upload q : does w c 1 (call (λ E, Engine.begin_upload (ws who) E (me who) q)).
Proof. is_op (BeginUpload (me who) q). Qed.
Lemma does_commit_upload u : does w c 1 (call (λ E, Engine.commit_upload (ws who) E (me who) u)).
Proof. is_op (CommitUpload (me who) u). Qed.
Lemma does_abort_upload u : does w c 1 (call (λ E, Engine.abort_upload (ws who) E (me who) u)).
Proof. is_op (AbortUpload (me who) u). Qed.
Lemma does_begin_rewrite q : does w c 1 (call (λ E, Engine.begin_rewrite (ws who) E (me who) q)).
Proof. is_op (BeginRewrite (me who) q). Qed.
Lemma does_heartbeat_rewrite : does w c 1 (call (λ E, Engine.heartbeat_rewrite (ws who) E (me who))).
Proof. is_op (HeartbeatRewrite (me who)). Qed.
Lemma does_take_over_rewrite : does w c 1 (call (λ E, Engine.take_over_rewrite (ws who) E (me who))).
Proof. is_op (TakeOverRewrite (me who)). Qed.
Lemma does_commit_rewrite k : does w c 1 (call (λ E, Engine.commit_rewrite (ws who) E (me who) k)).
Proof. is_op (CommitRewrite (me who) k). Qed.
Lemma does_abort_rewrite k : does w c 1 (call (λ E, Engine.abort_rewrite (ws who) E (me who) k)).
Proof. is_op (AbortRewrite (me who) k). Qed.

Lemma does_get_engine : does w c 1 (get_engine config clock fuel who).
Proof. apply does_get. Qed.
Create HintDb acts.
#[local] Hint Resolve does_ret does_throw does_lift does_gets does_share does_get does_get_engine does_on_control
  does_item does_item_ids does_items_after does_item_ids_after does_item_content_from does_find_by_content_key
  does_resolve_item does_used_bytes does_encryption does_session_view does_staged_item_ids does_staged_item
  does_staged_item_content_from does_upload_state does_put_upload_content does_probe_write does_delete_item
  does_enable_encryption does_fresh_start does_replace_header does_begin_upload does_commit_upload does_abort_upload
  does_begin_rewrite does_heartbeat_rewrite does_take_over_rewrite does_commit_rewrite does_abort_rewrite
  asks_workspace_by_id : acts.

(** One call after the other, each of which is at most one transaction. *)
#[local] Ltac acts :=
  intros; match goal with
  | |- does _ _ _ (match ?x with _ => _ end) => destruct x; acts
  | |- does _ _ _ (blocking _) => apply does_blocking; acts
  | |- does _ _ _ (try_ _) => apply does_try; acts
  | |- does _ _ _ (_ ≫= _) =>
      first [apply does_bind0; [solve [acts]|acts] | apply does_bind1; [solve [acts]|acts] | apply does_first; [solve [acts]|acts]]
  | |- does _ _ _ _ => first [solve [eauto with acts] | solve [eapply does_mono; [|eauto with acts]; lia]]
  end.

Lemma does_lease_end n : does w c n (lease_end clock fuel who).
Proof. apply (does_mono _ _ 0); [lia|]. unfold lease_end. acts. Qed.

Lemma does_telling {A} n (m : Srv (C := C) (Sh := Sh) (RS := RS) A) : does w c n m → does w c n (telling_lease clock fuel who m).
Proof.
  intros Hm W. unfold telling_lease. destruct (Hm W) as (k & Hk & Ha). destruct (m W) as [[a|e| |] W1]; cbn in *; eauto.
  destruct (does_lease_end 0 W1) as (j & Hj & Hb).
  assert (∃ k, k ≤ n ∧ acts w c k W (lease_end clock fuel who W1).2) as Hl.
  { exists (k + j). split; [lia|]. by eapply acts_app. }
  destruct e; eauto; destruct (lease_end clock fuel who W1) as [[l| | |] W2]; eauto.
Qed.

Lemma does_in_workspace {A} n (m : Srv (C := C) (Sh := Sh) (RS := RS) A) : does w c n m → does w c (S n) (in_workspace config clock fuel who m).
Proof. intros Hm. apply does_bind1; [acts|]. intros _. by apply does_telling. Qed.

Lemma does_collect after ids : does w c 0 (collect_items clock fuel who after ids).
Proof.
  induction ids as [|id ids IH]; cbn; [acts|]. destruct (match after with Some a => _ | None => true end); [|done].
  apply does_bind0; [unfold staged_item; acts|]. intros item. apply does_bind0; [done|]. acts.
Qed.

Lemma does_outcome out : does w c 1 (outcome_json config clock fuel raw who out).
Proof. unfold outcome_json, staged_item. acts. Qed.
#[local] Ltac handler :=
  first [apply does_first; [apply does_in_workspace; acts|acts] | acts].

Lemma does_limits n : does w c n (limits_now (C := C) (Sh := Sh) (RS := RS) who).
Proof. by apply does_quiet. Qed.
Lemma does_staged id : does w c 0 (staged_item (C := C) (Sh := Sh) (RS := RS) clock fuel who id).
Proof. unfold staged_item. acts. Qed.
Lemma does_item_in id p : does w c 0 (item_in (C := C) (Sh := Sh) (RS := RS) clock fuel who id p).
Proof. unfold item_in, staged_item. acts. Qed.
#[local] Hint Resolve does_collect does_outcome does_limits does_staged does_item_in : acts.

Lemma does_open_range id p range : does w c 1 (open_range (C := C) (Sh := Sh) (RS := RS) config clock fuel who id p range).
Proof. unfold open_range. acts. Qed.
#[local] Hint Resolve does_open_range : acts.

Lemma does_handle r : does w c 3 (handle config clock fuel raw who r).
Proof.
  destruct r; cbn [handle]; unfold get_viewer, get_workspace, probe_write, clean_staging, list_items, list_item_ids,
    resolve_item, find_by_content_key, get_item, delete_item, get_item_content, begin_upload, put_upload_content,
    commit_upload, abort_upload, enable_encryption, fresh_start, replace_header, get_rewrite, begin_rewrite,
    heartbeat_rewrite, take_over_rewrite, commit_rewrite, abort_rewrite, answer.
  all: try (handler; fail).
  - assert (role (me who) = ReadWrite → does w c 1 (call (λ E, Engine.clean_staging (ws who) E))) as Hclean.
    { intros Hrw. is_op CleanStaging. }
    apply does_first; [|acts]. apply does_blocking. destruct (role (me who)); [|acts]. apply does_bind1; [acts|]. intros _.
    eapply does_mono; [|by apply Hclean]. lia.
  - apply does_bind0; [acts|]. intros u. handler.
Qed.
End handlers.
End world.

(** ** What calls leave behind *)

Section left.
Context {C X Sh RS : Type} `{Ext : Externals} `{Db : !Database C X} `{LawfulDb : !LawfulDatabase C X}
  `{Shelf : !ItemShelf Sh} `{Lawful : !LawfulShelf Sh} `{Disk : !ShelfDisk Sh} `{LawDisk : !LawfulDisk Sh}
  `{Random : !RandomSource RS}.
Context (config : Config) (clock : nat → N) (fuel : nat) (raw : list byte → option (list byte)).
Context (parse_ip : string → option IpAddr).
Implicit Types (W : World C Sh RS) (w v : WorkspaceId) (c : Caller).
#[local] Abbreviation acts := (acts clock fuel) (only parsing).

Lemma on_engine_elsewhere {A} w (m : Env → Engine.Do (L := SqliteLedger C) A) W v :
  (∀ E e, elsewhere w (e_ledger e) (e_ledger (m E e).2)) → v ≠ w →
  records_in (on_engine clock fuel w m W).2 !! v = records_in W !! v ∧
  w_shelves (on_engine clock fuel w m W).2 !! v = w_shelves W !! v.
Proof.
  intros Hm Hv. unfold on_engine. destruct (w_open W !! w) as [limits|]; [|done].
  destruct (w_shelves W !! w) as [sh|]; [|done]. specialize (Hm (env clock fuel limits) (engine_of sh W) v Hv).
  destruct (m _ _) as [y e]. cbn in *. split; [exact Hm|]. by rewrite lookup_insert_ne.
Qed.

Lemma act_elsewhere w c n W W' v : act clock fuel w c n W W' → v ≠ w →
  records_in W' !! v = records_in W !! v ∧ w_shelves W' !! v = w_shelves W !! v.
Proof.
  intros [W1 W2 Hr Hs _|o W1 _|limits W1] Hv.
  - unfold records_in. by rewrite Hr, Hs.
  - apply on_engine_elsewhere; [|done]. intros E e. apply exec_elsewhere.
  - unfold open_engine. destruct (w_shelves W1 !! w) as [sh|]; [|done].
    pose proof (exec_elsewhere w (env clock fuel limits) Open (engine_of sh W1) v Hv) as He. cbn in He.
    destruct (Engine.open _ _ _) as [y e]. cbn in *. split; [exact He|]. by rewrite lookup_insert_ne.
Qed.

Lemma acts_elsewhere w c n W W' v : acts w c n W W' → v ≠ w →
  records_in W' !! v = records_in W !! v ∧ w_shelves W' !! v = w_shelves W !! v.
Proof.
  intros Ha Hv. induction Ha as [W|n m W W1 W2 Ha _ [IHr IHs]]; [done|].
  destruct (act_elsewhere _ _ _ _ _ _ Ha Hv) as [Hr Hs]. by rewrite IHr, IHs.
Qed.

(** Names, keys and the audit trail are not the API's to change. *)
Lemma act_accounts w c n W W' : act clock fuel w c n W W' → kept_accounts (tables (w_db W)) (tables (w_db W')).
Proof.
  intros [W1 W2 Hr _ _|o W1 _|limits W1].
  - by rewrite Hr.
  - unfold on_engine. destruct (w_open W1 !! w) as [limits|]; [|done]. destruct (w_shelves W1 !! w) as [sh|]; [|done].
    pose proof (exec_accounts w (env clock fuel limits) o (engine_of sh W1)) as He. by destruct (exec w _ o _) as [y e].
  - unfold open_engine. destruct (w_shelves W1 !! w) as [sh|]; [|done].
    pose proof (exec_accounts w (env clock fuel limits) Open (engine_of sh W1)) as He. cbn [exec] in He.
    by destruct (Engine.open _ _ _) as [y e].
Qed.
Lemma acts_accounts w c n W W' : acts w c n W W' → kept_accounts (tables (w_db W)) (tables (w_db W')).
Proof. induction 1 as [W|n m W W1 W2 Ha _ IH]; [done|]. etrans; [by eapply act_accounts|done]. Qed.

Definition sound_in w W : Prop := Operations.Sound (records_in W !! w) (shelf_in w W).

(** The next generation number of [w]. *)
Definition next_in w W : N := from_option next_generation 1%N (records_in W !! w).

(** What one operation of the engine of [w] does to it. *)
Lemma exec_keeps w E o (e : Engine Sh (SqliteLedger C) RS) :
  Operations.Sound (record_of w e) (shelves_of e) → (from_option next_generation 1 (record_of w e) + 1 < u64_max)%N →
  let e' := (exec w E o e).2 in
  Operations.Sound (record_of w e') (shelves_of e') ∧
  (from_option next_generation 1 (record_of w e') ≤ from_option next_generation 1 (record_of w e) + (if reads o then 0 else 1))%N.
Proof.
  intros Hs Hn. assert (room_in (record_of w e)) as Hroom.
  { unfold room_in, has_room. destruct (record_of w e); cbn in *; [lia|done]. }
  split; [by apply exec_sound|]. destruct (reads o) eqn:Ho.
  { unfold record_of. rewrite reads_records by done. lia. }
  pose proof (exec_step w E o e Hs) as Hran. destruct (exec w E o e) as [x e']. cbn [snd].
  destruct (record_of w e') as [r'|] eqn:Hr'.
  - destruct (engine_ran_some _ _ _ _ _ _ _ Hran Hr') as (left & Hdid & _). apply did_stepped in Hdid.
    pose proof (stepped_next _ _ _ _ _ (starts_room w e Hroom) Hdid) as Hle. cbn. etrans; [exact Hle|].
    unfold starts_from. by destruct (record_of w e).
  - destruct (engine_ran_none _ _ _ _ _ _ Hran Hr') as [Hnone _]. rewrite Hnone. cbn. lia.
Qed.

Lemma put_engine_sound w sh W e :
  w_shelves W !! w = Some sh →
  (record_of w e = records_in (put_engine w e W) !! w ∧ shelves_of e = shelf_in w (put_engine w e W)) ∧
  record_of w (engine_of sh W) = records_in W !! w ∧ shelves_of (engine_of sh W) = shelf_in w W.
Proof.
  intros Hsh. split; [split; [done|]|split; [done|]].
  - unfold shelf_in. cbn. by rewrite lookup_insert_eq.
  - unfold shelf_in. by rewrite Hsh.
Qed.

Lemma act_keeps w c n W W' :
  act clock fuel w c n W W' → sound_in w W → (next_in w W + 1 < u64_max)%N →
  sound_in w W' ∧ (next_in w W' ≤ next_in w W + N.of_nat n)%N.
Proof.
  unfold sound_in, next_in. intros [W1 W2 Hr _ Hs|o W1 _|limits W1] Hsound Hn.
  - unfold records_in. rewrite Hr, Hs. split; [done|lia].
  - unfold on_engine. destruct (w_open W1 !! w) as [limits|]; [|split; [done|cbn; lia]].
    destruct (w_shelves W1 !! w) as [sh|] eqn:Hsh; [|split; [done|cbn; lia]].
    pose proof (exec_keeps w (env clock fuel limits) o (engine_of sh W1)) as He.
    destruct (exec w _ o _) as [y e]. cbn [snd] in *.
    destruct (put_engine_sound w sh W1 e Hsh) as [[He1 He2] [<- <-]] in Hsound, Hn |- *.
    rewrite <- He1, <- He2. destruct (He Hsound Hn) as [? ?]. split; [done|]. destruct (reads o); cbn; lia.
  - unfold open_engine. destruct (w_shelves W1 !! w) as [sh|] eqn:Hsh; [|split; [done|cbn; lia]].
    pose proof (exec_keeps w (env clock fuel limits) Open (engine_of sh W1)) as He. cbn [exec reads] in He.
    destruct (Engine.open _ _ _) as [y e]. cbn [snd] in *.
    destruct (put_engine_sound w sh W1 e Hsh) as [[He1 He2] [<- <-]] in Hsound, Hn |- *.
    rewrite <- He1, <- He2. destruct (He Hsound Hn) as [? ?]. split; [done|]. cbn; lia.
Qed.

Lemma acts_keep w c n W W' :
  acts w c n W W' → sound_in w W → (next_in w W + N.of_nat n + 1 < u64_max)%N →
  sound_in w W' ∧ (next_in w W' ≤ next_in w W + N.of_nat n)%N.
Proof.
  induction 1 as [W|n m W W1 W2 Ha _ IH]; intros Hs Hn; [split; [done|lia]|].
  destruct (act_keeps _ _ _ _ _ Ha Hs ltac:(lia)) as [Hs1 Hn1].
  destruct (IH Hs1 ltac:(lia)) as [Hs2 Hn2]. split; [done|lia].
Qed.

(** ** The bearer layer *)

(** Nothing that is kept is changed but, it may be, a key's last use. *)
Definition untouched W W' : Prop :=
  (tables (w_db W') = tables (w_db W) ∨
   ∃ id at_, tables (w_db W') = update_key id (with_last_use at_) (tables (w_db W))) ∧
  w_shelves W' = w_shelves W.

Lemma records_update k f t : records_of (update_key k f t) = records_of t.
Proof. done. Qed.
Lemma untouched_records W W' : untouched W W' → records_in W' = records_in W ∧ w_shelves W' = w_shelves W.
Proof. intros [[Ht|(id & at_ & Ht)] Hs]; unfold records_in; rewrite Ht; by split. Qed.
Lemma untouched_same W W1 W2 :
  tables (w_db W1) = tables (w_db W) → w_shelves W1 = w_shelves W → untouched W1 W2 → untouched W W2.
Proof. intros Ht Hs Hu. unfold untouched in *. by rewrite <-Ht, <-Hs. Qed.
Lemma untouched_then W W1 W2 :
  untouched W W1 → tables (w_db W2) = tables (w_db W1) → w_shelves W2 = w_shelves W1 → untouched W W2.
Proof. intros Hu Ht Hs. unfold untouched in *. by rewrite Ht, Hs. Qed.

Lemma limited_untouched address W :
  let '(y, W') := limited clock address W in
  tables (w_db W') = tables (w_db W) ∧ w_shelves W' = w_shelves W ∧ w_ticks W ≤ w_ticks W' ≤ S (w_ticks W) ∧ ∃ x, y = Ok x.
Proof.
  unfold limited. destruct address as [a|]; cbn; [|split_and!; [done|done|lia|lia|by eexists]].
  unfold mbind, M_bind, tell_time, on_limiter. cbn. destruct (FailureLimiter.limited _ _ _) as [x l].
  split_and!; [done|done|cbn; lia|cbn; lia|by eexists].
Qed.

Lemma guessed_untouched address W :
  ∃ W', guessed clock address W = (Ok (), W') ∧ tables (w_db W') = tables (w_db W) ∧ w_shelves W' = w_shelves W.
Proof. unfold guessed. destruct address; by eexists. Qed.

Lemma refuse_untouched address e W :
  tables (w_db (refuse clock address e W).2) = tables (w_db W) ∧ w_shelves (refuse clock address e W).2 = w_shelves W ∧
  ∃ p, (refuse clock address e W).1 = Err p.
Proof.
  unfold refuse, mbind, M_bind. case_bool_decide; [|split_and!; [done|done|by eexists]].
  destruct (guessed_untouched address W) as (W1 & -> & Hg & Hs). split_and!; [done|done|by eexists].
Qed.

(** Nothing is changed but the last use of the key [k], at [now] at that. *)
Definition last_used (k : ApiKey) (now : N) W W' : Prop :=
  (tables (w_db W') = tables (w_db W) ∨
   tables (w_db W') = update_key (api_key_str (api_key_id k)) (with_last_use (Control.to_db now)) (tables (w_db W))) ∧
  w_shelves W' = w_shelves W.

Lemma last_used_untouched k now W W' : last_used k now W W' → untouched W W'.
Proof. intros [[Ht|Ht] Hs]; (split; [|done]); [by left|right; by eexists _, _]. Qed.

(** The look at the clock at which a token is judged: the first, or the second
    after that of the limiter. *)
Definition judged_at W (n : nat) : Prop := w_ticks W ≤ n ≤ S (w_ticks W).

(** Whoever is let in presented the secret of a key that is in force; and
    only for such a key anything is written, whether or not its row makes
    sense after that. *)
Lemma layer_admits q W :
  let '(y, W') := layer config clock parse_ip q W in
  match y with
  | Ok who => ∃ token n k, bearer q = Some token ∧ judged_at W n ∧ admitted (clock n) (tables (w_db W)) token k ∧
      Keys.verdict (clock n) (tables (w_db W)) token (Ok who) ∧ last_used k (clock n) W W'
  | Err _ =>
      tables (w_db W') = tables (w_db W) ∧ w_shelves W' = w_shelves W ∨
      ∃ token n k, bearer q = Some token ∧ judged_at W n ∧ admitted (clock n) (tables (w_db W)) token k ∧ last_used k (clock n) W W'
  | _ => False
  end.
Proof.
  unfold layer. set (address := _ <$> peer q). unfold mbind, M_bind.
  pose proof (limited_untouched address W) as Hl. destruct (limited clock address W) as [y W1].
  destruct Hl as (Ht & Hs & Hlook & [[wait|] ->]); cbn; [by left|].
  destruct (bearer q) as [token|] eqn:Hb.
  - unfold recognise, authenticate.
    pose proof (authenticate_answers clock token (mkControl (w_db W1) (w_random W1) (w_ticks W1))) as Ha.
    destruct (Control.authenticate clock token _) as [z s]. unfold tables_of in Ha. cbn [db control_ticks] in Ha.
    rewrite Ht in Ha. destruct Ha as [Hv Htab]. destruct z as [who|e| |].
    + destruct Hv as [Hv|]; [|done].
      assert (∃ k, admitted (clock (w_ticks W1)) (tables (w_db W)) token k) as [k Hk]
        by (inversion Hv; eexists; split; [done|]; eauto 6).
      exists token, (w_ticks W1), k. split_and!; [done..|]. split; [|done].
      destruct Htab as [?|(_ & k' & Hk' & ?)]; [by left|right]. assert (k' = k) as -> by (destruct Hk, Hk'; congruence). done.
    + destruct (refuse_untouched address e (mkWorld (db s) (w_shelves W1) (w_open W1) (control_rng s) (control_ticks s)
        (w_failures W1))) as (Hu1 & Hu2 & [p Hp]).
      destruct (refuse clock address e _) as [x W2]. cbn in Hp, Hu1, Hu2. subst x.
      destruct Htab as [Htab|(_ & k & Hk & Htab)]; [left; split; congruence|right].
      exists token, (w_ticks W1), k. split_and!; [done..|]. split; [right|]; congruence.
    + destruct Hv as [Hv|?]; [|done]. inversion Hv.
    + destruct Hv as [Hv|?]; [|done]. inversion Hv.
  - destruct (guessed_untouched address W1) as (W2 & -> & Hu1 & Hu2). left. split; congruence.
Qed.

Lemma layer_answers q W :
  let '(y, W') := layer config clock parse_ip q W in
  untouched W W' ∧
  match y with
  | Ok who => ∃ token k, bearer q = Some token ∧ Keys.verdict (clock k) (tables (w_db W)) token (Ok who)
  | Err _ => True
  | _ => False
  end.
Proof.
  pose proof (layer_admits q W) as Hl. destruct (layer config clock parse_ip q W) as [[who|p| |] W']; try done.
  - destruct Hl as (token & n & k & Hb & _ & _ & Hv & Hu). split; [by eapply last_used_untouched|eauto].
  - split; [|done]. destruct Hl as [[Ht Hs]|(token & n & k & _ & _ & _ & Hu)]; [by split; [left|]|].
    by eapply last_used_untouched.
Qed.
End left.

(** ** The promises *)

Section promises.
Context {C X Sh RS : Type} `{Ext : Externals} `{Db : !Database C X} `{LawfulDb : !LawfulDatabase C X}
  `{Shelf : !ItemShelf Sh} `{Lawful : !LawfulShelf Sh} `{Disk : !ShelfDisk Sh} `{LawDisk : !LawfulDisk Sh}
  `{Random : !RandomSource RS}.
Context (config : Config) (fuel : nat) (raw : list byte → option (list byte)) (parse_ip : string → option IpAddr).
Implicit Types (W : World C Sh RS) (q : Arrival).

Definition server (clock : nat → N) (q : Arrival) (W : World C Sh RS) : option Response * World C Sh RS :=
  serve config clock fuel raw parse_ip q W.

(** A refusal left everything as it was; anything else is at most three
    transactions for the caller the key stands for, in its workspace. *)
Lemma serve_acts clock q W :
  let '(answer, W') := server clock q W in
  untouched W W' ∨
  ∃ token k who n W1, bearer q = Some token ∧
    Keys.verdict (clock k) (tables (w_db W)) token (Ok who) ∧ untouched W W1 ∧ n ≤ 3 ∧
    acts clock fuel (au_workspace who) (au_caller who) n W1 W'.
Proof.
  unfold server, serve, serve_v1, mbind, M_bind. pose proof (layer_answers config clock parse_ip q W) as Hl.
  destruct (layer config clock parse_ip q W) as [y W1]. destruct Hl as [Hu Hy].
  destruct y as [who|p| |]; cbn; [|by left|done..]. destruct Hy as (token & k & Hb & Hv).
  destruct (asks_for q) as [r|[| |]]; [|by left..].
  destruct (does_handle config clock fuel raw who r W1) as (n & Hn & Ha).
  destruct (handle config clock fuel raw who r W1) as [[] W2]; right; exists token, k, who, n, W1; done.
Qed.

(** C3: What a request may do is decided by its key alone.  Either no row of
    the database and no shelf is changed; or its bearer token is, at the look
    at the clock that is due, the secret of a key neither revoked nor expired,
    and then what is done is, first, at most to note that very key's last use,
    and after that nothing, or calls of the API for that key's caller in the
    workspace its row says: the names, the keys and the audit trail stay as they
    are, and so do the records and the shelves of every other workspace. *)
Theorem a_request_stays_in_its_workspace (clock : nat → N) (q : Arrival) (W : World C Sh RS) :
  let '(answer, W') := server clock q W in
  (tables (w_db W') = tables (w_db W) ∧ w_shelves W' = w_shelves W) ∨
  ∃ token n k W1, bearer q = Some token ∧ judged_at W n ∧ admitted (clock n) (tables (w_db W)) token k ∧
    last_used k (clock n) W W1 ∧
    (tables (w_db W') = tables (w_db W1) ∧ w_shelves W' = w_shelves W1 ∨
     ∃ who m, Keys.verdict (clock n) (tables (w_db W)) token (Ok who) ∧ m ≤ 3 ∧
       acts clock fuel (au_workspace who) (au_caller who) m W1 W' ∧
       api_keys (tables (w_db W')) = api_keys (tables (w_db W1)) ∧
       audit_rows (tables (w_db W')) = audit_rows (tables (w_db W)) ∧
       (∀ name v, named name (tables (w_db W')) v ↔ named name (tables (w_db W)) v) ∧
       ∀ v, v ≠ au_workspace who → records_in W' !! v = records_in W !! v ∧ w_shelves W' !! v = w_shelves W !! v).
Proof.
  unfold server, serve, serve_v1, mbind, M_bind. pose proof (layer_admits config clock parse_ip q W) as Hl.
  destruct (layer config clock parse_ip q W) as [y W1].
  destruct y as [who|p| |]; cbn; [|destruct Hl as [?|(token & n & k & Hb & Hn & Hk & Hu)]; [by left|right]|done..].
  2: { exists token, n, k, W1. split_and!; try done. by left. }
  destruct Hl as (token & n & k & Hb & Hn & Hk & Hv & Hu).
  assert (∀ W', tables (w_db W') = tables (w_db W1) ∧ w_shelves W' = w_shelves W1 ∨
    (∃ m, m ≤ 3 ∧ acts clock fuel (au_workspace who) (au_caller who) m W1 W') →
    ∃ token n k W1, bearer q = Some token ∧ judged_at W n ∧ admitted (clock n) (tables (w_db W)) token k ∧
    last_used k (clock n) W W1 ∧ (tables (w_db W') = tables (w_db W1) ∧ w_shelves W' = w_shelves W1 ∨
     ∃ who m, Keys.verdict (clock n) (tables (w_db W)) token (Ok who) ∧ m ≤ 3 ∧
       acts clock fuel (au_workspace who) (au_caller who) m W1 W' ∧
       api_keys (tables (w_db W')) = api_keys (tables (w_db W1)) ∧
       audit_rows (tables (w_db W')) = audit_rows (tables (w_db W)) ∧
       (∀ name v, named name (tables (w_db W')) v ↔ named name (tables (w_db W)) v) ∧
       ∀ v, v ≠ au_workspace who → records_in W' !! v = records_in W !! v ∧ w_shelves W' !! v = w_shelves W !! v)) as Hdo.
  { intros W' HW'. exists token, n, k, W1. split_and!; [done..|]. destruct HW' as [?|(m & Hm & Ha)]; [by left|right].
    destruct (acts_accounts _ _ _ _ _ _ _ Ha) as [Hkeys Haudit Hnamed _ _].
    destruct (untouched_records W W1) as [Hr Hs]; [by eapply last_used_untouched|].
    exists who, m. split_and!; [done..| | |].
    - rewrite Haudit. by destruct Hu as [[-> | ->] _].
    - intros name v. rewrite Hnamed. by destruct Hu as [[-> | ->] _].
    - intros v Hne. destruct (acts_elsewhere _ _ _ _ _ _ _ _ Ha Hne) as [-> ->]. by rewrite Hr, Hs. }
  destruct (asks_for q) as [r|[| |]]; [|right; apply Hdo; by left..].
  destruct (does_handle config clock fuel raw who r W1) as (m & Hm & Ha).
  destruct (handle config clock fuel raw who r W1) as [[] W2]; right; apply Hdo; right; by exists m.
Qed.

(** Requests one after the other, each with the clock it is served by. *)
Fixpoint serve_all (qs : list ((nat → N) * Arrival)) (W : World C Sh RS) : World C Sh RS :=
  match qs with
  | [] => W
  | (clock, q) :: qs => serve_all qs (server clock q W).2
  end.

Lemma serve_keeps clock q W w :
  sound_in w W → (next_in w W + 4 < u64_max)%N →
  sound_in w (server clock q W).2 ∧ (next_in w (server clock q W).2 ≤ next_in w W + 3)%N.
Proof.
  intros Hs Hn. pose proof (serve_acts clock q W) as Ha. destruct (server clock q W) as [answer W']. cbn.
  assert (∀ W1, untouched W W1 → sound_in w W1 ∧ next_in w W1 = next_in w W) as Hunt.
  { intros W1 [Hr Hsh]%untouched_records. unfold sound_in, next_in, shelf_in. by rewrite Hr, Hsh. }
  destruct Ha as [Hu|(token & k & who & n & W1 & _ & _ & Hu & Hn3 & Ha)].
  { destruct (Hunt _ Hu) as [? ->]. split; [done|lia]. }
  destruct (Hunt _ Hu) as [Hs1 Hn1]. destruct (decide (w = au_workspace who)) as [->|Hne].
  - destruct (acts_keep _ _ _ _ _ _ _ Ha Hs1) as [? ?]; [lia|]. split; [done|lia].
  - destruct (acts_elsewhere _ _ _ _ _ _ _ _ Ha Hne) as [Hr Hsh].
    unfold sound_in, next_in, shelf_in in *. rewrite Hr, Hsh. split; [done|lia].
Qed.

Lemma serve_all_sound (qs : list ((nat → N) * Arrival)) (W : World C Sh RS) :
  (∀ w, sound_in w W) → (∀ w, next_in w W + 3 * N.of_nat (length qs) + 1 < u64_max)%N →
  ∀ w, sound_in w (serve_all qs W).
Proof.
  revert W. induction qs as [|[clock q] qs IH]; intros W Hs Hn w; [done|]. cbn [serve_all]. cbn [length] in Hn.
  apply IH; intros v; destruct (serve_keeps clock q W v (Hs v)) as [Hs' Hn']; try (specialize (Hn v); lia).
  exact Hs'.
Qed.

(** C4: Whatever is asked for, by whom and in whatever order: the record and
    the shelf of every workspace fit each other afterwards as they did before,
    as long as the numbers of generations do not run out. *)
Theorem requests_keep_every_workspace_sound (qs : list ((nat → N) * Arrival)) (W : World C Sh RS) :
  (∀ w, sound_in w W) → (∀ w, next_in w W + 3 * N.of_nat (length qs) + 1 < u64_max)%N →
  ∀ w, sound_in w (serve_all qs W).
Proof. apply serve_all_sound. Qed.
End promises.

(** ** Witnesses: a household and a neighbour *)

#[export] Existing Instance Demo.externals.

Module Street.
Definition clock (n : nat) : N := (2000 + N.of_nat n)%N.
Abbreviation Home := (Control Tables SeededRandom) (only parsing).
Definition built : Home :=
  run_commands (X := MemoryTx) clock 4 [CreateWorkspace "home" None; CreateWorkspace "next-door" (Some 2%N)]
    (mkControl no_tables (SeededRandom.new 3) 0).
Definition minted : outcome ControlError (ApiKey * KeyInfo) * Home :=
  Control.create_key (X := MemoryTx) clock 4 "home" "laptop" ReadWrite None built.
Definition token : string := match minted.1 with Ok k => ApiKey.reveal k.1 | _ => "" end.

Definition world : World Tables Shelves SeededRandom :=
  mkWorld (db minted.2) ∅ ∅ (control_rng minted.2) 0 (FailureLimiter.new 10 CAPACITY).

Definition from (authorization : option string) (r : Request) : Arrival :=
  mkArrival (Some (V4 7)) [] authorization (Operation r).
Definition asking (r : Request) : Arrival := from (Some ("Bearer " ++ token)%string) r.

Definition serve_it (q : Arrival) (W : World Tables Shelves SeededRandom) :=
  server (X := MemoryTx) default_config 4 Some (λ _, None) clock q W.

Definition uploaded : string := match (serve_it (asking (PostUpload (text Demo.item1) (Demo.meta_of Demo.content) "3" None false)) world).1 with
  | Some (mkResponse _ (TicketOut u _)) => u | _ => "" end.
Definition visits : list ((nat → N) * Arrival) := map (pair clock) [
  asking (PostUpload (text Demo.item1) (Demo.meta_of Demo.content) "3" None false);
  asking (PutContent uploaded (Some "3") [Data Demo.content]);
  asking (PostCommit uploaded)].
Definition later : World Tables Shelves SeededRandom := serve_all (X := MemoryTx) default_config 4 Some (λ _, None) visits world.
End Street.

(** An upload and a download by HTTP, and who is turned away. *)
Example a_visit :
  (∃ len size, (Street.serve_it (Street.asking (GetContent (text Demo.item1) OfCurrent (Some "bytes=1-"))) Street.later).1 =
    Some (mkResponse 206 (ContentOut (drop 1 Demo.content) len size (Some (1, 2)%N)))) ∧
  (Street.serve_it (Street.from None GetViewer) Street.later).1 = Some (into_response (problem Unauthenticated)).
Proof. split; [do 2 eexists|]; vm_compute; reflexivity. Qed.

(** The street before anybody called. *)
Lemma street_records (w : WorkspaceId) :
  records_in (X := MemoryTx) Street.world !! w = None ∨ records_in (X := MemoryTx) Street.world !! w = Some default_record.
Proof.
  unfold records_in. rewrite records_of_lookup. set (t := tables (w_db Street.world)).
  assert (map_Forall (λ s _, record_in t s = default_record) (workspaces t)) as Hall
    by (apply (bool_decide_unpack _); vm_compute; exact I).
  destruct (workspaces t !! text w) as [rr|] eqn:Hw; [right|by left].
  cbn [fmap option_fmap option_map]. f_equal. exact (Hall _ _ Hw).
Qed.

Lemma street_sound (w : WorkspaceId) : sound_in (X := MemoryTx) w Street.world.
Proof.
  unfold sound_in, shelf_in. change (w_shelves Street.world) with (∅ : gmap WorkspaceId Shelves).
  rewrite lookup_empty. cbn [from_option]. destruct (street_records w) as [-> | ->]; [by intros g|].
  apply default_sound. by intros g.
Qed.

Lemma street_room (w : WorkspaceId) :
  (next_in (X := MemoryTx) w Street.world + 3 * N.of_nat (length Street.visits) + 1 < u64_max)%N.
Proof. unfold next_in. destruct (street_records w) as [-> | ->]; vm_compute; reflexivity. Qed.
Lemma later_sound (w : WorkspaceId) : sound_in (X := MemoryTx) w Street.later.
Proof. exact (serve_all_sound (X := MemoryTx) default_config 4 Some (λ _, None) Street.visits Street.world street_sound street_room w). Qed.

Lemma requests_keep_every_workspace_sound_witness :
  (∀ w, sound_in (X := MemoryTx) w Street.world) ∧ (∀ w, sound_in (X := MemoryTx) w Street.later).
Proof.
  split; [exact street_sound|].
  exact (requests_keep_every_workspace_sound (X := MemoryTx) default_config 4 Some (λ _, None) Street.visits Street.world street_sound
    street_room).
Defined.

(** The ticket is asked for at home, and nothing happens next door; without a
    token nothing happens at all. *)
Lemma a_request_stays_in_its_workspace_witness :
  let q := Street.asking (PostUpload (text Demo.item1) (Demo.meta_of Demo.content) "3" None false) in
  let W' := (Street.serve_it q Street.world).2 in
  tables (w_db (Street.serve_it (Street.from None GetViewer) Street.world).2) = tables (w_db Street.world) ∧
  match Street.minted.1 with
  | Ok (_, made) =>
      records_in (X := MemoryTx) W' !! ki_workspace made ≠ records_in (X := MemoryTx) Street.world !! ki_workspace made ∧
      audit_rows (tables (w_db W')) = audit_rows (tables (w_db Street.world)) ∧
      ∀ v, v ≠ ki_workspace made →
        records_in (X := MemoryTx) W' !! v = records_in (X := MemoryTx) Street.world !! v ∧
        w_shelves W' !! v = w_shelves Street.world !! v
  | _ => False
  end.
Proof.
  intros q W'.
  assert (match Street.minted.1 with
    | Ok (_, made) => negb (bool_decide (records_in (X := MemoryTx) W' !! ki_workspace made
        = records_in (X := MemoryTx) Street.world !! ki_workspace made))
    | _ => false end = true) as Hc by (vm_compute; reflexivity).
  assert (bearer (Street.from None GetViewer) = None) as Hb by reflexivity.
  pose proof (a_request_stays_in_its_workspace (X := MemoryTx) default_config 4 Some (λ _, None) Street.clock
    (Street.from None GetViewer) Street.world) as Hn.
  pose proof (a_request_stays_in_its_workspace (X := MemoryTx) default_config 4 Some (λ _, None) Street.clock q Street.world) as Hs.
  change (server _ _ _ _ _ q _) with (Street.serve_it q Street.world) in Hs.
  change (server _ _ _ _ _ _ _) with (Street.serve_it (Street.from None GetViewer) Street.world) in Hn. subst W'.
  destruct (Street.serve_it (Street.from None GetViewer) Street.world) as [answer0 W0].
  destruct (Street.serve_it q Street.world) as [answer W']. cbn [snd] in *.
  split; [destruct Hn as [[Hn _]|(? & ? & ? & ? & Hb' & _)]; [exact Hn|congruence]|].
  destruct Street.minted.1 as [[k made]| | |]; [|discriminate Hc..].
  apply negb_true_iff, bool_decide_eq_false in Hc. split; [exact Hc|].
  destruct Hs as [[Ht _]|(? & ? & ? & W1 & _ & _ & _ & Hu & [[Ht _]|(who & ? & _ & _ & _ & _ & Ha & _ & Hs)])].
  1: destruct Hc; unfold records_in; rewrite Ht; reflexivity.
  1: destruct (untouched_records _ _ (last_used_untouched _ _ _ _ Hu)) as [Hr _]; destruct Hc; rewrite <- Hr; unfold records_in; rewrite Ht; reflexivity.
  split; [exact Ha|].
  destruct (decide (ki_workspace made = au_workspace who)) as [->|Hne]; [exact Hs|by destruct Hc; apply Hs].
Defined.
