(* ===== verification/Operated.v ===== *)
(** What the operator's commands can change, and what they leave alone: each
    makes at most one change to the accounts, whatever else it opens and
    repairs; and what follows for keys that were revoked, workspaces that are
    deleted, and sessions that are aborted, with requests in between. *)

From S2P Require Import Prelude Text Errors Random Ids Shelf Records Effects Rules Workspace Upload Rewrite Ledger Engine Operations Demo Safety Sessions.
From S2P Require Import Auth Database Sqlite Control Keys Operators Accounts Rate Config Bridge Engines Handlers Server Tenancy Commands.

(** What the operator's side of the disk is relied on for. *)
Class LawfulOperatorDisk (C Sh : Type) `{Stm : !Statements C} `{LawStm : !LawfulStatements C} `{Ext : Externals}
    `{Shelf : !ItemShelf Sh} `{Lawful : !LawfulShelf Sh} `{Op : !OperatorDisk C Sh} := {
  open_database_law (c : C) : tables (open_database c).2 = tables c;
  private_dir_law (o : option Sh) : from_option view no_shelves (private_dir o).2 = from_option view no_shelves o;
  remove_dir_all_law (o : option Sh) : (remove_dir_all o).1 = true → (remove_dir_all o).2 = None;
}.

(** ** One change *)

Section handed.
Context `{Ext : Externals}.

(** At most one command of the control database between what engines do. *)
Definition handed (t t' : Tables) : Prop :=
  kept_accounts t t' ∨ ∃ c t1 t2, kept_accounts t t1 ∧ stored c t1 t2 ∧ kept_accounts t2 t'.

Lemma handed_stored c t t' : stored c t t' → handed t t'.
Proof. intros Hs. right. by exists c, t, t'. Qed.
Lemma handed_before t t1 t' : kept_accounts t t1 → handed t1 t' → handed t t'.
Proof.
  intros Hk [Hh|(c & t2 & t3 & H1 & H2 & H3)]; [left; by etrans|right]. exists c, t2, t3. split_and!; [by etrans|done..].
Qed.
Lemma handed_after t t1 t' : handed t t1 → kept_accounts t1 t' → handed t t'.
Proof.
  intros [Hh|(c & t2 & t3 & H1 & H2 & H3)] Hk; [left; by etrans|right]. exists c, t2, t3. split_and!; [done..|by etrans].
Qed.

Lemma handed_sound t t' : handed t t' → Operators.Sound t → Operators.Sound t'.
Proof.
  intros [Hk|(c & t1 & t2 & H1 & H2 & H3)] Hs; [by apply (ka_sound _ _ Hk)|].
  apply (ka_sound _ _ H3). eapply stored_sound; [done|]. by apply (ka_sound _ _ H1).
Qed.

Lemma find_key_kept_accounts id t t' : kept_accounts t t' → find_key id t' = find_key id t.
Proof. intros Hk. apply find_key_same, Hk. Qed.

Lemma handed_revoked t t' id :
  handed t t' → Operators.Sound t → revoked_key id t → revoked_key id t' ∨ find_key id t' = None.
Proof.
  unfold revoked_key. intros [Hk|(c & t1 & t2 & H1 & H2 & H3)] Hs Hr.
  - left. by rewrite (find_key_kept_accounts _ _ _ Hk).
  - rewrite !(find_key_kept_accounts _ _ _ H3). eapply stored_revoked; [done|by apply (ka_sound _ _ H1)|].
    unfold revoked_key. by rewrite (find_key_kept_accounts _ _ _ H1).
Qed.
End handed.

(** ** What a command does *)

Section operated.
Context {C X Sh RS : Type} `{Ext : Externals} `{Db : !Database C X} `{LawfulDb : !LawfulDatabase C X}
  `{Shelf : !ItemShelf Sh} `{Lawful : !LawfulShelf Sh} `{Disk : !ShelfDisk Sh} `{LawDisk : !LawfulDisk Sh}
  `{Op : !OperatorDisk C Sh} `{LawOp : !LawfulOperatorDisk C Sh} `{Random : !RandomSource RS}.
Context (config : Config) (clock : nat → N) (fuel : nat) (stdin : Stdin) (data_mode : option N) (is_file : string → bool)
  (me owner : option N).
Implicit Types (W : World C Sh RS) (w v : WorkspaceId).

Definition rows W : Tables := tables (w_db W).

(** Only the workspace [w] was visited, by its engine. *)
Record visited w W W' : Prop := mkVisited {
  vi_accounts : kept_accounts (rows W) (rows W');
  vi_others v : v ≠ w → records_in W' !! v = records_in W !! v ∧ w_shelves W' !! v = w_shelves W !! v;
}.
#[global] Instance visited_preorder w : PreOrder (visited w).
Proof.
  split; [done|]. intros W1 W2 W3 [K1 O1] [K2 O2]. split; [by etrans|]. intros v Hv.
  destruct (O1 v Hv) as [<- <-]. by apply O2.
Qed.
Lemma visited_still w W W' : rows W' = rows W → (∀ v, v ≠ w → w_shelves W' !! v = w_shelves W !! v) → visited w W W'.
Proof. intros Hr Hs. split; [by rewrite Hr|]. intros v Hv. unfold records_in, rows in *. rewrite Hr. auto. Qed.

Lemma leads_said {A} (Q : relation (World C Sh RS)) (m : Srv A) : leads Q m → leads Q (said m).
Proof. intros Hm W. specialize (Hm W). unfold said. by destruct (m W). Qed.
Lemma leads_failing {A} (Q : relation (World C Sh RS)) (m : Cmd A) : leads Q m → leads Q (failing m).
Proof. intros Hm W. specialize (Hm W). unfold failing. by destruct (m W). Qed.
Lemma leads_attempted {A} (Q : relation (World C Sh RS)) (m : Cmd A) : leads Q m → leads Q (attempted m).
Proof. intros Hm W. specialize (Hm W). unfold attempted. by destruct (m W) as [[]]. Qed.

Section visits.
Context (w : WorkspaceId).
#[local] Abbreviation visits := (leads (visited w)) (only parsing).

Lemma visits_control : visits control.
Proof.
  intros W. unfold control. pose proof (open_database_law (w_db W)) as Hl. destruct (open_database (w_db W)) as [ok c].
  by apply visited_still.
Qed.
Lemma visits_now : visits (now clock).
Proof. intros W. by apply visited_still. Qed.
Lemma visits_asks {A} (m : M ControlError C A) : asks m → visits (on_ctl (Control.on_db m)).
Proof.
  intros Hm W. unfold on_ctl, Control.on_db. destruct (Hm (w_db W)) as [Hl _]. cbn. destruct (m (w_db W)) as [y c].
  by apply visited_still.
Qed.
Lemma visits_dir (f : option Sh → bool * option Sh) : visits (on_dir w f).
Proof.
  intros W. unfold on_dir. destruct (f (w_shelves W !! w)) as [a sh]. apply visited_still; [done|].
  intros v Hv. cbn. by rewrite lookup_partial_alter_ne.
Qed.
Lemma visits_typed name : visits (typed_again stdin name).
Proof. unfold typed_again. leads. Qed.

(** What an operation of its engine does. *)
Lemma visits_put E o sh W :
  w_shelves W !! w = Some sh → visited w W (put_engine w (exec w E o (engine_of sh W)).2 W).
Proof.
  intros Hsh. pose proof (exec_accounts w E o (engine_of sh W)) as Ha.
  pose proof (λ v, exec_elsewhere w E o (engine_of sh W) v) as He.
  destruct (exec w E o (engine_of sh W)) as [y e]. split; [exact Ha|]. intros v Hv. split; [by apply He|].
  cbn. by rewrite lookup_insert_ne.
Qed.
End visits.

Lemma visits_calling {A} found o (m : Env → Engine.Do (Sh := Sh) (L := SqliteLedger C) A) :
  (∀ E e, (m E e).2 = (exec (wi_id found) E o e).2) →
  leads (visited (wi_id found)) (calling config clock fuel found m).
Proof.
  intros Hm W. unfold calling. destruct (w_shelves W !! wi_id found) as [sh|] eqn:Hsh; [|done].
  pose proof (visits_put (wi_id found) (env clock fuel (limits_of config found)) o sh W Hsh) as Hv.
  rewrite <-(Hm (env clock fuel (limits_of config found)) (engine_of sh W)) in Hv.
  by destruct (m (env clock fuel (limits_of config found)) (engine_of sh W)) as [y e].
Qed.

Lemma visits_open_dir w : leads (visited w) (open_dir w).
Proof.
  intros W. unfold open_dir. destruct (open_shelf (w_shelves W !! w)) as [y sh]. apply visited_still; [done|].
  intros v Hv. cbn. by rewrite lookup_partial_alter_ne.
Qed.
Lemma visits_open_ledger w : leads (visited w) open_ledger.
Proof.
  intros W. unfold open_ledger. pose proof (open_database_law (w_db W)) as Hl. destruct (open_database (w_db W)) as [ok c].
  by apply visited_still.
Qed.
Lemma visits_open_engine w limits : leads (visited w) (open_engine clock fuel w limits).
Proof.
  intros W. unfold open_engine. destruct (w_shelves W !! w) as [sh|] eqn:Hsh; [|done].
  pose proof (visits_put w (env clock fuel limits) Open sh W Hsh) as Hv. cbn [exec] in Hv.
  by destruct (Engine.open w (env clock fuel limits) (engine_of sh W)).
Qed.
Lemma visits_engine found : leads (visited (wi_id found)) (engine config clock fuel found).
Proof.
  intros W. unfold engine.
  assert (leads (visited (wi_id found)) (open_dir (wi_id found);; open_ledger;;
    open_engine clock fuel (wi_id found) (limits_of config found))) as Hl
    by (leads; [apply visits_open_dir|apply visits_open_ledger|apply visits_open_engine]).
  specialize (Hl W). by destruct ((open_dir (wi_id found);; _) W).
Qed.

#[local] Ltac is_op o := apply leads_said, (visits_calling _ o); intros; unfold exec; by rewrite ?ignore_ran.
Lemma visits_encryption found : leads (visited (wi_id found)) (said (calling config clock fuel found (λ _, Engine.encryption (wi_id found)))).
Proof. is_op Encryption. Qed.
Lemma visits_item_ids found p : leads (visited (wi_id found)) (said (calling config clock fuel found (λ _, Engine.item_ids (wi_id found) p))).
Proof. is_op (ItemIds p). Qed.
Lemma visits_used found : leads (visited (wi_id found)) (said (calling config clock fuel found (λ _, Engine.used_bytes (wi_id found)))).
Proof. is_op UsedBytes. Qed.
Lemma visits_reserved found : leads (visited (wi_id found)) (said (calling config clock fuel found (λ E, Engine.reserved_bytes (wi_id found) E))).
Proof. is_op ReservedBytes. Qed.
Lemma visits_session found : leads (visited (wi_id found)) (said (calling config clock fuel found (λ _, Engine.session_view (wi_id found)))).
Proof. is_op ViewSession. Qed.
Lemma visits_abort found session force name : leads (visited (wi_id found)) (abort config clock fuel found session force name).
Proof.
  intros W. unfold abort.
  assert (leads (visited (wi_id found)) (calling config clock fuel found (λ E, Engine.operator_abort_rewrite (wi_id found) E force))) as Hl
    by (apply (visits_calling _ (OperatorAbortRewrite force)); intros; unfold exec; by rewrite ?ignore_ran).
  specialize (Hl W). by destruct (calling _ _ _ _ _ W) as [[|[]| |]].
Qed.
End operated.

#[export] Hint Resolve visits_control visits_now visits_dir visits_typed visits_engine visits_encryption visits_item_ids
  visits_used visits_reserved visits_session visits_abort leads_said leads_failing leads_attempted : leads.
#[export] Hint Extern 0 (leads (visited _) (on_ctl (Control.on_db _))) =>
  apply visits_asks; first [apply asks_workspaces|apply asks_workspace|apply asks_keys|apply asks_audit] : leads.

(** ** Each command makes at most one change *)

Section hands.
Context {C X Sh RS : Type} `{Ext : Externals} `{Db : !Database C X} `{LawfulDb : !LawfulDatabase C X}
  `{Shelf : !ItemShelf Sh} `{Lawful : !LawfulShelf Sh} `{Disk : !ShelfDisk Sh} `{LawDisk : !LawfulDisk Sh}
  `{Op : !OperatorDisk C Sh} `{LawOp : !LawfulOperatorDisk C Sh} `{Random : !RandomSource RS}.
Context (config : Config) (clock : nat → N) (fuel : nat) (stdin : Stdin) (data_mode : option N) (is_file : string → bool)
  (me owner : option N).
Implicit Types (W : World C Sh RS) (w v : WorkspaceId).

Definition quiets {Er A} : M Er (World C Sh RS) A → Prop := leads (λ W W', kept_accounts (rows W) (rows W')).
Definition hands {Er A} (m : M Er (World C Sh RS) A) : Prop := ∀ W, handed (rows W) (rows (m W).2).

Lemma visits_quiets {Er A} w (m : M Er (World C Sh RS) A) : leads (visited w) m → quiets m.
Proof. intros Hm W. apply (Hm W). Qed.
Lemma hands_quiet {Er A} (m : M Er (World C Sh RS) A) : quiets m → hands m.
Proof. intros Hm W. left. apply Hm. Qed.
Lemma hands_then {Er A B} (m : M Er (World C Sh RS) A) (f : A → M Er (World C Sh RS) B) :
  quiets m → (∀ a, hands (f a)) → hands (m ≫= f).
Proof.
  intros Hm Hf W. specialize (Hm W). unfold mbind, M_bind. destruct (m W) as [[a| | |] W1]; [|by left..].
  eapply handed_before; [exact Hm|apply Hf].
Qed.
Lemma hands_first {Er A B} (m : M Er (World C Sh RS) A) (f : A → M Er (World C Sh RS) B) :
  hands m → (∀ a, quiets (f a)) → hands (m ≫= f).
Proof.
  intros Hm Hf W. specialize (Hm W). unfold mbind, M_bind. destruct (m W) as [[a| | |] W1]; [|done..].
  eapply handed_after; [done|apply Hf].
Qed.
Lemma hands_ctl {A} c (m : Control.Ctl A) :
  (∀ s, (m s).2 = (exec_command clock fuel c s).2) → hands (on_ctl m).
Proof.
  intros Hm W. unfold on_ctl, rows. set (s := mkControl (w_db W) (w_random W) (w_ticks W)). specialize (Hm s).
  destruct (exec_stored_or_not clock fuel c s) as [Hst|Hst]; rewrite <-Hm in Hst; destruct (m s) as [y s'].
  - exact (handed_stored _ _ _ Hst).
  - left. cbn. unfold tables_of in Hst. cbn in Hst. by rewrite Hst.
Qed.
Lemma hands_failing {A} (m : Cmd A) : hands m → hands (failing m).
Proof. intros Hm W. specialize (Hm W). unfold failing. by destruct (m W). Qed.

#[local] Ltac is_command c := apply (hands_ctl c); intros s; cbn [exec_command]; unfold mbind, M_bind; match goal with |- context [?m s] => by destruct (m s) as [[]] end.
Lemma hands_create_workspace name quota : hands (on_ctl (Control.create_workspace clock name quota)).
Proof. is_command (CreateWorkspace name quota). Qed.
Lemma hands_delete_workspace name : hands (on_ctl (Control.delete_workspace clock name)).
Proof. is_command (DeleteWorkspaceNamed name). Qed.
Lemma hands_create_key name label r lasts : hands (on_ctl (Control.create_key clock fuel name label r lasts)).
Proof. is_command (CreateKey name label r lasts). Qed.
Lemma hands_extend_key id lasts : hands (on_ctl (Control.extend_key clock id lasts)).
Proof. is_command (ExtendKey id lasts). Qed.
Lemma hands_revoke_key id : hands (on_ctl (Control.revoke_key clock id)).
Proof. is_command (RevokeKey id). Qed.
Lemma hands_delete_key id : hands (on_ctl (Control.delete_key clock id)).
Proof. is_command (RemoveKey id). Qed.
Lemma hands_prune_keys secs : hands (on_ctl (Control.prune_keys clock secs)).
Proof. is_command (Prune secs). Qed.

(** Steps that visit one workspace, or none. *)
#[local] Hint Extern 1 (leads (λ W W', kept_accounts (rows W) (rows W')) ?m) =>
  match m with
  | context [wi_id ?found] => apply (visits_quiets (wi_id found)); solve [leads]
  | context [Commands.engine _ _ _ ?found] => apply (visits_quiets (wi_id found)); solve [leads]
  | context [abort _ _ _ ?found] => apply (visits_quiets (wi_id found)); solve [leads]
  | _ => apply (visits_quiets Demo.w); solve [leads]
  end : leads.
#[local] Hint Resolve hands_create_workspace hands_delete_workspace hands_create_key hands_extend_key hands_revoke_key
  hands_delete_key hands_prune_keys : leads.

(** One change, with what only visits before and after it. *)
#[local] Ltac hands := intros; repeat first
  [ solve [eauto with leads]
  | apply hands_quiet; solve [unfold quiets; leads]
  | apply hands_then; [solve [unfold quiets; leads]|intros ?]
  | apply hands_first; [|intros ?; solve [unfold quiets; leads]]
  | match goal with |- hands (match ?x with _ => _ end) => destruct x end ].

Lemma hands_workspace c : hands (Commands.workspace config clock fuel stdin c).
Proof. unfold Commands.workspace. hands. Qed.
Lemma hands_key c : hands (Commands.key clock fuel c).
Proof. unfold Commands.key. hands. Qed.
Lemma quiets_rewrite c : quiets (Commands.rewrite config clock fuel c).
Proof. unfold quiets, Commands.rewrite. leads. Qed.
Lemma quiets_audit limit : quiets (Commands.audit limit).
Proof. unfold quiets, Commands.audit. leads. Qed.
Lemma quiets_check_each ws c : quiets (check_each config clock fuel ws c).
Proof. unfold quiets. revert c. induction ws as [|w ws IH]; intros c; cbn [check_each]; unfold looked_at; leads. Qed.
#[local] Hint Resolve quiets_check_each : leads.
Lemma quiets_checked : quiets (checked config clock fuel data_mode is_file).
Proof. unfold quiets, checked. leads. by apply quiets_check_each. Qed.

Lemma hands_run c : hands (run config clock fuel stdin data_mode is_file me owner c).
Proof.
  apply hands_then; [apply leads_lift, _|]. intros _. destruct c.
  - apply hands_failing, hands_workspace.
  - apply hands_failing, hands_key.
  - apply hands_quiet, leads_failing, quiets_rewrite.
  - apply hands_quiet, leads_failing, quiets_audit.
  - apply hands_quiet, leads_bind; [apply _|apply leads_failing, quiets_checked|]. intros c. destruct (failed c =? 0)%nat; leads.
Qed.

(** Whoever does not own the data directory does nothing at all. *)
Lemma stranger_does_nothing c W :
  owned me owner ≠ Ok () →
  ∃ e, run config clock fuel stdin data_mode is_file me owner c W = (Err e, W).
Proof.
  intros Hno. unfold run, mbind, M_bind, lift. unfold owned, same_owner, mbind, outcome_bind in *.
  destruct owner as [o|], me as [m|]; cbn in *; try by eexists.
  destruct (m =? o)%N; [done|by eexists].
Qed.
End hands.

(** ** Requests and commands, in any order *)

(** A request, or a command with the process it runs in. *)
Inductive Event :=
| Requested (clock : nat → N) (q : Arrival)
| Commanded (clock : nat → N) (fuel : nat) (stdin : Stdin) (data_mode : option N) (is_file : string → bool)
    (me owner : option N) (c : Subcommand.t).

Section history.
Context {C X Sh RS : Type} `{Ext : Externals} `{Db : !Database C X} `{LawfulDb : !LawfulDatabase C X}
  `{Shelf : !ItemShelf Sh} `{Lawful : !LawfulShelf Sh} `{Disk : !ShelfDisk Sh} `{LawDisk : !LawfulDisk Sh}
  `{Op : !OperatorDisk C Sh} `{LawOp : !LawfulOperatorDisk C Sh} `{Random : !RandomSource RS}.
Context (config : Config) (fuel : nat) (raw : list byte → option (list byte)) (parse_ip : string → option IpAddr).
Implicit Types (W : World C Sh RS).

#[local] Abbreviation answered := (server config fuel raw parse_ip) (only parsing).

Definition happen (e : Event) W : World C Sh RS :=
  match e with
  | Requested clock q => (answered clock q W).2
  | Commanded clock fuel stdin data_mode is_file me owner c =>
      (run config clock fuel stdin data_mode is_file me owner c W).2
  end.
Definition history (es : list Event) W : World C Sh RS := fold_left (λ W e, happen e W) es W.

Lemma untouched_handed W W' : untouched W W' → handed (rows W) (rows W').
Proof.
  intros [[Ht|(id & at_ & Ht)] _]; unfold rows; [left; by rewrite Ht|].
  apply (handed_stored (Authenticate "")). cbn. eauto.
Qed.

Lemma happen_handed e W : handed (rows W) (rows (happen e W)).
Proof.
  destruct e as [clock q|clock f stdin mode files me owner c]; cbn [happen].
  - pose proof (serve_acts config fuel raw parse_ip clock q W) as Hs. destruct (answered clock q W) as [answer W'].
    destruct Hs as [Hu|(token & k & who & n & W1 & _ & _ & Hu & _ & Ha)]; [by apply untouched_handed|].
    eapply handed_after; [by apply untouched_handed|]. by eapply acts_accounts.
  - apply hands_run.
Qed.

Lemma history_sound es W : Operators.Sound (rows W) → Operators.Sound (rows (history es W)).
Proof.
  revert W. induction es as [|e es IH]; intros W Hs; [done|]. apply IH. eapply handed_sound; [apply happen_handed|done].
Qed.

Lemma serve_all_history qs W :
  serve_all config fuel raw parse_ip qs W = history (map (λ q, Requested q.1 q.2) qs) W.
Proof. revert W. induction qs as [|[clock q] qs IH]; intros W; [done|]. apply IH. Qed.

Lemma history_revoked es W id :
  Operators.Sound (rows W) → revoked_key id (rows W) →
  (∀ n, is_Some (find_key id (rows (history (take n es) W)))) → revoked_key id (rows (history es W)).
Proof.
  revert W. induction es as [|e es IH]; intros W Hs Hr Hknown; [done|].
  apply (IH (happen e W)); [eapply handed_sound; [apply happen_handed|done]| |intros n; apply (Hknown (S n))].
  destruct (handed_revoked _ _ id (happen_handed e W) Hs Hr) as [?|Hn]; [done|].
  pose proof (Hknown 1) as Hk. cbn [take] in Hk. rewrite take_0 in Hk. cbn in Hk. rewrite Hn in Hk. by destruct Hk.
Qed.

(** A token of a revoked key is refused. *)
Lemma revoked_verdict now t token k who :
  ApiKey.parse token = Some k → revoked_key (api_key_str (api_key_id k)) t → ¬ Keys.verdict now t token (Ok who).
Proof.
  intros Hk (row & Hrow & Hr) Hv. inversion Hv; simplify_eq. by destruct Hr as [? ?]; congruence.
Qed.

(** C23: A revoked key stays out, whatever is asked of the server and whatever
    the operator does in between: as long as its row is known, no request that
    presents it gets past the bearer layer; no record and no shelf is changed
    by it, and no row but, it may be, by the time of a last use. *)
Theorem a_revoked_key_stays_out (es : list Event) W (token : string) (k : ApiKey) (clock : nat → N) (q : Arrival) :
  Operators.Sound (rows W) →
  ApiKey.parse token = Some k → revoked_key (api_key_str (api_key_id k)) (rows W) →
  (∀ n, is_Some (find_key (api_key_str (api_key_id k)) (rows (history (take n es) W)))) →
  bearer q = Some token →
  let W1 := history es W in let '(answer, W2) := answered clock q W1 in
  (∃ p, (layer config clock parse_ip q W1).1 = Err p ∧ answer = Some (into_response p)) ∧ untouched W1 W2.
Proof.
  intros Hs Hk Hrev Hknown Hb. pose proof (history_revoked es W _ Hs Hrev Hknown) as Hrev1.
  cbn zeta. set (W1 := history es W) in *. clearbody W1. clear W Hs Hrev Hknown.
  pose proof (layer_answers config clock parse_ip q W1) as Hl.
  unfold server, serve, serve_v1, mbind, M_bind. destruct (layer config clock parse_ip q W1) as [y W2].
  destruct Hl as [Hu Hy]. destruct y as [who|p| |]; [|cbn; split; [by exists p|done]|done..].
  destruct Hy as (token' & n & Hb' & Hv). rewrite Hb in Hb'. injection Hb' as <-.
  by destruct (revoked_verdict _ _ _ _ _ Hk Hrev1 Hv).
Qed.
End history.
