(* ===== verification/Purpose.v ===== *)
(** What the operator's commands are for: a workspace is deleted on purpose
    only, a session aborted when its lease is over or on purpose, a new key
    opens its workspace, and [check] passes exactly what is in order. *)

From S2P Require Import Prelude Text Errors Random Ids Shelf Records Effects Rules Workspace Upload Rewrite Ledger Engine Operations Demo Safety Sessions.
From S2P Require Import Auth Database Sqlite Control Keys Operators Accounts Rate Config Bridge Engines Handlers Server Tenancy Commands Operated.

Section commands.
Context {C X Sh RS : Type} `{Ext : Externals} `{Db : !Database C X} `{LawfulDb : !LawfulDatabase C X}
  `{Shelf : !ItemShelf Sh} `{Lawful : !LawfulShelf Sh} `{Disk : !ShelfDisk Sh} `{LawDisk : !LawfulDisk Sh}
  `{Op : !OperatorDisk C Sh} `{LawOp : !LawfulOperatorDisk C Sh} `{Random : !RandomSource RS}.
Context (config : Config) (clock : nat → N) (fuel : nat) (stdin : Stdin).
Implicit Types (W : World C Sh RS) (w v : WorkspaceId).

(** ** Steps of commands *)

(** Nothing that is kept is changed. *)
Definition still W W' : Prop := rows W' = rows W ∧ w_shelves W' = w_shelves W.

Lemma still_visited w W W' : still W W' → visited w W W'.
Proof. intros [Hr Hs]. apply visited_still; [done|]. intros v _. by rewrite Hs. Qed.
Lemma still_sound w W W' : still W W' → sound_in w W → sound_in w W'.
Proof. intros [Hr Hs]. unfold sound_in, records_in, shelf_in, rows in *. by rewrite Hr, Hs. Qed.

Lemma wp_control Q W :
  (∀ W', still W W' → Q (Ok ()) W' ∧ Q (Err (ControlSaid Unavailable)) W') → wp control Q W.
Proof.
  intros HQ. unfold wp, control. pose proof (open_database_law (w_db W)) as Hl.
  destruct (open_database (w_db W)) as [[] c]; cbn; by apply HQ.
Qed.

Lemma wp_found name Q W :
  (∀ y W', still W W' → found_workspace (rows W) name y → Q (map_err ControlSaid y) W') →
  wp (on_ctl (Control.on_db (Control.workspace name))) Q W.
Proof.
  intros HQ. unfold wp, on_ctl.
  pose proof (workspace_found (RS := RS) name (mkControl (w_db W) (w_random W) (w_ticks W))) as (Ht & _ & Hf).
  destruct (Control.on_db _ _) as [y s]. cbn [fst snd] in *. by apply HQ.
Qed.

Lemma found_named t name info : found_workspace t name (Ok info) → named name t (text (wi_id info)).
Proof. intros (rr & row & Hw & Hn & _). by exists (rr, row). Qed.

(** Opening the engine repairs, and does not end a session. *)
Definition record_at w W : WorkspaceRecord := default default_record (records_in W !! w).
Definition session_open w W : bool := is_rewriting (record_at w W).
Definition same_session (r r' : WorkspaceRecord) : Prop := state r' = state r ∧ generation r' = generation r.

Lemma open_engine_state w limits W W' :
  sound_in w W → open_engine clock fuel w limits W = (Ok (), W') →
  ∃ r, records_in W' !! w = Some r ∧ same_session (record_at w W) r.
Proof.
  intros Hs. unfold open_engine. destruct (w_shelves W !! w) as [sh|] eqn:Hsh; [|done].
  destruct (Engine.open w (env clock fuel limits) (engine_of sh W)) as [y e] eqn:He. intros [= -> <-].
  destruct (put_engine_sound w sh W e Hsh) as [[He1 He2] [Hb1 Hb2]].
  unfold sound_in in Hs. rewrite <-Hb1, <-Hb2 in Hs.
  destruct (opened w _ _ _ (proj1 (starts_sound w _ Hs)) He) as (r & left & Hr & Hran & _).
  exists r. rewrite <-He1. split; [done|]. unfold record_at. rewrite <-Hb1.
  inversion Hran as [| ? ? Hi| ? ? ? ? ? ? ? ? (k & -> & _) |]; subst; [by destruct Hi|done].
Qed.

(** What an engine says, told. *)
Definition told {A} (y : outcome CommandError A) : Prop :=
  ∀ e, y = Err e → (∃ n e', e = NotOpened n e') ∨ ∃ e', e = ApiSaid e'.

Lemma told_engine found W : told (Commands.engine config clock fuel found W).1.
Proof.
  intros e. unfold Commands.engine. match goal with |- context [let '(_, _) := ?m in _] => destruct m as [[]] end; cbn; naive_solver.
Qed.
Lemma told_said {A} (m : Srv A) W : told (said m W).1.
Proof. intros e. unfold said. destruct (m W) as [[]]; cbn; naive_solver. Qed.

Lemma wp_engine found Q W :
  sound_in (wi_id found) W →
  (∀ y W', visited (wi_id found) W W' →
    (y = Ok () → ∃ r, records_in W' !! wi_id found = Some r ∧ same_session (record_at (wi_id found) W) r) → told y → Q y W') →
  wp (Commands.engine config clock fuel found) Q W.
Proof.
  intros Hs HQ. set (w := wi_id found) in *. unfold wp. pose proof (visits_engine config clock fuel found W) as Hv.
  destruct (Commands.engine config clock fuel found W) as [y W'] eqn:He. cbn [fst snd] in *.
  pose proof (told_engine found W) as Ht. rewrite He in Ht. apply HQ; [exact Hv| |exact Ht]. intros ->. clear Ht. clear Hv HQ Q.
  unfold Commands.engine in He. fold w in He.
  destruct ((open_dir w;; _) W) as [z W2] eqn:Ho. injection He as Hz <-. destruct z as [[]| | |]; try done. clear Hz.
  unfold mbind, M_bind, open_dir in Ho. pose proof (open_shelf_law (w_shelves W !! w)) as Hl.
  destruct (open_shelf (w_shelves W !! w)) as [[[]| | |] sh]; try done.
  set (W1 := mkWorld _ _ _ _ _ _) in Ho.
  assert (sound_in w W1 ∧ record_at w W1 = record_at w W) as [Hs1 <-].
  { split; [|done]. unfold sound_in, shelf_in in *. cbn. rewrite lookup_partial_alter_eq. cbn in Hl. by rewrite Hl. }
  clearbody W1. unfold open_ledger in Ho. pose proof (open_database_law (w_db W1)) as Hd.
  destruct (open_database (w_db W1)) as [[] c]; [|done]. cbn in Hd.
  assert (still W1 (with_db c W1)) as Hst by done.
  replace (record_at w W1) with (record_at w (with_db c W1)) by (unfold record_at, records_in; cbn; by rewrite Hd).
  eapply open_engine_state; [by apply (still_sound _ W1)|exact Ho].
Qed.

Lemma still_record w W W' : still W W' → record_at w W' = record_at w W.
Proof. intros [Hr _]. unfold record_at, records_in, rows in *. by rewrite Hr. Qed.
Lemma viewed_open r (v : Shelves) : bool_decide (is_Some (session_view_of r v)) = is_rewriting r.
Proof. unfold session_view_of, is_rewriting. by destruct (state r). Qed.

Lemma wp_session found Q W :
  (∀ y W', visited (wi_id found) W W' →
    (∀ s r, y = Ok s → records_in W !! wi_id found = Some r → s = session_view_of r (shelf_in (wi_id found) W) ∧
      records_in W' !! wi_id found = Some r ∧ shelf_in (wi_id found) W' = shelf_in (wi_id found) W) → told y → Q y W') →
  wp (said (calling config clock fuel found (λ _, Engine.session_view (wi_id found)))) Q W.
Proof.
  intros HQ. set (w := wi_id found) in *. unfold wp. pose proof (visits_session config clock fuel found W) as Hv.
  destruct (said _ W) as [y W'] eqn:He. cbn [fst snd] in *.
  pose proof (told_said (calling config clock fuel found (λ _, Engine.session_view w)) W) as Ht. unfold w in Ht. rewrite He in Ht.
  apply HQ; [exact Hv| |exact Ht]. intros o r -> Hr. clear Ht. clear Hv HQ Q.
  unfold said, calling in He. fold w in He. destruct (w_shelves W !! w) as [sh|] eqn:Hsh; [|done].
  pose proof (read_ran w Rules.session_view (λ x (v' : Shelves), v' = shelf_in w W ∧ Rules.answers (λ r (v : Shelves), Ok (session_view_of r v)) r (shelf_in w W) x)
    (engine_of sh W) r) as Hread.
  destruct (put_engine_sound w sh W (engine_of sh W) Hsh) as [_ [Hb1 Hb2]]. unfold record_of in Hb1. rewrite Hb2 in Hread.
  unfold Engine.session_view in He. destruct (Engine.read w _ _) as [x e].
  injection He as Hx <-. destruct x as [o'| | |]; try done. injection Hx as ->.
  destruct Hread as [Hl [[Hv [Hx|Hi]]|[Hi _]]]; [etrans; [exact Hb1|exact Hr]| | |by destruct Hi|by destruct Hi].
  - eapply wpr_mono; [apply session_view_answers|]. by intros x r' v' a' (_ & -> & _ & Ha).
  - injection Hx as ->. split_and!; [done|etrans; [exact (f_equal (lookup w) Hl)|exact Hr]|].
    unfold shelf_in at 1. cbn. by rewrite lookup_insert_eq.
Qed.

(** ** Deleting a workspace *)

(** Nobody but the workspaces of that name was so much as visited. *)
Definition spared name W W' : Prop :=
  kept_accounts (rows W) (rows W') ∧
  ∀ v, ¬ named name (rows W) (text v) → records_in W' !! v = records_in W !! v ∧ w_shelves W' !! v = w_shelves W !! v.

(** [w] is gone with its keys, and nothing else. *)
Record razed w W W' : Prop := mkRazed {
  rz_records : records_in W' = delete w (records_in W);
  rz_keys : api_keys (rows W') = List.filter (λ row, negb (String.eqb (c_workspace row) (text w))) (api_keys (rows W));
  rz_named n u : named n (rows W') u ↔ u ≠ text w ∧ named n (rows W) u;
  rz_others v : v ≠ w → w_shelves W' !! v = w_shelves W !! v;
}.

Lemma visited_spared name w W W' : named name (rows W) (text w) → visited w W W' → spared name W W'.
Proof. intros Hn [Hk Ho]. split; [done|]. intros v Hv. apply Ho. by intros ->. Qed.
Lemma still_spared name W W' : still W W' → spared name W W'.
Proof. intros [Hr Hs]. split; [by rewrite Hr|]. intros v _. unfold records_in, rows in *. by rewrite Hr, Hs. Qed.

Lemma deleted_razed w W W1 W2 now a b c d :
  visited w W W1 → w_shelves W2 = w_shelves W1 →
  rows W2 = noted now a b c d (without_workspace (text w) (rows W1)) → razed w W W2.
Proof.
  intros [Hk Ho] Hs Hr. split.
  - apply map_eq. intros v. unfold records_in in *. fold (rows W2). rewrite Hr, records_of_noted, records_of_without.
    destruct (decide (v = w)) as [->|Hne]; [by rewrite !lookup_delete_eq|]. rewrite !lookup_delete_ne by done. by apply Ho.
  - rewrite Hr. cbn. by rewrite (ka_keys _ _ Hk).
  - intros n u. rewrite Hr, <-(ka_named _ _ Hk n u). unfold named. cbn. setoid_rewrite lookup_delete_Some. naive_solver.
  - intros v Hv. rewrite Hs. by apply Ho.
Qed.
Lemma razed_after w W W1 W2 :
  razed w W W1 → rows W2 = rows W1 → (∀ v, v ≠ w → w_shelves W2 !! v = w_shelves W1 !! v) → razed w W W2.
Proof.
  intros [Hrec Hk Hn Ho] Hr Hs. split; rewrite ?Hr; try done.
  - rewrite <-Hrec. unfold records_in, rows in *. by rewrite Hr.
  - intros v Hv. rewrite Hs by done. by apply Ho.
Qed.

(** Whether someone meant it. *)
Definition confirmed name (yes : bool) : Prop := yes = true ∨ ∃ line, stdin = Typed line ∧ trim line = name.
Definition meant name (yes force : bool) w W : Prop :=
  named name (rows W) (text w) ∧ confirmed name yes ∧ (force = true ∨ session_open w W = false).

(** How a deletion may end. *)
Definition deletion name yes force W (y : outcome CommandError Printed) W' : Prop :=
  match y with
  | Ok p => p = DeletedWorkspace name ∧ ∃ w, meant name yes force w W ∧ razed w W W' ∧
      (w_shelves W' !! w = None ∨ dir_exists (w_shelves W' !! w) = false)
  | Err e => spared name W W' ∨ ∃ w, meant name yes force w W ∧ razed w W W' ∧ (e = OnDisk w ∨ e = ControlSaid Unavailable)
  | _ => spared name W W'
  end.

Lemma deletion_spared name yes force W y W' : (∀ p, y ≠ Ok p) → spared name W W' → deletion name yes force W y W'.
Proof. intros Hy Hs. destruct y; cbn; auto. by destruct (Hy a). Qed.

Lemma wp_raze name w W W1 Q :
  visited w W W1 → Operators.Sound (rows W) → named name (rows W) (text w) →
  (∀ W2, razed w W W2 → (∀ info, Q (Ok info) W2) ∧ Q (Err (ControlSaid Unavailable)) W2) →
  (∀ e W2, still W1 W2 → Q (Err (ControlSaid e)) W2) →
  wp (on_ctl (Control.delete_workspace clock name)) Q W1.
Proof.
  intros Hv Hsound Hn Hraze Hsame. unfold wp, on_ctl.
  pose proof (delete_workspace_came (RS := RS) clock name (mkControl (w_db W1) (w_random W1) (w_ticks W1))) as Hc.
  unfold wp in Hc. destruct (Control.delete_workspace _ _ _) as [y s]. cbn [fst snd] in *.
  set (W2 := mkWorld _ _ _ _ _ _).
  assert (∀ info, workspace_deleted (clock (w_ticks W1)) name (rows W1) (Ok info) (tables_of s) → razed w W W2) as Hraze2.
  { intros info [Hf Ht]. eapply deleted_razed; [exact Hv|done|]. replace w with (wi_id info); [exact Ht|].
    apply checked_eq, (sound_names _ Hsound name); [|done]. apply (ka_named _ _ (vi_accounts _ _ _ Hv)). by eapply found_named. }
  apply came_cases in Hc as [(info & -> & Hd)|[(e & -> & Ht & _)|[(-> & info & Hd)|(-> & _ & t1 & Hd)]]]; cbn.
  - by apply (Hraze W2), (Hraze2 info).
  - apply Hsame. split; [exact Ht|done].
  - by apply (Hraze W2), (Hraze2 info).
  - done.
Qed.

Lemma wp_typed name yes Q W :
  (∀ y, (y = Ok true → confirmed name yes) → y ≠ Killed → y ≠ Spinning → Q y W) →
  wp (if yes then mret true else typed_again stdin name) Q W.
Proof.
  intros HQ. unfold wp, typed_again, confirmed in *. destruct yes; [by apply HQ; auto|].
  destruct stdin as [|line|]; cbn; apply HQ; try done.
  intros [= Heq%String.eqb_eq]. right. by exists line.
Qed.

(** The directory, once the rows are gone. *)
Lemma wp_take_away name yes force w W W1 :
  meant name yes force w W → razed w W W1 →
  wp (gone ← on_dir w (λ o, if dir_exists o then remove_dir_all o else (true, o));
    if gone : bool then mret (DeletedWorkspace name) else throw (OnDisk w)) (deletion name yes force W) W1.
Proof.
  intros Hm Hr. apply wp_bind. unfold wp at 1, on_dir. pose proof (remove_dir_all_law (w_shelves W1 !! w)) as Hlaw.
  assert (∀ sh t, razed w W (mkWorld (w_db W1) (partial_alter (λ _, sh) w (w_shelves W1)) (w_open W1) (w_random W1) t (w_failures W1))) as Hraze.
  { intros sh t. eapply razed_after; [exact Hr|done|]. intros v Hv. cbn. by rewrite lookup_partial_alter_ne. }
  destruct (dir_exists (w_shelves W1 !! w)) eqn:Hd.
  - destruct (remove_dir_all (w_shelves W1 !! w)) as [[] sh]; cbn [fst snd andthen] in *; [|right; exists w; split_and!; [done|apply Hraze|by left]].
    split; [done|]. exists w. split_and!; [done|apply Hraze|left]. cbn. by rewrite lookup_partial_alter_eq, (Hlaw eq_refl).
  - split; [done|]. exists w. split_and!; [done|apply Hraze|right]. cbn. by rewrite lookup_partial_alter_eq.
Qed.

(** C26: A workspace is deleted on purpose only: by the name it has, with a
    confirmation that is the flag or that name typed again, and while no
    session is open unless by force.  Anything else leaves every name, key and
    other workspace alone; and a deletion takes the workspace with its record,
    its keys and its directory, and nothing else. *)
Theorem a_workspace_is_deleted_on_purpose (name : string) (yes force : bool) W :
  Operators.Sound (rows W) → (∀ w, sound_in w W) →
  let '(y, W') := Commands.workspace config clock fuel stdin (WorkspaceCommand.Delete name yes force) W in
  deletion name yes force W y W'.
Proof.
  intros Hsound Hs. apply wp_pair.
  unfold Commands.workspace. apply wp_bind, wp_control. intros W1 H1. cbn [andthen].
  split; [|by apply deletion_spared, still_spared].
  apply wp_bind, wp_found. intros y W2 H2 Hy.
  assert (still W W2) as HW2 by (destruct H1, H2; split; congruence).
  destruct y as [found|e| |]; cbn [map_err andthen]; [|by apply deletion_spared, still_spared|done..].
  rewrite (proj1 H1) in Hy. pose proof (found_named _ _ _ Hy) as Hn. set (w := wi_id found) in *.
  pose proof (λ y W', deletion_spared name yes force W y W') as Hspare.
  apply wp_bind, wp_engine; [by apply (still_sound _ W)|]. intros y W3 H3 Hopen Htold.
  assert (visited w W W3) as HW3 by (etrans; [by apply still_visited|done]).
  destruct y as [[]|e| |]; cbn [andthen]; try (apply Hspare; [done|by apply (visited_spared _ w)]).
  destruct (Hopen eq_refl) as (r & Hr & Hrw & _). clear Hopen.
  apply wp_bind, wp_session. intros y W4 H4 Hview Htold'. fold w in H4, Hview.
  assert (visited w W W4) as HW4 by (by etrans).
  assert (spared name W W4) as Hs4 by (by apply (visited_spared _ w)).
  destruct y as [session|e| |]; cbn [andthen]; try (by apply Hspare).
  specialize (Hview session r eq_refl Hr).
  destruct (bool_decide (is_Some session) && negb force) eqn:Hb; [by apply Hspare|].
  apply wp_bind, wp_typed. intros y Hconf Hk Hsp. destruct y as [sure|e| |]; cbn [andthen]; [|by apply Hspare|done..].
  destruct sure; cbn [negb]; [|by apply Hspare].
  assert (meant name yes force w W) as Hmeant.
  { split_and!; [done|by apply Hconf|]. destruct force; [by left|right]. rewrite andb_true_r in Hb.
    unfold session_open, is_rewriting. rewrite <-(still_record _ _ _ HW2). fold w in Hrw. rewrite <-Hrw.
    change (is_rewriting r = false). by rewrite <-(viewed_open r (shelf_in w W3)), <-(proj1 Hview). }
  apply wp_bind. eapply wp_raze; [exact HW4|done..| |].
  - intros W5 Hraze. split; cbn [andthen]; [intros _|right; exists w; split_and!; [done|done|by right]].
    by apply (wp_take_away name yes force w W).
  - intros e W5 H5. cbn [andthen]. apply Hspare; [done|]. apply (visited_spared _ w); [done|]. etrans; [done|by apply still_visited].
Qed.

(** ** Aborting a session *)

(** The session of [w] was given up: what it began from is the state again. *)
Definition session_dropped name force r w (p : Printed) W' : Prop :=
  ∃ s r', state r = Records.Rewriting s ∧ (force = true ∨ ∃ k, (lease_expires_at s ≤ clock k)%N) ∧
    records_in W' !! w = Some r' ∧ state r' = Settled (prior s) ∧ generation r' = generation r ∧
    p = Aborted name (match prior s with Some _ => Sealed | None => Plaintext end).

Lemma wp_abort found session force name W r :
  records_in W !! wi_id found = Some r → session_view_of r (shelf_in (wi_id found) W) = Some session →
  wp (abort config clock fuel found session force name) (λ y W', visited (wi_id found) W W' ∧
    match y with
    | Ok p => session_dropped name force r (wi_id found) p W'
    | Err (LeaseRuns until) => ∃ s, state r = Records.Rewriting s ∧ until = lease_expires_at s ∧
        records_in W' !! wi_id found = Some r
    | Err (ApiSaid _) | Killed | Spinning => True
    | Err _ => False
    end) W.
Proof.
  set (w := wi_id found). intros Hr Hsession. unfold wp. split; [apply visits_abort|].
  unfold abort, calling. fold w. destruct (w_shelves W !! w) as [sh|] eqn:Hsh; [|done].
  destruct (put_engine_sound w sh W (engine_of sh W) Hsh) as [_ [Hb1 _]].
  set (E := env clock fuel (limits_of config found)).
  pose proof (write_ran w E (Rewrite.operator_abort_rewrite E force) None _ (engine_of sh W) r
    ltac:(etrans; [exact Hb1|exact Hr]) (operator_abort_rewrite_obeys E force r _)) as Hran.
  unfold Engine.operator_abort_rewrite. destruct (Engine.write w E _ _) as [x e].
  destruct Hran as (r' & left & Hl & Hran & _).
  assert (records_in (put_engine w e W) !! w = Some r') as Hr' by (unfold records_in; cbn; etrans; [exact (f_equal (lookup w) Hl)|by rewrite lookup_insert_eq]).
  destruct x as [view|e'| |]; cbn [fst snd]; [| |done..].
  - inversion Hran as [| ? ? Hi| ? ? ? ? ? ? ? _ (s & Hs & Hf & _ & Hg) _ Hx |]; subst; [by destruct Hi|].
    destruct Hx as [[= <-]|Hi]; [|by destruct Hi].
    destruct Hg as (-> & Hst & Hgen & _). exists s, r'. split_and!; try done.
    unfold encryption_of, seal. cbn. rewrite Hst. by destruct (prior s).
  - destruct e'; try done. cbn [fst snd].
    inversion Hran as [ | ? ? Hi| ? ? ? ? ? ? ? _ _ _ Hx |]; subst; [| by destruct Hi |by destruct Hx as [|[]]].
    unfold session_view_of in Hsession. destruct (state r') as [|s] eqn:Hs; [done|]. injection Hsession as <-. by exists s.
Qed.

Lemma session_dropped_same name force r0 r w p W : same_session r0 r → session_dropped name force r w p W → session_dropped name force r0 w p W.
Proof. intros [Hs Hg] (s & r' & H1 & H2 & H3 & H4 & H5 & H6). exists s, r'. split_and!; congruence. Qed.

(** A rewrite session is aborted by the operator only when its lease is
    over, or by force; then the workspace is in the state it had before the
    rewrite began, in the generation it has.  A command that says the lease
    runs left the session as it was; and whatever it says, no name, no key and
    no other workspace was touched. *)
Theorem a_session_is_aborted_on_purpose (name : string) (force : bool) W :
  (∀ w, sound_in w W) →
  let '(y, W') := Commands.rewrite config clock fuel (RewriteCommand.Abort name force) W in
  spared name W W' ∧
  match y with
  | Ok p => ∃ w, named name (rows W) (text w) ∧ session_dropped name force (record_at w W) w p W'
  | Err (LeaseRuns until) => ∃ w s r', named name (rows W) (text w) ∧ state (record_at w W) = Records.Rewriting s ∧
      until = lease_expires_at s ∧ records_in W' !! w = Some r' ∧ same_session (record_at w W) r'
  | Err (NoSession n) => n = name ∧ ∃ w, named name (rows W) (text w) ∧ session_open w W = false
  | _ => True
  end.
Proof.
  intros Hs. apply wp_pair. unfold Commands.rewrite. apply wp_bind, wp_control. intros W1 H1. cbn [andthen].
  split; [|split; [by apply still_spared|done]].
  apply wp_bind. unfold wp at 1, now. cbn [fst snd andthen]. set (W1' := mkWorld _ _ _ _ _ _).
  assert (still W W1') as H1' by exact H1. clearbody W1'. clear W1 H1.
  apply wp_bind, wp_found. intros y W2 H2 Hy. cbn [rewrite_name] in *.
  assert (still W W2) as HW2 by (destruct H1', H2; split; congruence). rewrite (proj1 H1') in Hy.
  destruct y as [found|e| |]; cbn [map_err andthen]; [|split; [by apply still_spared|done]|done..].
  pose proof (found_named _ _ _ Hy) as Hn. set (w := wi_id found) in *.
  apply wp_bind, wp_engine; [by apply (still_sound _ W)|]. intros y W3 H3 Hopen Htold.
  assert (visited w W W3) as HW3 by (etrans; [by apply still_visited|done]).
  destruct y as [[]|e| |]; cbn [andthen]; [| |by split; [apply (visited_spared _ w)|]..].
  2: { split; [by apply (visited_spared _ w)|]. by destruct (Htold e eq_refl) as [(? & ? & ->)|(? & ->)]. }
  destruct (Hopen eq_refl) as (r & Hr & Hsame). fold w in Hsame. rewrite (still_record _ _ _ HW2) in Hsame. clear Hopen Htold.
  apply wp_bind, wp_session. intros y W4 H4 Hview Htold'. fold w in H4, Hview.
  assert (visited w W W4) as HW4 by (by etrans).
  destruct y as [session|e| |]; cbn [andthen]; [| |by split; [apply (visited_spared _ w)|]..].
  2: { split; [by apply (visited_spared _ w)|]. by destruct (Htold' e eq_refl) as [(? & ? & ->)|(? & ->)]. }
  destruct (Hview session r eq_refl Hr) as (Hsession & Hr4 & Hv4). rewrite <-Hv4 in Hsession. clear Hview Htold'.
  destruct session as [session|]; cbn [andthen].
  - eapply wp_mono; [by apply wp_abort|]. intros y W5 [H5 Hend]. fold w in H5, Hend.
    split; [apply (visited_spared _ w); [done|by etrans]|]. destruct y as [p|[]| |]; try done.
    + exists w. split; [done|]. by eapply session_dropped_same.
    + destruct Hend as (s & Hst & -> & Hr5). exists w, s, r. split_and!; try done. destruct Hsame; congruence.
  - split; [by apply (visited_spared _ w)|]. split; [done|]. exists w. split; [done|]. unfold session_open, is_rewriting.
    rewrite <-(proj1 Hsame). change (is_rewriting r = false). by rewrite <-(viewed_open r (shelf_in w W4)), <-Hsession.
Qed.

(** ** Creating a key *)

Lemma then_Ok {Er S A B} (m : M Er S A) (f : A → M Er S B) s b s2 :
  (m ≫= f) s = (Ok b, s2) → ∃ a s1, m s = (Ok a, s1) ∧ f a s1 = (Ok b, s2).
Proof. unfold mbind, M_bind. destruct (m s) as [[a|e| |] s1]; [|done..]. by exists a, s1. Qed.

(** How long a key lasts, as the options say. *)
Definition lasts_for (expires : option string) (never : bool) (secs : option N) : Prop :=
  if never then secs = None
  else match expires with
    | Some text => ∃ n, parse_duration text = Some n ∧ secs = Some n
    | None => secs = Some 7776000%N
    end.

Lemma expiry_lasts expires never secs :
  expiry expires never (Some DEFAULT_EXPIRY) = Ok secs → lasts_for expires never secs.
Proof.
  unfold expiry, lasts_for. destruct never; [by intros [= <-]|]. destruct expires as [text|].
  - destruct (parse_duration text) as [n|]; cbn; [|done]. intros [= <-]. eauto.
  - replace (parse_duration DEFAULT_EXPIRY) with (Some 7776000%N) by (by vm_compute). cbn. by intros [= <-].
Qed.

(** C25: The key that [key create] prints opens the workspace it was created
    for, with the role that was asked for, from then until it expires; and
    that is after the time asked for, after ninety days when nothing was
    asked, and never only for [--never].  The trail has it. *)
Theorem a_printed_key_opens_its_workspace `{!LawfulExternals} (name label : string) (expires : option string)
    (never read_only : bool) W (p : Printed) W' :
  Commands.key clock fuel (KeyCommand.Create name label expires never read_only) W = (Ok p, W') →
  ∃ token k info now_ secs, p = NewKey token info (key_state info now_) ∧
    ApiKey.parse token = Some k ∧ ki_id info = api_key_id k ∧
    named name (rows W) (text (ki_workspace info)) ∧ lasts_for expires never secs ∧
    ki_expires_at info = sadd (ki_created_at info) <$> secs ∧
    (∃ row, audit_rows (rows W') = audit_rows (rows W) ++ [row] ∧ c_action row = "key.create" ∧
      c_audit_key_id row = Some (api_key_str (ki_id info))) ∧
    ∀ (s : Control C RS) (clock' : nat → N),
      find_key (api_key_str (ki_id info)) (tables_of s) = find_key (api_key_str (ki_id info)) (rows W') →
      (∀ at_, ki_expires_at info = Some at_ → (clock' (control_ticks s) < N.min at_ 9223372036854775807)%N) →
      let y := (Control.authenticate clock' token s).1 in
      y = Ok (mkAuthenticated (ki_workspace info) (mkCaller (ki_id info) (if read_only then ReadOnly else ReadWrite))
        (N.min 9223372036854775807 <$> ki_expires_at info) label) ∨ y = Err ServiceUnavailable.
Proof.
  intros Hrun. unfold Commands.key in Hrun.
  apply then_Ok in Hrun as ([] & W1 & Hc & Hrun). apply then_Ok in Hrun as (now_ & W2 & Hn & Hrun). injection Hn as Hn <-.
  apply then_Ok in Hrun as (secs & W3 & Hl & Hrun). injection Hl as Hl <-. apply expiry_lasts in Hl.
  apply then_Ok in Hrun as (made & W4 & Hmade & Hrun). injection Hrun as <- <-.
  assert (rows W1 = rows W) as Hrows.
  { unfold control in Hc. pose proof (open_database_law (w_db W)) as Hd. destruct (open_database (w_db W)) as [[] c]; [|done].
    by injection Hc as <-. }
  unfold on_ctl in Hmade. set (s0 := mkControl _ _ _) in Hmade.
  destruct (Control.create_key clock fuel name label _ secs s0) as [y s1] eqn:Hcreate. destruct y as [[k info]| | |]; try done.
  injection Hmade as <- <-.
  pose proof (create_key_came clock fuel name label (if read_only then ReadOnly else ReadWrite) secs s0) as Hcame.
  unfold wp in Hcame. rewrite Hcreate in Hcame. cbn [fst snd] in Hcame.
  apply came_cases in Hcame as [(? & [= <-] & Hst)|[(e & ? & _)|[(? & _)|(? & _)]]]; [|done..].
  destruct Hst as (found & Hf & Hwf & _ & -> & Ht). cbn [ki_id ki_workspace ki_expires_at ki_created_at] in *.
  change (tables_of s0) with (rows W1) in *. rewrite Hrows in *.
  exists (ApiKey.reveal k), k. eexists _, now_, secs. split_and!; [done|by apply parse_reveal|done|by eapply found_named|done|done| |].
  - eexists. split_and!; [unfold rows at 1; cbn; fold (tables_of s1); by rewrite Ht|done|done].
  - intros s clock' Hsame Hnow. cbn [ki_id ki_expires_at ki_workspace] in *.
    exact (created_keys_open_their_workspace clock fuel name label _ secs k _ s0 s1 s clock' Hcreate Hsame Hnow).
Qed.

(** ** [check] *)

Definition fails (l : list (Mark * CheckLine)) : nat :=
  length (List.filter (λ line, match line.1 with IsFail => true | _ => false end) l).
Lemma fails_app l l' : fails (l ++ l') = fails l + fails l'.
Proof. unfold fails. by rewrite List.filter_app, length_app. Qed.

(** Lines are added, and those that failed are counted. *)
Definition grows (c c' : Checks) : Prop := ∃ l, check_lines c' = check_lines c ++ l ∧ failed c' = failed c + fails l.
#[global] Instance grows_preorder : PreOrder grows.
Proof.
  split; [intros c; exists []; rewrite app_nil_r; split; [done|unfold fails; cbn; lia]|].
  intros c1 c2 c3 (l & Hl & Hf) (l' & Hl' & Hf'). exists (l ++ l'). rewrite fails_app, Hl', Hl, app_assoc. split; [done|lia].
Qed.
Lemma grows_step ok line c : grows c (step ok line c).
Proof. eexists. split; [done|]. by destruct ok. Qed.
Lemma grows_note line c : grows c (note line c).
Proof. eexists. split; [done|]. unfold fails. cbn. lia. Qed.
Lemma grows_fold {A} (f : Checks → A → Checks) l c : (∀ c a, grows c (f c a)) → grows c (fold_left f l c).
Proof. intros Hf. revert c. induction l as [|a l IH]; intros c; [done|]. cbn. etrans; [apply Hf|apply IH]. Qed.

Lemma grows_passes c c' : grows c c' → failed c' = 0 → failed c = 0.
Proof. intros (l & _ & Hf) H0. lia. Qed.
Lemma grows_lines c c' line : grows c c' → line ∈ check_lines c → line ∈ check_lines c'.
Proof. intros (l & -> & _) Hin. apply elem_of_app. by left. Qed.

Lemma strays_known ws names c : failed (check_strays ws names c) = 0 → ∀ name, name ∈ names → name ∈ known ws.
Proof.
  unfold check_strays. revert c. induction names as [|n names IH]; intros c Hf name Hin; [by apply elem_of_nil in Hin|].
  cbn in Hf. apply elem_of_cons in Hin as [->|Hin]; [|by eapply IH]. case_bool_decide; [done|].
  eapply grows_passes in Hf; [|apply grows_fold; intros; case_bool_decide; [done|apply grows_step]]. cbn in Hf. lia.
Qed.
Lemma grows_strays ws names c : grows c (check_strays ws names c).
Proof. apply grows_fold. intros. case_bool_decide; [done|apply grows_step]. Qed.
Lemma grows_tls is_file c : grows c (check_tls config is_file c).
Proof.
  unfold check_tls. destruct (mode _); [|done]. destruct (tls config); [|apply grows_note].
  apply (grows_fold (λ c file, if is_file file then c else note (NotThereYet file) c)). intros c' file.
  destruct (is_file file); [done|apply grows_note].
Qed.

Lemma check_each_looks ws c W : let '(y, W') := check_each config clock fuel ws c W in
  (∀ e, y ≠ Err e) ∧ ∀ c', y = Ok c' → grows c c' ∧ (failed c' = 0 → ∀ info, info ∈ ws →
    ∃ items session, (IsOk, WorkspaceOpened (wi_name info) items session) ∈ check_lines c').
Proof.
  revert c W. induction ws as [|w ws IH]; intros c W; cbn [check_each].
  { split; [done|]. intros c' [= <-]. split; [done|]. intros _ info Hin. by apply elem_of_nil in Hin. }
  unfold mbind, M_bind, attempted. destruct (looked_at config clock fuel w W) as [[[items session]|e| |] W1]; try done.
  - set (c1 := step true _ c). specialize (IH c1 W1). destruct (check_each config clock fuel ws c1 W1) as [y W2].
    destruct IH as [He IH]. split; [done|]. intros c' Hy. destruct (IH c' Hy) as [Hg Hin]. split; [transitivity c1; [apply grows_step|exact Hg]|].
    intros H0 info [->|Hi]%elem_of_cons; [|by apply Hin]. exists items, session. eapply grows_lines; [exact Hg|].
    apply elem_of_app. right. by left.
  - set (c1 := step false _ c). specialize (IH c1 W1). destruct (check_each config clock fuel ws c1 W1) as [y W2].
    destruct IH as [He IH]. split; [done|]. intros c' Hy. destruct (IH c' Hy) as [Hg _]. split; [transitivity c1; [apply grows_step|exact Hg]|].
    intros H0. apply grows_passes in Hg; [|done]. cbn in Hg. lia.
Qed.

(** Every row of the table, and nothing else. *)
Definition all_workspaces (t : Tables) (ws : list WorkspaceInfo) : Prop :=
  (∀ (id : string) row, workspaces t !! id = Some row → ∃ info, info ∈ ws ∧ text (wi_id info) = id ∧ wi_name info = default id (c_name row.2)) ∧
  (∀ info, info ∈ ws → is_Some (workspaces t !! text (wi_id info))).

Lemma workspace_from_row (w : string) row info :
  Control.workspace_from (w, row) = Some info → text (wi_id info) = w ∧ wi_name info = default w (c_name row).
Proof.
  unfold Control.workspace_from, Control.parsed_workspace. cbn. destruct (WorkspaceId.parse w) as [wid| | |] eqn:Hp; try done.
  intros [= <-]. cbn. apply check_ok in Hp. by subst w.
Qed.

Lemma workspaces_all (d : C) ws : (Control.workspaces d).1 = Ok ws → all_workspaces (tables d) ws.
Proof.
  unfold Control.workspaces, mbind, M_bind, Control.ask, lift.
  pose proof (sql_law SelectWorkspaces d) as Hl. destruct (sql _ d) as [[l|] c]; cbn in *; [|done].
  destruct Hl as (_ & _ & Hperm). destruct (mapM Control.workspace_from l) as [ws'|] eqn:Hm; [|done].
  intros [= ->]. apply mapM_Some in Hm.
  assert (∀ (w : string) row, (w, row) ∈ l ↔ ∃ rr, workspaces (tables d) !! w = Some (rr, row)) as Hl.
  { intros w row. rewrite Hperm. split.
    - intros ([w' [rr r]] & [= -> ->] & Hin)%list_elem_of_fmap. exists rr. by apply elem_of_map_to_list in Hin.
    - intros (rr & Hin). apply list_elem_of_fmap. exists (w, (rr, row)). split; [done|]. by apply elem_of_map_to_list. }
  split.
  - intros w [rr row] Hw. assert ((w, row) ∈ l) as [i Hi]%list_elem_of_lookup by (apply Hl; by exists rr).
    destruct (Forall2_lookup_l _ _ _ _ _ Hm Hi) as (info & Hinfo & Hf). exists info.
    apply workspace_from_row in Hf as [? ?]. split_and!; [by eapply list_elem_of_lookup_2|done|done].
  - intros info [i Hi]%list_elem_of_lookup. destruct (Forall2_lookup_r _ _ _ _ _ Hm Hi) as ([w row] & Hrow & Hf).
    apply workspace_from_row in Hf as [-> _]. apply list_elem_of_lookup_2, Hl in Hrow as [rr ->]. by eexists.
Qed.

Lemma wp_workspaces Q W :
  (∀ y W', still W W' → (∀ ws, y = Ok ws → all_workspaces (rows W) ws) → y ≠ Killed → y ≠ Spinning → Q (map_err ControlSaid y) W') →
  wp (on_ctl (Control.on_db Control.workspaces)) Q W.
Proof.
  intros HQ. unfold wp, on_ctl, Control.on_db. cbn.
  pose proof (asks_workspaces (w_db W)) as (Ht & Hk & Hs). pose proof (workspaces_all (w_db W)) as Hall.
  destruct (Control.workspaces (w_db W)) as [y c]. cbn [fst snd] in *. by apply HQ.
Qed.

Context (data_mode : option N) (is_file : string → bool).

Definition first_line : Checks := mkChecks [(IsOk, ConfigurationRead)] 0.

(** What the lines say when none is a failure. *)
Definition ordered W W' (c : Checks) : Prop :=
  (λ mode, N.land mode 511) <$> data_mode = Some 448%N ∧
  (∀ id row, workspaces (rows W) !! id = Some row →
    ∃ items session, (IsOk, WorkspaceOpened (default id (c_name row.2)) items session) ∈ check_lines c) ∧
  (∀ name, name ∈ dir_names (w_shelves W') → is_Some (workspaces (rows W) !! name)).

Lemma grows_counts c : grows first_line c → failed c = fails (check_lines c).
Proof. intros (l & -> & ->). done. Qed.
Lemma fails_some l : fails l ≠ 0 → ∃ line, (IsFail, line) ∈ l.
Proof.
  unfold fails. destruct (List.filter _ l) as [|[m line] l'] eqn:Hl; [done|]. intros _. exists line.
  assert (In (m, line) (List.filter (λ x, match x.1 with IsFail => true | _ => false end) l)) as [Hin Hm]%filter_In
    by (rewrite Hl; by left). destruct m; try done. by apply list_elem_of_In.
Qed.

Lemma wp_opened Q W :
  (∀ W' ws, still W W' → all_workspaces (rows W) ws → Q (Ok (Ok ws)) W') → (∀ e W', Q (Ok (Err e)) W') →
  wp (attempted (control;; on_ctl (Control.on_db Control.workspaces))) Q W.
Proof.
  intros Hok Herr. unfold wp, attempted.
  assert (wp (control;; on_ctl (Control.on_db Control.workspaces)) (λ y W', match y with
    | Ok ws => still W W' ∧ all_workspaces (rows W) ws | Err _ => True | _ => False end) W) as Hw.
  { apply wp_bind, wp_control. intros W1 H1. split; [|done]. apply wp_workspaces. intros y W2 H2 Hall Hk Hs.
    destruct y as [ws| | |]; try done. cbn. rewrite <-(proj1 H1). split; [destruct H1, H2; split; congruence|auto]. }
  unfold wp in Hw. destruct ((control;; _) W) as [[ws|e| |] W']; cbn in *; [|apply Herr|done..]. destruct Hw. by apply Hok.
Qed.

Lemma checked_looks W : let '(y, W') := checked config clock fuel data_mode is_file W in
  match y with
  | Ok c => grows first_line c ∧ (failed c = 0 → ordered W W' c)
  | Err _ => False
  | _ => True
  end.
Proof.
  apply wp_pair. unfold checked. fold first_line. set (c0 := check_data data_mode first_line).
  assert (grows first_line c0) as H0 by apply grows_step. assert (failed c0 = 0 → mode_bits data_mode = Some 448%N) as Hmode.
  { unfold c0, check_data, step. cbn. case_bool_decide; [done|]. cbn. lia. }
  clearbody c0. apply wp_bind, wp_opened.
  2: { intros e W1. cbn [andthen]. unfold wp. cbn. split; [etrans; [exact H0|etrans; [apply grows_step|apply grows_tls]]|].
    intros Hf. pose proof (grows_passes _ _ (grows_tls _ _) Hf) as Hf1. cbn in Hf1. lia. }
  intros W1 ws H1 [Hall Hown]. cbn [andthen]. set (c1 := step true _ c0).
  pose proof (check_each_looks ws c1 W1) as Hlook. unfold wp, mbind, M_bind.
  destruct (check_each config clock fuel ws c1 W1) as [[c2|e| |] W2]; [|by destruct Hlook as [Hl _]; destruct (Hl e)|done..].
  unfold gets, mret, M_ret. cbn [fst snd].
  destruct Hlook as [_ Hlook]. destruct (Hlook c2 eq_refl) as [Hg Hin]. clear Hlook.
  set (c3 := check_strays ws (dir_names (w_shelves W2)) c2). set (c4 := check_tls config is_file c3).
  assert (grows c2 c3) as H3 by apply grows_strays. assert (grows c3 c4) as H4 by apply grows_tls.
  assert (grows c0 c1) as H01 by apply grows_step.
  split; [by etrans; [exact H0|]; etrans; [exact H01|]; etrans; [exact Hg|]; etrans; [exact H3|]|]. intros Hf.
  pose proof (grows_passes _ _ H4 Hf) as Hf3. pose proof (grows_passes _ _ H3 Hf3) as Hf2.
  split_and!.
  - apply Hmode. by do 2 (eapply grows_passes; [eassumption|]).
  - intros id row Hrow. destruct (Hall id row Hrow) as (info & Hi & _ & <-). destruct (Hin Hf2 info Hi) as (items & session & Hline).
    exists items, session. do 2 (eapply grows_lines; [eassumption|]). done.
  - intros name Hname. apply (strays_known _ _ _ Hf3) in Hname. apply list_elem_of_In, in_map_iff in Hname as (info & <- & Hi).
    apply Hown. by apply list_elem_of_In.
Qed.

(** [check] passes exactly when no line says FAIL; and then the data
    directory is the owner's alone, every workspace of the database could be
    opened and read, and every directory there is belongs to one of them, so
    that one a deletion left behind does not go unnoticed.  Checking changes no
    name and no key. *)
Theorem a_check_passes_what_is_in_order W :
  let '(y, W') := Commands.check config clock fuel data_mode is_file W in
  kept_accounts (rows W) (rows W') ∧
  match y with
  | Ok p => ∃ c, p = Checked c ∧ fails (check_lines c) = 0 ∧ (λ mode, N.land mode 511) <$> data_mode = Some 448%N ∧
      (∀ (id : string) row, workspaces (rows W) !! id = Some row →
        ∃ items session, (IsOk, WorkspaceOpened (default id (c_name row.2)) items session) ∈ check_lines c) ∧
      (∀ name, name ∈ dir_names (w_shelves W') → is_Some (workspaces (rows W) !! name))
  | Err e => ∃ c, e = ChecksFailed c ∧ ∃ line, (IsFail, line) ∈ check_lines c
  | _ => True
  end.
Proof.
  pose proof (quiets_checked config clock fuel data_mode is_file W) as Hk. pose proof (checked_looks W) as Hlook.
  unfold Commands.check, failing, mbind, M_bind. destruct (checked _ _ _ _ _ W) as [y W']. cbn [fst snd] in Hk.
  destruct y as [c|e| |]; cbn; [|done..]. destruct Hlook as [Hg Hord]. pose proof (grows_counts _ Hg) as Hc.
  destruct (failed c =? 0)%nat eqn:Hf; cbn; (split; [exact Hk|]).
  - apply Nat.eqb_eq in Hf. exists c. split; [done|split; [congruence|by apply Hord]].
  - apply Nat.eqb_neq in Hf. exists c. split; [done|]. apply fails_some. congruence.
Qed.
End commands.
