(* ===== verification/OperatorDemo.v ===== *)
(** An operator at work, for the witnesses: a key is revoked and extended, a
    workspace deleted by its name typed again, a session aborted, a key
    created; with everything in memory. *)

From S2P Require Import Prelude Text Errors Random Ids Shelf Records Effects Rules Workspace Upload Rewrite Ledger Engine Operations Demo Safety Sessions.
From S2P Require Import Auth Database Sqlite Control Keys Operators Accounts Rate Config Bridge Engines Handlers Server Tenancy Commands Operated Purpose.

#[local] Existing Instance Demo.externals_lawful.

(** The operator's side of the disk, in memory. *)
#[export] Instance memory_operator : OperatorDisk Tables Shelves := {|
  open_database t := (true, t);
  private_dir o := (true, Some (default no_shelves o));
  dir_exists o := bool_decide (is_Some o);
  remove_dir_all _ := (true, None);
  dir_names m := (λ e : WorkspaceId * Shelves, text e.1) <$> map_to_list m;
|}.
#[export] Instance memory_operator_lawful : LawfulOperatorDisk Tables Shelves.
Proof. split; [done| |done]. by intros []. Qed.

Module Desk.
Abbreviation Office := (World Tables Shelves SeededRandom) (only parsing).
Definition operator (line : Stdin) (c : Subcommand.t) (W : Office) : outcome Failure Printed * Office :=
  run (X := MemoryTx) default_config Street.clock 4 line (Some 448%N) (λ _, false) (Some 7%N) (Some 7%N) c W.
Definition by_hand (line : Stdin) (c : Subcommand.t) : Event :=
  Commanded Street.clock 4 line (Some 448%N) (λ _, false) (Some 7%N) (Some 7%N) c.

Definition the_key : ApiKey * KeyInfo := match Street.minted.1 with Ok k => k | _ => Household.nobody end.
Definition the_id : string := api_key_str (api_key_id the_key.1).
Definition home : WorkspaceId := ki_workspace the_key.2.

Definition revoked : Office := (operator NoTerminal (Subcommand.Key (KeyCommand.Revoke the_id)) Street.world).2.
Definition afterwards : list Event := [
  Requested Street.clock (Street.asking GetViewer);
  by_hand NoTerminal (Subcommand.Key (KeyCommand.Extend the_id None true));
  by_hand NoTerminal (Subcommand.Workspace (WorkspaceCommand.Show "home"));
  Requested Street.clock (Street.asking GetViewer)].

Lemma street_accounts : Operators.Sound (rows Street.world).
Proof.
  exact (create_key_sound (X := MemoryTx) Street.clock 4 "home" "laptop" ReadWrite None Street.built
    (run_sound (X := MemoryTx) Street.clock 4 _ (mkControl no_tables (SeededRandom.new 3) 0) no_tables_sound)).
Qed.
Lemma revoked_accounts : Operators.Sound (rows revoked).
Proof.
  exact (handed_sound _ _ (hands_run (X := MemoryTx) default_config Street.clock 4 NoTerminal (Some 448%N) (λ _, false) (Some 7%N)
    (Some 7%N) (Subcommand.Key (KeyCommand.Revoke the_id)) Street.world) street_accounts).
Qed.
End Desk.

(** What the laptop is told from then on. *)
Definition said_of_it (W : World Tables Shelves SeededRandom) : option Response :=
  (Street.serve_it (Street.asking GetViewer) W).1.
Example a_revoked_key_is_told_so :
  said_of_it (history (X := MemoryTx) default_config 4 Some (λ _, None) Desk.afterwards Desk.revoked) =
    Some (into_response (problem KeyRevoked)).
Proof. vm_compute. reflexivity. Qed.

Lemma a_revoked_key_stays_out_witness :
  revoked_key Desk.the_id (rows Desk.revoked) ∧
  let W := history (X := MemoryTx) default_config 4 Some (λ _, None) Desk.afterwards Desk.revoked in
  let '(answer, W') := server (X := MemoryTx) default_config 4 Some (λ _, None) Street.clock (Street.asking GetViewer) W in
  (∃ p, (layer (X := MemoryTx) default_config Street.clock (λ _, None) (Street.asking GetViewer) W).1 = Err p ∧
    answer = Some (into_response p)) ∧ untouched W W'.
Proof.
  assert (revoked_key Desk.the_id (rows Desk.revoked)) as Hrev
    by (eexists; split; [vm_compute; reflexivity|eexists; reflexivity]).
  split; [exact Hrev|].
  apply (a_revoked_key_stays_out (X := MemoryTx) default_config 4 Some (λ _, None) Desk.afterwards Desk.revoked
    Street.token Desk.the_key.1 Street.clock (Street.asking GetViewer) Desk.revoked_accounts).
  - vm_compute. reflexivity.
  - exact Hrev.
  - intros [|[|[|[|[|n]]]]]; eexists; vm_compute; reflexivity.
  - vm_compute. reflexivity.
Defined.

(** The house is razed by its name typed again. *)
Definition razing : outcome CommandError Printed * World Tables Shelves SeededRandom :=
  Commands.workspace (X := MemoryTx) default_config Street.clock 4 (Typed " home
") (WorkspaceCommand.Delete "home" false false) Street.later.

Lemma later_accounts : Operators.Sound (rows Street.later).
Proof. unfold Street.later. rewrite serve_all_history. exact (history_sound (X := MemoryTx) _ _ _ _ _ Street.world Desk.street_accounts). Qed.

Lemma a_workspace_is_deleted_on_purpose_witness :
  razing.1 = Ok (DeletedWorkspace "home") ∧
  ∃ w, razed (X := MemoryTx) w Street.later razing.2.
Proof.
  assert (razing.1 = Ok (DeletedWorkspace "home")) as Hr by (vm_compute; reflexivity). split; [exact Hr|].
  pose proof (a_workspace_is_deleted_on_purpose (X := MemoryTx) default_config Street.clock 4 (Typed " home
") "home" false false Street.later later_accounts later_sound) as H.
  fold razing in H. destruct razing as [y W']. cbn [fst] in Hr. subst y. destruct H as (_ & w & _ & Hw & _). by exists w.
Defined.

(** A device begins a rewrite and is not seen again; the operator looks, waits, and ends it. *)
Module Left.
Definition visit : list ((nat → N) * Arrival) :=
  map (pair Street.clock) [Street.asking (PostRewrite Migrate None (text Demo.k1) (map Demo.byte_of (list_ascii_of_string "{}")))].
Definition behind : World Tables Shelves SeededRandom := serve_all (X := MemoryTx) default_config 4 Some (λ _, None) visit Street.world.
Lemma behind_sound (w : WorkspaceId) : sound_in (X := MemoryTx) w behind.
Proof.
  apply (serve_all_sound (X := MemoryTx) default_config 4 Some (λ _, None) visit Street.world street_sound).
  intros v. pose proof (street_room v) as Hr. cbn [length visit Street.visits map] in *. lia.
Qed.
Definition abort (force : bool) : outcome CommandError Printed * World Tables Shelves SeededRandom :=
  Commands.rewrite (X := MemoryTx) default_config Street.clock 4 (RewriteCommand.Abort "home" force) behind.
End Left.

Example the_lease_still_runs : (Left.abort false).1 = Err (LeaseRuns 2603).
Proof. vm_compute. reflexivity. Qed.

Lemma a_session_is_aborted_on_purpose_witness :
  (Left.abort true).1 = Ok (Aborted "home" Plaintext) ∧
  ∃ w s, state (record_at (X := MemoryTx) w Left.behind) = Records.Rewriting s ∧
    ∃ r', records_in (X := MemoryTx) (Left.abort true).2 !! w = Some r' ∧ state r' = Settled (prior s).
Proof.
  assert ((Left.abort true).1 = Ok (Aborted "home" Plaintext)) as Ha by (vm_compute; reflexivity). split; [exact Ha|].
  pose proof (a_session_is_aborted_on_purpose (X := MemoryTx) default_config Street.clock 4 "home" true Left.behind
    Left.behind_sound) as H.
  fold (Left.abort true) in H. destruct (Left.abort true) as [y W']. cbn [fst snd] in *. subst y.
  destruct H as (_ & w & _ & s & r' & Hs & _ & Hr & Hst & _). exists w, s. split; [exact Hs|]. exists r'. split; [exact Hr|exact Hst].
Defined.

(** A second key, for a phone that only reads. *)
Module Phone.
Definition created : outcome CommandError Printed * World Tables Shelves SeededRandom :=
  Commands.key (X := MemoryTx) Street.clock 4 (KeyCommand.Create "home" "phone" None false true) Street.later.
End Phone.

Lemma a_printed_key_opens_its_workspace_witness :
  ∃ token info st, Phone.created.1 = Ok (NewKey token info st) ∧ ki_expires_at info = Some (sadd (ki_created_at info) 7776000).
Proof.
  assert (match Phone.created.1 with Ok (NewKey _ _ _) => true | _ => false end = true) as Hc by (vm_compute; reflexivity).
  destruct Phone.created.1 as [p| | |] eqn:Hp; try discriminate Hc. destruct p as [| | | |token info st| | | | | | | | |]; try discriminate Hc.
  exists token, info, st. split; [reflexivity|].
  destruct (a_printed_key_opens_its_workspace (X := MemoryTx) Street.clock 4 "home" "phone" None false true Street.later _ _
    (fst_is _ _ Hp)) as (token' & k & info' & now_ & secs & Heq & _ & _ & _ & Hl & He & _).
  injection Heq as _ -> _. cbn in Hl. subst secs. exact He.
Defined.

(** Checking finds what is left of a workspace whose deletion was cut short. *)
Module Cut.
Definition world : World Tables Shelves SeededRandom :=
  mkWorld (rows razing.2) (w_shelves Street.later) ∅ (w_random Street.later) 0 (FailureLimiter.new 10 CAPACITY).
Definition checked (W : World Tables Shelves SeededRandom) : outcome Failure Printed * World Tables Shelves SeededRandom :=
  Commands.check (X := MemoryTx) default_config Street.clock 4 (Some 448%N) (λ _, false) W.
End Cut.

Example what_is_in_order_passes : is_ok (Cut.checked Street.later).1 = true.
Proof. vm_compute. reflexivity. Qed.

Lemma a_check_passes_what_is_in_order_witness :
  is_ok (Cut.checked Cut.world).1 = false ∧ kept_accounts (rows Cut.world) (rows (Cut.checked Cut.world).2) ∧
  ∃ c line, (Cut.checked Cut.world).1 = Err (ChecksFailed c) ∧ (IsFail, line) ∈ check_lines c.
Proof.
  assert (match (Cut.checked Cut.world).1 with Err _ => true | _ => false end = true) as He by (vm_compute; reflexivity).
  pose proof (a_check_passes_what_is_in_order (X := MemoryTx) default_config Street.clock 4 (Some 448%N) (λ _, false) Cut.world) as H.
  fold (Cut.checked Cut.world) in H. destruct (Cut.checked Cut.world) as [y W']. cbn [fst snd] in *.
  destruct y as [p|e| |]; try discriminate He. destruct H as (Hk & c & Hc & line & Hl).
  split; [reflexivity|]. split; [exact Hk|]. exists c, line. split; [by rewrite Hc|exact Hl].
Defined.
