(* ===== verification/Clients.v ===== *)
(** What a shelf answers to whoever calls it, and what may be left of a call
    that is cut short: the laws of [Shelf.v] as a machine that serves calls. *)

From S2P Require Import Prelude Errors Ids Shelf.

(** ** The calls of [ItemShelf] *)

Inductive shelf_op : Type → Type :=
| StageCreate (u : UploadId) : shelf_op unit
| StageWrite (u : UploadId) (content : Reader) (announced : N) : shelf_op N
| StageWriteHashed (u : UploadId) (content : Reader) (announced : N) : shelf_op N
| StageDigest (u : UploadId) : shelf_op (option (list byte))
| StageSize (u : UploadId) : shelf_op (option N)
| StageRemove (u : UploadId) : shelf_op unit
| Staged : shelf_op (list UploadId)
| Publish (u : UploadId) (g : N) (id : ItemId) (e : Envelope) : shelf_op bool
| Get (g : N) (id : ItemId) : shelf_op (option StoredItem)
| OpenContentFrom (g : N) (id : ItemId) (offset : N) : shelf_op (option (list byte))
| Ids (g : N) : shelf_op (list ItemId)
| Remove (g : N) (id : ItemId) : shelf_op (option StoredItem)
| DropGeneration (g : N) : shelf_op unit
| Generations : shelf_op (list N)
| Bytes (g : N) : shelf_op N.

Definition perform {Sh} `{ItemShelf Sh} {A} (o : shelf_op A) : M ApiError Sh A :=
  match o in shelf_op A return M ApiError Sh A with
  | StageCreate u => stage_create u
  | StageWrite u content announced => stage_write u content announced
  | StageWriteHashed u content announced => stage_write_hashed u content announced
  | StageDigest u => stage_digest u
  | StageSize u => stage_size u
  | StageRemove u => stage_remove u
  | Staged => staged
  | Publish u g id e => publish u g id e
  | Get g id => shelf_get g id
  | OpenContentFrom g id offset => open_content_from g id offset
  | Ids g => shelf_ids g
  | Remove g id => shelf_remove g id
  | DropGeneration g => drop_generation g
  | Generations => generations
  | Bytes g => shelf_bytes g
  end.

(** A caller: what it asks next depends on what it was answered. *)
Inductive client (A : Type) : Type :=
| Done (a : A)
| Ask {B} (o : shelf_op B) (next : outcome ApiError B → client A).
Arguments Done {A}.
Arguments Ask {A B}.

Fixpoint serve {Sh} `{ItemShelf Sh} {A} (c : client A) (s : Sh) : A * Sh :=
  match c with
  | Done a => (a, s)
  | Ask o next => let '(x, s) := perform o s in serve (next x) s
  end.

(** ** What may be answered *)

Section allowed.
Context `{Ext : Externals}.

(** [x] is what the reference answers and [v'] what it leaves, or [x] was cut
    short and [v'] is as [torn] allows. *)
Definition answers {A} (spec : outcome ApiError A * Shelves) (torn : Shelves → Prop)
    (x : outcome ApiError A) (v' : Shelves) : Prop := obeys (λ v, v) (x, v') spec torn.

Definition allowed {A} (o : shelf_op A) (v : Shelves) : outcome ApiError A → Shelves → Prop :=
  let whole {B} (m : M ApiError Shelves B) := answers (m v) (undone_or_done v (m v)) in
  let look {B} (m : M ApiError Shelves B) := answers (m v) (eq v) in
  match o in shelf_op A return outcome ApiError A → Shelves → Prop with
  | StageCreate u => λ x v', ∃ d,
      answers (Ok (), create_place d u v) (undone_or_done v (Ok () : outcome ApiError unit, create_place d u v)) x v'
  | StageWrite u content announced => λ x v', ∃ v0, place_found u v v0 ∧
      answers (MemoryShelf.stage_write u content announced v0) (torn_write u v) x v'
  | StageWriteHashed u content announced => λ x v', ∃ v0, place_found u v v0 ∧
      answers (MemoryShelf.stage_write_hashed u content announced v0) (torn_write u v) x v'
  | StageDigest u => look (MemoryShelf.stage_digest u)
  | StageSize u => look (MemoryShelf.stage_size u)
  | StageRemove u => whole (MemoryShelf.stage_remove u)
  | Staged => λ x v', ∃ us, (∀ u, is_Some (staging v !! u) → u ∈ us) ∧ answers (Ok us, v) (eq v) x v'
  | Publish u g id e =>
      answers (MemoryShelf.publish u g id e v) (λ v', same_items v v' ∨ v' = (MemoryShelf.publish u g id e v).2)
  | Get g id => look (MemoryShelf.get g id)
  | OpenContentFrom g id offset => look (MemoryShelf.open_content_from g id offset)
  | Ids g => look (MemoryShelf.ids g)
  | Remove g id => whole (MemoryShelf.remove g id)
  | DropGeneration g => whole (MemoryShelf.drop_generation g)
  | Generations => look MemoryShelf.generations
  | Bytes g => look (MemoryShelf.bytes g)
  end.

(** What is published, and whose digest is asked for, is staged; the number of
    a generation is 64 bits wide. *)
Definition ready {A} (o : shelf_op A) (v : Shelves) : Prop :=
  match o with
  | StageDigest u => is_Some (staging v !! u)
  | Publish u g _ _ => is_Some (staging v !! u) ∧ (g ≤ u64_max)%N
  | _ => True
  end.

(** A caller that asks so, whatever it is answered. *)
Fixpoint careful {A} (c : client A) (v : Shelves) : Prop :=
  match c with
  | Done _ => True
  | Ask o next => ready o v ∧ ∀ x v', allowed o v x v' → careful (next x) v'
  end.

(** The machine: [may_serve c v a v'] when [c] may end in [a]. *)
Inductive may_serve {A} : client A → Shelves → A → Shelves → Prop :=
| may_done a v : may_serve (Done a) v a v
| may_ask {B} (o : shelf_op B) next v x v1 a v' :
    allowed o v x v1 → may_serve (next x) v1 a v' → may_serve (Ask o next) v a v'.

(** ** Shelves that keep the promise *)

Context {Sh : Type} `{S : !ItemShelf Sh} `{Law : !LawfulShelf Sh}.

Lemma lawful_allowed {A} (o : shelf_op A) (sh : Sh) :
  ready o (view sh) → allowed o (view sh) (perform o sh).1 (view (perform o sh).2).
Proof.
  destruct o; intros Hr; cbn [perform allowed ready] in *.
  - exact (stage_create_law u sh).
  - exact (stage_write_law u content announced sh).
  - exact (stage_write_hashed_law u content announced sh).
  - exact (stage_digest_law u sh Hr).
  - exact (stage_size_law u sh).
  - exact (stage_remove_law u sh).
  - exact (staged_law sh).
  - exact (publish_law u g id e sh (proj1 Hr)).
  - exact (get_law g id sh).
  - exact (open_content_from_law g id offset sh).
  - exact (ids_law g sh).
  - exact (remove_law g id sh).
  - exact (drop_generation_law g sh).
  - exact (generations_law sh).
  - exact (bytes_law g sh).
Qed.

Lemma lawful_serves {A} (c : client A) (sh : Sh) :
  careful c (view sh) → may_serve c (view sh) (serve c sh).1 (view (serve c sh).2).
Proof.
  revert sh. induction c as [a|B o next IH]; intros sh; cbn; [constructor|]. intros [Hr Hc].
  pose proof (lawful_allowed o sh Hr) as Ha. destruct (perform o sh) as [x sh'].
  econstructor; [exact Ha|]. apply IH. by apply Hc.
Qed.
End allowed.
