(* ===== verification/HttpClient.v ===== *)
(** The HTTP/1.1 client of [check --health] ([client.rs] of
    [passalong-server-api]): what a request is on the wire, how an answer is
    read, and that both are exact.  Bytes are a [string]. *)

From stdpp Require Import pretty.
From S2P Require Import Prelude Text.

(** ** Bytes as text *)

Definition crlf : string := String "013" (String "010" "").

(** [std::str::from_utf8]: whether the bytes are UTF-8. *)
Definition within (lo hi : N) (c : ascii) : bool := ((lo <=? N_of_ascii c) && (N_of_ascii c <=? hi))%N.
Definition continues (c : ascii) : bool := within 128 191 c.
Fixpoint is_utf8 (s : string) : bool :=
  match s with
  | "" => true
  | String a s =>
      if within 0 127 a then is_utf8 s else
      match s with
      | "" => false
      | String b s =>
          if within 194 223 a then continues b && is_utf8 s else
          match s with
          | "" => false
          | String c s =>
              if within 224 239 a then
                within (if (N_of_ascii a =? 224)%N then 160 else 128) (if (N_of_ascii a =? 237)%N then 159 else 191) b
                && continues c && is_utf8 s else
              match s with
              | "" => false
              | String d s =>
                  within 240 244 a
                  && within (if (N_of_ascii a =? 240)%N then 144 else 128) (if (N_of_ascii a =? 244)%N then 143 else 191) b
                  && continues c && continues d && is_utf8 s
              end
          end
      end
  end.

(** [raw.windows(n).position(|window| window == pat)], for a [pat] of [n] bytes *)
Fixpoint position (pat s : string) : option nat :=
  if String.prefix pat s then Some 0
  else match s with "" => None | String _ s => S <$> position pat s end.

(** [head.split("\r\n")] *)
Fixpoint split_crlf (s : string) : list string :=
  match s with
  | "" => [""]
  | String "013" (String "010" s) => "" :: split_crlf s
  | String c s => match split_crlf s with [] => [String c ""] | l :: ls => String c l :: ls end
  end.

(** [usize::from_str_radix(text, 16)], where a [usize] has 64 bits. *)
Definition hex_value (c : ascii) : N :=
  let n := N_of_ascii c in if is_digit c then n - 48 else if (97 <=? n)%N then n - 87 else n - 55.
Definition push_hex (n : N) (c : ascii) : N := n * 16 + hex_value c.
Definition hex_number (s : string) : N := fold_left push_hex (str_bytes s) 0%N.
Definition parse_hex_digits (s : string) : option N :=
  if negb (String.length s =? 0) && all_bytes is_ascii_hexdigit s && (hex_number s <=? u64_max)%N
  then Some (hex_number s) else None.
Definition parse_hex (s : string) : option N :=
  match s with String "+" s => parse_hex_digits s | _ => parse_hex_digits s end.

(** [code.parse::<u16>()] *)
Definition parse_u16 (s : string) : option N := n ← parse_u64 s; if (n <=? 65535)%N then Some n else None.

(** ** The client *)

(** An [io::Error]: of the stream, or [invalid(what)]; or the process
    panicked. *)
Inductive HttpError := Broke | Invalid (what : string) | Panicked.

Record HttpResponse := mkHttpResponse { hr_status : N; hr_headers : list (string * string); hr_body : string }.

Module HttpResponse.
Definition header (r : HttpResponse) (name : string) : option string :=
  snd <$> List.find (λ h, String.eqb h.1 (to_ascii_lowercase name)) (hr_headers r).
End HttpResponse.

(** [host] is the address as it is printed. *)
Record RequestBuilder := mkRequestBuilder {
  rb_host : string;
  rb_method : string;
  rb_path : string;
  rb_headers : list (string * string);
  rb_body : string;
}.

Module RequestBuilder.
Definition request (host method path : string) : RequestBuilder := mkRequestBuilder host method path [] "".
Definition header (r : RequestBuilder) (name value : string) : RequestBuilder :=
  mkRequestBuilder (rb_host r) (rb_method r) (rb_path r) (rb_headers r ++ [(name, value)]) (rb_body r).
Definition bearer (r : RequestBuilder) (token : string) : RequestBuilder := header r "Authorization" ("Bearer " ++ token).
Definition with_body (r : RequestBuilder) (bytes : string) : RequestBuilder :=
  mkRequestBuilder (rb_host r) (rb_method r) (rb_path r) (rb_headers r) bytes.
(** [json], of the text of a value *)
Definition json (r : RequestBuilder) (value : string) : RequestBuilder :=
  header (with_body r value) "Content-Type" "application/json".
Definition body (r : RequestBuilder) (bytes : string) : RequestBuilder :=
  header (with_body r bytes) "Content-Type" "application/octet-stream".
Definition body_raw (r : RequestBuilder) (bytes : string) : RequestBuilder := with_body r bytes.
End RequestBuilder.

(** A header value with a line break would be another header. *)
Definition breaks (name value : string) : bool :=
  contains "013" value || contains "010" value || contains "013" name || contains "010" name || contains ":" name.

Fixpoint push_headers (headers : list (string * string)) (head : string) : outcome HttpError string :=
  match headers with
  | [] => Ok head
  | (name, value) :: headers =>
      if breaks name value then Err (Invalid "a header that would break the request")
      else push_headers headers (head ++ name ++ ": " ++ value ++ crlf)
  end.

Definition head_of (r : RequestBuilder) : outcome HttpError string :=
  head ← push_headers (rb_headers r)
    (rb_method r ++ " " ++ rb_path r ++ " HTTP/1.1" ++ crlf ++ "Host: " ++ rb_host r ++ crlf ++ "Connection: close" ++ crlf);
  let head := if negb (String.eqb (rb_body r) "") || String.eqb (rb_method r) "POST" || String.eqb (rb_method r) "PUT"
    then (head ++ "Content-Length: " ++ pretty (N.of_nat (String.length (rb_body r))) ++ crlf)%string else head in
  Ok (head ++ crlf)%string.

(** The loop of [unchunk]; [fuel] bounds its rounds.  [size + 2] wraps around,
    and a slice that is too short panics. *)
Fixpoint unchunk_from (fuel : nat) (rest body : string) : outcome HttpError string :=
  match fuel with
  | O => Spinning
  | S fuel =>
      line_end ← ok_or (Invalid "a chunk without a size") (position crlf rest);
      if negb (is_utf8 (str_take line_end rest)) then Err (Invalid "a chunk size that is not text") else
      size ← ok_or (Invalid "a chunk size that is not hex")
        (parse_hex (trim (default "" (head (split ";" (str_take line_end rest))))));
      let rest := str_drop (line_end + 2) rest in
      if (size =? 0)%N then Ok body else
      if (N.of_nat (String.length rest) <? wadd size 2)%N then Err (Invalid "a chunk cut short") else
      if (N.of_nat (String.length rest) <? size)%N then Err Panicked else
      unchunk_from fuel (str_drop (N.to_nat size + 2) rest) (body ++ str_take (N.to_nat size) rest)
  end.
Definition unchunk (rest : string) : outcome HttpError string := unchunk_from (S (String.length rest)) rest "".

Definition field_of (line : string) : option (string * string) :=
  '(name, value) ← split_once ":" line; Some (to_ascii_lowercase (trim name), trim value).

Definition is_chunked (headers : list (string * string)) : bool :=
  existsb (λ h, String.eqb h.1 "transfer-encoding" && eq_ignore_ascii_case h.2 "chunked") headers.

Definition status_of (line : option string) : option N := line ← line; code ← split " " line !! 1; parse_u16 code.

Definition parse (raw : string) : outcome HttpError HttpResponse :=
  at_ ← ok_or (Invalid "no end of headers") (position (crlf ++ crlf) raw);
  let text := str_take at_ raw in
  if negb (is_utf8 text) then Err (Invalid "headers that are not text") else
  let lines := split_crlf text in
  status ← ok_or (Invalid "no status line") (status_of (head lines));
  let headers := omap field_of (tail lines) in
  let rest := str_drop (at_ + 4) raw in
  body ← if is_chunked headers then unchunk rest else Ok rest;
  Ok (mkHttpResponse status headers body).

(** What a connection does; each call may fail.  What was read before a
    failure is kept. *)
Class HttpStream (St : Type) := {
  stream_write : string → St → bool * St;
  stream_flush : St → bool * St;
  read_to_end : St → (bool * string) * St;
}.

Section exchange.
Context {St : Type} `{HttpStream St}.
Definition exchange (r : RequestBuilder) : M HttpError St HttpResponse := λ s,
  match head_of r with
  | Ok head =>
      let '(ok, s) := stream_write head s in
      if negb ok then (Err Broke, s) else
      let '(sent, s) := stream_write (rb_body r) s in
      let '(_, s) := stream_flush s in
      let '((all, raw), s) := read_to_end s in
      if String.eqb raw "" && negb (sent && all) then (Err Broke, s) else (parse raw, s)
  | Err e => (Err e, s)
  | Killed => (Killed, s)
  | Spinning => (Spinning, s)
  end.
End exchange.

Example an_answer_is_parsed :
  (parse ("HTTP/1.1 206 Partial Content" ++ crlf ++ "Transfer-Encoding: chunked" ++ crlf ++ crlf ++
    "3" ++ crlf ++ "abc" ++ crlf ++ "2;x=y" ++ crlf ++ "de" ++ crlf ++ "0" ++ crlf ++ crlf)) =
    Ok (mkHttpResponse 206 [("transfer-encoding", "chunked")] "abcde").
Proof. vm_compute. reflexivity. Qed.
Example a_chunk_that_overflows :
  parse ("HTTP/1.1 200 OK" ++ crlf ++ "Transfer-Encoding: chunked" ++ crlf ++ crlf ++ "ffffffffffffffff" ++ crlf ++ "abc") =
    Err Panicked.
Proof. vm_compute. reflexivity. Qed.

(** ** Lines on the wire *)

(** No line break in it. *)
Definition tame (s : string) : bool := negb (contains "013" s) && negb (contains "010" s).

Lemma tame_app s t : tame (s ++ t) = tame s && tame t.
Proof. unfold tame. rewrite !contains_app, !negb_orb. by destruct (contains "013" s), (contains "013" t), (contains "010" s). Qed.
Lemma tame_cons c s : tame (String c s) = true → c ≠ "013"%char ∧ c ≠ "010"%char ∧ tame s = true.
Proof.
  unfold tame. rewrite !contains_cons, !negb_orb, !andb_true_iff, !negb_true_iff, !Ascii.eqb_neq. naive_solver.
Qed.
Lemma tame_digits s : all_bytes is_digit s = true → tame s = true.
Proof. intros Hs. unfold tame. by rewrite !(contains_digits _ s Hs). Qed.

Lemma position_past p a s : tame a = true →
  position (String "013" p) (a ++ s) = Nat.add (String.length a) <$> position (String "013" p) s.
Proof.
  induction a as [|c a IH]; intros Ha; [by destruct (position _ _)|]. apply tame_cons in Ha as (Hc & _ & Ha).
  rewrite cons_app. cbn [position String.prefix String.length]. destruct (Ascii.ascii_dec "013" c); [congruence|].
  rewrite (IH Ha). by destruct (position _ s).
Qed.

Lemma position_crlf a s : tame a = true → position crlf (a ++ crlf ++ s) = Some (String.length a).
Proof.
  intros Ha. change crlf with (String "013" (String "010" "")) at 1. rewrite position_past by done.
  replace (position (String "013" (String "010" "")) (crlf ++ s)) with (Some 0) by (by destruct s). cbn. by rewrite Nat.add_0_r.
Qed.

(** Lines, each after the first with the break before it. *)
Fixpoint more_lines (ls : list string) : string :=
  match ls with [] => "" | l :: ls => crlf ++ l ++ more_lines ls end.
Definition joined (l : string) (ls : list string) : string := l ++ more_lines ls.

Definition proper_line (l : string) : Prop := tame l = true ∧ l ≠ "".

Lemma position_cons pat c s : String.prefix pat (String c s) = false → position pat (String c s) = S <$> position pat s.
Proof. intros Hp. cbn [position]. by rewrite Hp. Qed.

Lemma position_line c s : c ≠ "013"%char →
  position (crlf ++ crlf) (crlf ++ String c s) = (λ n, S (S n)) <$> position (crlf ++ crlf) (String c s).
Proof.
  intros Hc. change (crlf ++ String c s)%string with (String "013" (String "010" (String c s))).
  rewrite (position_cons _ "013"), (position_cons _ "010"); [by destruct (position (crlf ++ crlf) (String c s))|done|].
  change (crlf ++ crlf)%string with (String "013" (String "010" (String "013" (String "010" "")))). cbn [String.prefix].
  destruct (Ascii.ascii_dec "013" "013"), (Ascii.ascii_dec "010" "010"), (Ascii.ascii_dec "013" c); congruence.
Qed.

Lemma position_blank_more ls s : Forall proper_line ls →
  position (crlf ++ crlf) (more_lines ls ++ crlf ++ crlf ++ s) = Some (String.length (more_lines ls)).
Proof.
  induction 1 as [|l ls [Hl Hne] Hls IH]; [by destruct s|].
  cbn [more_lines]. rewrite !str_app_assoc. destruct l as [|c l]; [done|]. pose proof Hl as (Hc & _ & _)%tame_cons.
  rewrite (cons_app c l), position_line, <-(cons_app c l) by done.
  change (crlf ++ crlf)%string with (String "013" (String "010" crlf)) at 1.
  rewrite position_past by done. change (String "013" (String "010" crlf)) with (crlf ++ crlf)%string. rewrite IH.
  cbn [fmap option_fmap option_map]. by rewrite !length_app_str.
Qed.

Lemma position_blank l ls s : tame l = true → Forall proper_line ls →
  position (crlf ++ crlf) (joined l ls ++ crlf ++ crlf ++ s) = Some (String.length (joined l ls)).
Proof.
  intros Hl Hls. unfold joined. rewrite str_app_assoc.
  change (crlf ++ crlf)%string with (String "013" (String "010" crlf)) at 1.
  rewrite position_past by done. change (String "013" (String "010" crlf)) with (crlf ++ crlf)%string.
  rewrite position_blank_more by done. cbn [fmap option_fmap option_map]. by rewrite length_app_str.
Qed.

Lemma split_crlf_line l s : tame l = true → split_crlf (l ++ crlf ++ s) = l :: split_crlf s.
Proof.
  induction l as [|c l IH]; intros Hl; [done|]. apply tame_cons in Hl as (Hc & _ & Hl).
  rewrite cons_app. specialize (IH Hl). remember (l ++ crlf ++ s)%string as t. cbn [split_crlf]. rewrite IH.
  destruct c as [[] [] [] [] [] [] [] []]; try done.
Qed.
Lemma split_crlf_last l : tame l = true → split_crlf l = [l].
Proof.
  induction l as [|c l IH]; intros Hl; [done|]. apply tame_cons in Hl as (Hc & _ & Hl). cbn [split_crlf]. rewrite (IH Hl).
  destruct c as [[] [] [] [] [] [] [] []]; try done.
Qed.
Lemma split_joined l ls : tame l = true → Forall (λ l, tame l = true) ls → split_crlf (joined l ls) = l :: ls.
Proof.
  intros Hl Hls. unfold joined. revert l Hl. induction Hls as [|l' ls Hl' Hls IH]; intros l Hl; cbn [more_lines].
  - rewrite str_app_nil. by apply split_crlf_last.
  - rewrite split_crlf_line by done. f_equal. by apply IH.
Qed.

Lemma utf8_app a b : is_utf8 a = true → is_utf8 b = true → is_utf8 (a ++ b) = true.
Proof.
  intros Ha Hb. remember (String.length a) as n eqn:Hn. revert a Ha Hn.
  induction (lt_wf n) as [n _ IH]. intros a Ha ->. destruct a as [|c1 a]; [done|].
  rewrite cons_app. cbn [is_utf8] in *. destruct (within 0 127 c1).
  { eapply IH; [|exact Ha|reflexivity]. cbn. lia. }
  destruct a as [|c2 a]; [done|]. rewrite cons_app in *. destruct (within 194 223 c1).
  { apply andb_true_iff in Ha as [-> Ha]. eapply IH; [|exact Ha|reflexivity]. cbn. lia. }
  destruct a as [|c3 a]; [done|]. rewrite cons_app in *. destruct (within 224 239 c1).
  { apply andb_true_iff in Ha as [-> Ha]. eapply IH; [|exact Ha|reflexivity]. cbn. lia. }
  destruct a as [|c4 a]; [done|]. rewrite cons_app in *.
  apply andb_true_iff in Ha as [-> Ha]. eapply IH; [|exact Ha|reflexivity]. cbn. lia.
Qed.

(** Bytes below 128. *)
Definition ascii_text (s : string) : bool := all_bytes (λ c, within 0 127 c) s.
Lemma ascii_utf8 s : ascii_text s = true → is_utf8 s = true.
Proof.
  unfold ascii_text, all_bytes. induction s as [|c s IH]; [done|]. cbn [str_bytes list_ascii_of_string forallb is_utf8].
  intros [-> Hs]%andb_true_iff. by apply IH.
Qed.
Lemma digits_utf8 s : all_bytes is_digit s = true → is_utf8 s = true.
Proof.
  intros Hs. apply ascii_utf8. revert Hs. unfold ascii_text, all_bytes. induction s as [|c s IH]; [done|].
  cbn [str_bytes list_ascii_of_string forallb]. intros [Hc Hs]%andb_true_iff. apply andb_true_iff. split; [|by apply IH].
  unfold is_digit, within in *. apply andb_true_iff in Hc as [H1%N.leb_le H2%N.leb_le]. apply andb_true_iff. split; apply N.leb_le; lia.
Qed.

(** ** Answers *)

(** A line of the status, and lines of headers, as they are sent. *)
Definition status_line (status : N) (reason : string) : string := "HTTP/1.1 " ++ pretty status ++ " " ++ reason.
Definition header_line (h : string * string) : string := h.1 ++ ": " ++ h.2.
Definition proper_header (h : string * string) : Prop :=
  tame h.1 = true ∧ tame h.2 = true ∧ contains ":" h.1 = false ∧ is_utf8 h.1 = true ∧ is_utf8 h.2 = true.

Lemma trim_space s : trim (String " " s) = trim s.
Proof. unfold trim, trim_start. by destruct s. Qed.

Lemma split_once_here c a b : contains c a = false → split_once c (a ++ String c b) = Some (a, b).
Proof.
  induction a as [|c' a IH]; intros Ha; [change (split_once c (String c b) = Some ("", b)); cbn; by rewrite Ascii.eqb_refl|].
  rewrite contains_cons, orb_false_iff in Ha. destruct Ha as [Hc Ha]. rewrite cons_app. cbn [split_once].
  rewrite Ascii.eqb_sym, Hc. by rewrite IH.
Qed.

Lemma field_of_header h : contains ":" h.1 = false → field_of (header_line h) = Some (to_ascii_lowercase (trim h.1), trim h.2).
Proof.
  intros Hn. unfold field_of, header_line. change (h.1 ++ ": " ++ h.2)%string with (h.1 ++ String ":" (String " " h.2))%string.
  rewrite split_once_here by done.
  change (Some (to_ascii_lowercase (trim h.1), trim (String " " h.2)) = Some (to_ascii_lowercase (trim h.1), trim h.2)).
  by rewrite trim_space.
Qed.
Lemma fields_of_headers hs : Forall (λ h, contains ":" h.1 = false) hs →
  omap field_of (map header_line hs) = map (λ h, (to_ascii_lowercase (trim h.1), trim h.2)) hs.
Proof. induction 1 as [|h hs Hh Hhs IH]; [done|]. cbn. by rewrite (field_of_header h Hh), IH. Qed.

Lemma header_line_tame h : tame h.1 = true → tame h.2 = true → proper_line (header_line h).
Proof.
  intros Hn Hv. unfold header_line, proper_line. rewrite !tame_app, Hn, Hv. split; [done|]. by destruct h.1.
Qed.
Lemma header_line_proper h : proper_header h → proper_line (header_line h).
Proof. intros (Hn & Hv & _). by apply header_line_tame. Qed.

Lemma status_of_line status reason : (status ≤ 65535)%N → status_of (Some (status_line status reason)) = Some status.
Proof.
  intros Hs. unfold status_of, status_line. cbn [mbind option_bind].
  destruct (pretty_digits status) as (Hd & _ & _).
  change ("HTTP/1.1 " ++ pretty status ++ " " ++ reason)%string with ("HTTP/1.1" ++ String " " (pretty status ++ String " " reason))%string.
  rewrite split_app_first by done. rewrite split_app_first by (by apply contains_digits). cbn. unfold parse_u16.
  rewrite parse_pretty by (unfold u64_max; lia). cbn. by rewrite (proj2 (N.leb_le _ _) Hs).
Qed.

Lemma str_take_all s t : str_take (String.length s) (s ++ t) = s.
Proof. apply str_take_app. Qed.

Lemma joined_utf8 l ls : is_utf8 l = true → Forall (λ l, is_utf8 l = true) ls → is_utf8 (joined l ls) = true.
Proof.
  intros Hl Hls. apply utf8_app; [done|]. induction Hls as [|l' ls Hl' Hls IH]; [done|]. cbn [more_lines].
  apply utf8_app; [done|]. by apply utf8_app.
Qed.

Lemma header_line_utf8 h : proper_header h → is_utf8 (header_line h) = true.
Proof. intros (_ & _ & _ & Hn & Hv). unfold header_line. apply utf8_app; [done|]. by apply utf8_app. Qed.

(** The head of an answer, with whatever follows it. *)
Definition answer (status : N) (reason : string) (headers : list (string * string)) (rest : string) : string :=
  joined (status_line status reason) (map header_line headers) ++ crlf ++ crlf ++ rest.

Definition read_headers (headers : list (string * string)) : list (string * string) :=
  map (λ h, (to_ascii_lowercase (trim h.1), trim h.2)) headers.

Lemma parse_answer status reason headers rest :
  (status ≤ 65535)%N → tame reason = true → is_utf8 reason = true → Forall proper_header headers →
  parse (answer status reason headers rest) =
    (body ← if is_chunked (read_headers headers) then unchunk rest else Ok rest;
     Ok (mkHttpResponse status (read_headers headers) body)).
Proof.
  intros Hs Hr Hu Hh. destruct (pretty_digits status) as (Hd & _ & _).
  assert (tame (status_line status reason) = true) as Hl
    by (unfold status_line; rewrite !tame_app, (tame_digits (pretty status)), Hr by done; done).
  assert (is_utf8 (status_line status reason) = true) as Hlu
    by (unfold status_line; repeat (apply utf8_app; [first [done|by apply digits_utf8]|]); done).
  assert (Forall proper_line (map header_line headers)) as Hls
    by (apply List.Forall_map; eapply Forall_impl; [exact Hh|]; apply header_line_proper).
  unfold parse, answer. rewrite position_blank by done. cbn [ok_or mbind outcome_bind recast].
  rewrite str_take_all, joined_utf8, split_joined; [|done|by eapply Forall_impl; [exact Hls|]; intros ? []|done|
    apply List.Forall_map; eapply Forall_impl; [exact Hh|]; apply header_line_utf8].
  cbn [negb head tail]. rewrite status_of_line by done. cbn [ok_or mbind outcome_bind recast].
  rewrite fields_of_headers by (eapply Forall_impl; [exact Hh|]; by intros h (_ & _ & ? & _)). fold (read_headers headers).
  replace (str_drop (String.length (joined (status_line status reason) (map header_line headers)) + 4)
    (joined (status_line status reason) (map header_line headers) ++ crlf ++ crlf ++ rest)) with rest; [done|].
  replace (joined (status_line status reason) (map header_line headers) ++ crlf ++ crlf ++ rest)%string
    with ((joined (status_line status reason) (map header_line headers) ++ crlf ++ crlf) ++ rest)%string
    by (by rewrite !str_app_assoc).
  replace (String.length (joined (status_line status reason) (map header_line headers)) + 4) with
    (String.length (joined (status_line status reason) (map header_line headers) ++ crlf ++ crlf)) by (by rewrite !length_app_str).
  by rewrite str_drop_app.
Qed.

(** ** Chunks *)

(** What a chunk's line says its size is, however that is written. *)
Definition size_said (line : string) : option N := parse_hex (trim (default "" (head (split ";" line)))).
Definition reads_as (line : string) (size : N) : Prop := tame line = true ∧ is_utf8 line = true ∧ size_said line = Some size.
Definition readable_chunk (c : string * string) : Prop :=
  reads_as c.1 (N.of_nat (String.length c.2)) ∧ c.2 ≠ "" ∧ (N.of_nat (String.length c.2) < two64 - 2)%N.

Fixpoint chunked (chunks : list (string * string)) (last : string) : string :=
  match chunks with
  | [] => last
  | c :: chunks => c.1 ++ crlf ++ c.2 ++ crlf ++ chunked chunks last
  end.
Definition pieces (chunks : list (string * string)) : string := String.concat "" (map snd chunks).

Lemma drop_line line s : str_drop (String.length line + 2) (line ++ crlf ++ s) = s.
Proof.
  replace (String.length line + 2) with (String.length (line ++ crlf)) by (by rewrite length_app_str).
  rewrite <-str_app_assoc. apply str_drop_app.
Qed.

Lemma unchunk_chunks fuel chunks line trailer body :
  Forall readable_chunk chunks → reads_as line 0 → length chunks < fuel →
  unchunk_from fuel (chunked chunks (line ++ crlf ++ trailer)) body = Ok (body ++ pieces chunks)%string.
Proof.
  intros Hc (Ht & Hu & Hz). revert fuel body. induction Hc as [|[l p] chunks [(Hl & Hlu & Hsize) [Hne Hlong]] Hc IH];
    intros [|fuel] body Hf; try (cbn in Hf; lia); cbn [chunked unchunk_from fst snd] in *.
  - rewrite position_crlf by done. cbn [ok_or mbind outcome_bind recast]. rewrite str_take_app, Hu. cbn [negb].
    fold (size_said line). rewrite Hz. cbn. by rewrite str_app_nil.
  - rewrite position_crlf by done. cbn [ok_or mbind outcome_bind recast]. rewrite str_take_app, Hlu. cbn [negb].
    fold (size_said l). rewrite Hsize. cbn [ok_or mbind outcome_bind recast]. rewrite drop_line.
    set (rest := chunked chunks _) in *.
    assert (String.length (p ++ crlf ++ rest) = String.length p + S (S (String.length rest))) as Hlen by (by rewrite !length_app_str).
    rewrite Hlen, wadd_small by (unfold two64 in *; lia).
    destruct (N.eqb_spec (N.of_nat (String.length p)) 0); [destruct p; done|].
    destruct (N.ltb_spec (N.of_nat (String.length p + S (S (String.length rest)))) (N.of_nat (String.length p) + 2)); [lia|].
    destruct (N.ltb_spec (N.of_nat (String.length p + S (S (String.length rest)))) (N.of_nat (String.length p))); [lia|].
    rewrite Nat2N.id, str_take_app, drop_line, IH by (cbn in Hf; lia). unfold pieces. cbn [map snd].
    by rewrite concat_cons, str_app_assoc.
Qed.

Lemma length_chunked chunks last : length chunks ≤ String.length (chunked chunks last).
Proof. induction chunks as [|[l p] chunks IH]; cbn [chunked length fst snd]; [lia|]. rewrite !length_app_str. cbn. lia. Qed.

(** ** What is sent in chunks, as RFC 9112 has it

    A size is written with hexadecimal digits, of either case and with as many
    zeros in front as one likes; blanks and extensions may follow it. *)
Definition stands_for (c : ascii) (d : nat) : Prop :=
  String.get d "0123456789abcdef" = Some c ∨ String.get d "0123456789ABCDEF" = Some c.

Inductive hexadecimal : string → N → Prop :=
| hex_digit c d : stands_for c d → hexadecimal (String c "") (N.of_nat d)
| hex_digits s n c d : hexadecimal s n → stands_for c d → hexadecimal (s ++ String c "") (16 * n + N.of_nat d).

Definition is_blank (c : ascii) : bool := Ascii.eqb c " " || Ascii.eqb c "009".

Definition size_line (line : string) (size : N) : Prop :=
  tame line = true ∧ is_utf8 line = true ∧
  ∃ digits blanks ext, line = (digits ++ blanks ++ ext)%string ∧ hexadecimal digits size ∧
    all_bytes is_blank blanks = true ∧ (ext = "" ∨ ∃ e, ext = String ";" e).

(** A piece that is sent, in a chunk with that line. *)
Definition sent_chunk (c : string * string) : Prop :=
  size_line c.1 (N.of_nat (String.length c.2)) ∧ c.2 ≠ "" ∧ (N.of_nat (String.length c.2) < two64 - 2)%N.

(** The header by which an answer says that it comes in chunks: its name and
    its value in letters of either case, with white space around them or not. *)
Definition announces_chunks (h : string * string) : Prop :=
  to_ascii_lowercase (trim h.1) = "transfer-encoding" ∧ to_ascii_lowercase (trim h.2) = "chunked".

Lemma is_chunked_announced hs : is_chunked (read_headers hs) = true ↔ Exists announces_chunks hs.
Proof.
  unfold is_chunked, read_headers. rewrite existsb_exists, Exists_exists. split.
  - intros (h & Hin & [H1%String.eqb_eq H2]%andb_true_iff). apply List.in_map_iff in Hin as (h0 & <- & Hin).
    exists h0. split; [by apply list_elem_of_In|]. by apply String.eqb_eq in H2.
  - intros (h & Hin & H1 & H2). eexists. split; [by apply List.in_map, list_elem_of_In, Hin|].
    apply andb_true_iff. split; apply String.eqb_eq; [exact H1|exact H2].
Qed.

Lemma stands_for_read c d : stands_for c d →
  hex_value c = N.of_nat d ∧ is_ascii_hexdigit c = true ∧ visible c = true ∧ c ≠ ";"%char ∧ c ≠ "+"%char.
Proof.
  intros [H|H]; do 16 (destruct d as [|d]; [injection H as <-; repeat split; discriminate|]); by destruct d.
Qed.

Lemma all_bytes_snoc p s c : all_bytes p (s ++ String c "") = all_bytes p s && p c.
Proof. unfold all_bytes. rewrite str_bytes_app, forallb_app. cbn. by rewrite andb_true_r. Qed.

Lemma hexadecimal_read s n : hexadecimal s n →
  s ≠ "" ∧ hex_number s = n ∧ all_bytes is_ascii_hexdigit s = true ∧ all_bytes visible s = true ∧
  contains ";" s = false ∧ String.get 0 s ≠ Some "+"%char.
Proof.
  induction 1 as [c d Hc|s n c d Hs (Hne & IH & Hh & Hv & Hsemi & Hplus) Hc];
    destruct (stands_for_read c d Hc) as (Hval & Hx & Hvis & Hs' & Hp).
  - split_and!; [done|..].
    + unfold hex_number, push_hex. cbn. by rewrite Hval.
    + cbn. by rewrite Hx.
    + cbn. by rewrite Hvis.
    + rewrite contains_cons. apply orb_false_iff. split; [|done]. apply Ascii.eqb_neq. congruence.
    + cbn. congruence.
  - rewrite !all_bytes_snoc, Hh, Hv, Hx, Hvis, contains_app, Hsemi. split_and!; [by destruct s| |done|done| |].
    + unfold hex_number in *. rewrite str_bytes_app, fold_left_app, IH. cbn. unfold push_hex. rewrite Hval. lia.
    + cbn [orb]. rewrite contains_cons. apply orb_false_iff. split; [|done]. apply Ascii.eqb_neq. congruence.
    + by destruct s.
Qed.

Lemma length_string_of l : String.length (string_of_list_ascii l) = length l.
Proof. induction l as [|c l IH]; [done|]. cbn. by rewrite IH. Qed.
Lemma length_str_rev s : String.length (str_rev s) = String.length s.
Proof.
  unfold str_rev. rewrite length_string_of, length_rev. induction s as [|c s IH]; [done|]. cbn. by rewrite IH.
Qed.

Lemma strip_blank c s : is_blank c = true → strip_one (map str_rev white_space) (String c s) = Some s.
Proof. intros [H|H]%orb_true_iff; apply Ascii.eqb_eq in H; subst c; by destruct s. Qed.

Lemma strip_blanks n b s : all_bytes is_blank b = true → strip_one (map str_rev white_space) s = None →
  String.length b ≤ n → strip_all n (map str_rev white_space) (b ++ s) = s.
Proof.
  revert n. induction b as [|c b IH]; intros n Hb Hs Hn; [by apply strip_all_none|].
  unfold all_bytes in *. cbn [str_bytes list_ascii_of_string forallb] in Hb. apply andb_true_iff in Hb as [Hc Hb].
  cbn in Hn. destruct n as [|n]; [lia|]. rewrite cons_app. cbn [strip_all]. rewrite strip_blank by done.
  apply IH; [done|done|lia].
Qed.

Lemma trim_blanks_behind s b :
  s ≠ "" → all_bytes visible s = true → all_bytes is_blank b = true → trim (s ++ b) = s.
Proof.
  intros Hne Hs Hb. destruct s as [|c s]; [done|]. unfold trim, trim_start. rewrite cons_app.
  assert (visible c = true) as Hc by (by apply andb_true_iff in Hs as []).
  rewrite (strip_all_none _ _ _ (proj1 (strip_visible c _ Hc))). unfold trim_end. rewrite <- cons_app, str_rev_app.
  assert (all_bytes visible (str_rev (String c s)) = true ∧ all_bytes is_blank (str_rev b) = true) as [Hr Hrb].
  { unfold all_bytes, str_rev, str_bytes in *. rewrite !list_ascii_of_string_of_list_ascii.
    rewrite !forallb_forall in *. setoid_rewrite <- in_rev. by split. }
  rewrite strip_blanks; [by rewrite str_rev_rev|done| |rewrite length_str_rev, length_app_str; lia].
  destruct (str_rev (String c s)) as [|c' s'] eqn:Hrev; [by apply (f_equal str_rev) in Hrev; rewrite str_rev_rev in Hrev|].
  apply strip_visible. by apply andb_true_iff in Hr as [].
Qed.

Lemma contains_blanks b : all_bytes is_blank b = true → contains ";" b = false.
Proof.
  induction b as [|c b IH]; [done|]. unfold all_bytes in *. cbn [str_bytes list_ascii_of_string forallb].
  intros [Hc Hb]%andb_true_iff. rewrite contains_cons, IH by done. apply orb_false_iff. split; [|done].
  apply orb_true_iff in Hc as [Hc|Hc]; apply Ascii.eqb_eq in Hc; by subst c.
Qed.

Lemma size_line_reads line size : size_line line size → (size ≤ u64_max)%N → reads_as line size.
Proof.
  intros (Ht & Hu & digits & blanks & ext & -> & Hd & Hb & Hext) Hsize. split; [done|]. split; [done|].
  destruct (hexadecimal_read _ _ Hd) as (Hne & Hnum & Hhex & Hvis & Hsemi & Hplus).
  assert (head (split ";" (digits ++ blanks ++ ext)) = Some (digits ++ blanks)%string) as Hhead.
  { assert (contains ";" (digits ++ blanks) = false) as Hno by (by rewrite contains_app, Hsemi, contains_blanks).
    rewrite <- str_app_assoc. destruct Hext as [->|[e ->]].
    - by rewrite str_app_nil, split_none.
    - by rewrite split_app_first. }
  unfold size_said. rewrite Hhead. cbn [default from_option]. unfold id. rewrite trim_blanks_behind by done.
  unfold parse_hex. assert (parse_hex_digits digits = Some size) as Hp.
  { unfold parse_hex_digits. rewrite Hhex, Hnum. destruct (N.leb_spec size u64_max); [|lia]. by destruct digits. }
  destruct digits as [|[[] [] [] [] [] [] [] []] digits]; try done.
Qed.

Lemma sent_chunk_readable c : sent_chunk c → readable_chunk c.
Proof. intros (Hl & Hne & Hlong). split; [|done]. apply size_line_reads; [done|]. unfold two64, u64_max in *. lia. Qed.

(** ** How the loop may end *)

Lemma position_Some pat s n : position pat s = Some n →
  ∃ a b, s = (a ++ pat ++ b)%string ∧ String.length a = n.
Proof.
  revert n. induction s as [|c s IH]; intros n; cbn [position].
  - destruct (String.prefix pat "") eqn:Hp; [|done]. intros [= <-].
    destruct (strip_prefix_is_prefix _ _ Hp) as [t Ht]. by exists "", t.
  - destruct (String.prefix pat (String c s)) eqn:Hp.
    + intros [= <-]. destruct (strip_prefix_is_prefix _ _ Hp) as [t ->]. by exists "", t.
    + destruct (position pat s) as [k|] eqn:Hk; intros [= <-]. destruct (IH _ eq_refl) as (a & b & -> & <-).
      by exists (String c a), b.
Qed.

Lemma length_str_drop n s : String.length (str_drop n s) = String.length s - n.
Proof. revert s. induction n as [|n IH]; intros [|c s]; cbn; auto. Qed.

(** Within [rest] a line says a size that does not fit. *)
Definition overflows (rest : string) : Prop :=
  ∃ before line after size, rest = (before ++ line ++ crlf ++ after)%string ∧ size_said line = Some size ∧ (two64 - 2 ≤ size)%N.

Lemma overflows_later a rest : overflows rest → overflows (a ++ rest).
Proof.
  intros (before & line & after & size & -> & Hs). exists (a ++ before)%string, line, after, size. by rewrite str_app_assoc.
Qed.

Lemma unchunk_ends fuel rest body : String.length rest < fuel →
  match unchunk_from fuel rest body with
  | Ok out => ∃ more, out = (body ++ more)%string
  | Err (Invalid _) => True
  | Err Panicked => overflows rest
  | _ => False
  end.
Proof.
  revert rest body. induction fuel as [|fuel IH]; intros rest body Hf; [lia|]. cbn [unchunk_from].
  destruct (position crlf rest) as [n|] eqn:Hn; cbn [ok_or mbind outcome_bind recast]; [|done].
  apply position_Some in Hn as (line & after & -> & <-). rewrite str_take_app, drop_line. fold (size_said line).
  destruct (negb (is_utf8 line)); [done|]. destruct (size_said line) as [size|] eqn:Hs; cbn [ok_or mbind outcome_bind recast]; [|done].
  destruct (N.eqb_spec size 0) as [|Hz]; [exists ""; by rewrite str_app_nil|].
  destruct (N.ltb_spec (N.of_nat (String.length after)) (wadd size 2)) as [|Hlong]; [done|].
  rewrite !length_app_str in Hf.
  destruct (N.ltb_spec (N.of_nat (String.length after)) size) as [Hshort|Hfit].
  - exists "", line, after, size. split; [done|]. split; [done|]. destruct (N.lt_ge_cases size (two64 - 2)) as [Hsmall|]; [|done].
    rewrite wadd_small in Hlong by (unfold two64 in *; lia). lia.
  - specialize (IH (str_drop (N.to_nat size + 2) after) (body ++ str_take (N.to_nat size) after)%string).
    rewrite length_str_drop in IH. specialize (IH ltac:(lia)).
    destruct (unchunk_from fuel _ _) as [out|[]| |]; try done.
    + destruct IH as [more ->]. exists (str_take (N.to_nat size) after ++ more)%string. by rewrite str_app_assoc.
    + rewrite <-(str_take_drop (N.to_nat size + 2) after) at 1. apply (overflows_later line), (overflows_later crlf), overflows_later, IH.
Qed.

(** ** Requests *)

(** The headers of a request, as they are sent. *)
Definition has_length (r : RequestBuilder) : bool :=
  negb (String.eqb (rb_body r) "") || String.eqb (rb_method r) "POST" || String.eqb (rb_method r) "PUT".
Definition sent_headers (r : RequestBuilder) : list (string * string) :=
  ("Host", rb_host r) :: ("Connection", "close") :: rb_headers r ++
  (if has_length r then [("Content-Length", pretty (N.of_nat (String.length (rb_body r))))] else []).
Definition request_line (r : RequestBuilder) : string := rb_method r ++ " " ++ rb_path r ++ " HTTP/1.1".
Definition breaking (h : string * string) : bool := breaks h.1 h.2.

Lemma joined_app l ls ls' : joined l (ls ++ ls') = (joined l ls ++ more_lines ls')%string.
Proof.
  unfold joined. rewrite str_app_assoc. f_equal. induction ls as [|l' ls IH]; [done|]. cbn [more_lines app].
  by rewrite IH, !str_app_assoc.
Qed.

Lemma push_headers_lines hs l ls :
  push_headers hs (joined l ls ++ crlf) =
    if existsb breaking hs then Err (Invalid "a header that would break the request")
    else Ok (joined l (ls ++ map header_line hs) ++ crlf)%string.
Proof.
  revert ls. induction hs as [|[name value] hs IH]; intros ls; cbn [push_headers existsb map]; [by rewrite app_nil_r|].
  change (breaking (name, value)) with (breaks name value). destruct (breaks name value); [done|]. cbn [orb].
  replace ((joined l ls ++ crlf) ++ name ++ ": " ++ value ++ crlf)%string
    with (joined l (ls ++ [header_line (name, value)]) ++ crlf)%string
    by (rewrite joined_app; cbn [more_lines]; unfold header_line; cbn [fst snd]; by rewrite !str_app_assoc).
  rewrite IH. destruct (existsb _ hs); [done|]. by rewrite <-app_assoc.
Qed.

Lemma head_of_lines r :
  head_of r = if existsb breaking (rb_headers r) then Err (Invalid "a header that would break the request")
    else Ok (joined (request_line r) (map header_line (sent_headers r)) ++ crlf ++ crlf)%string.
Proof.
  unfold head_of. fold (has_length r).
  replace (rb_method r ++ " " ++ rb_path r ++ " HTTP/1.1" ++ crlf ++ "Host: " ++ rb_host r ++ crlf ++ "Connection: close" ++ crlf)%string
    with (joined (request_line r) (map header_line [("Host", rb_host r); ("Connection", "close")]) ++ crlf)%string
    by (unfold request_line, joined, header_line; cbn [map fst snd more_lines]; by rewrite !str_app_assoc).
  rewrite push_headers_lines. destruct (existsb _ _); [done|]. cbn [mbind outcome_bind recast]. unfold sent_headers. f_equal.
  destruct (has_length r); cbn [map]; rewrite ?app_nil_r, ?map_app; cbn [map app]; [|by rewrite str_app_assoc].
  rewrite !app_comm_cons, (joined_app _ (_ :: _)). cbn [more_lines]. unfold header_line at 4. cbn [fst snd]. by rewrite !str_app_assoc.
Qed.

Lemma sound_header h : breaking h = false → tame h.1 = true ∧ tame h.2 = true ∧ contains ":" h.1 = false.
Proof. unfold breaking, breaks, tame. rewrite !orb_false_iff. intros ((((-> & ->) & ->) & ->) & ->). done. Qed.

(** ** The theorems *)

(** C32: An answer is read as it was sent: its status, every header with its
    name in lower case and its value trimmed, and its body whole.  The body goes
    to the end of the connection where no header announces chunks; where one
    does, it is put together from the chunks, whatever pieces it was cut into:
    their sizes are hexadecimal, in either case, with zeros in front, and with
    blanks and extensions after them, and what follows the last chunk is not
    taken for body. *)
Theorem answers_are_read_as_sent (status : N) (reason : string) (headers : list (string * string))
    (body line trailer : string) (chunks : list (string * string)) :
  (status ≤ 65535)%N → tame reason = true → is_utf8 reason = true → Forall proper_header headers →
  size_line line 0 → Forall sent_chunk chunks →
  (¬ Exists announces_chunks headers →
    parse (answer status reason headers body) = Ok (mkHttpResponse status (read_headers headers) body)) ∧
  (Exists announces_chunks headers →
    parse (answer status reason headers (chunked chunks (line ++ crlf ++ trailer))) =
      Ok (mkHttpResponse status (read_headers headers) (pieces chunks))).
Proof.
  intros Hs Hr Hu Hh Hl Hc. rewrite <- is_chunked_announced.
  split; intros Hchunked; rewrite parse_answer by done; [by apply not_true_is_false in Hchunked as ->|rewrite Hchunked].
  unfold unchunk. rewrite unchunk_chunks; [done|by eapply Forall_impl; [exact Hc|apply sent_chunk_readable]
    |by apply size_line_reads|]. pose proof (length_chunked chunks (line ++ crlf ++ trailer)). lia.
Qed.

(** Reading an answer always ends: with the answer, with an error that
    says what is wrong, or, only where a chunk's line says a size of 2^64 - 2
    or more, with a panic. *)
Theorem an_answer_always_ends (raw : string) :
  match parse raw with
  | Ok _ | Err (Invalid _) => True
  | Err Panicked => overflows raw
  | _ => False
  end.
Proof.
  unfold parse. destruct (position (crlf ++ crlf) raw) as [n|] eqn:Hn; cbn [ok_or mbind outcome_bind recast]; [|done].
  apply position_Some in Hn as (text & rest & -> & <-). destruct (negb (is_utf8 _)); [done|].
  destruct (status_of _); cbn [ok_or mbind outcome_bind recast]; [|done]. destruct (is_chunked _); [|done].
  replace (String.length text + 4) with (String.length (text ++ crlf ++ crlf)) by (by rewrite !length_app_str).
  rewrite <-!(str_app_assoc text), str_drop_app. pose proof (unchunk_ends (S (String.length rest)) rest "" ltac:(lia)) as Hend.
  fold (unchunk rest) in Hend. destruct (unchunk rest) as [|[]| |]; try done. cbn. by apply overflows_later.
Qed.

(** A request is on the wire what was asked for: its head ends at its
    first blank line, its first line is the request's, and the fields after it
    are the host, the headers that were added, each once and in order, and the
    length of the body; a header that would break the request is refused
    before anything is written. *)
Theorem requests_are_sent_as_asked {St} `{HttpStream St} (r : RequestBuilder) (s : St) :
  tame (rb_host r) = true → tame (rb_method r) = true → tame (rb_path r) = true →
  if existsb breaking (rb_headers r)
  then exchange r s = (Err (Invalid "a header that would break the request"), s)
  else ∃ text, head_of r = Ok (text ++ crlf ++ crlf)%string ∧
    position (crlf ++ crlf) (text ++ crlf ++ crlf ++ rb_body r) = Some (String.length text) ∧
    head (split_crlf text) = Some (request_line r) ∧
    omap field_of (tail (split_crlf text)) = read_headers (sent_headers r).
Proof.
  intros Hh Hm Hp. destruct (existsb breaking (rb_headers r)) eqn:Hb.
  { unfold exchange. by rewrite head_of_lines, Hb. }
  assert (Forall (λ h, tame h.1 = true ∧ tame h.2 = true ∧ contains ":" h.1 = false) (sent_headers r)) as Hall.
  { unfold sent_headers. constructor; [by split_and!|]. constructor; [by split_and!|]. apply Forall_app. split.
    - apply Forall_forall. intros h Hin. apply sound_header. destruct (breaking h) eqn:Hbh; [|done].
      rewrite <-Hb. symmetry. apply existsb_exists. exists h. split; [by apply list_elem_of_In|done].
    - destruct (has_length r); [|done]. constructor; [|done]. destruct (pretty_digits (N.of_nat (String.length (rb_body r)))) as (Hd & _ & _).
      split; [done|]. split; [by apply tame_digits|done]. }
  assert (tame (request_line r) = true) as Hl by (unfold request_line; by rewrite !tame_app, Hm, Hp).
  assert (Forall proper_line (map header_line (sent_headers r))) as Hls.
  { apply List.Forall_map. eapply Forall_impl; [exact Hall|]. intros h (Hn & Hv & _). by apply header_line_tame. }
  exists (joined (request_line r) (map header_line (sent_headers r))). rewrite head_of_lines, Hb. split; [done|].
  split; [by apply position_blank|]. rewrite split_joined; [|done|by eapply Forall_impl; [exact Hls|]; intros ? []].
  split; [done|]. apply fields_of_headers. eapply Forall_impl; [exact Hall|]. by intros h (_ & _ & ?).
Qed.

(** ** Witnesses *)

(** A connection that takes everything, and what it has to say. *)
#[local] Instance recorded : HttpStream (string * string) := {
  stream_write bytes s := (true, ((s.1 ++ bytes)%string, s.2));
  stream_flush s := (true, s);
  read_to_end s := ((true, s.2), (s.1, ""));
}.

Definition asked : RequestBuilder :=
  RequestBuilder.json (RequestBuilder.bearer (RequestBuilder.request "127.0.0.1:8750" "POST" "/v1") "pak_1") "{}".
Definition asked_text : string :=
  "POST /v1 HTTP/1.1" ++ crlf ++ "Host: 127.0.0.1:8750" ++ crlf ++ "Connection: close" ++ crlf ++
  "Authorization: Bearer pak_1" ++ crlf ++ "Content-Type: application/json" ++ crlf ++ "Content-Length: 2" ++ crlf ++ crlf ++ "{}".

Example an_exchange :
  exchange asked ("", "HTTP/1.1 204 No Content" ++ crlf ++ crlf)%string = (Ok (mkHttpResponse 204 [] ""), (asked_text, "")).
Proof. vm_compute. reflexivity. Qed.
Example a_smuggled_header :
  exchange (RequestBuilder.header asked "X" ("1" ++ crlf ++ "Y: 2")) ("", "")%string =
    (Err (Invalid "a header that would break the request"), ("", "")).
Proof. vm_compute. reflexivity. Qed.

Lemma requests_are_sent_as_asked_witness :
  ∃ text, head_of asked = Ok (text ++ crlf ++ crlf)%string ∧
    position (crlf ++ crlf) (text ++ crlf ++ crlf ++ "{}") = Some (String.length text) ∧
    head (split_crlf text) = Some "POST /v1 HTTP/1.1" ∧
    omap field_of (tail (split_crlf text)) =
      [("host", "127.0.0.1:8750"); ("connection", "close"); ("authorization", "Bearer pak_1");
       ("content-type", "application/json"); ("content-length", "2")].
Proof. exact (requests_are_sent_as_asked asked ("", "") eq_refl eq_refl eq_refl). Defined.

Definition sent_chunks : list (string * string) := [("3", "abc"); ("01b ; name=value", "0123456789abcdefghijklmnopq")].

Lemma a_size_with_an_extension : size_line "01b ; name=value" 27.
Proof.
  split; [reflexivity|]. split; [reflexivity|]. exists "01b", " ", "; name=value". split; [reflexivity|].
  split; [|split; [reflexivity|right; by eexists]].
  apply (hex_digits "01" 1 "b" 11); [|by left]. apply (hex_digits "0" 0 "1" 1); [|by left]. by apply (hex_digit "0" 0); left.
Qed.

Lemma a_plain_size (c : ascii) (d : nat) : stands_for c d → tame (String c "") = true → is_utf8 (String c "") = true →
  size_line (String c "") (N.of_nat d).
Proof.
  intros Hc Ht Hu. split; [done|]. split; [done|]. exists (String c ""), "", "". split; [done|]. split; [by apply hex_digit|].
  split; [done|by left].
Qed.

Lemma answers_are_read_as_sent_witness :
  parse (answer 200 "OK" [("Content-Type", "text/plain")] "abc") =
    Ok (mkHttpResponse 200 [("content-type", "text/plain")] "abc") ∧
  parse (answer 206 "Partial Content" [("Transfer-Encoding", "Chunked")] (chunked sent_chunks ("0" ++ crlf ++ crlf)))%string =
    Ok (mkHttpResponse 206 [("transfer-encoding", "Chunked")] "abc0123456789abcdefghijklmnopq").
Proof.
  assert (Forall sent_chunk sent_chunks) as Hc.
  { constructor; [|constructor; [|by constructor]]; (split; [|split; [done|reflexivity]]).
    - apply (a_plain_size "3" 3); [by left|reflexivity..].
    - exact a_size_with_an_extension. }
  assert (size_line "0" 0) as Hz by (apply (a_plain_size "0" 0); [by left|reflexivity..]).
  assert (∀ n v, proper_header (n, v) → Forall proper_header [(n, v)]) as Hh by (intros n v Hnv; by constructor).
  split.
  - apply (proj1 (answers_are_read_as_sent 200 "OK" [("Content-Type", "text/plain")] "abc" "0" crlf []
      ltac:(done) eq_refl eq_refl (Hh "Content-Type" "text/plain" ltac:(by split_and!)) Hz (Forall_nil_2 _))).
    intros [[H _]|H]%Exists_cons; [vm_compute in H; discriminate H|by apply Exists_nil in H].
  - apply (proj2 (answers_are_read_as_sent 206 "Partial Content" [("Transfer-Encoding", "Chunked")] "" "0" crlf sent_chunks
      ltac:(done) eq_refl eq_refl (Hh "Transfer-Encoding" "Chunked" ltac:(by split_and!)) Hz Hc)).
    apply Exists_cons_hd. split; reflexivity.
Defined.
