(* ===== verification/Tls.v ===== *)
(** The server's certificates ([passalong-server-api/src/tls.rs]): pins, the
    names and the dates of a self-signed pair, reading a pair, and the pair in
    use, which is read again when its files change.

    X.509, PEM, base64 and the making of certificates are other libraries', and
    parameters here. *)

From S2P Require Import Prelude Text Shelf Rate Net Clock Install.

(** ** Parameters *)

(** [base64]'s [STANDARD], the parser of certificates and of PEM files, and
    [rcgen]: a certificate for names, with the common name and the first and
    the last day it is good for. *)
Class Certificates := {
  base64_encode : list byte → string;
  base64_decode : string → option (list byte);
  subject_public_key_info : string → outcome string (list byte);
  pem_certificates : string → list (outcome string string);
  pem_private_key : string → outcome string string;
  with_single_cert : list string → string → outcome string unit;
  rcgen_pair : list string → string → Z * N * N → Z * N * N → outcome string (string * string);
}.

(** Base64 is read back, each text is the only one for its bytes, and is of
    visible characters. *)
Class LawfulCertificates `{Certificates} := {
  base64_decode_encode bytes : base64_decode (base64_encode bytes) = Some bytes;
  base64_encode_decode text bytes : base64_decode text = Some bytes → base64_encode bytes = text;
  base64_visible bytes : all_bytes visible (base64_encode bytes) = true;
}.

(** What went wrong. *)
Inductive TlsError :=
| NotACertificate (err : string)
| NoCertificate (file : option string)
| NotPem (err : string)
| WrongPin
| NoNames
| OddName (name : string)
| CannotMake (err : string)
| CannotRead (file err : string)
| NotAPair (cert_file key_file err : string)
| NotThePinned.

Section tls.
Context `{Externals, Certificates}.

(** ** Pins *)

Definition spki_sha256 (certificate : string) : outcome TlsError (list byte) :=
  info ← map_err NotACertificate (subject_public_key_info certificate); Ok (sha256 info).

Definition pin_of (certificate : string) : outcome TlsError string :=
  hash ← spki_sha256 certificate; Ok ("sha256/" ++ base64_encode hash)%string.

Definition pin_of_pem (pem : string) : outcome TlsError string :=
  first ← ok_or (NoCertificate None) (head (pem_certificates pem));
  first ← map_err NotPem first;
  pin_of first.

Definition parse_pin (pin : string) : outcome TlsError (list byte) :=
  encoded ← ok_or WrongPin (strip_prefix "sha256/" (trim pin));
  bytes ← ok_or WrongPin (base64_decode encoded);
  if length bytes =? 32 then Ok bytes else Err WrongPin.

(** The client's verifier: what [client_config] trusts. *)
Record Pinned := mkPinned { pinned : list byte }.
Definition client_config (pin : string) : outcome TlsError Pinned := bytes ← parse_pin pin; Ok (mkPinned bytes).
Definition verify_server_cert (P : Pinned) (end_entity : string) : outcome TlsError unit :=
  presented ← spki_sha256 end_entity;
  if bool_decide (presented = pinned P) then Ok () else Err NotThePinned.

(** ** A self-signed pair *)

Definition SELF_SIGNED_YEARS : Z := 10.

Definition is_ascii_alphanumeric (c : ascii) : bool :=
  let n := N_of_ascii c in ((48 <=? n) && (n <=? 57) || (65 <=? n) && (n <=? 90) || (97 <=? n) && (n <=? 122))%N.
Definition is_label (label : string) : bool :=
  (1 <=? String.length label) && (String.length label <=? 63)
  && negb (String.prefix "-" label) && negb (String.prefix "-" (str_rev label))
  && all_bytes (λ b, is_ascii_alphanumeric b || Ascii.eqb b "-") label.
Definition is_host (name : string) : bool :=
  bool_decide (is_Some (parse_ip name)) || ((String.length name <=? 253) && forallb is_label (split "." name)).

(** [text.parse::<i32>()] *)
Definition parse_i32 (s : string) : option Z :=
  match s with
  | String "-" s => n ← parse_digits s; if (n <=? 2 ^ 31)%N then Some (- Z.of_N n)%Z else None
  | _ => n ← parse_u64 s; if (n <? 2 ^ 31)%N then Some (Z.of_N n) else None
  end.
(** [u8::try_from] *)
Definition to_u8 (n : Z) : option N := if (0 <=? n)%Z && (n <=? 255)%Z then Some (Z.to_N n) else None.

Definition ymd (unix : N) : Z * N * N :=
  let text := rfc3339 unix in
  let part (from to : nat) :=
    if to <=? String.length text then parse_i32 (str_take (to - from) (str_drop from text)) else None in
  (default 1970%Z (part 0 4), default 1%N (part 5 7 ≫= to_u8), default 1%N (part 8 10 ≫= to_u8)).

(** The first and the last day of a pair that is made at [now]. *)
Definition not_before (now : N) : Z * N * N := ymd (now - 86400).
Definition not_after (now : N) : Z * N * N :=
  let '(year, month, day) := ymd (now - 86400) in (year + SELF_SIGNED_YEARS, month, N.min day 28)%Z.

Definition self_signed (names : list string) (now : N) : outcome TlsError (string * string) :=
  match names with
  | [] => Err NoNames
  | common :: _ =>
      match List.find (λ name, negb (is_host name)) names with
      | Some odd => Err (OddName odd)
      | None => map_err CannotMake (rcgen_pair names common (not_before now) (not_after now))
      end
  end.

(** ** Reading a pair *)

(** A [ServerConfig]: the certificates and the key. *)
Record ServerConfig := mkServerConfig { sc_certificates : list string; sc_key : string }.

Fixpoint collect {E A} (l : list (outcome E A)) : outcome E (list A) :=
  match l with [] => Ok [] | x :: l => x ← x; l ← collect l; Ok (x :: l) end.

(** What is read of a file: its text, or why not. *)
Definition load_certificates (cert_file : string) (text : outcome string string) : outcome TlsError (list string) :=
  certificates ← map_err (CannotRead cert_file) (text ← text; collect (pem_certificates text));
  match certificates with [] => Err (NoCertificate (Some cert_file)) | _ => Ok certificates end.

Definition load_key (cert_file key_file : string) (certificates : list string) (text : outcome string string) :
    outcome TlsError ServerConfig :=
  key ← map_err (CannotRead key_file) (text ← text; pem_private_key text);
  map_err (NotAPair cert_file key_file) (with_single_cert certificates key);;
  Ok (mkServerConfig certificates key).

Definition load (cert_file key_file : string) (cert key : outcome string string) : outcome TlsError ServerConfig :=
  certificates ← load_certificates cert_file cert; load_key cert_file key_file certificates key.
End tls.

(** ** Dates *)

Local Open Scope Z_scope.

Definition is_date (date : Z * Z * Z) : Prop :=
  let '(y, m, d) := date in 1 ≤ m ≤ 12 ∧ 1 ≤ d ≤ days_in y m.

Lemma days_in_bounds y m : 28 ≤ days_in y m ≤ 31.
Proof. unfold days_in. repeat case_match; lia. Qed.

Lemma next_is_date date : is_date date → is_date (next_day date).
Proof.
  destruct date as [[y m] d]. intros [Hm Hd]. cbn [next_day]. destruct (Z.ltb_spec d (days_in y m)); [split; lia|].
  pose proof (days_in_bounds y (m + 1)). pose proof (days_in_bounds (y + 1) 1).
  destruct (Z.ltb_spec m 12); split; lia.
Qed.

Lemma next_year_later date : (next_day date).1.1 = date.1.1 ∨ (next_day date).1.1 = date.1.1 + 1.
Proof. destruct date as [[y m] d]. cbn. destruct (_ <? _); [by left|]. destruct (m <? 12); [by left|by right]. Qed.

Lemma civil_is_date n : is_date (civil (Z.of_nat n)).
Proof.
  induction n as [|n IH]; [by vm_compute|]. rewrite Nat2Z.inj_succ, <-Z.add_1_r, civil_next by lia. by apply next_is_date.
Qed.

Lemma civil_year_later (n m : nat) : (n ≤ m)%nat → (civil (Z.of_nat n)).1.1 ≤ (civil (Z.of_nat m)).1.1.
Proof.
  induction 1 as [|m Hm IH]; [lia|]. rewrite Nat2Z.inj_succ, <-Z.add_1_r, civil_next by lia.
  pose proof (next_year_later (civil (Z.of_nat m))). lia.
Qed.

(** The first second of the year 10000. *)
Definition YEAR_10000 : N := 253402300800.

Lemma civil_year_bounds unix : (unix < YEAR_10000)%N → 1970 ≤ (civil (Z.of_N (unix / 86400))).1.1 ≤ 9999.
Proof.
  intros Hu. assert (unix / 86400 ≤ 2932896)%N as Hd.
  { unfold YEAR_10000 in Hu. zify. Z.to_euclidean_division_equations. lia. }
  rewrite <-N_nat_Z. split.
  - change 1970 with (civil (Z.of_nat 0)).1.1. apply civil_year_later, Nat.le_0_l.
  - replace 9999 with (civil (Z.of_nat (N.to_nat 2932896))).1.1 by (rewrite N_nat_Z; by vm_compute).
    apply civil_year_later. lia.
Qed.

(** What is written with its leading zeros is read back. *)
Definition reads_padded (w : nat) (n : Z) : bool :=
  (String.length (padded w (Z.to_N n)) =? w)%nat && bool_decide (parse_i32 (padded w (Z.to_N n)) = Some n).
Lemma padded_read_back w n :
  (w = 4%nat ∧ 1970 ≤ n ≤ 9999) ∨ (w = 2%nat ∧ 1 ≤ n ≤ 31) →
  String.length (padded w (Z.to_N n)) = w ∧ parse_i32 (padded w (Z.to_N n)) = Some n.
Proof.
  assert (∀ lo len, forallb (reads_padded w) (seqZ lo len) = true → lo ≤ n < lo + len →
    String.length (padded w (Z.to_N n)) = w ∧ parse_i32 (padded w (Z.to_N n)) = Some n) as Hall.
  { intros lo len Hf Hn. rewrite forallb_forall in Hf. specialize (Hf n). rewrite <-list_elem_of_In, elem_of_seqZ in Hf.
    specialize (Hf Hn). apply andb_true_iff in Hf as [Hl Hp]. apply Nat.eqb_eq in Hl. by apply bool_decide_eq_true in Hp. }
  intros [[-> Hn]|[-> Hn]].
  - apply (Hall 1970 8030); [by vm_compute|lia].
  - apply (Hall 1 31); [by vm_compute|lia].
Qed.

Lemma ymd_is_civil unix : (unix < YEAR_10000)%N →
  let '(y, m, d) := civil (Z.of_N (unix / 86400)) in ymd unix = (y, Z.to_N m, Z.to_N d).
Proof.
  intros Hu. pose proof (civil_year_bounds unix Hu) as Hy. pose proof (civil_is_date (N.to_nat (unix / 86400))) as Hdate.
  rewrite N_nat_Z in Hdate. unfold ymd, rfc3339. destruct (civil _) as [[y m] d]. cbn [fst snd is_date] in *.
  destruct Hdate as [Hm Hd]. pose proof (days_in_bounds y m).
  destruct (padded_read_back 4 y ltac:(lia)) as [Hly Hpy], (padded_read_back 2 m ltac:(lia)) as [Hlm Hpm],
    (padded_read_back 2 d ltac:(lia)) as [Hld Hpd].
  set (py := padded 4 (Z.to_N y)) in *. set (pm := padded 2 (Z.to_N m)) in *. set (pd := padded 2 (Z.to_N d)) in *.
  set (rest := (String.append "T" _)). clearbody py pm pd rest.
  repeat (destruct py as [|? py]; try done). repeat (destruct pm as [|? pm]; try done). repeat (destruct pd as [|? pd]; try done).
  lazy beta iota zeta delta [String.append String.length Nat.leb str_drop str_take Nat.sub]. rewrite Hpy, Hpm, Hpd.
  cbn [mbind option_bind default from_option id]. unfold to_u8. by rewrite !(proj2 (Z.leb_le _ _)) by lia.
Qed.

(** ** Pins *)

Section pins.
Context `{LawfulExternals, LawfulCertificates}.

Lemma pin_visible bytes : trim ("sha256/" ++ base64_encode bytes) = ("sha256/" ++ base64_encode bytes)%string.
Proof. apply trim_printable. unfold all_bytes. rewrite str_bytes_app, forallb_app. by apply base64_visible. Qed.

(** What is a pin, and of what. *)
Lemma parse_pin_Ok pin bytes :
  parse_pin pin = Ok bytes ↔ length bytes = 32%nat ∧ trim pin = ("sha256/" ++ base64_encode bytes)%string.
Proof.
  unfold parse_pin. split.
  - destruct (strip_prefix _ _) as [encoded|] eqn:Hp; [|done]. apply strip_prefix_Some in Hp. cbn [ok_or mbind outcome_bind recast].
    destruct (base64_decode encoded) as [b|] eqn:Hd; [|done]. cbn [ok_or mbind outcome_bind recast].
    destruct (Nat.eqb_spec (length b) 32) as [Hl|]; intros [= <-]. apply base64_encode_decode in Hd. by rewrite Hd.
  - intros [Hl ->]. rewrite strip_prefix_app. cbn [ok_or mbind outcome_bind recast]. rewrite base64_decode_encode.
    cbn [ok_or mbind outcome_bind recast]. by rewrite Hl.
Qed.

Lemma parse_pin_Err pin : match parse_pin pin with Ok _ => True | Err e => e = WrongPin | _ => False end.
Proof.
  unfold parse_pin. destruct (strip_prefix _ _); [|done]. cbn. destruct (base64_decode _) as [b|]; [|done]. cbn. by destruct (length b =? 32)%nat.
Qed.

Lemma pin_of_Ok certificate pin :
  pin_of certificate = Ok pin ↔ ∃ hash, spki_sha256 certificate = Ok hash ∧ pin = ("sha256/" ++ base64_encode hash)%string.
Proof.
  unfold pin_of. destruct (spki_sha256 certificate) as [hash|e| |]; cbn; split; try discriminate.
  - intros [= <-]. by exists hash.
  - intros (? & [= <-] & ->). done.
  - intros (? & [=] & _).
  - intros (? & [=] & _).
  - intros (? & [=] & _).
Qed.

Lemma spki_length certificate hash : spki_sha256 certificate = Ok hash → length hash = 32%nat.
Proof. unfold spki_sha256. destruct (subject_public_key_info _); intros [= <-]. apply sha256_length. Qed.

(** C33: A client that is given a pin connects to a server exactly when the pin
    of the certificate the server presents is that one, however much white
    space surrounds it; what it will not take for a pin is no certificate's. *)
Theorem a_pin_admits_its_own_certificates (pin certificate : string) :
  match client_config pin with
  | Ok P => verify_server_cert P certificate = Ok () ↔ pin_of certificate = Ok (trim pin)
  | Err e => e = WrongPin ∧ pin_of certificate ≠ Ok (trim pin)
  | _ => False
  end.
Proof.
  unfold client_config. pose proof (parse_pin_Err pin) as Herr. destruct (parse_pin pin) as [bytes|e| |] eqn:Hp; try done; cbn.
  - apply parse_pin_Ok in Hp as [Hl Hp]. rewrite pin_of_Ok, Hp. unfold verify_server_cert. cbn [pinned].
    destruct (spki_sha256 certificate) as [hash|e| |]; cbn; split; try discriminate.
    + case_bool_decide as Heq; [|done]. intros _. subst. by exists bytes.
    + intros (hash' & [= <-] & Heq). apply (inj (String.append _)) in Heq.
      apply (f_equal base64_decode) in Heq. rewrite !base64_decode_encode in Heq. injection Heq as ->. by rewrite bool_decide_true.
    + intros (? & [=] & _).
    + intros (? & [=] & _).
    + intros (? & [=] & _).
  - split; [done|]. rewrite pin_of_Ok. intros (hash & Hs & Hpin). apply spki_length in Hs.
    assert (parse_pin pin = Ok hash) as Hok by (by apply parse_pin_Ok). congruence.
Qed.
End pins.

(** ** The pair that is made *)

Section pair.
Context `{Externals, Certificates}.

(** A pair is made for names that are each a host name or an address and
    for no others; before the year 10000 it is good from the day before, by
    the calendar, to a day of the same month ten years on that every year
    has. *)
Theorem a_self_signed_pair_is_dated (names : list string) (now : N) :
  (now < YEAR_10000)%N →
  let '(y, m, d) := civil (Z.of_N ((now - 86400) / 86400)) in
  is_date (y, m, d) ∧ is_date (y + 10, m, Z.min d 28) ∧
  self_signed names now =
    match names, List.find (λ name, negb (is_host name)) names with
    | [], _ => Err NoNames
    | _, Some odd => Err (OddName odd)
    | common :: _, None =>
        map_err CannotMake (rcgen_pair names common (y, Z.to_N m, Z.to_N d) (y + 10, Z.to_N m, Z.to_N (Z.min d 28)))
    end.
Proof.
  intros Hn. assert ((now - 86400 < YEAR_10000)%N) as Hb by lia. pose proof (ymd_is_civil _ Hb) as Hymd.
  pose proof (civil_is_date (N.to_nat ((now - 86400) / 86400))) as Hdate. rewrite N_nat_Z in Hdate.
  destruct (civil _) as [[y m] d]. destruct Hdate as [Hm Hd]. split; [done|]. split.
  { split; [done|]. pose proof (days_in_bounds (y + 10) m). lia. }
  unfold self_signed, not_before, not_after. rewrite Hymd. destruct names as [|common names]; [done|].
  destruct (List.find _ _); [done|]. unfold SELF_SIGNED_YEARS. by replace (N.min (Z.to_N d) 28) with (Z.to_N (Z.min d 28)) by lia.
Qed.
End pair.

(** What the service's installation asks of this module, with its errors as
    they are printed. *)
Definition pairs `{Externals, Certificates} (words : TlsError → string) : Pairs := {|
  Install.self_signed names now := map_err words (self_signed names now);
  Install.pin_of_pem pem := map_err words (pin_of_pem pem);
|}.
