(* ===== verification/Reloading.v ===== *)
(** The pair in use ([Reloading] of [passalong-server-api/src/tls.rs]), as a
    machine whose calls of the file system come between the changes that
    somebody makes to the two files: what is used is always a pair that was
    there, and a new pair is taken up. *)

From stdpp Require Import functions.
From S2P Require Import Prelude Text Shelf Tls.

(** The two files.  A file has a stamp, its time and its length, and what
    reading it gives. *)
Inductive Part := Cert | Key.
#[export] Instance Part_eq_dec : EqDecision Part.
Proof. solve_decision. Defined.

Definition Meta : Type := N * N.
Definition File : Type := Meta * outcome string string.

Definition stamp_of (file : option File) : option Meta := fst <$> file.
Definition read_file (file : option File) : outcome string string :=
  match file with Some (_, text) => text | None => Err "No such file or directory" end.

(** How far a look is: it has read the stamp of the certificate; it is about
    to read the pair; it has read the certificates.  [Refused] is an [open]
    that failed. *)
Inductive Phase :=
| Idle
| Looking (cert : option Meta)
| Loading
| HasCertificates (certificates : list string)
| Refused.

(** Before [open] is done there is no pair in use. *)
Record Pair := mkPair { current : option ServerConfig; seen : option (option Meta * option Meta); phase : Phase }.
Definition unopened : Pair := mkPair None None Idle.

Section reloading.
Context `{Externals, Certificates} (cert_file key_file : string).

Definition failed_load (p : Pair) : Pair :=
  mkPair (current p) (seen p) (if current p then Idle else Refused).

(** The next call of [look], or of [open], while the files are as they are. *)
Definition look (disk : Part → option File) (p : Pair) : Pair :=
  match phase p with
  | Idle => mkPair (current p) (seen p) (Looking (stamp_of (disk Cert)))
  | Looking cert =>
      let now := (cert, stamp_of (disk Key)) in
      if bool_decide (seen p = Some now) then mkPair (current p) (seen p) Idle
      else mkPair (current p) (Some now) Loading
  | Loading =>
      match load_certificates cert_file (read_file (disk Cert)) with
      | Ok certificates => mkPair (current p) (seen p) (HasCertificates certificates)
      | _ => failed_load p
      end
  | HasCertificates certificates =>
      match load_key cert_file key_file certificates (read_file (disk Key)) with
      | Ok config => mkPair (Some config) (seen p) Idle
      | _ => failed_load p
      end
  | Refused => p
  end.

(** The files, what was ever in them under which stamp, and the pair. *)
Record Watched := mkWatched { disk : Part → option File; was : Part → gmap Meta (outcome string string); pair : Pair }.

Definition looks (w : Watched) : Watched := mkWatched (disk w) (was w) (look (disk w) (pair w)).

(** A file is replaced under a stamp it never had, or removed. *)
Inductive watched_step : Watched → Watched → Prop :=
| watched_look w : watched_step w (looks w)
| watched_replace w f m text :
    was w f !! m = None →
    watched_step w (mkWatched (<[f := Some (m, text)]> (disk w)) (<[f := <[m := text]> (was w f)]> (was w)) (pair w))
| watched_remove w f : watched_step w (mkWatched (<[f := None]> (disk w)) (was w) (pair w)).

Definition starts (w : Watched) : Prop :=
  pair w = unopened ∧ ∀ f m text, disk w f = Some (m, text) → was w f !! m = Some text.

(** ** What always holds *)

Definition gone (w : Watched) (f : Part) (m : Meta) : Prop := stamp_of (disk w f) ≠ Some m.
Definition known (w : Watched) (f : Part) (o : option Meta) : Prop := ∀ m, o = Some m → is_Some (was w f !! m).

(** What is in use is a pair that was there. *)
Definition from_the_past (w : Watched) : Prop := ∀ config, current (pair w) = Some config →
  ∃ mc mk cert key, was w Cert !! mc = Some cert ∧ was w Key !! mk = Some key ∧
    load cert_file key_file cert key = Ok config.

(** What was seen and is still there is in use, if it is a pair. *)
Definition up_to_date (w : Watched) : Prop := ∀ mc mk, seen (pair w) = Some (Some mc, Some mk) →
  gone w Cert mc ∨ gone w Key mk ∨
  ∀ cert key config, was w Cert !! mc = Some cert → was w Key !! mk = Some key →
    load cert_file key_file cert key = Ok config → current (pair w) = Some config.

Definition halfway (w : Watched) (certificates : list string) : Prop :=
  (∃ mc cert, was w Cert !! mc = Some cert ∧ load_certificates cert_file cert = Ok certificates) ∧
  ∀ mc k, seen (pair w) = Some (Some mc, k) →
    gone w Cert mc ∨ ∃ cert, was w Cert !! mc = Some cert ∧ load_certificates cert_file cert = Ok certificates.

Record inv (w : Watched) : Prop := {
  inv_disk f m text : disk w f = Some (m, text) → was w f !! m = Some text;
  inv_past : from_the_past w;
  inv_seen c k : seen (pair w) = Some (c, k) → known w Cert c ∧ known w Key k;
  inv_phase : match phase (pair w) with
    | Idle | Refused => up_to_date w
    | Looking c => up_to_date w ∧ known w Cert c
    | Loading => True
    | HasCertificates certificates => halfway w certificates
    end;
}.

(** ** The invariant is kept *)

Arguments watched_step : default implicits.

(** Changes of the files alone: what was there is remembered, and a stamp that
    is gone stays gone. *)
Record changed (w w' : Watched) : Prop := {
  changed_pair : pair w' = pair w;
  changed_was f m text : was w f !! m = Some text → was w' f !! m = Some text;
  changed_gone f m : is_Some (was w f !! m) → gone w f m → gone w' f m;
  changed_disk f m text : disk w' f = Some (m, text) → was w' f !! m = Some text;
}.

Lemma replaced_changed w f m text : inv w → was w f !! m = None →
  changed w (mkWatched (<[f := Some (m, text)]> (disk w)) (<[f := <[m := text]> (was w f)]> (was w)) (pair w)).
Proof.
  intros Hinv Hm. split; cbn; [done|..].
  - intros g m' text' Hg. destruct (decide (f = g)) as [<-|Hne]; [|by rewrite fn_lookup_insert_ne].
    rewrite fn_lookup_insert, lookup_insert_ne; [done|congruence].
  - intros g m' [text' Hg] Hgone. unfold gone. cbn. destruct (decide (f = g)) as [<-|Hne]; [|by rewrite fn_lookup_insert_ne].
    rewrite fn_lookup_insert. cbn. congruence.
  - intros g m' text'. destruct (decide (f = g)) as [<-|Hne].
    + rewrite !fn_lookup_insert. intros [= <- <-]. by rewrite lookup_insert_eq.
    + rewrite !fn_lookup_insert_ne by done. apply (inv_disk _ Hinv).
Qed.

Lemma removed_changed w f : inv w → changed w (mkWatched (<[f := None]> (disk w)) (was w) (pair w)).
Proof.
  intros Hinv. split; cbn; try done.
  - intros g m _ Hgone. unfold gone. cbn. destruct (decide (f = g)) as [<-|Hne]; [by rewrite fn_lookup_insert|by rewrite fn_lookup_insert_ne].
  - intros g m text. destruct (decide (f = g)) as [<-|Hne]; [by rewrite fn_lookup_insert|].
    rewrite fn_lookup_insert_ne by done. apply (inv_disk _ Hinv).
Qed.

Lemma known_later w w' f o : changed w w' → known w f o → known w' f o.
Proof. intros Hch Hk m Ho. destruct (Hk m Ho) as [text Ht]. exists text. by eapply changed_was. Qed.

Lemma up_to_date_later w w' : changed w w' → inv w → up_to_date w → up_to_date w'.
Proof.
  intros Hch Hinv Hup mc mk Hseen. rewrite (changed_pair _ _ Hch) in *.
  destruct (inv_seen _ Hinv _ _ Hseen) as [Hc Hk]. specialize (Hc _ eq_refl) as Hc. specialize (Hk _ eq_refl) as Hk.
  destruct (Hup _ _ Hseen) as [Hg|[Hg|Hload]]; [left; by eapply changed_gone|right; left; by eapply changed_gone|].
  right. right. destruct Hc as [cert Hc], Hk as [key Hk]. intros cert' key' config.
  rewrite (changed_was _ _ Hch _ _ _ Hc), (changed_was _ _ Hch _ _ _ Hk). intros [= <-] [= <-]. by apply Hload.
Qed.

Lemma halfway_later w w' certificates : changed w w' → inv w → halfway w certificates → halfway w' certificates.
Proof.
  intros Hch Hinv [(mc & cert & Hc & Hl) Hseen]. split.
  - exists mc, cert. split; [by eapply changed_was|done].
  - intros mc' k Hs. rewrite (changed_pair _ _ Hch) in Hs. destruct (inv_seen _ Hinv _ _ Hs) as [Hkn _].
    destruct (Hseen _ _ Hs) as [Hg|(cert' & Hc' & Hl')]; [left; eapply changed_gone; eauto|].
    right. exists cert'. split; [by eapply changed_was|done].
Qed.

Lemma changed_inv w w' : changed w w' → inv w → inv w'.
Proof.
  intros Hch Hinv. pose proof (changed_pair _ _ Hch) as Hp. split.
  - apply (changed_disk _ _ Hch).
  - intros config. rewrite Hp. intros Hc. destruct (inv_past _ Hinv _ Hc) as (mc & mk & cert & key & H1 & H2 & H3).
    exists mc, mk, cert, key. eauto using changed_was.
  - intros c k. rewrite Hp. intros Hs. destruct (inv_seen _ Hinv _ _ Hs). eauto using known_later.
  - rewrite Hp. pose proof (inv_phase _ Hinv) as Hph. destruct (phase (pair w)); [| | |by eapply halfway_later|];
      [by eapply up_to_date_later| |done|by eapply up_to_date_later].
    destruct Hph. split; [by eapply up_to_date_later|by eapply known_later].
Qed.

Lemma stamp_known w f : inv w → known w f (stamp_of (disk w f)).
Proof.
  intros Hinv m. unfold stamp_of. destruct (disk w f) as [[m' text]|] eqn:Hd; [|done]. intros [= <-].
  exists text. by apply (inv_disk _ Hinv).
Qed.

(** Whether a file still has a stamp. *)
Lemma gone_or w f m : inv w →
  gone w f m ∨ ∃ text, was w f !! m = Some text ∧ read_file (disk w f) = text.
Proof.
  intros Hinv. unfold gone, stamp_of. destruct (disk w f) as [[m' text]|] eqn:Hd; [|by left].
  destruct (decide (m' = m)) as [<-|Hne]; [right|left; cbn; congruence]. exists text. split; [by apply (inv_disk _ Hinv)|done].
Qed.

Lemma load_split cert key :
  load cert_file key_file cert key =
    (certificates ← load_certificates cert_file cert; load_key cert_file key_file certificates key).
Proof. done. Qed.

(** What is read was there. *)
Lemma read_there {A} w f (read : outcome string string → outcome TlsError A) x :
  inv w → (∀ e, read (Err e) ≠ Ok x) → read (read_file (disk w f)) = Ok x →
  ∃ m, was w f !! m = Some (read_file (disk w f)).
Proof.
  intros Hinv Herr. destruct (disk w f) as [[m t]|] eqn:Hd; cbn; intros Hx; [|by apply Herr in Hx].
  exists m. by apply (inv_disk _ Hinv).
Qed.

Lemma no_certificates_Err e certificates : load_certificates cert_file (Err e) ≠ Ok certificates.
Proof. done. Qed.
Lemma no_key_Err certificates e config : load_key cert_file key_file certificates (Err e) ≠ Ok config.
Proof. done. Qed.

(** A load that failed changes no more than how far the look is. *)
Lemma failed_load_inv w : inv w → up_to_date w → inv (mkWatched (disk w) (was w) (failed_load (pair w))).
Proof.
  intros Hinv Hup. split; [exact (inv_disk _ Hinv)|exact (inv_past _ Hinv)|exact (inv_seen _ Hinv)|].
  assert (phase (failed_load (pair w)) = Idle ∨ phase (failed_load (pair w)) = Refused) as [Hp|Hp]
    by (unfold failed_load; cbn; destruct (current (pair w)); auto); cbn [pair]; rewrite Hp; exact Hup.
Qed.

(** The pair that was seen is no pair, or is not there any more. *)
Lemma certificates_failed w : inv w → (∀ certificates, load_certificates cert_file (read_file (disk w Cert)) ≠ Ok certificates) →
  up_to_date w.
Proof.
  intros Hinv Hfail mc mk Hseen. destruct (gone_or w Cert mc Hinv) as [Hg|(text & Ht & Hr)]; [by left|].
  right. right. intros cert key config Hc _. assert (cert = text) as -> by congruence. rewrite load_split, <-Hr.
  destruct (load_certificates _ _) eqn:Hl; [|done..]. by destruct (Hfail a).
Qed.

Lemma key_read w certificates r : inv w → halfway w certificates →
  load_key cert_file key_file certificates (read_file (disk w Key)) = r →
  ∀ mc mk, seen (pair w) = Some (Some mc, Some mk) → gone w Cert mc ∨ gone w Key mk ∨
    ∀ cert key, was w Cert !! mc = Some cert → was w Key !! mk = Some key → load cert_file key_file cert key = r.
Proof.
  intros Hinv [_ Hhalf] Hr mc mk Hseen. destruct (Hhalf _ _ Hseen) as [Hg|(cert & Hc & Hl)]; [by left|].
  destruct (gone_or w Key mk Hinv) as [Hg|(key & Hk & Hread)]; [by right; left|]. right. right.
  intros cert' key' Hc' Hk'. assert (cert' = cert) as -> by congruence. assert (key' = key) as -> by congruence.
  rewrite load_split, Hl. cbn. by rewrite <-Hread.
Qed.

Lemma looks_inv w : inv w → inv (looks w).
Proof.
  intros Hinv. pose proof (inv_phase _ Hinv) as Hph. unfold looks, look.
  destruct (phase (pair w)) as [|c| |certificates|] eqn:Hphase.
  - split; [exact (inv_disk _ Hinv)|exact (inv_past _ Hinv)|exact (inv_seen _ Hinv)|]. exact (conj Hph (stamp_known w Cert Hinv)).
  - destruct Hph as [Hup Hc]. case_bool_decide.
    + split; [exact (inv_disk _ Hinv)|exact (inv_past _ Hinv)|exact (inv_seen _ Hinv)|done].
    + split; [exact (inv_disk _ Hinv)|exact (inv_past _ Hinv)| |done]. intros c' k [= <- <-].
      exact (conj Hc (stamp_known w Key Hinv)).
  - destruct (load_certificates _ _) as [certificates|e| |] eqn:Hl;
      [|apply failed_load_inv, certificates_failed; [done..|]; intros ?; congruence..].
    split; [exact (inv_disk _ Hinv)|exact (inv_past _ Hinv)|exact (inv_seen _ Hinv)|]. cbn. split.
    + destruct (read_there w Cert (load_certificates cert_file) certificates Hinv) as [m Hm]; [done|done|]. by eexists m, _.
    + intros mc k _. destruct (gone_or w Cert mc Hinv) as [Hg|(text & Ht & Hr)]; [by left|right]. exists text. by rewrite <-Hr in *.
  - pose proof (key_read w certificates _ Hinv Hph eq_refl) as Hread.
    destruct (load_key _ _ _ _) as [config|e| |] eqn:Hl.
    2-4: apply failed_load_inv; [done|]; intros mc mk Hseen; destruct (Hread _ _ Hseen) as [|[|Hk]]; [by left|by right; left|right; right];
      intros cert key config H1 H2; by rewrite (Hk _ _ H1 H2).
    split; [exact (inv_disk _ Hinv)| |exact (inv_seen _ Hinv)|]; cbn.
    + intros config' [= <-]. destruct Hph as [(mc & cert & Hc & Hcl) _].
      destruct (read_there w Key (load_key cert_file key_file certificates) config Hinv) as [mk Hk]; [done|done|].
      eexists mc, mk, cert, _. split_and!; [done..|]. by rewrite load_split, Hcl.
    + intros mc mk Hseen. destruct (Hread _ _ Hseen) as [|[|Hk]]; [by left|by right; left|right; right].
      intros cert key config' H1 H2. rewrite (Hk _ _ H1 H2). cbn. congruence.
  - split; [exact (inv_disk _ Hinv)|exact (inv_past _ Hinv)|exact (inv_seen _ Hinv)|]. cbn. by rewrite Hphase.
Qed.

Lemma step_inv w w' : watched_step w w' → inv w → inv w'.
Proof.
  intros [?|? f m text Hm|? f] Hinv; [by apply looks_inv|..].
  - by eapply changed_inv; [apply replaced_changed|].
  - by eapply changed_inv; [apply removed_changed|].
Qed.
Lemma starts_inv w : starts w → inv w.
Proof. intros [Hp Hd]. split; [done|..]; unfold from_the_past, up_to_date; rewrite ?Hp; done. Qed.
Lemma reachable_inv w0 w : starts w0 → rtc watched_step w0 w → inv w.
Proof. intros Hs%starts_inv Hr. induction Hr; eauto using step_inv. Qed.

(** ** Left alone, the pair that is there is taken up *)

(** A look at files that nobody changes: what it has read is what is there. *)
Definition looking_at (d : Part → option File) (config : ServerConfig) (p : Pair) : Prop :=
  match phase p with
  | Idle => True
  | Looking c => c = stamp_of (d Cert)
  | Loading => True
  | HasCertificates certificates => load_certificates cert_file (read_file (d Cert)) = Ok certificates
  | Refused => False
  end.
Definition taken_up (d : Part → option File) (config : ServerConfig) (p : Pair) : Prop :=
  looking_at d config p ∧ current p = Some config.

Lemma look_steady d config p :
  load cert_file key_file (read_file (d Cert)) (read_file (d Key)) = Ok config →
  taken_up d config p → taken_up d config (look d p).
Proof.
  rewrite load_split. intros Hl [Hp Hc]. unfold look, looking_at in *.
  destruct (load_certificates cert_file (read_file (d Cert))) as [cs| | |] eqn:Hcs; try done. cbn in Hl.
  unfold taken_up, looking_at. destruct (phase p) as [|c| |certificates|] eqn:Hphase; try done.
  - case_bool_decide; done.
  - injection Hp as <-. by rewrite Hl.
Qed.

(** From between two looks. *)
Lemma idle_taken_up w config : inv w → phase (pair w) = Idle →
  load cert_file key_file (read_file (disk w Cert)) (read_file (disk w Key)) = Ok config →
  taken_up (disk w) config (Nat.iter 4 (look (disk w)) (pair w)).
Proof.
  intros Hinv Hphase Hload. pose proof (inv_phase _ Hinv) as Hup. rewrite Hphase in Hup.
  pose proof Hload as Hsplit. rewrite load_split in Hsplit.
  destruct (load_certificates cert_file (read_file (disk w Cert))) as [cs| | |] eqn:Hcs; try done. cbn in Hsplit.
  destruct (decide (seen (pair w) = Some (stamp_of (disk w Cert), stamp_of (disk w Key)))) as [Hseen|Hnew].
  - destruct (disk w Cert) as [[mc cert]|] eqn:Hdc; [|done]. destruct (disk w Key) as [[mk key]|] eqn:Hdk;
      [|by apply no_key_Err in Hsplit].
    assert (current (pair w) = Some config) as Hc.
    { destruct (Hup mc mk Hseen) as [Hg|[Hg|Hcur]]; [by destruct Hg; rewrite Hdc|by destruct Hg; rewrite Hdk|].
      by eapply Hcur; [apply (inv_disk _ Hinv)..|]. }
    assert (taken_up (disk w) config (pair w)) as Ht by (split; [unfold looking_at; by rewrite Hphase|done]).
    repeat (rewrite Nat.iter_succ); cbn [Nat.iter nat_rect]. do 4 (apply look_steady; [by rewrite Hdc, Hdk|]). done.
  - repeat (rewrite Nat.iter_succ). cbn [Nat.iter nat_rect]. unfold look at 4. rewrite Hphase. unfold look at 3. cbn [phase seen current].
    rewrite bool_decide_false by done. unfold look at 2. cbn [phase seen current]. rewrite Hcs. unfold look. cbn [phase seen current].
    by rewrite Hsplit.
Qed.

(** A look comes to its end. *)
Lemma look_ends d p : is_Some (current p) → phase p ≠ Refused →
  ∃ n, n ≤ 4 ∧ phase (Nat.iter n (look d) p) = Idle.
Proof.
  intros [config Hc] Hr.
  assert (∀ p, is_Some (current p) → (∃ cs, phase p = HasCertificates cs) → phase (look d p) = Idle) as H1.
  { intros q [c Hq] [cs Hp]. unfold look. rewrite Hp. unfold failed_load. rewrite Hq. by repeat case_match. }
  assert (∀ p, is_Some (current p) → phase p = Loading → phase (look d p) = Idle ∨ is_Some (current (look d p)) ∧ ∃ cs, phase (look d p) = HasCertificates cs) as H2.
  { intros q [c Hq] Hp. unfold look. rewrite Hp. unfold failed_load. rewrite Hq. destruct (load_certificates _ _); [right|by left..]. cbn. eauto. }
  assert (∀ p, is_Some (current p) → phase p = Loading → ∃ n, n ≤ 2 ∧ phase (Nat.iter n (look d) p) = Idle) as H3.
  { intros q Hq Hp. destruct (H2 q Hq Hp) as [Hi|[Hc' Hh]]; [by exists 1; split; [lia|]|]. exists 2. split; [lia|]. by apply H1. }
  destruct (phase p) as [|c| |cs|] eqn:Hphase; [by exists 0; split; [lia|]| | | |done].
  - destruct (decide (seen p = Some (c, stamp_of (d Key)))) as [He|Hne].
    + exists 1. split; [lia|]. cbn. unfold look. rewrite Hphase. by rewrite bool_decide_true.
    + assert (phase (look d p) = Loading) as Hq by (unfold look; by rewrite Hphase, bool_decide_false).
      assert (is_Some (current (look d p))) as Hcq by (unfold look; rewrite Hphase, bool_decide_false by done; by exists config).
      destruct (H3 _ Hcq Hq) as (n & Hn & Hi). exists (S n). split; [lia|]. by rewrite Nat.iter_succ_r.
  - destruct (H3 p) as (n & Hn & Hi); [by exists config|done|]. exists n. split; [lia|done].
  - exists 1. split; [lia|]. apply H1; [by exists config|by exists cs].
Qed.

(** A look never gives up what is in use. *)
Lemma look_keeps d p : is_Some (current p) → is_Some (current (look d p)).
Proof. intros [c Hc]. unfold look, failed_load. by repeat case_match; cbn; rewrite ?Hc. Qed.
Lemma step_keeps w w' : watched_step w w' → is_Some (current (pair w)) → is_Some (current (pair w')).
Proof. intros []; cbn; auto using look_keeps. Qed.

(** An [open] that was refused has no pair. *)
Lemma refused_unopened w0 w : starts w0 → rtc watched_step w0 w → is_Some (current (pair w)) → phase (pair w) ≠ Refused.
Proof.
  intros [Hp _] Hr. assert (phase (pair w0) = Refused → current (pair w0) = None) as H1 by (by rewrite Hp).
  clear Hp. induction Hr as [w|w0 w1 w Hst Hr IH]; [intros [c Hc] Hph; rewrite H1 in Hc; done|]. apply IH.
  destruct Hst as [x| |]; cbn; [|done..]. unfold look, failed_load. destruct (phase (pair x)) eqn:Hph; cbn; try done; try congruence.
  - by case_bool_decide.
  - destruct (load_certificates _ _); cbn; [done|by destruct (current (pair x))..].
  - destruct (load_key _ _ _ _); cbn; [done|by destruct (current (pair x))..].
  - rewrite Hph. auto.
Qed.

Lemma iter_looks w n :
  rtc watched_step w (mkWatched (disk w) (was w) (Nat.iter n (look (disk w)) (pair w))).
Proof.
  induction n as [|n IH]; [by destruct w|]. eapply rtc_r; [exact IH|].
  exact (watched_look (mkWatched (disk w) (was w) (Nat.iter n (look (disk w)) (pair w)))).
Qed.

(** C34: While the two files are replaced and removed as they are looked at
    and read, and neither is given a time and length it had before
    ([watched_step]; [TlsDemo.a_stamp_that_comes_back] is what happens
    otherwise), what is in use is the certificates and the key of a pair that
    were in them; once there is a pair in use there always is; and when the
    files are left alone and are a pair, it is the one in use after the look
    that goes on and one more. *)
Theorem the_pair_that_is_there_is_used (w0 w : Watched) :
  starts w0 → rtc watched_step w0 w →
  from_the_past w ∧
  (is_Some (current (pair w)) →
    (∀ w', rtc watched_step w w' → is_Some (current (pair w'))) ∧
    ∀ config, load cert_file key_file (read_file (disk w Cert)) (read_file (disk w Key)) = Ok config →
      ∀ n, 8 ≤ n → current (Nat.iter n (look (disk w)) (pair w)) = Some config).
Proof.
  intros Hs Hr. split; [by eapply inv_past, reachable_inv|]. intros Hc. split.
  - intros w' Hr'. induction Hr'; eauto using step_keeps, rtc_r.
  - intros config Hload n Hn. destruct (look_ends (disk w) (pair w) Hc) as (k & Hk & Hidle); [by eapply refused_unopened|].
    assert (inv (mkWatched (disk w) (was w) (Nat.iter k (look (disk w)) (pair w)))) as Hinv.
    { eapply reachable_inv; [exact Hs|]. etrans; [exact Hr|apply iter_looks]. }
    pose proof (idle_taken_up _ config Hinv Hidle Hload) as Ht. cbn [disk pair] in Ht.
    replace n with ((n - 4 - k) + (4 + k)) by lia. rewrite !Nat.iter_add.
    generalize dependent (Nat.iter 4 (look (disk w)) (Nat.iter k (look (disk w)) (pair w))). intros p Ht.
    assert (taken_up (disk w) config (Nat.iter (n - 4 - k) (look (disk w)) p)) as [_ ?]; [|done].
    induction (n - 4 - k) as [|j IH]; [done|]. by apply look_steady.
Qed.
End reloading.
