(* ===== verification/TlsDemo.v ===== *)
(** Witnesses for certificates: toy certificates [name:key], several of them
    parted by commas, and hexadecimal in the place of base64. *)

From stdpp Require Import functions.
From S2P Require Import Prelude Text Shelf Demo Rate Net Clock Install Tls Reloading.
Import Demo.

Definition nibble (c : ascii) : N := let n := N_of_ascii c in if (n <? 58)%N then n - 48 else n - 87.
Fixpoint unhex (s : string) : option (list byte) :=
  match s with
  | "" => Some []
  | String h (String l s) => b ← Byte.of_N (nibble h * 16 + nibble l); bs ← unhex s; Some (b :: bs)
  | _ => None
  end.
Definition decode_hex (s : string) : option (list byte) :=
  bytes ← unhex s; if String.eqb (hex bytes) s then Some bytes else None.

Lemma unhex_hex bytes : unhex (hex bytes) = Some bytes.
Proof.
  induction bytes as [|b bytes IH]; [done|]. cbn [hex].
  change (hex_byte b ++ hex bytes)%string with
    (String (hex_digit (Byte.to_N b / 16)) (String (hex_digit (Byte.to_N b mod 16)) (hex bytes))).
  cbn [unhex]. replace (Byte.of_N _) with (Some b) by (destruct b; reflexivity). cbn. by rewrite IH.
Qed.

Definition key_of (certificate : string) : string := default "" (snd <$> split_once ":" certificate).

#[export] Instance toy_certificates : Certificates := {|
  base64_encode := hex;
  base64_decode := decode_hex;
  subject_public_key_info certificate :=
    match split_once ":" certificate with Some (_, key) => Ok (String.list_byte_of_string key) | None => Err "no key" end;
  pem_certificates text := if String.eqb text "" then [] else map Ok (split "," text);
  pem_private_key text := if String.eqb text "" then Err "no key" else Ok text;
  with_single_cert certificates key :=
    if String.eqb (key_of (default "" (head certificates))) key then Ok () else Err "keys may not be consistent";
  rcgen_pair names common first last := Ok ((common ++ ":new key")%string, "new key");
|}.

#[export] Instance toy_lawful : LawfulCertificates.
Proof.
  split.
  - intros bytes. cbn. unfold decode_hex. rewrite unhex_hex. cbn. by rewrite String.eqb_refl.
  - intros text bytes. cbn. unfold decode_hex. destruct (unhex text) as [b|]; [|done]. cbn.
    destruct (String.eqb_spec (hex b) text); intros [= <-]. done.
  - intros bytes. cbn. apply (all_bytes_impl is_hex_byte); [|apply hex_all].
    intros c. unfold is_hex_byte, visible. rewrite orb_true_iff, !andb_true_iff, !N.leb_le. lia.
Qed.

(** ** Pins *)

Definition the_pin : string := default "" (match pin_of "nas:k" with Ok pin => Some pin | _ => None end).

Lemma a_pin_admits_its_own_certificates_witness :
  verify_server_cert (mkPinned (sha256 (String.list_byte_of_string "k"))) "other:k" = Ok () ↔
  pin_of "other:k" = Ok (trim (" " ++ the_pin)).
Proof. exact (a_pin_admits_its_own_certificates (" " ++ the_pin) "other:k"). Defined.

Example a_pin_of_another_key : verify_server_cert (mkPinned (sha256 (String.list_byte_of_string "k"))) "nas:other" = Err NotThePinned.
Proof. vm_compute. reflexivity. Qed.
Example what_is_no_pin : map parse_pin [""; "sha256/"; "sha256/ab"; "md5/ab"] = replicate 4 (Err WrongPin).
Proof. vm_compute. reflexivity. Qed.

(** ** Pairs *)

Example which_names_are_hosts :
  map is_host ["localhost"; "my-nas.home.arpa"; "192.0.2.4"; "::1"; "xn--bcher-kva.example"] = replicate 5 true ∧
  map is_host [""; "not a host name"; "nas..example"; "-nas"; "nas.example."; "https://nas"; "nas:8443"] = replicate 7 false.
Proof. vm_compute. auto. Qed.

(** On the 1st of March 2028, the day before was the 29th of February. *)
Lemma a_self_signed_pair_is_dated_witness :
  is_date (2028, 2, 29)%Z ∧ is_date (2038, 2, 28)%Z ∧
  self_signed ["nas"; "::1"] 1835524800 = Ok ("nas:new key", "new key").
Proof. exact (a_self_signed_pair_is_dated ["nas"; "::1"] 1835524800 eq_refl). Defined.

(** ** The pair in use *)

Definition files (cert key : File) : Part → option File := λ f, match f with Cert => Some cert | Key => Some key end.
Definition began : Watched :=
  mkWatched (files ((1, 1)%N, Ok "a:1") ((1, 1)%N, Ok "1"))
    (λ f, {[ (1, 1)%N := match f with Cert => Ok "a:1" | Key => Ok "1" end ]}) unopened.

(** Opened; then the certificate is replaced, a look finds half a renewal, and
    the key follows. *)
Definition opened : Watched := Nat.iter 4 (looks "cert.pem" "key.pem") began.
Definition half_renewed : Watched :=
  mkWatched (<[Cert := Some ((2, 1)%N, Ok "b:2")]> (disk opened)) (<[Cert := <[(2, 1)%N := Ok "b:2"]> (was opened Cert)]> (was opened)) (pair opened).
Definition looked_at_half : Watched := Nat.iter 4 (looks "cert.pem" "key.pem") half_renewed.
Definition renewed : Watched :=
  mkWatched (<[Key := Some ((3, 1)%N, Ok "2")]> (disk looked_at_half))
    (<[Key := <[(3, 1)%N := Ok "2"]> (was looked_at_half Key)]> (was looked_at_half)) (pair looked_at_half).

Example half_a_renewal_changes_nothing : current (pair looked_at_half) = Some (mkServerConfig ["a:1"] "1").
Proof. vm_compute. reflexivity. Qed.

Lemma began_starts : starts began.
Proof. split; [done|]. intros [] m text [= <- <-]; reflexivity. Qed.
Lemma renewed_reached : rtc (watched_step "cert.pem" "key.pem") began renewed.
Proof.
  assert (∀ n w, rtc (watched_step "cert.pem" "key.pem") w (Nat.iter n (looks "cert.pem" "key.pem") w)) as Hlooks.
  { intros n x. induction n as [|n IH]; [constructor|]. eapply rtc_r; [exact IH|constructor]. }
  etrans; [exact (Hlooks 4 began)|]. etrans; [apply rtc_once; exact (watched_replace _ _ opened Cert (2, 1)%N (Ok "b:2") eq_refl)|].
  etrans; [exact (Hlooks 4 half_renewed)|]. apply rtc_once. exact (watched_replace _ _ looked_at_half Key (3, 1)%N (Ok "2") eq_refl).
Qed.

Lemma the_pair_that_is_there_is_used_witness :
  current (Nat.iter 8 (look "cert.pem" "key.pem" (disk renewed)) (pair renewed)) = Some (mkServerConfig ["b:2"] "2").
Proof.
  exact (proj2 (proj2 (the_pair_that_is_there_is_used "cert.pem" "key.pem" began renewed began_starts renewed_reached)
    ltac:(vm_compute; by eexists)) (mkServerConfig ["b:2"] "2") eq_refl 8 (le_n 8)).
Defined.

(** Were a stamp to come back, a pair that was taken away could stay in use. *)
Example a_stamp_that_comes_back :
  let again := mkWatched (files ((1, 1)%N, Ok "c:3") ((1, 1)%N, Ok "3")) (was opened) (pair opened) in
  current (Nat.iter 8 (look "cert.pem" "key.pem" (disk again)) (pair again)) = Some (mkServerConfig ["a:1"] "1").
Proof. vm_compute. reflexivity. Qed.
