(* ===== verification/Letsencrypt.v ===== *)
(** [tls letsencrypt] ([letsencrypt.rs] of [passalong-server-cli]): the
    commands and the hook that are printed for an operator to run, and that
    nothing in a name, an address or a path is read by the shell as anything
    else. *)

From S2P Require Import Prelude Text Shelf Rate Net Clock Install Tls.

Definition HOOK_PATH : string := "/etc/letsencrypt/renewal-hooks/deploy/passalong-server".

Record Inputs := mkInputs {
  names : list string;
  email : option string;
  cert_path : string;
  key_path : string;
  owner : string;
  docker : bool;
}.

(** What is made, without the text around it. *)
Record Walkthrough := mkWalkthrough { certbot : string; hook_text : string; first_run : string }.

Inductive WalkthroughError := NoName | NotCertifiable (name : string).

Definition certifiable (name : string) : bool :=
  negb (bool_decide (is_Some (parse_ip name))) && contains "." name && (String.length name <=? 253)
  && forallb is_label (split "." name).

(** [text.replace('\'', "'\\''")]: a quote is closed, written after a
    backslash, and opened again. *)
Definition quote_mark : string := "'\''".
Fixpoint escape_quotes (s : string) : string :=
  match s with
  | "" => ""
  | String c s => if Ascii.eqb c "'" then quote_mark ++ escape_quotes s else String c (escape_quotes s)
  end.
Definition quoted (text : string) : string := "'" ++ escape_quotes text ++ "'".

(** In the texts below [^] stands for the double quote. *)
Fixpoint dq (s : string) : string :=
  match s with "" => "" | String c s => String (if Ascii.eqb c "^" then "034"%char else c) (dq s) end.
Definition unlines (l : list string) : string := String.concat "" (map (λ line, (line ++ newline)%string) l).

Definition hook_head (lineage cert key : string) : list string := [
  "#!/bin/sh";
  ("# " ++ HOOK_PATH)%string;
  "# Written from `passalong-server tls letsencrypt`. certbot runs it after every";
  "# renewal, with RENEWED_LINEAGE naming the renewed certificate's directory.";
  "set -eu";
  "";
  "# Other certificates of this machine are none of this hook's business.";
  (dq "[ ^${RENEWED_LINEAGE##*/}^ = " ++ quoted lineage ++ " ] || exit 0")%string;
  "";
  ("CERT=" ++ cert)%string;
  ("KEY=" ++ key)%string;
  "";
  "# A whole pair or nothing: never half of a renewal over a pair that works.";
  "for part in fullchain.pem privkey.pem; do";
  dq "    if [ ! -s ^$RENEWED_LINEAGE/$part^ ]; then";
  dq "        echo ^passalong-server: $RENEWED_LINEAGE/$part is missing or empty; the pair in use is kept^ >&2";
  "        exit 1";
  "    fi";
  "done";
  ""].
Definition hook_docker : list string := [
  "# The directory of deploy/docker's compose.yaml: set it.";
  "COMPOSE_DIR=/path/to/passalong-server/deploy/docker";
  dq "cd ^$COMPOSE_DIR^";
  "";
  "# Through `exec`, as the server's user: what `docker compose cp` puts there";
  "# belongs to root, and the server could not read its key.";
  dq "into() { docker compose exec -T server sh -c ^umask $1; cat > \^\$0\^^ ^$2^; }";
  dq "into 077 ^$KEY.new^ < ^$RENEWED_LINEAGE/privkey.pem^";
  dq "into 022 ^$CERT.new^ < ^$RENEWED_LINEAGE/fullchain.pem^";
  dq "docker compose exec -T server sh -c 'mv ^$0.new^ ^$0^ && mv ^$1.new^ ^$1^' ^$KEY^ ^$CERT^"].
Definition hook_install (inputs : Inputs) : list string := [
  "# The server's user, as uid:gid. The key is for its eyes only.";
  ("OWNER=" ++ quoted (owner inputs))%string;
  "";
  "# Written aside and moved into place, so the server never reads half a file.";
  dq "install -m 0600 -o ^${OWNER%%:*}^ -g ^${OWNER##*:}^ ^$RENEWED_LINEAGE/privkey.pem^ ^$KEY.new^";
  dq "install -m 0644 -o ^${OWNER%%:*}^ -g ^${OWNER##*:}^ ^$RENEWED_LINEAGE/fullchain.pem^ ^$CERT.new^";
  dq "mv ^$KEY.new^ ^$KEY^";
  dq "mv ^$CERT.new^ ^$CERT^"].

Definition hook_lines (inputs : Inputs) (lineage : string) : list string :=
  (hook_head lineage (quoted (cert_path inputs)) (quoted (key_path inputs))
    ++ (if docker inputs then hook_docker else hook_install inputs)
    ++ [""; "# No restart: the server looks at the pair every half minute.";
        dq "echo ^passalong-server: installed the renewed pair of $RENEWED_LINEAGE^"])%list.
Definition hook (inputs : Inputs) (lineage : string) : string := unlines (hook_lines inputs lineage).

Definition certbot_of (inputs : Inputs) : string :=
  ("sudo certbot certonly --standalone --reuse-key" ++
  match email inputs with
  | Some email => " --agree-tos -m " ++ quoted email
  | None => " --agree-tos --register-unsafely-without-email"
  end ++ String.concat "" (map (λ name, (" -d " ++ name)%string) (names inputs)))%string.

Definition walkthrough (inputs : Inputs) : outcome WalkthroughError Walkthrough :=
  match names inputs with
  | [] => Err NoName
  | lineage :: _ =>
      match List.find (λ name, negb (certifiable name)) (names inputs) with
      | Some odd => Err (NotCertifiable odd)
      | None =>
          Ok (mkWalkthrough (certbot_of inputs) (hook inputs lineage)
            ("sudo RENEWED_LINEAGE=/etc/letsencrypt/live/" ++ lineage ++ " " ++ HOOK_PATH)%string)
      end
  end.

(** ** How a shell reads words

    As POSIX has it in its section on quoting: between single quotes every character is
    itself, a backslash takes the next one as it is, blanks part words.
    Anything else that means something to a shell is no word, [None]. *)
Definition plain (c : ascii) : bool :=
  is_ascii_alphanumeric c || existsb (Ascii.eqb c) ["-"; "_"; "."; "/"; "="; ":"; "@"; "+"; ","]%char.
Definition push (word : option string) (c : ascii) : option string := Some (default "" word ++ String c "")%string.
Definition finish (word : option string) (words : list string) : list string :=
  match word with Some word => word :: words | None => words end.
Fixpoint sh_words (in_quotes : bool) (word : option string) (s : string) : option (list string) :=
  match s with
  | "" => if in_quotes then None else Some (finish word [])
  | String c rest =>
      if in_quotes then
        if Ascii.eqb c "'" then sh_words false word rest else sh_words true (push word c) rest
      else if Ascii.eqb c "'" then sh_words true (Some (default "" word)) rest
      else if Ascii.eqb c " " then finish word <$> sh_words false None rest
      else if Ascii.eqb c "\" then
        match rest with
        | String c rest => if Ascii.eqb c "010" then None else sh_words false (push word c) rest
        | "" => None
        end
      else if plain c then sh_words false (push word c) rest else None
  end.
Definition words_of (command : string) : option (list string) := sh_words false None command.

Example a_command_is_read :
  words_of "mv -- 'it'\''s a $HOME' x" = Some ["mv"; "--"; "it's a $HOME"; "x"] ∧
  words_of "rm -rf *" = None ∧ words_of "a; b" = None ∧ words_of "echo 'open" = None.
Proof. vm_compute. auto. Qed.

(** ** What is quoted is one word, as it was *)

Lemma sh_escape text rest word :
  sh_words true (Some word) (escape_quotes text ++ String "'" rest) = sh_words false (Some (word ++ text)%string) rest.
Proof.
  revert word. induction text as [|c text IH]; intros word; [by rewrite str_app_nil|].
  assert (∀ w, (w ++ String c "") ++ text = w ++ String c text)%string as Happ by (intros w; apply str_app_assoc).
  cbn [escape_quotes]. destruct (Ascii.eqb_spec c "'") as [->|Hc].
  - rewrite str_app_assoc. change (sh_words true (Some word) (quote_mark ++ escape_quotes text ++ String "'" rest))
      with (sh_words true (Some (word ++ "'")%string) (escape_quotes text ++ String "'" rest)). by rewrite IH, Happ.
  - rewrite cons_app. cbn [sh_words]. rewrite (proj2 (Ascii.eqb_neq _ _) Hc). unfold push. cbn [default from_option id].
    by rewrite IH, Happ.
Qed.

Lemma sh_quoted text rest word :
  sh_words false word (quoted text ++ rest) = sh_words false (Some (default "" word ++ text)%string) rest.
Proof.
  unfold quoted. rewrite !str_app_assoc. change ("'" ++ escape_quotes text ++ "'" ++ rest)%string with (String "'" (escape_quotes text ++ String "'" rest)).
  cbn [sh_words]. by rewrite sh_escape.
Qed.

Lemma plain_no_mark c : plain c = true →
  Ascii.eqb c "'" = false ∧ Ascii.eqb c " " = false ∧ Ascii.eqb c "\" = false.
Proof. by destruct c as [[] [] [] [] [] [] [] []]. Qed.

Lemma sh_plain s rest word : all_bytes plain s = true → s ≠ "" →
  sh_words false word (s ++ rest) = sh_words false (Some (default "" word ++ s)%string) rest.
Proof.
  revert word. induction s as [|c s IH]; intros word Hs Hne; [done|]. clear Hne.
  change (plain c && all_bytes plain s = true) in Hs. apply andb_true_iff in Hs as [Hc Hs].
  rewrite cons_app. cbn [sh_words]. destruct (plain_no_mark c Hc) as (-> & -> & ->). rewrite Hc.
  destruct (decide (s = "")) as [->|Hne]; [done|]. rewrite IH by done. unfold push. cbn [default from_option id].
  by rewrite str_app_assoc.
Qed.

Lemma sh_blank word rest : sh_words false word (String " " rest) = finish word <$> sh_words false None rest.
Proof. done. Qed.

(** ** Names that are certifiable are plain *)

Lemma split_all p c s : forallb (all_bytes p) (split c s) = true → all_bytes (λ x, p x || Ascii.eqb x c) s = true.
Proof.
  induction s as [|x s IH]; [done|]. cbn [split]. intros Hs. change ((p x || Ascii.eqb x c) && all_bytes (λ x, p x || Ascii.eqb x c) s = true).
  destruct (Ascii.eqb x c); [rewrite orb_true_r; by apply IH|]. rewrite orb_false_r. destruct (split c s) as [|f fs].
  - cbn in Hs. rewrite !andb_true_r in Hs. rewrite Hs. by apply IH.
  - change ((p x && all_bytes p f) && forallb (all_bytes p) fs = true) in Hs. rewrite !andb_true_iff in Hs. destruct Hs as [[-> Hf] Hfs].
    apply IH. cbn. by rewrite Hf.
Qed.

Lemma label_plain l : is_label l = true → all_bytes plain l = true.
Proof.
  unfold is_label. rewrite !andb_true_iff. intros [_ Hl]. revert Hl. apply all_bytes_impl. intros c Hc.
  unfold plain. apply orb_true_iff in Hc as [Hc|Hc%Ascii.eqb_eq]; [by rewrite Hc|by subst].
Qed.

Lemma certifiable_plain name : certifiable name = true → all_bytes plain name = true ∧ name ≠ "".
Proof.
  unfold certifiable. rewrite !andb_true_iff. intros (((_ & Hdot) & _) & Hl). split; [|by intros ->].
  apply (all_bytes_impl (λ x, plain x || Ascii.eqb x ".")); [by intros c [Hc|Hc%Ascii.eqb_eq]%orb_true_iff; [|subst]|].
  apply split_all. rewrite forallb_forall in *. intros l Hin. by apply label_plain, Hl.
Qed.

Lemma sh_names ns : Forall (λ n, certifiable n = true) ns →
  sh_words false None (String.concat "" (map (λ name, (" -d " ++ name)%string) ns)) = Some (flat_map (λ n, ["-d"; n]) ns) ∧
  ∀ word, ns ≠ [] → sh_words false (Some word) (String.concat "" (map (λ name, (" -d " ++ name)%string) ns)) =
    Some (word :: flat_map (λ n, ["-d"; n]) ns).
Proof.
  induction 1 as [|n ns Hn Hns [IH1 IH2]]; [done|]. apply certifiable_plain in Hn as [Hp Hne]. cbn [map flat_map].
  assert (∀ word, sh_words false word (String.concat "" ((" -d " ++ n)%string :: map (λ name, (" -d " ++ name)%string) ns)) =
    Some (finish word (["-d"; n] ++ flat_map (λ n, ["-d"; n]) ns)%list)) as Hall; [|split; [apply Hall|intros word _; apply Hall]].
  intros word. rewrite concat_cons. set (rest := String.concat "" (map _ ns)) in *.
  change ((" -d " ++ n) ++ rest)%string with (String " " ("-d" ++ String " " (n ++ rest)))%string.
  rewrite sh_blank, (sh_plain "-d"), sh_blank, sh_plain by done. cbn [default from_option id String.append].
  destruct ns as [|n' ns]; [done|]. rewrite IH2 by done. done.
Qed.

(** Plain words, each with a blank behind it. *)
Definition plain_words (ws : list string) : string := String.concat "" (map (λ w, (w ++ " ")%string) ws).
Lemma sh_plain_words ws rest : Forall (λ w, all_bytes plain w = true ∧ w ≠ "") ws →
  sh_words false None (plain_words ws ++ rest) = app ws <$> sh_words false None rest.
Proof.
  unfold plain_words. induction 1 as [|w ws [Hp Hne] Hws IH]; [change (sh_words false None rest = app [] <$> sh_words false None rest); by destruct (sh_words false None rest)|].
  cbn [map]. rewrite concat_cons, !str_app_assoc, sh_plain by done. cbn [default from_option id String.append].
  change (" " ++ ?x)%string with (String " " x). rewrite sh_blank, IH. by destruct (sh_words false None rest).
Qed.

(** C39: What is printed for the operator to run says to a shell what it is
    meant to: the certificate is asked for by its names alone, and the address,
    the paths and the owner are each one word, whatever is in them; and it is
    printed exactly when there is a name and an authority can certify each. *)
Theorem what_is_printed_is_run_as_meant (inputs : Inputs) :
  match walkthrough inputs with
  | Ok made => ∃ lineage others, names inputs = lineage :: others ∧ Forall (λ n, certifiable n = true) (names inputs) ∧
      words_of (certbot made) = Some (["sudo"; "certbot"; "certonly"; "--standalone"; "--reuse-key"; "--agree-tos"]
        ++ match email inputs with Some to => ["-m"; to] | None => ["--register-unsafely-without-email"] end
        ++ flat_map (λ n, ["-d"; n]) (names inputs)) ∧
      words_of (first_run made) = Some ["sudo"; "RENEWED_LINEAGE=/etc/letsencrypt/live/" ++ lineage; HOOK_PATH]%string ∧
      ∃ ls cert key own, hook_text made = unlines ls ∧ cert ∈ ls ∧ key ∈ ls ∧ (docker inputs = false → own ∈ ls) ∧
        words_of cert = Some ["CERT=" ++ cert_path inputs]%string ∧
        words_of key = Some ["KEY=" ++ key_path inputs]%string ∧
        words_of own = Some ["OWNER=" ++ owner inputs]%string
  | Err NoName => names inputs = []
  | Err (NotCertifiable name) => name ∈ names inputs ∧ certifiable name = false
  | _ => False
  end.
Proof.
  unfold walkthrough. destruct (names inputs) as [|lineage others] eqn:Hns; [done|]. rewrite <-Hns.
  destruct (List.find _ (names inputs)) as [odd|] eqn:Hodd.
  { apply List.find_some in Hodd as [Hin Hc]. apply negb_true_iff in Hc. by rewrite list_elem_of_In. }
  assert (Forall (λ n, certifiable n = true) (names inputs)) as Hall.
  { apply Forall_forall. intros n Hn%list_elem_of_In. by apply (List.find_none _ _ Hodd), negb_false_iff in Hn. }
  exists lineage, others. split; [done|]. split; [done|]. destruct (sh_names _ Hall) as [_ Hnames].
  assert (names inputs ≠ []) as Hne by (by rewrite Hns).
  assert (all_bytes plain lineage = true ∧ lineage ≠ "") as [Hp Hl]
    by (apply certifiable_plain; rewrite Hns in Hall; by inversion Hall).
  split; [|split].
  - cbn [certbot]. unfold words_of, certbot_of. destruct (email inputs) as [to|].
    + rewrite !str_app_assoc. change ("sudo certbot certonly --standalone --reuse-key" ++ " --agree-tos -m " ++ ?x)%string
        with (plain_words ["sudo"; "certbot"; "certonly"; "--standalone"; "--reuse-key"; "--agree-tos"; "-m"] ++ x)%string.
      rewrite sh_plain_words, sh_quoted by (by repeat constructor). by rewrite Hnames.
    + change ("sudo certbot certonly --standalone --reuse-key" ++ " --agree-tos --register-unsafely-without-email" ++ ?x)%string
        with (plain_words ["sudo"; "certbot"; "certonly"; "--standalone"; "--reuse-key"; "--agree-tos"]
          ++ "--register-unsafely-without-email" ++ x)%string.
      rewrite sh_plain_words, sh_plain by (by repeat constructor). by rewrite Hnames.
  - cbn [first_run]. unfold words_of.
    change ("sudo RENEWED_LINEAGE=/etc/letsencrypt/live/" ++ ?x)%string
      with (plain_words ["sudo"] ++ "RENEWED_LINEAGE=/etc/letsencrypt/live/" ++ x)%string.
    rewrite sh_plain_words, sh_plain, sh_plain by (first [done|by repeat constructor]). done.
  - exists (hook_lines inputs lineage), ("CERT=" ++ quoted (cert_path inputs))%string, ("KEY=" ++ quoted (key_path inputs))%string,
      ("OWNER=" ++ quoted (owner inputs))%string.
    assert (∀ name text, all_bytes plain name = true → name ≠ "" → words_of (name ++ quoted text) = Some [(name ++ text)%string]) as Hw.
    { intros name text Hn Hn'. unfold words_of. rewrite sh_plain by done. rewrite <-(str_app_nil (quoted text)), sh_quoted. done. }
    split_and!; [done|..].
    + unfold hook_lines, hook_head. set_solver.
    + unfold hook_lines, hook_head. set_solver.
    + unfold hook_lines, hook_install. intros ->. set_solver.
    + by apply Hw.
    + by apply Hw.
    + by apply Hw.
Qed.

(** ** Examples *)

Definition printed_for (names : list string) (email : option string) : outcome WalkthroughError (string * string) :=
  made ← walkthrough (mkInputs names email "/etc/tls/cert.pem" "/etc/tls/key.pem" "10001:10001" false);
  Ok (certbot made, first_run made).

Example two_names :
  printed_for ["nas.example"; "pass.example.net"] (Some "me@example.net") =
    Ok ("sudo certbot certonly --standalone --reuse-key --agree-tos -m 'me@example.net' -d nas.example -d pass.example.net",
        "sudo RENEWED_LINEAGE=/etc/letsencrypt/live/nas.example /etc/letsencrypt/renewal-hooks/deploy/passalong-server").
Proof. vm_compute. reflexivity. Qed.
Example no_such_names :
  map (λ odd, printed_for ["ok.example"; odd] None) ["192.0.2.4"; "::1"; "nas"; "nas..example"; "-x.example"; "a b.example"; ""] =
  map (λ odd, Err (NotCertifiable odd)) ["192.0.2.4"; "::1"; "nas"; "nas..example"; "-x.example"; "a b.example"; ""].
Proof. vm_compute. reflexivity. Qed.
