(* ===== verification/Setup.v ===== *)
(** Setting a server up ([init] and [tls] of [commands.rs] in
    [passalong-server-cli]): where the configuration file is written and found
    again, what is made and how private, and that nothing that was there is
    overwritten. *)

From stdpp Require Import pretty.
From S2P Require Import Prelude Text Shelf Rate Net Clock Config Install Tls Letsencrypt.

(** ** Paths: [std::path::Path::parent] *)

(** The last part of a path's body, and what is before it. *)
Fixpoint last_part (s : string) : string * string :=
  match s with
  | "" => ("", "")
  | String c rest =>
      if contains "/" rest then let '(before, part) := last_part rest in (String c before, part)
      else if Ascii.eqb c "/" then ("", rest) else ("", s)
  end.
(** Without what stands for nothing at its end: empty parts and dots. *)
Fixpoint trim_parts (fuel : nat) (s : string) : string :=
  match fuel with
  | O => s
  | S fuel =>
      if String.eqb s "" then s else
      let '(before, part) := last_part s in
      if String.eqb part "" || String.eqb part "." then trim_parts fuel before else s
  end.
Definition trimmed (s : string) : string := trim_parts (String.length s) s.

(** The root, or a dot that the path starts with, and the rest. *)
Definition start_of (p : string) : string * string :=
  match p with
  | String "/" body => ("/", body)
  | String "." "" => (".", "")
  | String "." (String "/" _ as body) => (".", body)
  | _ => ("", p)
  end.
Definition parent (p : string) : option string :=
  let '(start, body) := start_of p in
  let body := trimmed body in
  if String.eqb body "" then (if String.eqb start "." then Some "" else None)
  else Some (start ++ trimmed (last_part body).1)%string.

Example parents :
  map parent ["/etc/passalong-server/config.toml"; "/a"; "/"; ""; "a"; "a/b/"; "a//b"; "./a"; "a/./b"; "."; ".."; "/a/."] =
    [Some "/etc/passalong-server"; Some "/"; None; None; Some ""; Some "a"; Some "a"; Some "."; Some "a"; Some ""; Some ""; Some "/"].
Proof. vm_compute. reflexivity. Qed.

(** ** The host *)

(** What the commands ask of the system, each of which may fail: who runs
    them, what is there, and making and writing files and directories.
    [create_new] opens a file that must not be there; [open_control] is
    [Control::open]. *)
Class SetupHost (H : Type) := {
  current_uid : H → outcome string N;
  exists_ : H → string → bool;
  absolute : H → string → outcome string string;
  read : H → string → outcome string string;
  owner_of : H → string → outcome string (N * N);
  now : H → N;
  create_dir_all : string → M string H unit;
  create_dirs : string → N → M string H unit;
  set_permissions : string → N → M string H unit;
  write : string → string → M string H unit;
  create_new : string → N → M string H unit;
  write_all : string → string → M string H unit;
  sync_all : string → M string H unit;
  open_control : string → M string H unit;
}.

(** Why a command fails. *)
Inductive SetupError :=
| ExistsAlready (file : string)
| At (path err : string)
| BadConfiguration (e : Loading.ConfigError)
| OpeningControl (err : string)
| NoTlsSection
| TlsAtTheProxy
| TlsSaid (file : option string) (e : TlsError)
| WalkthroughSaid (e : WalkthroughError).

Inductive TlsCommand :=
| SelfSigned (host ip : list string)
| Fingerprint
| LetsEncrypt (host : list string) (email : option string) (docker : bool).

(** What [tls] prints. *)
Inductive TlsPrinted :=
| MadePair (cert_file key_file : string) (names : list string) (pin : string)
| Pin (pin : string)
| Guide (made : Walkthrough).

Section setup.
Context {H : Type} `{SetupHost H} `{Externals, Certificates}.
(** The sample configuration, and [toml::from_str]. *)
Context (SAMPLE : string).
Context (from_toml : (Loading.SizeText → option (option N)) → (Loading.SizeText → option N) → string → option Config).

Abbreviation Setup := (M SetupError H) (only parsing).

Definition at_ {A} (path : string) (m : M string H A) : Setup A := λ h, let '(x, h) := m h in (map_err (At path) x, h).
Definition opening {A} (m : M string H A) : Setup A := λ h, let '(x, h) := m h in (map_err OpeningControl x, h).
Definition asking {A} (path : string) (f : H → outcome string A) : Setup A := λ h, (map_err (At path) (f h), h).

(** ** [init] *)

Definition default_paths (env : Loading.Environment) (root : bool) : string * string :=
  let '(file, data) :=
    match root, Loading.set env "HOME" with
    | false, Some home =>
        let config := default (join home ".config") (Loading.set env "XDG_CONFIG_HOME") in
        (join config "passalong-server/config.toml", join home ".local/share/passalong-server")
    | _, _ => ("/etc/passalong-server/config.toml", "/var/lib/passalong-server")
    end in
  (default file (Loading.set env Loading.FILE_VARIABLE), data).

Definition private_dir (path : string) : Setup unit :=
  at_ path (create_dirs path 448;; set_permissions path 448).

Definition init (env : Loading.Environment) (data_dir config_file : option string) : Setup (string * string) := λ h,
  let root := match current_uid h with Ok uid => (uid =? 0)%N | _ => false end in
  let '(default_config, default_data) := default_paths env root in
  let file := default default_config config_file in
  let data := default default_data data_dir in
  if exists_ h file then (Err (ExistsAlready file), h) else
  (data ← asking data (λ h, absolute h data);
   from_option (λ p, at_ p (create_dir_all p)) (mret ()) (parent file);;
   private_dir data;;
   private_dir (join data "workspaces");;
   file ← asking file (λ h, absolute h file);
   let text := initial_file SAMPLE data (default "/" (parent file)) in
   config ← lift (map_err BadConfiguration (Loading.parse from_toml text file env));
   at_ file (write file text);;
   opening (open_control (control_database config));;
   mret (file, data)) h.

(** ** [tls] *)

Definition write_new (path text : string) : Setup unit :=
  at_ path (create_new path 384);;
  at_ path (write_all path text;; sync_all path).

(** Its directory, when that is not there. *)
Definition make_parent (file : string) : Setup unit := λ h,
  match parent file with
  | Some dir => if exists_ h dir then (Ok (), h) else private_dir dir h
  | None => (Ok (), h)
  end.

Definition self_sign (files : Config.Tls) (names ip : list string) : Setup TlsPrinted := λ h,
  match List.find (exists_ h) [cert_file files; key_file files] with
  | Some file => (Err (ExistsAlready file), h)
  | None =>
      (let all := (names ++ ip)%list in
       pair ← lift (map_err (TlsSaid None) (Tls.self_signed all (now h)));
       make_parent (cert_file files);;
       make_parent (key_file files);;
       write_new (key_file files) pair.2;;
       write_new (cert_file files) pair.1;;
       pin ← lift (map_err (TlsSaid None) (Tls.pin_of_pem pair.1));
       mret (MadePair (cert_file files) (key_file files) all pin)) h
  end.

Definition fingerprint (files : Config.Tls) : Setup TlsPrinted :=
  pem ← asking (cert_file files) (λ h, read h (cert_file files));
  pin ← lift (map_err (TlsSaid (Some (cert_file files))) (Tls.pin_of_pem pem));
  mret (Pin pin).

(** [display] is how the two ids are written. *)
Definition letsencrypt (config : Config) (files : Config.Tls) (names : list string) (email : option string) (docker : bool) :
    Setup TlsPrinted :=
  if bool_decide (mode (listen config) = PlainMode) then throw TlsAtTheProxy else
  let data := data_dir (server config) in
  ids ← asking data (λ h, owner_of h data);
  made ← lift (map_err WalkthroughSaid (walkthrough
    (mkInputs names email (cert_file files) (key_file files) (pretty ids.1 ++ ":" ++ pretty ids.2) docker)));
  mret (Guide made).

Definition tls_command (config : Config) (command : TlsCommand) : Setup TlsPrinted :=
  match tls config with
  | None => throw NoTlsSection
  | Some files =>
      match command with
      | Fingerprint => fingerprint files
      | LetsEncrypt names email docker => letsencrypt config files names email docker
      | SelfSigned names ip => self_sign files names ip
      end
  end.
End setup.
