(* ===== verification/SetupFacts.v ===== *)
(** What setting a server up promises, over a host that keeps its own
    promises: [init], the pair of [tls self-signed], and where the
    configuration file is found again. *)

From S2P Require Import Prelude Text Shelf Rate Net Clock Config Install Tls Letsencrypt Setup.

(** ** What a host promises

    [content] and [mode_of] are the text and the mode behind a path, [place]
    where a path leads; the files that are [theirs] are SQLite's. *)
Class SetupFiles (H : Type) := {
  content : H → string → option string;
  mode_of : H → string → option N;
  place : string → string;
  theirs : string → Prop;
}.

Section laws.
Context {H : Type} `{Host : SetupHost H} `{Files : !SetupFiles H}.

(** Nothing changed but the texts at [files] and the modes at [dirs]. *)
Definition only (files dirs : list string) (h h' : H) : Prop :=
  (∀ q, ¬ theirs q → place q ∉ place <$> files → content h' q = content h q) ∧
  (∀ q m, ¬ theirs q → place q ∉ place <$> dirs → mode_of h q = Some m → mode_of h' q = Some m).

(** [m] changes only these, and when it ends well [Q] holds. *)
Definition alters {E A} (files dirs : list string) (m : M E H A) (Q : H → A → H → Prop) : Prop :=
  ∀ h, let '(x, h') := m h in only files dirs h h' ∧ ∀ a, x = Ok a → Q h a h'.

Class LawfulSetupHost := {
  content_place h p q : place p = place q → content h p = content h q;
  mode_place h p q : place p = place q → mode_of h p = mode_of h q;
  exists_law h p : is_Some (content h p) → exists_ h p = true;
  absolute_law h p q : absolute h p = Ok q → place q = place p;
  create_dir_all_law p : alters [] [] (create_dir_all p) (λ _ _ _, True);
  create_dirs_law p m : alters [] [] (create_dirs p m) (λ _ _ _, True);
  set_permissions_law p m : alters [] [p] (set_permissions p m) (λ _ _ h', mode_of h' p = Some m);
  write_law p text : alters [p] [] (write p text) (λ _ _ h', content h' p = Some text);
  create_new_law p m : alters [p] [] (create_new p m)
    (λ h _ h', content h p = None ∧ content h' p = Some "" ∧ mode_of h' p = Some m);
  write_all_law p text : alters [p] [] (write_all p text)
    (λ h _ h', (content h p = Some "" → content h' p = Some text) ∧ mode_of h' p = mode_of h p);
  sync_all_law p : alters [] [] (sync_all p) (λ _ _ _, True);
  open_control_law p : alters [] [] (open_control p) (λ _ _ _, True);
}.
End laws.
#[global] Arguments LawfulSetupHost H {Host Files} : rename.

Section facts.
Context {H : Type} `{Law : LawfulSetupHost H}.

Lemma only_refl files dirs h : only files dirs h h.
Proof. by split. Qed.
Lemma only_more files dirs files' dirs' h h' :
  place <$> files ⊆ place <$> files' → place <$> dirs ⊆ place <$> dirs' → only files dirs h h' → only files' dirs' h h'.
Proof.
  intros Hf Hd [Hc Hm]. split; intros q.
  - intros Ht Hq. apply Hc; [done|]. set_solver.
  - intros m Ht Hq. apply Hm; [done|]. set_solver.
Qed.
Lemma only_trans files dirs h1 h2 h3 : only files dirs h1 h2 → only files dirs h2 h3 → only files dirs h1 h3.
Proof.
  intros [Hc1 Hm1] [Hc2 Hm2]. split; intros q.
  - intros Ht Hq. rewrite Hc2 by done. by apply Hc1.
  - intros m Ht Hq Hm. apply Hm2; [done..|]. by apply Hm1.
Qed.

Lemma alters_more {E A} files dirs files' dirs' (m : M E H A) Q :
  place <$> files ⊆ place <$> files' → place <$> dirs ⊆ place <$> dirs' → alters files dirs m Q → alters files' dirs' m Q.
Proof. intros Hf Hd Hm h. specialize (Hm h). destruct (m h). destruct Hm. split; [by eapply only_more|done]. Qed.
Lemma alters_weaken {E A} files dirs (m : M E H A) (Q Q' : H → A → H → Prop) :
  (∀ h a h', Q h a h' → Q' h a h') → alters files dirs m Q → alters files dirs m Q'.
Proof. intros HQ Hm h. specialize (Hm h). destruct (m h). destruct Hm. eauto. Qed.
Lemma alters_same {E A} (m : M E H A) : (∀ h, (m h).2 = h) → alters [] [] m (λ h a _, (m h).1 = Ok a).
Proof. intros Hm h. specialize (Hm h). destruct (m h) as [x h']. cbn in *. subst. split; [apply only_refl|done]. Qed.
Lemma alters_bind {E A B} files dirs files' dirs' (m : M E H A) (k : A → M E H B) Q R :
  alters files dirs m Q → (∀ a, alters files' dirs' (k a) R) →
  alters (files ++ files') (dirs ++ dirs') (m ≫= k)
    (λ h b h', ∃ a h1, Q h a h1 ∧ only files' dirs' h1 h' ∧ R h1 b h').
Proof.
  intros Hm Hk h. specialize (Hm h). unfold mbind, M_bind. destruct (m h) as [x h1]. destruct Hm as [Ho HQ].
  apply (only_more _ _ (files ++ files') (dirs ++ dirs')) in Ho; [|set_solver..].
  destruct x as [a|e| |]; [|by split..]. specialize (Hk a h1). destruct (k a h1) as [x h2]. destruct Hk as [Ho' HR]. split.
  - eapply only_trans; [exact Ho|]. eapply only_more; [..|exact Ho']; set_solver.
  - intros b Hb. exists a, h1. auto.
Qed.
Lemma alters_at {A} files dirs p (m : M string H A) Q : alters files dirs m Q → alters files dirs (at_ p m) Q.
Proof. intros Hm h. specialize (Hm h). unfold at_. destruct (m h) as [x h']. destruct Hm. split; [done|]. destruct x; cbn; naive_solver. Qed.
Lemma alters_opening {A} files dirs (m : M string H A) Q : alters files dirs m Q → alters files dirs (opening m) Q.
Proof. intros Hm h. specialize (Hm h). unfold opening. destruct (m h) as [x h']. destruct Hm. split; [done|]. destruct x; cbn; naive_solver. Qed.
Lemma alters_asking {A} p (f : H → outcome string A) : alters [] [] (asking p f) (λ h a h', f h = Ok a).
Proof. intros h. unfold asking. split; [apply only_refl|]. destruct (f h); cbn; naive_solver. Qed.
Lemma alters_lift {E A} (x : outcome E A) : alters [] [] (lift x) (λ (_ : H) a _, x = Ok a).
Proof. by apply alters_same. Qed.
Lemma alters_ret {E A} (a : A) : alters [] [] (mret a : M E H A) (λ _ b _, b = a).
Proof. eapply alters_weaken; [|by apply alters_same]. cbn. congruence. Qed.

(** ** The directories and the new files *)

Lemma private_dir_alters p : alters [] [p] (private_dir p) (λ _ _ h', mode_of h' p = Some 448%N).
Proof.
  unfold private_dir. apply alters_at. eapply alters_weaken; [|eapply (alters_bind [] [] [] [p]); [apply create_dirs_law|intros; apply set_permissions_law]].
  cbn. naive_solver.
Qed.

Lemma only_content p files dirs h h' text :
  ¬ theirs p → place p ∉ place <$> files → only files dirs h h' → content h p = Some text → content h' p = Some text.
Proof. intros Ht Hp [Hc _] Htext. by rewrite Hc. Qed.

Lemma write_new_alters p text : alters [p] [] (write_new p text)
  (λ h _ h', content h p = None ∧ (¬ theirs p → content h' p = Some text ∧ mode_of h' p = Some 384%N)).
Proof.
  unfold write_new. eapply alters_weaken; [|eapply alters_more; [..|eapply (alters_bind [p] [] ([p] ++ []) ([] ++ []));
    [apply alters_at, create_new_law|intros; apply alters_at, alters_bind; [apply write_all_law|intros; apply sync_all_law]]]]; [|set_solver..].
  cbn. intros h _ h' (_ & h1 & (Hnone & Hc & Hm) & _ & (_ & h2 & (Hc2 & Hm2) & Hs)). specialize (Hc2 Hc). rewrite <-Hm2 in Hm.
  destruct Hs as [[Hs Hsm] _]. split; [done|]. intros Ht. split; [rewrite Hs; [done..|]; set_solver|]. apply Hsm; [done|set_solver|done].
Qed.

(** What is there stays. *)
Lemma only_keeps files dirs h h' :
  Forall (λ f, content h f = None) files → only files dirs h h' →
  ∀ q text, ¬ theirs q → content h q = Some text → content h' q = Some text.
Proof.
  intros Hf [Hc _] q text Ht Hq. rewrite Hc; [done..|]. intros (f & Heq & Hin)%list_elem_of_fmap.
  rewrite Forall_forall in Hf. rewrite (content_place h q f Heq), Hf in Hq by done. done.
Qed.
Lemma absent h p : exists_ h p = false → content h p = None.
Proof. intros He. destruct (content h p) eqn:Hc; [|done]. rewrite exists_law in He; [done|by eexists]. Qed.

Context `{Externals, Certificates} (SAMPLE : string).
Context (from_toml : (Loading.SizeText → option (option N)) → (Loading.SizeText → option N) → string → option Config).

(** What the configuration file says, line by line of the sample: after
    [data_dir = ] is where the data goes, after [cert_file = ] and [key_file = ]
    the pair beside the file itself, in quotes; every other line is the
    sample's. *)
Inductive filled (data beside : string) : string → string → Prop :=
| filled_data rest : filled data beside ("data_dir = " ++ rest) ("data_dir = " ++ debug data)
| filled_cert rest : filled data beside ("cert_file = " ++ rest) ("cert_file = " ++ debug (join beside "tls/cert.pem"))
| filled_key rest : filled data beside ("key_file = " ++ rest) ("key_file = " ++ debug (join beside "tls/key.pem"))
| filled_other line :
    (∀ key rest, key ∈ ["data_dir = "; "cert_file = "; "key_file = "] → line ≠ (key ++ rest)%string) →
    filled data beside line line.
Definition filled_in (data beside text : string) : Prop :=
  ∃ ls, Forall2 (filled data beside) (lines SAMPLE) ls ∧ text = (String.concat newline ls ++ newline)%string.

Lemma initial_line_filled data beside line : filled data beside line (initial_line data beside line).
Proof.
  unfold initial_line.
  destruct (String.prefix "data_dir = " line) eqn:Hd; [apply strip_prefix_is_prefix in Hd as [rest ->]; constructor|].
  destruct (String.prefix "cert_file = " line) eqn:Hc; [apply strip_prefix_is_prefix in Hc as [rest ->]; constructor|].
  destruct (String.prefix "key_file = " line) eqn:Hk; [apply strip_prefix_is_prefix in Hk as [rest ->]; constructor|].
  constructor. intros key rest Hin ->. set_unfold in Hin. destruct Hin as [->|[->|[->|[]]]]; by rewrite str_prefix_app in *.
Qed.
Lemma initial_file_filled data beside : filled_in data beside (initial_file SAMPLE data beside).
Proof. eexists. split; [|done]. apply Forall2_fmap_r, Forall_Forall2_diag, Forall_true, initial_line_filled. Qed.

(** What [init] leaves when it ends well. *)
Definition set_up (env : Loading.Environment) (file0 data0 : string) (h' : H) (file data : string) : Prop :=
  place file = place file0 ∧ place data = place data0 ∧
  (∃ text config, filled_in data (default "/" (parent file)) text ∧ (¬ theirs file → content h' file = Some text) ∧
    Loading.parse from_toml text file env = Ok config) ∧
  (¬ theirs data → mode_of h' data = Some 448%N) ∧
  (¬ theirs (join data "workspaces") → mode_of h' (join data "workspaces") = Some 448%N).

Lemma mode_kept files dirs h h' p m : ¬ theirs p → only files dirs h h' → place p ∉ place <$> dirs →
  mode_of h p = Some m → mode_of h' p = Some m.
Proof. intros Ht [_ Hm] Hp. by apply Hm. Qed.

(** ** Step by step

    From [h0] on nothing changed but the texts at [files], and modes. *)
Definition since (h0 : H) (files : list string) (h : H) : Prop := ∃ dirs, only files dirs h0 h.
Definition runs {E B} (h0 : H) (files : list string) (m : M E H B) (R : B → H → Prop) (h : H) : Prop :=
  since h0 files (m h).2 ∧ ∀ b, (m h).1 = Ok b → R b (m h).2.

Lemma since_more h0 files files' dirs' h h1 :
  since h0 files h → place <$> files' ⊆ place <$> files → only files' dirs' h h1 → since h0 files h1.
Proof.
  intros [dirs Hs] Hf Ho. exists (dirs ++ dirs'). eapply only_trans; [eapply only_more; [..|exact Hs]|eapply only_more; [..|exact Ho]]; set_solver.
Qed.

Lemma runs_bind {E A B} h0 files files' dirs' (m : M E H A) (k : A → M E H B) Q R h :
  since h0 files h → place <$> files' ⊆ place <$> files → alters files' dirs' m Q →
  (∀ a h1, only files' dirs' h h1 → Q h a h1 → since h0 files h1 → runs h0 files (k a) R h1) →
  runs h0 files (m ≫= k) R h.
Proof.
  intros Hs Hf Hm Hk. specialize (Hm h). unfold runs, mbind, M_bind. destruct (m h) as [x h1]. destruct Hm as [Ho HQ].
  pose proof (since_more _ _ _ _ _ _ Hs Hf Ho) as Hs1. destruct x; [by apply Hk; auto|by split..].
Qed.
Lemma runs_ret {E B} h0 files (b : B) (R : B → H → Prop) h : since h0 files h → R b h → runs h0 files (mret b : M E H B) R h.
Proof. intros Hs HR. split; [done|]. by intros b' [= <-]. Qed.

Lemma init_runs env data file0 h :
  runs h [file0]
    (data ← asking data (λ h, absolute h data);
     from_option (λ p, at_ p (create_dir_all p)) (mret ()) (parent file0);;
     private_dir data;;
     private_dir (join data "workspaces");;
     file ← asking file0 (λ h, absolute h file0);
     config ← lift (map_err BadConfiguration (Loading.parse from_toml (initial_file SAMPLE data (default "/" (parent file))) file env));
     at_ file (write file (initial_file SAMPLE data (default "/" (parent file))));;
     opening (open_control (control_database config));;
     mret (file, data))
    (λ r h', set_up env file0 data h' r.1 r.2) h.
Proof.
  assert (since h [file0] h) as Hs by (exists []; apply only_refl).
  eapply runs_bind; [done| |apply alters_asking|]; [set_solver|]. intros d h1 _ Hd%absolute_law Hs1.
  eapply runs_bind; [done| | |]; [|instantiate (1 := λ _ _ _, True); instantiate (1 := []); instantiate (1 := [])|]; [set_solver| |].
  { destruct (parent file0); cbn; [apply alters_at, create_dir_all_law|]. eapply alters_weaken; [|apply alters_ret]. done. }
  intros ? h2 ? ? Hs2.
  eapply runs_bind; [done| |apply private_dir_alters|]; [set_solver|]. intros ? h3 ? Hmd Hs3.
  eapply runs_bind; [done| |apply private_dir_alters|]; [set_solver|]. intros ? h4 Ho4 Hmw Hs4.
  eapply runs_bind; [done| |apply alters_asking|]; [set_solver|]. intros file h5 Ho5 Hfile Hs5. apply absolute_law in Hfile.
  eapply runs_bind; [done| |apply alters_lift|]; [set_solver|]. intros config h6 Ho6 Hconfig Hs6.
  eapply runs_bind; [done| |apply alters_at, write_law|]; [set_solver|]. intros ? h7 Ho7 Hw Hs7.
  eapply runs_bind; [done| |apply alters_opening, open_control_law|]; [set_solver|]. intros ? h8 Ho8 ? Hs8.
  apply runs_ret; [done|]. unfold set_up. cbn [fst snd].
  assert (∀ p, ¬ theirs p → mode_of h4 p = Some 448%N → mode_of h8 p = Some 448%N) as Hkeep.
  { intros p Ht Hp. eapply mode_kept; [done|exact Ho8|set_solver|]. eapply mode_kept; [done|exact Ho7|set_solver|].
    eapply mode_kept; [done|exact Ho6|set_solver|]. eapply mode_kept; [done|exact Ho5|set_solver|done]. }
  split_and!; [done|done|..].
  - eexists _, config. split_and!; [apply initial_file_filled|..].
    + intros Ht. eapply only_content; [done| |exact Ho8|done]. set_solver.
    + destruct (Loading.parse _ _ _ _); cbn in Hconfig; congruence.
  - intros Ht. apply Hkeep; [done|]. destruct (decide (place d = place (join d "workspaces"))) as [He|Hne].
    + by rewrite (mode_place _ _ _ He).
    + eapply mode_kept; [done|exact Ho4| |done]. set_solver.
  - intros Ht. by apply Hkeep.
Qed.

(** Where [init] means to write, and to keep the data. *)
Definition config_target (env : Loading.Environment) (config_file : option string) (h : H) : string :=
  default (default_paths env (match current_uid h with Ok uid => (uid =? 0)%N | _ => false end)).1 config_file.

Definition data_target (env : Loading.Environment) (data_dir : option string) (h : H) : string :=
  default (default_paths env (match current_uid h with Ok uid => (uid =? 0)%N | _ => false end)).2 data_dir.

(** C37: However [init] ends, every text that was there is there as it was;
    and when it ends well, the configuration file, which was not there, holds
    the sample with its three paths filled in, line by line, and can be read,
    and the data directory and its directory of workspaces are their owner's
    alone. *)
Theorem init_sets_up (env : Loading.Environment) (data_dir config_file : option string) (h : H) :
  let '(x, h') := init SAMPLE from_toml env data_dir config_file h in
  (∀ q text, ¬ theirs q → content h q = Some text → content h' q = Some text) ∧
  ∀ file data, x = Ok (file, data) →
    content h (config_target env config_file h) = None ∧ set_up env (config_target env config_file h) (data_target env data_dir h) h' file data.
Proof.
  unfold init, config_target, data_target. set (root := match current_uid h with Ok _ => _ | _ => _ end).
  destruct (default_paths env root) as [default_config default_data] eqn:Hpaths. cbn [fst snd].
  destruct (exists_ h (default default_config config_file)) eqn:Hex; [by split|].
  pose proof (init_runs env (default default_data data_dir) (default default_config config_file) h) as [[dirs Ho] Hq].
  match type of Ho with only _ _ _ (snd (?m _)) => destruct (m h) as [x h'] end. cbn [fst snd] in *. split.
  - eapply only_keeps; [|exact Ho]. repeat constructor. by apply absent.
  - intros file data ->. split; [by apply absent|]. by apply (Hq (file, data)).
Qed.

(** ** The pair *)

Lemma make_parent_alters file : alters [] [default "" (parent file)] (make_parent file) (λ _ _ _, True).
Proof.
  intros h. unfold make_parent. destruct (parent file) as [dir|]; [|split; [apply only_refl|done]].
  destruct (exists_ h dir); [split; [apply only_refl|done]|]. pose proof (private_dir_alters dir h) as Hd.
  destruct (private_dir dir h). by destruct Hd.
Qed.

(** What [tls self-signed] leaves when it ends well. *)
Definition signed (files : Config.Tls) (names : list string) (h h' : H) (r : TlsPrinted) : Prop :=
  ∃ cert key pin, Tls.self_signed names (now h) = Ok (cert, key) ∧ Tls.pin_of_pem cert = Ok pin ∧
    r = MadePair (cert_file files) (key_file files) names pin ∧
    content h' (cert_file files) = Some cert ∧ mode_of h' (cert_file files) = Some 384%N ∧
    content h' (key_file files) = Some key ∧ mode_of h' (key_file files) = Some 384%N.

Lemma map_err_Ok {E E' A} (f : E → E') (x : outcome E A) a : map_err f x = Ok a → x = Ok a.
Proof. destruct x; cbn; congruence. Qed.

Lemma self_sign_runs files names h : ¬ theirs (cert_file files) → ¬ theirs (key_file files) →
  runs h [cert_file files; key_file files]
    (pair ← lift (map_err (TlsSaid None) (Tls.self_signed names (now h)));
     make_parent (cert_file files);;
     make_parent (key_file files);;
     write_new (key_file files) pair.2;;
     write_new (cert_file files) pair.1;;
     pin ← lift (map_err (TlsSaid None) (Tls.pin_of_pem pair.1));
     mret (MadePair (cert_file files) (key_file files) names pin))
    (λ r h', signed files names h h' r) h.
Proof.
  intros Htc Htk. assert (since h [cert_file files; key_file files] h) as Hs by (exists []; apply only_refl).
  eapply runs_bind; [done| |apply alters_lift|]; [set_solver|]. intros [cert key] h1 Ho1 Hpair%map_err_Ok Hs1. cbn [fst snd].
  eapply runs_bind; [done| |apply make_parent_alters|]; [set_solver|]. intros ? h2 ? ? Hs2.
  eapply runs_bind; [done| |apply make_parent_alters|]; [set_solver|]. intros ? h3 ? ? Hs3.
  eapply runs_bind; [done| |apply write_new_alters|]; [set_solver|]. intros ? h4 ? [_ Hk] Hs4. destruct (Hk Htk) as [Hkc Hkm].
  eapply runs_bind; [done| |apply write_new_alters|]; [set_solver|]. intros ? h5 Ho5 [Hnone Hc] Hs5. destruct (Hc Htc) as [Hcc Hcm].
  eapply runs_bind; [done| |apply alters_lift|]; [set_solver|]. intros pin h6 Ho6 Hpin%map_err_Ok Hs6.
  apply runs_ret; [done|].
  assert (place (key_file files) ≠ place (cert_file files)) as Hne
    by (intros He; rewrite (content_place h4 _ _ He) in Hkc; congruence).
  exists cert, key, pin. split_and!; [done..| | | |].
  - eapply only_content; [done| |exact Ho6|done]. set_solver.
  - eapply mode_kept; [done|exact Ho6| |done]. set_solver.
  - eapply only_content; [done| |exact Ho6|]; [set_solver|]. eapply only_content; [done| |exact Ho5|done]. set_solver.
  - eapply mode_kept; [done|exact Ho6|set_solver|]. eapply mode_kept; [done|exact Ho5| |done]. set_solver.
Qed.

(** C38: [tls] overwrites nothing: every text that was there is there as it
    was, however the command ends.  [tls self-signed] makes a pair where there
    was neither file, for the names and addresses it was given, both files
    their owner's alone, and prints the pin of the certificate it wrote; the
    other commands change nothing at all. *)
Theorem tls_overwrites_nothing (config : Config) (command : TlsCommand) (h : H) :
  let '(x, h') := tls_command config command h in
  match tls config, command with
  | None, _ => x = Err NoTlsSection ∧ h' = h
  | Some files, SelfSigned host ip =>
      ¬ theirs (cert_file files) → ¬ theirs (key_file files) →
      (∀ q text, ¬ theirs q → content h q = Some text → content h' q = Some text) ∧
      (∀ file, file ∈ [cert_file files; key_file files] → exists_ h file = true → h' = h ∧ ∃ file', x = Err (ExistsAlready file')) ∧
      (∀ r, x = Ok r → signed files (host ++ ip) h h' r)
  | Some _, _ => h' = h
  end.
Proof.
  unfold tls_command. destruct (tls config) as [files|]; [|by split]. destruct command as [host ip| |names email docker].
  - unfold self_sign. destruct (List.find (exists_ h) [cert_file files; key_file files]) as [found|] eqn:Hfind.
    { intros _ _. split_and!; [done| |done]. intros. split; [done|]. by eexists. }
    pose proof (self_sign_runs files (host ++ ip) h) as Hruns.
    match type of Hruns with _ → _ → runs _ _ ?m _ _ => destruct (m h) as [x h'] eqn:Hm end. unfold runs in Hruns. rewrite Hm in Hruns.
    intros Htc Htk. destruct (Hruns Htc Htk) as [[dirs Ho] Hq]. cbn [fst snd] in *.
    assert (∀ file, file ∈ [cert_file files; key_file files] → exists_ h file = false) as Habs.
    { intros file Hin%list_elem_of_In. by apply (List.find_none _ _ Hfind). }
    split_and!; [|intros file Hin He; by rewrite Habs in He|done]. eapply only_keeps; [|exact Ho].
    apply Forall_forall. intros file Hin. by apply absent, Habs.
  - unfold fingerprint, asking. unfold mbind, M_bind. destruct (map_err _ (read h _)); [|done..].
    unfold lift. by destruct (map_err _ (Tls.pin_of_pem _)).
  - unfold letsencrypt. case_bool_decide; [done|]. unfold asking. unfold mbind, M_bind. destruct (map_err _ (owner_of h _)); [|done..].
    unfold lift. by destruct (map_err _ (walkthrough _)).
Qed.
End facts.

(** ** Where it is found again *)

(** What a relative path is put behind. *)
Definition before_joined (a : string) : string :=
  match split_last a with None => "" | Some (_, "/"%char) => a | Some _ => a ++ "/" end.
Lemma join_relative a b : String.prefix "/" b = false → join a b = (before_joined a ++ b)%string.
Proof.
  intros Hb. unfold join, before_joined. rewrite Hb. destruct (split_last a) as [[s c]|]; [|done].
  destruct c as [[] [] [] [] [] [] [] []]; try done; by rewrite str_app_assoc.
Qed.

Lemma join_twice dir : join (join dir "passalong-server") "config.toml" = join dir "passalong-server/config.toml".
Proof.
  rewrite (join_relative dir "passalong-server"), (join_relative dir "passalong-server/config.toml"), join_relative by done.
  set (s := before_joined dir). unfold before_joined.
  replace (split_last (s ++ "passalong-server")) with (Some ((s ++ "passalong-serve")%string, "r"%char))
    by (symmetry; apply split_last_Some; by rewrite str_app_assoc).
  cbv iota. by rewrite !str_app_assoc.
Qed.

(** The configuration file that [init] writes when it is not told where is
    the one that every later command finds, but where a file is found in a
    place that is looked at before: only when no variable names the file, and
    only for root or without a home. *)
Theorem init_writes_where_commands_look (env : Loading.Environment) (root : bool) :
  let file := (default_paths env root).1 in
  Loading.is_file env file = true →
  Loading.find None env = Ok file ∨
  Loading.set env Loading.FILE_VARIABLE = None ∧ (root = true ∨ Loading.set env "HOME" = None) ∧
  ∃ other, other ∈ Loading.places env ∧ Loading.is_file env other = true ∧ Loading.find None env = Ok other.
Proof.
  unfold default_paths, Loading.find, Loading.named. destruct (Loading.set env Loading.FILE_VARIABLE) as [path|].
  { intros Hf. left. cbn. destruct root, (Loading.set env "HOME"); cbn in *; by rewrite Hf. }
  cbn [fmap option_fmap option_map default from_option].
  assert (∀ file, file ∈ Loading.places env → Loading.is_file env file = true →
    match List.find (Loading.is_file env) (Loading.places env) with Some found => Ok found | None => Err (Loading.NoFile (Loading.places env)) end = Ok file ∨
    ∃ other, other ∈ Loading.places env ∧ Loading.is_file env other = true ∧
      match List.find (Loading.is_file env) (Loading.places env) with Some found => Ok found | None => Err (Loading.NoFile (Loading.places env)) end = Ok other) as Hany.
  { intros file Hin Hf. destruct (List.find _ _) as [other|] eqn:Hfind.
    - right. exists other. apply List.find_some in Hfind as [Ho Hof]. by rewrite list_elem_of_In.
    - rewrite (List.find_none _ _ Hfind file) in Hf; [done|by apply list_elem_of_In]. }
  unfold Loading.places in *. destruct (Loading.set env "HOME") as [home|] eqn:Hhome.
  - destruct root.
    + intros Hf. cbn [fst] in *. destruct (Hany "/etc/passalong-server/config.toml") as [?|?]; [set_solver|done|by left|right; auto].
    + destruct (Loading.set env "XDG_CONFIG_HOME") as [xdg|]; cbn [default from_option id fst app List.find];
        rewrite join_twice; intros ->; by left.
  - intros Hf. assert (Loading.is_file env "/etc/passalong-server/config.toml" = true) as Hf' by (by destruct root).
    destruct (Hany "/etc/passalong-server/config.toml") as [?|?]; [set_solver|done|left; by destruct root|right; auto].
Qed.
