(* ===== verification/SetupDemo.v ===== *)
(** Witnesses for setting a server up, on a host of texts and modes. *)

From S2P Require Import Prelude Text Shelf Demo.
Import Demo.
From S2P Require Import Rate Net Clock Config Install Tls TlsDemo Letsencrypt Setup SetupFacts.

(** Directories have a mode and no text. *)
Record Toy := mkToy { texts : gmap string string; modes : gmap string N; uid : N }.
Definition is_database (p : string) : bool := String.eqb (after_last "/" p) "control.sqlite".

Definition put (p text : string) (mode : N) (h : Toy) : Toy :=
  mkToy (<[p := text]> (texts h)) (match modes h !! p with Some _ => modes h | None => <[p := mode]> (modes h) end) (uid h).
Definition make (p : string) (mode : N) (h : Toy) : Toy :=
  if String.eqb p "" then h
  else mkToy (texts h) (match modes h !! p with Some _ => modes h | None => <[p := mode]> (modes h) end) (uid h).

#[export] Instance toy_host : SetupHost Toy := {|
  current_uid h := Ok (uid h);
  exists_ h p := bool_decide (is_Some (texts h !! p)) || bool_decide (is_Some (modes h !! p));
  absolute h p := if String.eqb p "" then Err "cannot make an empty path absolute" else Ok p;
  read h p := match texts h !! p with Some text => Ok text | None => Err "No such file or directory" end;
  owner_of h p := match modes h !! p with Some _ => Ok (uid h, uid h) | None => Err "No such file or directory" end;
  now h := 1800000000%N;
  create_dir_all p h := (Ok (), make p 493 h);
  create_dirs p mode h := (Ok (), make p mode h);
  set_permissions p mode h :=
    match modes h !! p with
    | Some _ => (Ok (), mkToy (texts h) (<[p := mode]> (modes h)) (uid h))
    | None => (Err "No such file or directory", h)
    end;
  write p text h := (Ok (), put p text 420 h);
  create_new p mode h :=
    if bool_decide (is_Some (texts h !! p)) || bool_decide (is_Some (modes h !! p)) then (Err "File exists", h)
    else (Ok (), put p "" mode h);
  write_all p text h := (Ok (), mkToy (<[p := (default "" (texts h !! p) ++ text)%string]> (texts h)) (modes h) (uid h));
  sync_all p h := (Ok (), h);
  open_control p h := if is_database p then (Ok (), put p "tables" 420 h) else (Err "not a database", h);
|}.
#[export] Instance toy_files : SetupFiles Toy := {|
  content h p := texts h !! p;
  mode_of h p := modes h !! p;
  place := id;
  theirs p := is_database p = true;
|}.

Lemma only_mode p mode h : only [] [] h (make p mode h).
Proof.
  unfold make. destruct (String.eqb p ""); [apply only_refl|]. split; cbn; [done|]. intros q m _ _ Hq.
  destruct (modes h !! p) eqn:Hp; [done|]. rewrite lookup_insert_ne; [done|congruence].
Qed.
Lemma only_put p text mode h : only [p] [] h (put p text mode h).
Proof.
  split; cbn.
  - intros q _ Hq. rewrite lookup_insert_ne; [done|]. intros ->. apply Hq. by left.
  - intros q m _ _ Hq. destruct (modes h !! p) eqn:Hp; [done|]. rewrite lookup_insert_ne; [done|congruence].
Qed.

#[export] Instance toy_lawful : LawfulSetupHost Toy.
Proof.
  split.
  - by intros h p q Hpq; cbn in *; subst.
  - by intros h p q Hpq; cbn in *; subst.
  - intros h p Hp. cbn in *. by rewrite bool_decide_true.
  - intros h p q. cbn. destruct (String.eqb p ""); congruence.
  - intros p h. cbn. split; [apply only_mode|done].
  - intros p m h. cbn. split; [apply only_mode|done].
  - intros p m h. cbn. destruct (modes h !! p) eqn:Hp; [|split; [apply only_refl|done]]. split.
    + split; cbn; [done|]. intros q old _ Hq Hn. rewrite lookup_insert_ne; [done|]. intros ->. apply Hq. by left.
    + intros _ _. cbn. by rewrite lookup_insert_eq.
  - intros p text h. cbn. split; [apply only_put|]. intros _ _. cbn. by rewrite lookup_insert_eq.
  - intros p m h. cbn. destruct (texts h !! p) eqn:Ht; [rewrite bool_decide_true by done; split; [apply only_refl|done]|].
    destruct (modes h !! p) eqn:Hm; [rewrite orb_true_intro by (right; by apply bool_decide_eq_true); split; [apply only_refl|done]|].
    rewrite !bool_decide_false by (intros []; done). split; [apply only_put|]. intros _ _. cbn. rewrite Hm.
    split_and!; [done|by rewrite lookup_insert_eq|by rewrite lookup_insert_eq].
  - intros p text h. cbn. split.
    + split; cbn; [|done]. intros q _ Hq. rewrite lookup_insert_ne; [done|]. intros ->. apply Hq. by left.
    + intros _ _. cbn. split; [|done]. intros ->. by rewrite lookup_insert_eq.
  - intros p h. cbn. split; [apply only_refl|done].
  - intros p h. cbn. destruct (is_database p) eqn:Hp; [|split; [apply only_refl|done]]. split; [|done].
    destruct (only_put p "tables" 420 h) as [Hc Hm]. split; [|exact Hm].
    intros q Hq _. apply Hc; [done|]. intros Heq%list_elem_of_singleton. cbn in Heq, Hq. congruence.
Qed.

(** ** Witnesses *)

Definition no_env : Loading.Environment := Loading.mkEnvironment (λ _, None) (λ p, String.eqb p "/etc/passalong-server/config.toml").
Definition no_toml (_ : Loading.SizeText → option (option N)) (_ : Loading.SizeText → option N) (_ : string) : option Config :=
  Some default_config.
Definition sample : string := "# a sample" ++ newline ++ "data_dir = x" ++ newline.
Definition bare : Toy := mkToy {[ "/etc/passwd" := "root" ]} ∅ 0.

Definition init_bare := init sample no_toml no_env None None bare.
Example init_on_a_bare_host : init_bare.1 = Ok ("/etc/passalong-server/config.toml", "/var/lib/passalong-server").
Proof. vm_compute. reflexivity. Qed.

Lemma init_sets_up_witness :
  content init_bare.2 "/etc/passwd" = Some "root" ∧
  mode_of init_bare.2 "/var/lib/passalong-server" = Some 448%N ∧
  ∃ text, content init_bare.2 "/etc/passalong-server/config.toml" = Some text ∧
    filled_in sample "/var/lib/passalong-server" "/etc/passalong-server" text.
Proof.
  pose proof (init_sets_up sample no_toml no_env None None bare) as Hi. fold init_bare in Hi.
  pose proof init_on_a_bare_host as Hok. destruct init_bare as [x h']. cbn [fst snd] in *. destruct Hi as [Hkept Hq]. split.
  - apply Hkept; [by vm_compute|reflexivity].
  - destruct (Hq _ _ Hok) as (_ & _ & _ & (text & config & Htext & Hc & _) & Hmode & _). split; [apply Hmode; by vm_compute|].
    exists text. split; [apply Hc; by vm_compute|exact Htext].
Defined.

(** Which the sample alone is not. *)
Example the_sample_is_not_filled_in : ¬ filled_in sample "/srv" "/etc" sample.
Proof.
  intros (ls & Hls & Ht). change (lines sample) with ["# a sample"; "data_dir = x"] in Hls.
  apply Forall2_cons_inv_l in Hls as (l1 & ? & H1 & Hls & ->). apply Forall2_cons_inv_l in Hls as (l2 & ? & H2 & ->%Forall2_nil_inv_l & ->).
  inversion H1 as [| | |? Hother]; subst; [done..|]. inversion H2 as [| | |? Hwrong]; subst.
  - vm_compute in Ht. discriminate.
  - exact (Hwrong "data_dir = " "x" ltac:(set_solver) eq_refl).
Qed.

Definition tls_files : Config.Tls := mkTls "/etc/passalong-server/tls/cert.pem" "/etc/passalong-server/tls/key.pem".
Definition with_tls (files : Config.Tls) : Config :=
  mkConfig default_server default_listen (Some files) default_section (mkRewriting 600) (mkStaging 24).
Definition signing := tls_command (with_tls tls_files) (SelfSigned ["nas"] ["::1"]) bare.
Example signing_prints : signing.1 = Ok (MadePair (cert_file tls_files) (key_file tls_files) ["nas"; "::1"]
  (default "" (match Tls.pin_of "nas:new key" with Ok pin => Some pin | _ => None end))).
Proof. vm_compute. reflexivity. Qed.

Lemma tls_overwrites_nothing_witness :
  content signing.2 "/etc/passwd" = Some "root" ∧
  ∃ r, signing.1 = Ok r ∧ signed tls_files ["nas"; "::1"] bare signing.2 r.
Proof.
  pose proof (tls_overwrites_nothing (with_tls tls_files) (SelfSigned ["nas"] ["::1"]) bare) as Ht. fold signing in Ht.
  pose proof signing_prints as Hok. destruct signing as [x h']. cbn [fst snd] in *.
  destruct (Ht ltac:(by vm_compute) ltac:(by vm_compute)) as (Hkept & _ & Hq). split.
  - apply Hkept; [by vm_compute|reflexivity].
  - eexists. split; [exact Hok|]. by apply Hq.
Defined.

Lemma init_writes_where_commands_look_witness :
  Loading.find None no_env = Ok (default_paths no_env true).1 ∨
  Loading.set no_env Loading.FILE_VARIABLE = None ∧ (true = true ∨ Loading.set no_env "HOME" = None) ∧
  ∃ other, other ∈ Loading.places no_env ∧ Loading.is_file no_env other = true ∧ Loading.find None no_env = Ok other.
Proof. exact (init_writes_where_commands_look no_env true eq_refl). Defined.

(** Run again, the pair is spared. *)
Example a_pair_is_spared : tls_command (with_tls tls_files) (SelfSigned ["nas"] []) signing.2 =
  (Err (ExistsAlready (cert_file tls_files)), signing.2).
Proof. vm_compute. reflexivity. Qed.

(** A file without a directory: the directory of its parent, which is written
    as nothing at all, is not there and cannot be made. *)
Example a_bare_name_has_no_pair : (tls_command (with_tls (mkTls "cert.pem" "key.pem")) (SelfSigned ["nas"] []) bare).1 =
  Err (At "" "No such file or directory").
Proof. vm_compute. reflexivity. Qed.
