(* ===== verification/Host.v ===== *)
(** This host ([service/system.rs] of [passalong-server-cli]): what [service
    install] asks of a host, by calls of the operating system; and that a file
    is put in its place whole, with its mode and its owner, or not at all. *)

From S2P Require Import Prelude Text Rate Config Plan Install Installed Setup.

(** ** What is used of the operating system *)

Record FsError := mkFsError { is_not_found : bool; words : string }.

(** What a process of a privileged user sees of a file: its bytes, the text
    they are if they are text, its mode, and who owns it. *)
Record Seen := mkSeen { s_bytes : string; s_text : option string; s_mode : N; s_owner : N * N }.

(** [foreign] are the files that the programs that are run keep for
    themselves. *)
Class HostCalls (H : Type) := {
  seen : H → string → option Seen;
  path_exists : H → string → bool;
  effective_uid : H → option N;
  current_exe : H → outcome FsError string;
  time_now : H → N;
  foreign : string → Prop;
  fs_remove_file : string → M FsError H unit;
  fs_create_dir_all : string → M FsError H unit;
  fs_create_dirs : string → N → M FsError H unit;
  fs_create_private : string → M FsError H unit;
  fs_write_all : string → string → M FsError H unit;
  fs_copy_into : string → string → M FsError H unit;
  fs_sync_all : string → M FsError H unit;
  fs_set_permissions : string → N → M FsError H unit;
  fs_chown : string → N * N → M FsError H unit;
  fs_rename : string → string → M FsError H unit;
  fs_open : string → M FsError H string;
  command_output : string → list string → M FsError H (bool * string);
}.

(** [0o600] *)
Definition PRIVATE : N := 384.

Section host.
Context {H : Type} `{Calls : HostCalls H} (passwd : string).

Definition read_to_string (h : H) (p : string) : option string := seen h p ≫= s_text.
Definition read_bytes (h : H) (p : string) : option string := s_bytes <$> seen h p.

(** [let _ = ...]: an error is passed over. *)
Definition ignoring {A} (m : M FsError H A) : M FsError H unit := λ h,
  match m h with
  | (Ok _, h) | (Err _, h) => (Ok (), h)
  | (Killed, h) => (Killed, h)
  | (Spinning, h) => (Spinning, h)
  end.
Definition told_at {A} (path : string) (m : M FsError H A) : M string H A := λ h,
  let '(x, h) := m h in (map_err (λ e, path ++ ": " ++ words e)%string x, h).

(** Written aside, given its mode and owner, and only then moved into place. *)
Definition put_aside (path : string) (mode : N) (owner : option Ids) (fill : string → M FsError H unit) : M FsError H unit :=
  match parent path with Some dir => fs_create_dir_all dir | None => mret () end;;
  fs_create_private (beside path);;
  fill (beside path);;
  fs_sync_all (beside path);;
  fs_set_permissions (beside path) mode;;
  match owner with Some who => fs_chown (beside path) who | None => mret () end;;
  fs_rename (beside path) path.

Definition cleaning_up {A} (aside : string) (m : M FsError H A) : M FsError H A := λ h,
  match m h with
  | (Err e, h) => let '(x, h) := ignoring (fs_remove_file aside) h in (recast x (λ _, Err e), h)
  | r => r
  end.

Definition place (path : string) (mode : N) (owner : option Ids) (fill : string → M FsError H unit) : M string H unit :=
  told_at path (ignoring (fs_remove_file (beside path));; cleaning_up (beside path) (put_aside path mode owner fill)).

Definition host_make_dir (path : string) (mode : N) (owner : option Ids) : M string H unit :=
  told_at path (
    fs_create_dirs path mode;;
    fs_set_permissions path mode;;
    match owner with Some who => fs_chown path who | None => mret () end).

Definition host_write_file (path content : string) (mode : N) (owner : option Ids) : M string H unit :=
  place path mode owner (λ file, fs_write_all file content).

(** Moved into place, not written into it: a binary that runs cannot be written
    to, and can be replaced. *)
Definition host_install_binary (from to : string) : M string H unit :=
  source ← told_at from (fs_open from);
  place to 493 None (λ file, fs_copy_into file source).

Definition host_remove_file (path : string) : M string H unit := λ h,
  match fs_remove_file path h with
  | (Err e, h) => if is_not_found e then (Ok (), h) else told_at path (throw e) h
  | (x, h) => told_at path (lift x) h
  end.

Definition host_run (program : string) (args : list string) : M string H unit := λ h,
  let shown := (program ++ " " ++ join_by " " args)%string in
  match command_output program args h with
  | (Ok (true, _), h) => (Ok (), h)
  | (Ok (false, stderr), h) => (Err ("`" ++ shown ++ "` failed: " ++ trim stderr)%string, h)
  | (Err e, h) => (Err ("`" ++ shown ++ "`: " ++ words e)%string, h)
  | (Killed, h) => (Killed, h)
  | (Spinning, h) => (Spinning, h)
  end.

Definition host_user_ids (h : H) (name : string) : option Ids := read_to_string h passwd ≫= λ text, ids_in text name.

#[local] Instance host_system : System H := {
  is_root h := bool_decide (effective_uid h = Some 0%N);
  running_binary h := map_err (λ e, "cannot tell where this binary is: " ++ words e)%string (current_exe h);
  sys_read := read_to_string;
  sys_exists := path_exists;
  same_content h p q := match read_bytes h p, read_bytes h q with Some one, Some other => String.eqb one other | _, _ => false end;
  user_ids := host_user_ids;
  make_dir := host_make_dir;
  write_file := host_write_file;
  install_binary := host_install_binary;
  remove_file := host_remove_file;
  run := host_run;
  sys_now := time_now;
}.
#[local] Instance host_files : HostFiles H := { file := read_bytes; theirs := foreign }.
End host.

(** ** What the calls promise *)

Section calls.
Context {H : Type} `{Calls : HostCalls H}.

(** Nothing but the files at [ps] looks different. *)
Definition frame (ps : list string) (h h' : H) : Prop :=
  (∀ q, q ∉ ps → seen h' q = seen h q ∧ (path_exists h q = true → path_exists h' q = true)) ∧
  current_exe h' = current_exe h ∧ effective_uid h' = effective_uid h.

Definition with_mode (m : N) (s : Seen) : Seen := mkSeen (s_bytes s) (s_text s) m (s_owner s).
Definition with_owner (o : N * N) (s : Seen) : Seen := mkSeen (s_bytes s) (s_text s) (s_mode s) o.

(** What a call does to the file it is about: [f] to a file, when it ends well;
    and else that or nothing.  Of a directory there is nothing to see. *)
Definition refits (p : string) (f : Seen → Seen) (x : outcome FsError unit) (h h' : H) : Prop :=
  frame [p] h h' ∧ (path_exists h p = true → path_exists h' p = true) ∧
  (x = Ok () → seen h' p = f <$> seen h p) ∧ (seen h' p = f <$> seen h p ∨ seen h' p = seen h p).

(** Text is put behind what is there, all of it when the call ends well; a text
    behind a text is a text. *)
Definition appends (p s : string) (x : outcome FsError unit) (h h' : H) : Prop :=
  frame [p] h h' ∧ ∀ s0, seen h p = Some s0 → ∃ t text, (x = Ok () → t = s) ∧
    seen h' p = Some (mkSeen (s_bytes s0 ++ t) text (s_mode s0) (s_owner s0)).

Class LawfulHostCalls := {
  text_is_bytes h p s t : seen h p = Some s → s_text s = Some t → s_bytes s = t;
  seen_exists h p : is_Some (seen h p) → path_exists h p = true;
  remove_law p h : wp (fs_remove_file p) (λ x h', frame [p] h h' ∧
    (x = Ok () ∨ (∃ e, x = Err e ∧ is_not_found e = true) → seen h' p = None) ∧
    (seen h' p = seen h p ∨ seen h' p = None)) h;
  create_dir_all_law p h : wp (fs_create_dir_all p) (λ _ h', frame [] h h') h;
  create_dirs_law p m h : wp (fs_create_dirs p m) (λ x h', frame [] h h' ∧ (x = Ok () → seen h' p = None)) h;
  create_private_law p h : wp (fs_create_private p) (λ x h', frame [p] h h' ∧
    (seen h' p = seen h p ∧ x ≠ Ok () ∨
     seen h p = None ∧ ∃ o, seen h' p = Some (mkSeen "" (Some "") PRIVATE o))) h;
  write_all_law p s h : wp (fs_write_all p s) (λ x h', appends p s x h h' ∧
    ∀ s0 t0, seen h p = Some s0 → s_text s0 = Some t0 → x = Ok () → read_to_string h' p = Some (t0 ++ s)%string) h;
  copy_into_law p s h : wp (fs_copy_into p s) (λ x h', appends p s x h h') h;
  sync_all_law p h : wp (fs_sync_all p) (λ _ h', frame [] h h') h;
  set_permissions_law p m h : wp (fs_set_permissions p m) (λ x h', refits p (with_mode m) x h h') h;
  chown_law p o h : wp (fs_chown p o) (λ x h', refits p (with_owner o) x h h') h;
  rename_law p q h : p ≠ q → wp (fs_rename p q) (λ x h', frame [p; q] h h' ∧
    (seen h' p = seen h p ∧ seen h' q = seen h q ∧ x ≠ Ok () ∨ seen h' p = None ∧ seen h' q = seen h p)) h;
  open_law p h : wp (fs_open p) (λ x h', frame [] h h' ∧ ∀ b, x = Ok b → read_bytes h p = Some b) h;
  command_law program args h : wp (command_output program args) (λ _ h',
    (∀ q, ¬ foreign q → seen h' q = seen h q ∧ (path_exists h q = true → path_exists h' q = true)) ∧
    current_exe h' = current_exe h ∧ effective_uid h' = effective_uid h) h;
}.
End calls.
#[global] Arguments LawfulHostCalls H {Calls} : rename.

(** ** A file in its place *)

Section placing.
Context {H : Type} `{Law : LawfulHostCalls H} (passwd : string).
Implicit Types (h : H) (p : string).

Lemma beside_ne p : beside p ≠ p.
Proof. unfold beside. intros Heq. apply (f_equal String.length) in Heq. rewrite length_app_str in Heq. cbn in Heq. lia. Qed.

Lemma frame_refl ps h : frame ps h h.
Proof. by split. Qed.
Lemma frame_more ps ps' h h' : ps ⊆ ps' → frame ps h h' → frame ps' h h'.
Proof. intros Hs [Hf Hr]. split; [|done]. intros q Hq. apply Hf. set_solver. Qed.
Lemma frame_trans ps h1 h2 h3 : frame ps h1 h2 → frame ps h2 h3 → frame ps h1 h3.
Proof.
  intros [Hf1 [? ?]] [Hf2 [? ?]]. split; [|split; congruence]. intros q Hq.
  destruct (Hf1 q Hq) as [? ?], (Hf2 q Hq) as [? ?]. split; [congruence|auto].
Qed.
Lemma frame_seen ps h h' p : frame ps h h' → p ∉ ps → seen h' p = seen h p.
Proof. intros [Hf _] Hp. by apply Hf. Qed.

(** Of what a file in its place is made. *)
Definition placed (s : string) (text : option string → Prop) (mode : N) (owner : option Ids) (o : option Seen) : Prop :=
  ∃ f, o = Some f ∧ s_bytes f = s ∧ text (s_text f) ∧ s_mode f = mode ∧ ∀ who, owner = Some who → s_owner f = who.

(** What is beside it meanwhile: what was, or nothing, or a file that only its
    owner can read, as long as it is not complete. *)
Definition guarded (s : string) (mode : N) (before o : option Seen) : Prop :=
  o = before ∨ o = None ∨ ∃ f, o = Some f ∧ (s_mode f = PRIVATE ∨ s_bytes f = s ∧ s_mode f = mode).

(** Before the file is moved. *)
Record aside (path s : string) (mode : N) (before : option Seen) h h' : Prop := {
  aside_frame : frame [path; beside path] h h';
  aside_path : seen h' path = seen h path;
  aside_guard : guarded s mode before (seen h' (beside path));
}.

Lemma aside_step path s mode before h h1 h2 :
  aside path s mode before h h1 → frame [beside path] h1 h2 → guarded s mode before (seen h2 (beside path)) →
  aside path s mode before h h2.
Proof.
  intros [Hf Hp _] Hf2 Hg. split; [eapply frame_trans; [exact Hf|eapply frame_more; [|exact Hf2]; set_solver]| |done].
  rewrite <- Hp. apply (frame_seen _ _ _ _ Hf2). pose proof (beside_ne path). set_solver.
Qed.
Lemma aside_same path s mode before h h1 h2 : aside path s mode before h h1 → frame [] h1 h2 → aside path s mode before h h2.
Proof.
  intros Ha Hf2. eapply aside_step; [done|eapply frame_more; [|exact Hf2]; set_solver|].
  rewrite (frame_seen _ _ _ _ Hf2) by set_solver. apply Ha.
Qed.

(** What may come out: the file was not touched, or it is in its place. *)
Definition whole (path s : string) (text : option string → Prop) (mode : N) (owner : option Ids) (before : option Seen)
    h {E} (x : outcome E unit) h' : Prop :=
  frame [path; beside path] h h' ∧ guarded s mode before (seen h' (beside path)) ∧
  (seen h' path = seen h path ∧ x ≠ Ok () ∨ placed s text mode owner (seen h' path)).

Lemma aside_whole path s text mode owner before h h' {E} (x : outcome E unit) : x ≠ Ok () →
  aside path s mode before h h' → whole path s text mode owner before h x h'.
Proof. intros Hx [Hf Hp Hg]. split_and!; [done..|]. by left. Qed.

(** A call that fits the file aside, when it is complete. *)
Lemma fit_aside path s mode before h h1 f g (x : outcome FsError unit) h2 :
  aside path s mode before h h1 → seen h1 (beside path) = Some f → refits (beside path) g x h1 h2 →
  (∀ k, s_bytes (g k) = s_bytes k ∧ s_text (g k) = s_text k) →
  guarded s mode before (Some f) → guarded s mode before (Some (g f)) →
  aside path s mode before h h2 ∧ (x = Ok () → seen h2 (beside path) = Some (g f)).
Proof.
  intros Ha Hs (Hf & _ & Hok & Hor) Hg Hgf Hgg. rewrite Hs in Hok, Hor. cbn [fmap option_fmap option_map] in *. split; [|done].
  eapply aside_step; [done|done|]. by destruct Hor as [-> | ->].
Qed.

(** The last steps, from a file that is complete. *)
Lemma moved path s (text : option string → Prop) mode owner before h h1 f :
  aside path s mode before h h1 → seen h1 (beside path) = Some f → placed s text mode owner (Some f) →
  wp (fs_rename (beside path) path) (λ x h', whole path s text mode owner before h x h') h1.
Proof.
  intros Ha Hs Hpl. eapply wp_mono; [apply rename_law, beside_ne|]. intros x h2 [Hf Hor].
  destruct Ha as [Hf1 Hp Hg]. split_and!.
  - eapply frame_trans; [exact Hf1|eapply frame_more; [|exact Hf]; set_solver].
  - destruct Hor as [(-> & _ & _)|[-> _]]; [done|right; by left].
  - destruct Hor as [(_ & -> & Hx)|[_ ->]]; [left; by rewrite Hp|right; by rewrite Hs].
Qed.

(** A call that did not end well ends it all. *)
Ltac goes_on x := destruct x as [[]|e| |]; try (by apply aside_whole); cbn [andthen].

Context (fill : string → M FsError H unit) (s : string) (text : option string → Prop).
Hypothesis fills : ∀ p h o, seen h p = Some (mkSeen "" (Some "") PRIVATE o) →
  wp (fill p) (λ x h', appends p s x h h' ∧ (x = Ok () → text (seen h' p ≫= s_text))) h.

Lemma put_aside_law path mode owner h :
  wp (put_aside path mode owner fill) (λ x h', whole path s text mode owner (seen h (beside path)) h x h') h.
Proof.
  unfold put_aside. set (before := seen h (beside path)).
  assert (aside path s mode before h h) as H0 by (split; [apply frame_refl|done|by left]).
  apply wp_bind. assert (∀ Q : outcome FsError unit → H → Prop, (∀ x h1, aside path s mode before h h1 → Q x h1) →
    wp (match parent path with Some dir => fs_create_dir_all dir | None => mret () end) Q h) as Hdir.
  { intros Q HQ. destruct (parent path) as [dir|]; [|apply wp_ret; by apply HQ].
    eapply wp_mono; [apply create_dir_all_law|]. intros x h1 Hf. apply HQ. by eapply aside_same. }
  apply Hdir. clear Hdir H0. intros x h1 H1. goes_on x.
  apply wp_bind. eapply wp_mono; [apply create_private_law|]. intros x h2 [Hf2 Hc].
  assert (aside path s mode before h h2) as H2.
  { eapply aside_step; [exact H1|exact Hf2|]. destruct Hc as [[-> _]|(_ & o & ->)]; [apply H1|]. right; right. eexists. split; [done|by left]. }
  goes_on x. destruct Hc as [[_ Hc]|(_ & o & Hc)]; [done|].
  apply wp_bind. eapply wp_mono; [by eapply fills|]. intros x h3 [[Hf3 Happ] Htext]. destruct (Happ _ Hc) as (t & tx & Ht & Hs3).
  cbn [s_bytes s_mode s_owner] in Hs3. change ("" ++ t)%string with t in Hs3.
  assert (aside path s mode before h h3) as H3.
  { eapply aside_step; [exact H2|exact Hf3|]. rewrite Hs3. right; right. eexists. split; [done|by left]. }
  goes_on x. specialize (Htext eq_refl). rewrite Hs3 in Htext. cbn in Htext.
  specialize (Ht eq_refl). subst t. clear Hc Happ Hf3 Hf2.
  apply wp_bind. eapply wp_mono; [apply sync_all_law|]. intros x h4 Hf4. pose proof (aside_same _ _ _ _ _ _ _ H3 Hf4) as H4.
  rewrite <- (frame_seen _ _ _ (beside path) Hf4) in Hs3 by set_solver.
  goes_on x. clear Hf4.
  apply wp_bind. eapply wp_mono; [apply set_permissions_law|]. intros x h5 Hr5.
  destruct (fit_aside _ _ _ _ _ _ _ _ _ _ H4 Hs3 Hr5) as [H5 Hs5]; [done|right; right; eexists; split; [done|by left]|
    right; right; eexists; split; [done|by right]|].
  goes_on x. specialize (Hs5 eq_refl). clear Hr5.
  apply wp_bind. destruct owner as [who|].
  - eapply wp_mono; [apply chown_law|]. intros x h6 Hr6.
    destruct (fit_aside _ _ _ _ _ _ _ _ _ _ H5 Hs5 Hr6) as [H6 Hs6]; [done|right; right; eexists; split; [done|by right]|
      right; right; eexists; split; [done|by right]|].
    goes_on x. specialize (Hs6 eq_refl).
    eapply moved; [done|done|]. eexists. split_and!; [done|done|done|done|]. by intros ? [= ->].
  - apply wp_ret. cbn [andthen]. eapply moved; [done|done|]. eexists. by split_and!.
Qed.

(** What is left aside is removed, if it can be. *)
Lemma remove_aside_law path h :
  wp (ignoring (fs_remove_file (beside path))) (λ x h', frame [beside path] h h' ∧ seen h' path = seen h path ∧
    (seen h' (beside path) = seen h (beside path) ∨ seen h' (beside path) = None)) h.
Proof.
  pose proof (remove_law (beside path) h) as Hr. unfold wp, ignoring in *.
  destruct (fs_remove_file (beside path) h) as [x h1]. cbn [fst snd] in Hr. destruct Hr as (Hf & _ & Hs).
  assert (seen h1 path = seen h path).
  { apply (frame_seen _ _ _ _ Hf). pose proof (beside_ne path). set_solver. }
  destruct x as [[]|e| |]; cbn [fst snd]; done.
Qed.

Lemma cleaning_law path mode owner before h h1 (m : M FsError H unit) :
  wp m (λ x h', whole path s text mode owner before h x h') h1 →
  wp (cleaning_up (beside path) m) (λ x h', whole path s text mode owner before h x h') h1.
Proof.
  unfold wp at 1, cleaning_up. destruct (m h1) as [x h2] eqn:Hm. cbn [fst snd].
  intros Hw. unfold wp. rewrite Hm. destruct x as [[]|e| |]; [done| |done..].
  pose proof (remove_aside_law path h2) as Hr. unfold wp in Hr. destruct (ignoring _ h2) as [z h3]. cbn [fst snd] in Hr.
  destruct Hr as (Hf3 & Hp3 & Hs3), Hw as (Hf & Hg & Hor).
  assert (frame [path; beside path] h h3) as Hf' by (eapply frame_trans; [exact Hf|eapply frame_more; [|exact Hf3]; set_solver]).
  assert (guarded s mode before (seen h3 (beside path))) as Hg3 by (destruct Hs3 as [-> | ->]; [done|by right; left]).
  destruct z; cbn; (split_and!; [done|done|]); rewrite Hp3; by destruct Hor as [[? ?]|]; [left|right].
Qed.

Lemma told_law path mode owner before h h1 (m : M FsError H unit) :
  wp m (λ x h', whole path s text mode owner before h x h') h1 →
  wp (told_at path m) (λ x h', whole path s text mode owner before h x h') h1.
Proof.
  unfold wp, told_at. destruct (m h1) as [x h2]. cbn [fst snd]. intros (Hf & Hg & Hor).
  split_and!; [done|done|]. destruct Hor as [[? ?]|]; [left; split; [done|intros Hx; by destruct x as [[]|e| |]]|by right].
Qed.

Lemma place_law path mode owner h :
  wp (place path mode owner fill) (λ x h', whole path s text mode owner (seen h (beside path)) h x h') h.
Proof.
  set (before := seen h (beside path)).
  assert (wp (ignoring (fs_remove_file (beside path));; cleaning_up (beside path) (put_aside path mode owner fill))
    (λ x h', whole path s text mode owner before h x h') h) as Hin.
  { apply wp_bind. eapply wp_mono; [apply remove_aside_law|]. intros x h1 (Hf1 & Hp1 & Hs1). fold before in Hs1.
    assert (∀ o, guarded s mode (seen h1 (beside path)) o → guarded s mode before o) as Hg.
    { intros o [-> |[-> |Ho]]; [|by right; left|by right; right]. destruct Hs1 as [-> | ->]; [by left|by right; left]. }
    assert (aside path s mode before h h1) as H1.
    { split; [eapply frame_more; [|exact Hf1]; set_solver|done|]. apply Hg. by left. }
    goes_on x. apply cleaning_law. eapply wp_mono; [apply put_aside_law|]. intros x h2 (Hf2 & Hg2 & Hor). rewrite Hp1 in Hor.
    split_and!; [eapply frame_trans; [apply H1|exact Hf2]|by apply Hg|done]. }
  by apply told_law.
Qed.
End placing.

(** ** The host keeps its promises *)

Section promises.
Context {H : Type} `{Law : LawfulHostCalls H} (passwd : string).
#[local] Existing Instance host_files.
#[local] Instance this_host : System H := host_system passwd.
Implicit Types (h : H) (p : string).

Lemma frame_touches ps h h' : frame ps h h' → touches ps h h'.
Proof.
  intros [Hf [He Hu]]. split; [|cbn; by rewrite He, Hu]. intros q Hq _. destruct (Hf q Hq) as [Hs Hx].
  cbn. unfold read_bytes, read_to_string. by rewrite Hs.
Qed.

Lemma fills_text s : ∀ p h o, seen h p = Some (mkSeen "" (Some "") PRIVATE o) →
  wp (fs_write_all p s) (λ x h', appends p s x h h' ∧ (x = Ok () → seen h' p ≫= s_text = Some s)) h.
Proof.
  intros p h o Hs. eapply wp_mono; [apply write_all_law|]. intros x h' [Ha Ht]. split; [done|]. intros Hx.
  exact (Ht _ _ Hs eq_refl Hx).
Qed.
Lemma fills_bytes s : ∀ p h o, seen h p = Some (mkSeen "" (Some "") PRIVATE o) →
  wp (fs_copy_into p s) (λ x h', appends p s x h h' ∧ (x = Ok () → True)) h.
Proof. intros p h o _. eapply wp_mono; [apply copy_into_law|]. by intros x h' Ha. Qed.

(** C30: A file is written whole or not at all.  However [write_file] ends, by an
    error of any of its calls or because the process died in it, the file is
    the one that was there, untouched, or it has all of the content, its mode
    and its owner; the second, and readable as text, when it ends well.
    Beside it there is what was there, nothing, or a file that only its owner
    can read unless it is complete.  No other file is changed. *)
Theorem a_file_is_placed_whole path content (mode : N) (owner : option Ids) h :
  let '(x, h') := write_file path content mode owner h in
  (∀ q, q ∉ [path; beside path] → seen h' q = seen h q) ∧
  (seen h' path = seen h path ∧ x ≠ Ok () ∨
    ∃ f, seen h' path = Some f ∧ s_bytes f = content ∧ s_text f = Some content ∧ s_mode f = mode ∧
      ∀ who, owner = Some who → s_owner f = who) ∧
  (seen h' (beside path) = seen h (beside path) ∨ seen h' (beside path) = None ∨
    ∃ f, seen h' (beside path) = Some f ∧ (s_mode f = PRIVATE ∨ s_bytes f = content ∧ s_mode f = mode)).
Proof.
  pose proof (place_law _ content (λ t, t = Some content) (fills_text content) path mode owner h) as Hw. unfold wp in Hw.
  change (write_file path content mode owner h) with (place path mode owner (λ file, fs_write_all file content) h).
  destruct (place path mode owner _ h) as [x h']. destruct Hw as ([Hf _] & Hg & Hor). cbn [fst snd] in *.
  split_and!; [intros q Hq; by apply Hf| |exact Hg]. destruct Hor as [?|(f & ? & ? & ? & ? & ?)]; [by left|right].
  by exists f.
Qed.

Lemma make_dir_touches path mode owner h : touches [] h (make_dir path mode owner h).2.
Proof.
  assert (∀ (m : M FsError H unit) (Q : H → Prop), wp m (λ _ h', Q h') h → Q (told_at path m h).2) as Htold.
  { intros m Q. unfold wp, told_at. by destruct (m h). }
  apply (Htold _ (touches [] h)). clear Htold.
  assert (∀ f x h1 h2, seen h1 path = None → refits path f x h1 h2 → touches [] h1 h2 ∧ seen h2 path = None) as Hfit.
  { intros f x h1 h2 Hn ([Hf [He Hu]] & Hx & _ & Hor). rewrite Hn in Hor. assert (seen h2 path = None) as Hn2 by (by destruct Hor).
    split; [|done]. split; [|cbn; by rewrite He, Hu]. intros q _ _. cbn. unfold read_bytes, read_to_string.
    destruct (decide (q = path)) as [->|Hne]; [by rewrite Hn, Hn2|]. by destruct (Hf q ltac:(set_solver)) as [-> ?]. }
  apply wp_bind. eapply wp_mono; [apply create_dirs_law|]. intros x h1 [Hf1%frame_touches Hn1].
  destruct x as [[]|e| |]; try done. cbn [andthen]. specialize (Hn1 eq_refl).
  apply wp_bind. eapply wp_mono; [apply set_permissions_law|]. intros x h2 [Ht2 Hn2]%Hfit; [|done].
  assert (touches [] h h2) as Ht by (by eapply touches_trans).
  destruct x as [[]|e| |]; try done. cbn [andthen]. destruct owner as [who|]; [|by apply wp_ret].
  eapply wp_mono; [apply chown_law|]. intros x h3 [Ht3 _]%Hfit; [|done]. by eapply touches_trans.
Qed.

(** What installing asks of a host is what this host does. *)
#[global] Instance host_lawful : LawfulSystem H.
Proof.
  split.
  - intros h p t. cbn. unfold read_to_string, read_bytes. destruct (seen h p) as [f|] eqn:Hf; [|done]. cbn.
    intros Ht. by rewrite (text_is_bytes _ _ _ _ Hf Ht).
  - intros h p. cbn. unfold read_bytes. intros [b Hb]. apply seen_exists. by destruct (seen h p).
  - intros h p q. cbn. destruct (read_bytes h p) as [one|]; [|by split; [|intros (?&?&?)]].
    destruct (read_bytes h q) as [other|]; [|by split; [|intros (?&?&?)]]. rewrite String.eqb_eq. naive_solver.
  - apply make_dir_touches.
  - intros p content mode who h.
    pose proof (place_law _ content (λ t, t = Some content) (fills_text content) p mode who h) as Hw. unfold wp in Hw. cbn.
    unfold host_write_file. destruct (place p mode who _ h) as [x h']. destruct Hw as (Hf & _ & Hor). cbn [fst snd] in *.
    split; [by apply frame_touches|]. intros Hx. destruct Hor as [[_ ?]|(f & Hs & _ & Ht & _)]; [done|].
    unfold read_to_string. by rewrite Hs.
  - intros from to h. cbn. unfold host_install_binary, mbind, M_bind, told_at. pose proof (open_law from h) as Ho. unfold wp in Ho.
    destruct (fs_open from h) as [[b|e| |] h1]; cbn [fst snd map_err] in *; destruct Ho as [Hf1 Hb];
      [|by (split; [apply frame_touches; eapply frame_more; [|exact Hf1]; set_solver|done])..].
    pose proof (place_law _ b (λ _, True) (fills_bytes b) to 493 None h1) as Hw. unfold wp in Hw.
    destruct (place to 493 None _ h1) as [x h2]. destruct Hw as (Hf & _ & Hor). cbn [fst snd] in *.
    split; [apply frame_touches; eapply frame_trans; [eapply frame_more; [|exact Hf1]; set_solver|exact Hf]|].
    intros Hx. destruct Hor as [[_ ?]|(f & Hs & Hbs & _)]; [done|]. exists b. split; [by apply Hb|].
    unfold read_bytes. by rewrite Hs, <- Hbs.
  - intros p h. cbn. unfold host_remove_file. pose proof (remove_law p h) as Hr. unfold wp in Hr.
    destruct (fs_remove_file p h) as [[[]|e| |] h1]; cbn [fst snd] in Hr; destruct Hr as (Hf%frame_touches & Hn & _).
    + split; [done|]. intros _. cbn. unfold read_bytes. by rewrite Hn by auto.
    + destruct (is_not_found e) eqn:He; cbn; [|by split]. split; [done|]. intros _. unfold read_bytes. rewrite Hn; [done|].
      right. by exists e.
    + by split.
    + by split.
  - intros program args h. cbn. unfold host_run. pose proof (command_law program args h) as Hc. unfold wp in Hc.
    assert (∀ h', (∀ q, ¬ foreign q → seen h' q = seen h q ∧ (path_exists h q = true → path_exists h' q = true)) ∧
      current_exe h' = current_exe h ∧ effective_uid h' = effective_uid h → touches [] h h') as Ht.
    { intros h' (Hf & He & Hu). split; [|cbn; by rewrite He, Hu]. intros q _ Hq. destruct (Hf q Hq) as [Hs Hx].
      cbn. unfold read_bytes, read_to_string. by rewrite Hs. }
    destruct (command_output program args h) as [[[[] stderr]|e| |] h1]; cbn [fst snd] in *; by apply Ht.
Qed.
End promises.
