(* ===== verification/HostDemo.v ===== *)
(** A host in memory whose calls may fail or be the process's last: a file
    that is written while it dies, and one that is not. *)

From stdpp Require Import strings gmap.
From S2P Require Import Prelude Text Rate Config Plan Install Installed Setup Host.

(** What becomes of the next calls; then all is well. *)
Inductive Fate := Fine | Fails | Dies.
Record Memory := mkMemory { m_files : gmap string Seen; fates : list Fate }.

Definition NotFound : FsError := mkFsError true "No such file or directory (os error 2)".
Definition Broken : FsError := mkFsError false "Input/output error (os error 5)".

(** A call that does [done], or is stopped by its fate and leaves [cut]. *)
Definition call {A} (run : gmap string Seen → outcome FsError A * gmap string Seen)
    (cut : gmap string Seen → gmap string Seen) : M FsError Memory A := λ h,
  match fates h with
  | Fails :: later => (Err Broken, mkMemory (cut (m_files h)) later)
  | Dies :: later => (Killed, mkMemory (cut (m_files h)) later)
  | _ => let '(x, fs) := run (m_files h) in (x, mkMemory fs (tail (fates h)))
  end.
(** A file's text is its bytes, if it is text. *)
Definition shown (f : Seen) : Seen := mkSeen (s_bytes f) ((λ _, s_bytes f) <$> s_text f) (s_mode f) (s_owner f).
Definition refit (p : string) (f : Seen → Seen) (fs : gmap string Seen) : outcome FsError unit * gmap string Seen :=
  (Ok (), alter f p fs).
Definition append (s : string) (f : Seen) : Seen :=
  mkSeen (s_bytes f ++ s) ((λ t, t ++ s)%string <$> s_text f) (s_mode f) (s_owner f).
Definition half (s : string) : string := substring 0 (String.length s / 2) s.
Definition writing (p s : string) : M FsError Memory unit :=
  call (refit p (append s)) (λ fs, (refit p (append (half s)) fs).2).

#[export] Instance memory_calls : HostCalls Memory := {
  seen h p := shown <$> m_files h !! p;
  path_exists h p := true;
  effective_uid h := Some 0%N;
  current_exe h := Ok "/home/me/passalong-server";
  time_now h := 1800000000%N;
  foreign _ := False;
  fs_remove_file p := call (λ fs, match fs !! p with Some _ => (Ok (), delete p fs) | None => (Err NotFound, fs) end) id;
  fs_create_dir_all p := call (λ fs, (Ok (), fs)) id;
  fs_create_dirs p m := call (λ fs, match fs !! p with Some _ => (Err Broken, fs) | None => (Ok (), fs) end) id;
  fs_create_private p := call (λ fs, match fs !! p with
    | Some _ => (Err Broken, fs) | None => (Ok (), <[p := mkSeen "" (Some "") PRIVATE (0, 0)%N]> fs) end) id;
  fs_write_all := writing;
  fs_copy_into := writing;
  fs_sync_all p := call (λ fs, (Ok (), fs)) id;
  fs_set_permissions p m := call (refit p (with_mode m)) id;
  fs_chown p o := call (refit p (with_owner o)) id;
  fs_rename p q := call (λ fs, match fs !! p with Some f => (Ok (), <[q := f]> (delete p fs)) | None => (Err NotFound, fs) end) id;
  fs_open p := call (λ fs, match fs !! p with Some f => (Ok (s_bytes f), fs) | None => (Err NotFound, fs) end) id;
  command_output program args := call (λ fs, (Ok (true, ""), fs)) id;
}.

Lemma memory_frame (ps : list string) (h h' : Memory) :
  (∀ q, q ∉ ps → m_files h' !! q = m_files h !! q) → frame ps h h'.
Proof. intros Hf. split; [|done]. intros q Hq. cbn. by rewrite (Hf q Hq). Qed.

(** A call leaves what it does, or what was cut short. *)
Lemma call_law {A} run cut (Q : outcome FsError A → Memory → Prop) (h : Memory) :
  (∀ later, Q (run (m_files h)).1 (mkMemory (run (m_files h)).2 later)) →
  (∀ x later, (x = Killed ∨ x = Err Broken) → Q x (mkMemory (cut (m_files h)) later)) →
  wp (call run cut) Q h.
Proof.
  intros Hr Hc. unfold wp, call. destruct (fates h) as [|[] later].
  - specialize (Hr []). by destruct (run (m_files h)).
  - specialize (Hr later). by destruct (run (m_files h)).
  - apply Hc. by right.
  - apply Hc. by left.
Qed.

(** One file is changed by [f], or left. *)
Lemma alter_frame p f h later : frame [p] h (mkMemory (alter f p (m_files h)) later).
Proof. apply memory_frame. intros q Hq. cbn. rewrite lookup_alter_ne; [done|set_solver]. Qed.
Lemma same_frame ps h later : frame ps h (mkMemory (m_files h) later).
Proof. by apply memory_frame. Qed.
Lemma seen_altered p f h later : (∀ k, shown (f k) = f (shown k)) →
  seen (mkMemory (alter f p (m_files h)) later) p = f <$> seen h p.
Proof. intros Hf. cbn. rewrite lookup_alter_eq. destruct (m_files h !! p); [|done]. cbn. by rewrite Hf. Qed.

Lemma refit_law p f h : (∀ k, shown (f k) = f (shown k)) →
  wp (call (refit p f) id) (λ x h', refits p f x h h') h.
Proof.
  intros Hf. apply call_law.
  - intros later. cbn. pose proof (seen_altered p f h later Hf) as Hs. split_and!; [apply alter_frame|done|done|by left].
  - intros x later Hx. split_and!; [apply same_frame|done|by destruct Hx as [-> | ->]|by right].
Qed.

Lemma seen_appended p s h later s0 : seen h p = Some s0 →
  seen (mkMemory (alter (append s) p (m_files h)) later) p =
  Some (mkSeen (s_bytes s0 ++ s) ((λ _, s_bytes s0 ++ s)%string <$> s_text s0) (s_mode s0) (s_owner s0)).
Proof.
  cbn. rewrite lookup_alter_eq. destruct (m_files h !! p) as [f|]; [|done]. cbn. intros [= <-]. cbn.
  unfold shown, append. cbn. by destruct (s_text f).
Qed.
Lemma writing_law p s (h : Memory) : wp (writing p s) (λ x h', appends p s x h h' ∧
  ∀ s0 t0, seen h p = Some s0 → s_text s0 = Some t0 → x = Ok () → read_to_string h' p = Some (t0 ++ s)%string) h.
Proof.
  apply call_law.
  - intros later. cbn [refit fst snd]. split.
    + split; [apply alter_frame|]. intros s0 Hs. do 2 eexists. split; [done|]. by apply seen_appended.
    + intros s0 t0 Hs Ht _. unfold read_to_string. rewrite (seen_appended _ _ _ _ _ Hs). cbn. rewrite Ht. cbn.
      cbn in Hs. destruct (m_files h !! p) as [f|]; [|done]. cbn in Hs. injection Hs as <-. cbn in *.
      destruct (s_text f); [|done]. cbn in Ht. by injection Ht as <-.
  - intros x later Hx. cbn [refit fst snd]. split; [|by intros s0 t0 _ _; destruct Hx as [-> | ->]].
    split; [apply alter_frame|]. intros s0 Hs. exists (half s). eexists. split; [by destruct Hx as [-> | ->]|]. by apply seen_appended.
Qed.

#[export] Instance memory_lawful : LawfulHostCalls Memory.
Proof.
  split.
  - intros h p s t. cbn. destruct (m_files h !! p) as [f|]; [|done]. cbn. intros [= <-]. cbn. destruct (s_text f); [|done].
    by intros [= <-].
  - done.
  - intros p h. apply call_law.
    + intros later. destruct (m_files h !! p) as [f|] eqn:Hf; cbn.
      * split_and!; [apply memory_frame; intros q Hq; cbn; rewrite lookup_delete_ne; [done|set_solver]| |];
          [intros _|right]; by rewrite lookup_delete_eq.
      * split_and!; [apply same_frame|by rewrite Hf|by left].
    + intros x later Hx. split_and!; [apply same_frame| |by left]. intros [->|(e & -> & He)]; destruct Hx as [|Hx]; try done.
      by injection Hx as ->.
  - intros p h. apply call_law; intros; apply same_frame.
  - intros p m h. apply call_law.
    + intros later. destruct (m_files h !! p) as [f|] eqn:Hf; cbn; (split; [apply same_frame|]); [done|by rewrite Hf].
    + intros x later Hx. split; [apply same_frame|by destruct Hx as [-> | ->]].
  - intros p h. apply call_law.
    + intros later. destruct (m_files h !! p) as [f|] eqn:Hf; cbn; (split; [|]).
      * apply same_frame.
      * left. done.
      * apply memory_frame. intros q Hq. cbn. rewrite lookup_insert_ne; [done|set_solver].
      * right. rewrite Hf, lookup_insert_eq. split; [done|]. by eexists.
    + intros x later Hx. split; [apply same_frame|]. left. split; [done|by destruct Hx as [-> | ->]].
  - intros p s h. apply writing_law.
  - intros p s h. eapply wp_mono; [apply writing_law|]. by intros x h' [? _].
  - intros p h. apply call_law; intros; apply same_frame.
  - intros p m h. by apply refit_law.
  - intros p o h. by apply refit_law.
  - intros p q h Hne. apply call_law.
    + intros later. destruct (m_files h !! p) as [f|] eqn:Hf; cbn; (split; [|]).
      * apply memory_frame. intros r Hr. cbn. rewrite lookup_insert_ne, lookup_delete_ne; [done|set_solver..].
      * right. rewrite lookup_insert_ne, lookup_delete_eq, lookup_insert_eq, Hf by done. done.
      * apply same_frame.
      * left. done.
    + intros x later Hx. split; [apply same_frame|]. left. split_and!; [done..|by destruct Hx as [-> | ->]].
  - intros p h. apply call_law.
    + intros later. destruct (m_files h !! p) as [f|] eqn:Hf; cbn; (split; [apply same_frame|]); [|done].
      intros b [= <-]. unfold read_bytes. cbn. by rewrite Hf.
    + intros x later Hx. split; [apply same_frame|]. intros b. by destruct Hx as [-> | ->].
  - intros program args h. apply call_law; done.
Qed.

(** ** A file that is replaced *)

Definition unit_file : string := "/etc/unit".
Definition before : Memory :=
  mkMemory {[ unit_file := mkSeen "old" (Some "old") 420 (0, 0)%N ]} [].
Definition replaced (fates : list Fate) : outcome string unit * Memory :=
  host_write_file unit_file "newer" 420 (Some (987, 985)%N) (mkMemory (m_files before) fates).

(** It goes well; the write dies half-way; a failure is cleaned up after. *)
Example replacing :
  (replaced []).1 = Ok () ∧ m_files (replaced []).2 = {[ unit_file := mkSeen "newer" (Some "newer") 420 (987, 985)%N ]} ∧
  (replaced [Fine; Fine; Fine; Dies]).1 = Killed ∧
  m_files (replaced [Fine; Fine; Fine; Dies]).2 !! beside unit_file = Some (mkSeen "ne" (Some "ne") PRIVATE (0, 0)%N) ∧
  m_files (replaced [Fine; Fine; Fine; Fine; Fine; Fine; Fails]).2 = m_files before.
Proof. vm_compute. repeat split. Qed.

Lemma a_file_is_placed_whole_witness :
  seen (replaced [Fine; Fine; Fine; Dies]).2 unit_file = seen before unit_file ∧
  ∃ f, seen (replaced []).2 unit_file = Some f ∧ s_bytes f = "newer" ∧ s_owner f = (987, 985)%N.
Proof.
  split.
  - pose proof (a_file_is_placed_whole "/etc/passwd" unit_file "newer" 420 (Some (987, 985)%N) (mkMemory (m_files before) [Fine; Fine; Fine; Dies])) as H.
    change (write_file _ _ _ _ _) with (replaced [Fine; Fine; Fine; Dies]) in H.
    assert (s_bytes <$> seen (replaced [Fine; Fine; Fine; Dies]).2 unit_file = Some "old") as Hold by (vm_compute; reflexivity).
    destruct (replaced [Fine; Fine; Fine; Dies]) as [x h']. destruct H as (_ & [[H _]|(f & H & Hb & _)] & _); [exact H|].
    cbn [snd] in Hold. rewrite H in Hold. cbn in Hold. congruence.
  - pose proof (a_file_is_placed_whole "/etc/passwd" unit_file "newer" 420 (Some (987, 985)%N) (mkMemory (m_files before) [])) as H.
    change (write_file _ _ _ _ _) with (replaced []) in H.
    assert ((replaced []).1 = Ok ()) as Hok by (vm_compute; reflexivity).
    destruct (replaced []) as [x h']. cbn [fst snd] in *. destruct H as (_ & [[_ H]|(f & H & Hb & _ & _ & Ho)] & _); [done|].
    exists f. auto.
Defined.
