(* ===== verification/Output.v ===== *)
(** What commands print ([output.rs] of [passalong-server-cli]): times, sizes,
    and tables whose columns line up. *)

From stdpp Require Import pretty.
From S2P Require Import Prelude Text Clock.

Definition timestamp (unix : N) : string := rfc3339 unix.
Definition when_ (unix : option N) (absent : string) : string := from_option timestamp absent unix.

(** ** Sizes

    An [f64] holds 53 bits: of a larger number the nearest, and of two that are
    as near the even one.  Dividing by 1024 is exact, so that a value is a
    whole number over a power of 1024; [{:.1}] rounds as well to the nearest
    and then the even. *)
Definition half_even (n d : N) : N :=
  let q := (n / d)%N in let r := (n mod d)%N in
  if (2 * r <? d)%N then q else if (d <? 2 * r)%N then (q + 1)%N else if N.even q then q else (q + 1)%N.
Definition as_f64 (n : N) : N :=
  let grain := (2 ^ (N.log2 n - 52))%N in (half_even n grain * grain)%N.

Definition UNITS : list string := ["B"; "KiB"; "MiB"; "GiB"; "TiB"].

(** The loop over the units: [d] is what [value] was divided by so far. *)
Fixpoint divide (rounds : nat) (value d : N) (unit : nat) : N * nat :=
  match rounds with
  | O => (d, unit)
  | S rounds => if (1024 * d <=? value)%N then divide rounds value (1024 * d) (S unit) else (d, unit)
  end.

Definition size (bytes : N) : string :=
  let value := as_f64 bytes in
  let '(d, unit) := divide (length UNITS - 1) value 1 0 in
  match unit with
  | O => pretty bytes ++ " B"
  | _ => let tenths := half_even (10 * value) d in
      pretty (tenths / 10)%N ++ "." ++ pretty (tenths mod 10)%N ++ " " ++ default "" (UNITS !! unit)
  end%string.

Example sizes_are_in_binary_units :
  map size [0; 1023; 1536; 20 * 2 ^ 30; 2 ^ 20 - 1; u64_max]%N =
  ["0 B"; "1023 B"; "1.5 KiB"; "20.0 GiB"; "1024.0 KiB"; "16777216.0 TiB"].
Proof. vm_compute. reflexivity. Qed.

Lemma half_even_near n d : (d ≠ 0 → 2 * (half_even n d * d) ≤ 2 * n + d ∧ 2 * n ≤ 2 * (half_even n d * d) + d)%N.
Proof.
  intros Hd. unfold half_even. pose proof (N.div_mod n d Hd). pose proof (N.mod_lt n d Hd).
  set (q := (n / d)%N) in *. set (r := (n mod d)%N) in *. clearbody q r.
  repeat case_match; rewrite ?N.ltb_lt, ?N.ltb_ge in *; nia.
Qed.

Lemma as_f64_near n : (n ≤ u64_max → as_f64 n ≤ n + 1024 ∧ n ≤ as_f64 n + 1024)%N.
Proof.
  intros Hn. unfold as_f64. set (grain := (2 ^ (N.log2 n - 52))%N).
  assert (grain ≠ 0 ∧ grain ≤ 2048)%N as [Hg Hl].
  { unfold grain. split; [apply N.pow_nonzero; lia|]. change 2048%N with (2 ^ 11)%N. apply N.pow_le_mono_r; [lia|].
    assert (N.log2 n < 64)%N; [|lia]. destruct (decide (n = 0)%N) as [->|]; [done|]. apply N.log2_lt_pow2; [lia|].
    unfold u64_max, two64 in Hn. lia. }
  destruct (half_even_near n grain Hg). lia.
Qed.
Lemma as_f64_small n : (n < 2 ^ 53)%N → as_f64 n = n.
Proof.
  intros Hn. unfold as_f64. replace (N.log2 n - 52)%N with 0%N.
  - unfold half_even. by rewrite N.pow_0_r, N.div_1_r, N.mod_1_r, N.mul_1_r.
  - destruct (decide (n = 0)%N) as [->|]; [done|]. assert (N.log2 n < 53)%N; [|lia]. apply N.log2_lt_pow2; lia.
Qed.

Lemma divide_climbs rounds value d unit : (d ≤ value)%N → let '(d', unit') := divide rounds value d unit in
  unit ≤ unit' ≤ unit + rounds ∧ (d' = d * 1024 ^ N.of_nat (unit' - unit))%N ∧ (d' ≤ value)%N ∧
  (unit' = unit + rounds ∨ (value < 1024 * d')%N).
Proof.
  revert d unit. induction rounds as [|rounds IH]; intros d unit Hd; cbn [divide].
  - rewrite Nat.sub_diag, N.pow_0_r, N.mul_1_r. split_and!; [lia..|done|left; lia].
  - destruct (N.leb_spec (1024 * d) value) as [Hle|Hlt].
    + specialize (IH (1024 * d)%N (S unit) Hle). destruct (divide rounds value (1024 * d) (S unit)) as [d' unit'].
      destruct IH as (Hu & Hd' & Hv & Hor). split_and!; [lia|lia| |done|destruct Hor; [left; lia|by right]].
      rewrite Hd'. replace (unit' - unit) with (S (unit' - S unit)) by lia. rewrite Nat2N.inj_succ, N.pow_succ_r'. lia.
    + rewrite Nat.sub_diag, N.pow_0_r, N.mul_1_r. split_and!; [lia..|done|by right].
Qed.

(** A size is written in the unit that leaves it below 1024, or the largest,
    and is off by half a tenth of the unit, the rounding of an [f64] aside; below 2^53
    that is all it is off by. *)
Theorem a_size_is_the_nearest_tenth (bytes : N) : (bytes ≤ u64_max)%N →
  (bytes < 1024)%N ∧ size bytes = (pretty bytes ++ " B")%string ∨
  ∃ unit name tenths, let d := (1024 ^ N.of_nat unit)%N in
    1 ≤ unit ≤ 4 ∧ UNITS !! unit = Some name ∧
    size bytes = (pretty (tenths / 10)%N ++ "." ++ pretty (tenths mod 10)%N ++ " " ++ name)%string ∧
    (unit = 4 ∨ (bytes < 1024 * d)%N) ∧
    (2 * (tenths * d) ≤ 20 * bytes + d + 20480 ∧ 20 * bytes ≤ 2 * (tenths * d) + d + 20480)%N ∧
    (bytes < 2 ^ 53 → d ≤ bytes ∧ 2 * (tenths * d) ≤ 20 * bytes + d ∧ 20 * bytes ≤ 2 * (tenths * d) + d)%N.
Proof.
  intros Hb. pose proof (as_f64_near bytes Hb) as Hnear. pose proof (as_f64_small bytes) as Hsmall. unfold size.
  destruct (decide (bytes < 1024)%N) as [Hlt|Hge].
  { left. split; [done|]. rewrite (Hsmall ltac:(lia)). change (length UNITS - 1) with 4. cbn [divide].
    by destruct (N.leb_spec (1024 * 1) bytes); [lia|]. }
  right. set (value := as_f64 bytes) in *.
  assert (1024 ≤ value)%N as Hv.
  { destruct (decide (bytes < 2 ^ 53)%N) as [Hs|]; [rewrite (Hsmall Hs); lia|lia]. }
  change (length UNITS - 1) with 4. pose proof (divide_climbs 4 value 1 0 ltac:(lia)) as Hdiv.
  destruct (divide 4 value 1 0) as [d unit] eqn:Heq. destruct Hdiv as (Hu & Hd & Hle & Hor).
  rewrite N.mul_1_l, Nat.sub_0_r in Hd. cbn [Nat.add] in Hu, Hor.
  assert (unit ≠ 0) as Hne.
  { intros ->. cbn in Hd. destruct Hor as [?|Hor]; [done|]. lia. }
  assert (is_Some (UNITS !! unit)) as [name Hname] by (apply lookup_lt_is_Some; cbn; lia).
  exists unit, name, (half_even (10 * value) d). cbn zeta. rewrite <- Hd, Hname. cbn [default].
  assert (d ≠ 0)%N as Hd0 by (rewrite Hd; apply N.pow_nonzero; lia).
  destruct (half_even_near (10 * value) d Hd0). split_and!; [lia|lia|done|by destruct unit| |lia|lia|].
  - destruct (decide (unit = 4)) as [|Hn4]; [by left|]. right. destruct Hor as [|Hlt]; [done|].
    assert (d ≤ 1024 ^ 3)%N as Hd3 by (rewrite Hd; apply N.pow_le_mono_r; lia).
    rewrite <- Hsmall; [done|]. lia.
  - intros Hs. rewrite (Hsmall Hs) in *. lia.
Qed.

(** ** Tables *)

(** [text.chars().count()]: in UTF-8 a character has one byte that is not of
    the form 10xxxxxx. *)
Definition continues (b : ascii) : bool := let n := N_of_ascii b in ((128 <=? n) && (n <? 192))%N.
Definition chars (s : string) : nat := length (List.filter (λ b, negb (continues b)) (str_bytes s)).

(** A row that is longer than the headings loses what is behind them. *)
Fixpoint widen (widths : list nat) (row : list string) : list nat :=
  match widths, row with
  | w :: widths, cell :: row => Nat.max w (chars cell) :: widen widths row
  | _, _ => widths
  end.
Definition widths (headings : list string) (rows : list (list string)) : list nat :=
  fold_left widen rows (map String.length headings).

Definition spaces (n : nat) : string := string_of_list_ascii (repeat " "%char n).
(** [{cell:<width$}] *)
Definition pad (cell : string) (width : nat) : string := (cell ++ spaces (width - chars cell))%string.
Fixpoint join_cells (cells : list string) : string :=
  match cells with [] => "" | [c] => c | c :: cells => (c ++ "  " ++ join_cells cells)%string end.
Definition padded_line (ws : list nat) (cells : list string) : string := join_cells (zip_with pad cells ws).
Definition table_line (ws : list nat) (cells : list string) : string := trim_end (padded_line ws cells).

Definition table (headings : list string) (rows : list (list string)) : string :=
  let ws := widths headings rows in
  (join_by "010" (table_line ws headings :: map (table_line ws) rows) ++ newline)%string.

Example a_table :
  table ["ID"; "LABEL"] [["3f9a"; "laptop"]; ["b2"; "nas"]] =
  ("ID    LABEL" ++ newline ++ "3f9a  laptop" ++ newline ++ "b2    nas" ++ newline)%string.
Proof. vm_compute. reflexivity. Qed.

Lemma chars_app s t : chars (s ++ t) = chars s + chars t.
Proof. unfold chars. by rewrite str_bytes_app, List.filter_app, length_app. Qed.
Lemma chars_spaces n : chars (spaces n) = n.
Proof.
  unfold chars, spaces, str_bytes. rewrite list_ascii_of_string_of_list_ascii. induction n as [|n IH]; [done|].
  cbn [repeat List.filter]. change (continues " ") with false. cbn [negb length]. by rewrite IH.
Qed.
Lemma chars_bytes s : chars s ≤ String.length s.
Proof.
  unfold chars, str_bytes. induction s as [|c s IH]; [done|]. cbn [list_ascii_of_string List.filter String.length].
  case_match; cbn [length]; lia.
Qed.

Lemma widen_lookup ws row j w : ws !! j = Some w → ∃ w', widen ws row !! j = Some w' ∧ w ≤ w' ∧
  ∀ cell, row !! j = Some cell → chars cell ≤ w'.
Proof.
  revert row j. induction ws as [|w0 ws IH]; intros [|c row] [|j] Hw; try done; cbn [widen].
  - exists w. done.
  - exists w. done.
  - injection Hw as ->. exists (Nat.max w (chars c)). split_and!; [done|lia|]. intros cell [= ->]. lia.
  - exact (IH row j Hw).
Qed.

Lemma length_widen rows ws : length (fold_left widen rows ws) = length ws.
Proof.
  revert ws. induction rows as [|row rows IH]; intros ws; [done|]. cbn [fold_left]. rewrite IH. clear.
  revert row. induction ws as [|w ws IH]; intros [|c row]; cbn; [done..|by rewrite IH].
Qed.

(** Each column is as wide as the widest of its cells. *)
Lemma widths_fit headings rows j w : widths headings rows !! j = Some w →
  ∀ row cell, row ∈ headings :: rows → row !! j = Some cell → chars cell ≤ w.
Proof.
  unfold widths. set (ws0 := map String.length headings).
  assert (∀ ws j w, fold_left widen rows ws !! j = Some w →
    (∀ w0, ws !! j = Some w0 → w0 ≤ w) ∧ ∀ row cell, row ∈ rows → row !! j = Some cell → chars cell ≤ w) as Hrows.
  { clear. induction rows as [|r rows IH]; intros ws j w Hw; cbn [fold_left] in Hw.
    - split; [intros w0 Hw0; rewrite Hw in Hw0; by injection Hw0 as ->|intros ? ? Hin; by apply not_elem_of_nil in Hin].
    - destruct (IH _ _ _ Hw) as [Hfirst Hrest]. split.
      + intros w0 Hw0. destruct (widen_lookup ws r j w0 Hw0) as (w' & Hw' & Hle & _). specialize (Hfirst _ Hw'). lia.
      + intros row cell [->|Hin]%elem_of_cons Hcell; [|eauto]. destruct (ws !! j) as [w0|] eqn:Hw0.
        * destruct (widen_lookup ws r j w0 Hw0) as (w' & Hw' & _ & Hc). specialize (Hfirst _ Hw'). specialize (Hc _ Hcell). lia.
        * apply lookup_ge_None in Hw0. apply lookup_lt_Some in Hw. rewrite length_widen in Hw.
          pose proof (length_widen [r] ws) as Hl. cbn [fold_left] in Hl. lia. }
  intros Hw row cell [->|Hin]%elem_of_cons Hcell; [|by eapply Hrows].
  assert (ws0 !! j = Some (String.length cell)) as H0 by (unfold ws0; rewrite list_lookup_fmap, Hcell; done).
  destruct (Hrows _ _ _ Hw) as [Hfirst _]. specialize (Hfirst _ H0). pose proof (chars_bytes cell). lia.
Qed.

(** Where column [j] begins. *)
Definition column (ws : list nat) (j : nat) : nat := sum_list (take j ws) + 2 * j.

Lemma padded_at ws cells j cell w : cells !! j = Some cell → ws !! j = Some w →
  (∀ i c v, i < j → cells !! i = Some c → ws !! i = Some v → chars c ≤ v) →
  ∃ before after, padded_line ws cells = (before ++ pad cell w ++ after)%string ∧ chars before = column ws j.
Proof.
  unfold padded_line. revert ws j. induction cells as [|c cells IH]; intros [|w0 ws] [|j] Hc Hw Hfit; try done.
  - injection Hc as ->. injection Hw as ->. cbn [zip_with]. destruct (zip_with pad cells ws) as [|p ps] eqn:Hps.
    + exists "", "". by rewrite str_app_nil.
    + exists "", ("  " ++ join_cells (p :: ps))%string. by split.
  - destruct (IH ws j Hc Hw) as (before & after & Heq & Hb).
    { intros i c' v Hi. apply (Hfit (S i)). lia. }
    exists (pad c w0 ++ "  " ++ before)%string, after. cbn [zip_with].
    destruct (zip_with pad cells ws) as [|p ps] eqn:Hps.
    { apply (f_equal length) in Hps. rewrite length_zip_with in Hps. apply lookup_lt_Some in Hc, Hw. cbn in *. lia. }
    change (join_cells (pad c w0 :: p :: ps)) with (pad c w0 ++ "  " ++ join_cells (p :: ps))%string.
    rewrite Heq, !str_app_assoc. split; [done|]. unfold pad, column. rewrite !chars_app, chars_spaces, Hb.
    assert (chars c ≤ w0) by (by apply (Hfit 0); [lia|..]). cbn [take sum_list]. unfold column. change (chars "  ") with 2. cbn. lia.
Qed.

(** A table lines its columns up: in every line, the headings' among them, the
    cell of a column begins after as many characters as in every other, and
    is padded to the width of the column, which it does not exceed; only what
    is white at the end of a line is dropped. *)
Theorem a_table_lines_its_columns_up (headings : list string) (rows : list (list string)) (row : list string) (j : nat)
    (cell : string) :
  row ∈ headings :: rows → row !! j = Some cell → j < length headings →
  let ws := widths headings rows in
  ∃ w before after, ws !! j = Some w ∧ chars cell ≤ w ∧
    table_line ws row = trim_end (before ++ pad cell w ++ after) ∧ chars before = column ws j.
Proof.
  intros Hrow Hcell Hj ws. assert (is_Some (ws !! j)) as [w Hw].
  { apply lookup_lt_is_Some. unfold ws, widths. by rewrite length_widen, length_map. }
  destruct (padded_at ws row j cell w Hcell Hw) as (before & after & Heq & Hb).
  { intros i c v _ Hc Hv. by eapply widths_fit. }
  exists w, before, after. split_and!; [done|by eapply widths_fit| |done]. unfold table_line. by rewrite Heq.
Qed.
