(* ===== verification/Health.v ===== *)
(** [check --health] ([serve.rs] of [passalong-server-cli]): the probe of a
    server that runs, over a network, and that what answers it is the server
    of this configuration. *)

From S2P Require Import Prelude Text Shelf Rate Net Clock Config Install Tls HttpClient.

(** The network: connecting, and a TLS handshake, which asks whether the
    certificate that is presented is to be trusted. *)
Class Network (Net St : Type) := {
  tcp_connect : IpAddr * N → Net → outcome HttpError St;
  tls_connect : (string → outcome TlsError unit) → St → outcome HttpError St;
}.

(** A handshake is completed only with a server that has the key of a
    certificate that was trusted. *)
Class LawfulNetwork (Net St : Type) `{Network Net St} := {
  presents : St → string → Prop;
  tls_connect_law trusts s s' : tls_connect trusts s = Ok s' → ∃ certificate, presents s certificate ∧ trusts certificate = Ok ();
}.

(** Why a probe fails. *)
Inductive HealthError :=
| NoTlsToAsk
| NoCertificateFile (file err : string)
| NoPin (file : string) (e : TlsError)
| NotReady (addr : IpAddr * N) (status : N)
| NoAnswer (addr : IpAddr * N) (e : HttpError)
| NotInTime (addr : IpAddr * N).

Section health.
Context {Net St : Type} `{Network Net St} `{HttpStream St} `{Externals, Certificates}.

(** Where requests go, and how: [None] for plain HTTP. *)
Record Client := mkClient { cl_addr : IpAddr * N; cl_tls : option Pinned }.
Definition plain (addr : IpAddr * N) : Client := mkClient addr None.
Definition pinned_to (addr : IpAddr * N) (pin : string) : outcome TlsError Client :=
  config ← client_config pin; Ok (mkClient addr (Some config)).

Definition send (c : Client) (request : RequestBuilder) (net : Net) : outcome HttpError HttpResponse :=
  stream ← tcp_connect (cl_addr c) net;
  match cl_tls c with
  | None => (exchange request stream).1
  | Some config =>
      stream ← tls_connect (verify_server_cert config) stream;
      (exchange request stream).1
  end.

(** [timeout] is whether the time is up before [x] is there. *)
Definition within_time {A} (in_time : bool) (x : A) : option A := if in_time then Some x else None.

Definition client_of (config : Config) (read : string → outcome string string) : outcome HealthError Client :=
  let addr := Net.local (address (listen config)) in
  match mode (listen config) with
  | PlainMode => Ok (plain addr)
  | TlsMode =>
      files ← ok_or NoTlsToAsk (tls config);
      let file := cert_file files in
      pem ← map_err (NoCertificateFile file) (read file);
      pin ← map_err (NoPin file) (Tls.pin_of_pem pem);
      map_err (NoPin file) (pinned_to addr pin)
  end.

Definition health (config : Config) (read : string → outcome string string) (in_time : bool) (net : Net) :
    outcome HealthError (IpAddr * N) :=
  client ← client_of config read;
  let addr := Net.local (address (listen config)) in
  match within_time in_time (send client (RequestBuilder.request (write_socket addr) "GET" "/readyz") net) with
  | Some (Ok answer) => if (hr_status answer =? 204)%N then Ok addr else Err (NotReady addr (hr_status answer))
  | Some (Err e) => Err (NoAnswer addr e)
  | _ => Err (NotInTime addr)
  end.

(** ** Who answered *)

Lemma readyz_head addr :
  head_of (RequestBuilder.request (write_socket addr) "GET" "/readyz") =
    Ok ("GET /readyz HTTP/1.1" ++ crlf ++ "Host: " ++ write_socket addr ++ crlf ++ "Connection: close" ++ crlf ++ crlf)%string.
Proof. unfold head_of. cbn. by rewrite !str_app_assoc. Qed.

Context `{!LawfulExternals, !LawfulCertificates, !LawfulNetwork Net St}.

Lemma local_specified listen : is_unspecified (Net.local listen).1 = false.
Proof. unfold Net.local. cbn [fst]. destruct (is_unspecified listen.1) eqn:Hu; [by destruct listen.1|done]. Qed.

(** A pin is as it is written, with nothing around it. *)
Lemma pin_of_trim certificate pin : pin_of certificate = Ok pin → trim pin = pin.
Proof. rewrite pin_of_Ok. intros (hash & _ & ->). apply pin_visible. Qed.
Lemma pin_of_pem_trim pem pin : pin_of_pem pem = Ok pin → trim pin = pin.
Proof.
  unfold pin_of_pem. destruct (head _); [|done]. cbn [ok_or mbind outcome_bind recast].
  destruct (map_err NotPem _) as [first| | |]; [|done..]. apply pin_of_trim.
Qed.

(** Whom a client with a pin trusts. *)
Lemma trusted_pin pin P certificate : client_config pin = Ok P → verify_server_cert P certificate = Ok () →
  pin_of certificate = Ok (trim pin).
Proof.
  unfold client_config. destruct (parse_pin pin) as [bytes| | |] eqn:Hp; [|done..]. intros [= <-].
  apply parse_pin_Ok in Hp as [_ ->]. unfold verify_server_cert, pin_of. cbn [pinned].
  destruct (spki_sha256 certificate) as [hash| | |]; [|done..]. cbn. by case_bool_decide; subst.
Qed.

(** What a client of the configuration is. *)
Lemma client_of_Ok config read client : client_of config read = Ok client →
  cl_addr client = Net.local (address (listen config)) ∧
  match mode (listen config) with
  | PlainMode => cl_tls client = None
  | TlsMode => ∃ files pem pin P, tls config = Some files ∧ read (cert_file files) = Ok pem ∧ pin_of_pem pem = Ok pin ∧
      client_config pin = Ok P ∧ cl_tls client = Some P
  end.
Proof.
  unfold client_of. destruct (mode (listen config)); [|by intros [= <-]].
  destruct (tls config) as [files|]; [|done]. cbn [ok_or mbind outcome_bind recast].
  destruct (read (cert_file files)) as [pem| | |] eqn:Hread; [|done..]. cbn [map_err mbind outcome_bind recast].
  destruct (pin_of_pem pem) as [pin| | |] eqn:Hpin; [|done..]. cbn [map_err mbind outcome_bind recast]. unfold pinned_to.
  destruct (client_config pin) as [P| | |] eqn:HP; [|done..]. intros [= <-]. cbn. split; [done|]. by exists files, pem, pin, P.
Qed.

(** C40: When the probe says that the server is ready, it connected to the
    configured address, on this host where that is every address, asked there
    for [/readyz], and that connection answered 204, in time; and in TLS mode
    the connection that was asked is the one the handshake left, which trusts
    nothing but certificates with the pin of the configured one, and such a
    certificate was presented. *)
Theorem what_is_healthy_is_this_server (config : Config) (read : string → outcome string string)
    (in_time : bool) (net : Net) (addr : IpAddr * N) :
  health config read in_time net = Ok addr →
  in_time = true ∧ addr = Net.local (address (listen config)) ∧ is_unspecified addr.1 = false ∧
  ∃ stream asked answer, tcp_connect addr net = Ok stream ∧
    (exchange (RequestBuilder.request (write_socket addr) "GET" "/readyz") asked).1 = Ok answer ∧
    hr_status answer = 204%N ∧
    match mode (listen config) with
    | PlainMode => asked = stream
    | TlsMode => ∃ files pem trusted certificate, tls config = Some files ∧ read (cert_file files) = Ok pem ∧
        tls_connect (verify_server_cert trusted) stream = Ok asked ∧
        (∀ any, verify_server_cert trusted any = Ok () → pin_of any = pin_of_pem pem) ∧
        presents stream certificate ∧ pin_of certificate = pin_of_pem pem
    end.
Proof.
  unfold health. destruct (client_of config read) as [client| | |] eqn:Hclient; [|done..]. cbn [mbind outcome_bind recast].
  apply client_of_Ok in Hclient as [Haddr Hmode]. destruct in_time; [|done]. cbn [within_time].
  destruct (send _ _ _) as [answer| | |] eqn:Hsend; [|done..].
  destruct (N.eqb_spec (hr_status answer) 204) as [Hst|]; [|done]. intros [= <-]. split; [done|]. split; [done|].
  split; [apply local_specified|]. unfold send in Hsend. rewrite Haddr in Hsend.
  destruct (tcp_connect _ net) as [stream| | |]; [|done..]. cbn [mbind outcome_bind recast] in Hsend. exists stream.
  destruct (mode (listen config)).
  - destruct Hmode as (files & pem & pin & P & Hf & Hr & Hpin & HP & Ht). rewrite Ht in Hsend.
    destruct (tls_connect _ stream) as [asked| | |] eqn:Hc; [|done..]. cbn [mbind outcome_bind recast] in Hsend.
    assert (∀ any, verify_server_cert P any = Ok () → pin_of any = pin_of_pem pem) as Hany.
    { intros any Htrust. by rewrite (trusted_pin _ _ _ HP Htrust), Hpin, (pin_of_pem_trim _ _ Hpin). }
    destruct (tls_connect_law _ _ _ Hc) as (certificate & Hpres & Htrust).
    exists asked, answer. split_and!; [done..|]. exists files, pem, P, certificate. split_and!; auto.
  - rewrite Hmode in Hsend. by exists stream, answer.
Qed.
End health.
