(* ===== verification/HealthDemo.v ===== *)
(** A witness for [check --health]: a server on this host that presents a
    certificate and answers. *)

From S2P Require Import Prelude Text Shelf Demo.
Import Demo.
From S2P Require Import Rate Net Clock Config Install Tls TlsDemo HttpClient Health.

(** A connection: the certificate that is presented, and what will be
    answered. *)
Record Line := mkLine { presented : string; answered : string }.

#[export] Instance line_stream : HttpStream Line := {|
  stream_write _ s := (true, s);
  stream_flush s := (true, s);
  read_to_end s := ((true, answered s), s);
|}.
#[export] Instance line_network : Network (IpAddr * N → option Line) Line := {|
  tcp_connect addr net := ok_or Broke (net addr);
  tls_connect trusts s := match trusts (presented s) with Ok _ => Ok s | _ => Err Broke end;
|}.
#[export] Instance line_lawful : LawfulNetwork (IpAddr * N → option Line) Line.
Proof.
  refine {| presents s certificate := presented s = certificate |}. cbn. intros trusts s s' Hs.
  exists (presented s). split; [done|]. by destruct (trusts (presented s)) as [[]| | |].
Defined.

Definition listening : Config :=
  mkConfig default_server default_listen (Some (mkTls "cert.pem" "key.pem")) default_section (mkRewriting 600) (mkStaging 24).
Definition reading (file : string) : outcome string string := if String.eqb file "cert.pem" then Ok "nas:k" else Err "not found".
Definition server_of (certificate : string) (addr : IpAddr * N) : option Line :=
  if bool_decide (addr = (V4 2130706433, 8443)%N)
  then Some (mkLine certificate ("HTTP/1.1 204 No Content" ++ crlf ++ crlf)) else None.

(** The certificate was renewed, and kept its key. *)
Lemma what_is_healthy_is_this_server_witness :
  ∃ stream answer, server_of "renewed:k" (V4 2130706433, 8443)%N = Some stream ∧
    (exchange (RequestBuilder.request "127.0.0.1:8443" "GET" "/readyz") stream).1 = Ok answer ∧ hr_status answer = 204%N ∧
    pin_of (presented stream) = pin_of_pem "nas:k".
Proof.
  assert (health listening reading true (server_of "renewed:k") = Ok (V4 2130706433, 8443)%N) as Hh by (vm_compute; reflexivity).
  destruct (what_is_healthy_is_this_server listening reading true (server_of "renewed:k") (V4 2130706433, 8443)%N Hh)
    as (_ & _ & _ & stream & asked & answer & Hc & Ha & Hst & files & pem & trusted & certificate & Hf & Hr & Ht & _ & Hp & Hpin).
  injection Hf as <-. injection Hr as <-. exists stream, answer. cbn in Hp.
  assert (asked = stream) as ->.
  { revert Ht. cbn [tls_connect line_network]. by destruct (verify_server_cert _ _); [intros [= ->]|..]. }
  split_and!; [|exact Ha|exact Hst|by rewrite Hp].
  revert Hc. cbn. destruct (server_of _ _); [by intros [= <-]|done].
Defined.

(** Whatever is answered but 204 is not readiness. *)
Definition starting_up (addr : IpAddr * N) : option Line :=
  Some (mkLine "nas:k" ("HTTP/1.1 503 Service Unavailable" ++ crlf ++ crlf)).
Example not_yet_ready : health listening reading true starting_up = Err (NotReady (V4 2130706433, 8443)%N 503%N).
Proof. vm_compute. reflexivity. Qed.

Example another_key : health listening reading true (server_of "nas:other") = Err (NoAnswer (V4 2130706433, 8443)%N Broke).
Proof. vm_compute. reflexivity. Qed.
