(* ===== verification/Accepting.v ===== *)
(** Accepting connections ([Incoming] of [passalong-server-api/src/server.rs]):
    in TLS mode every connection shakes hands in a task of its own, of which
    there is a bounded number, so that a client that says nothing holds up
    nobody but itself. *)

From S2P Require Import Prelude Text Rate Tls.

(** In milliseconds. *)
Definition HANDSHAKE : N := 10000.
Definition HANDSHAKES : nat := 1024.

(** A connection, by the number of its arrival, and where it is from. *)
Definition Stream : Type := N * (IpAddr * N).
Inductive Conn := Plain (s : Stream) | Tls (s : Stream) (config : ServerConfig).
Definition stream_of (c : Conn) : Stream := match c with Plain s | Tls s _ => s end.

(** A task of [handshake], which is given up at [until], and how it ended. *)
Record Handshake := mkHandshake { hs_stream : Stream; hs_config : ServerConfig; until : N; outcome_of : option bool }.

Record Incoming := mkIncoming { in_tls : bool; handshakes : list Handshake }.

Definition task (s : Stream) (i : Incoming) : option Handshake :=
  List.find (λ h, bool_decide (hs_stream h = s)) (handshakes i).
Definition without (s : Stream) (i : Incoming) : Incoming :=
  mkIncoming (in_tls i) (filter (λ h, hs_stream h ≠ s) (handshakes i)).

(** [handshake]: begun, with the pair in use, and ended. *)
Definition spawn (s : Stream) (current : ServerConfig) (now : N) (i : Incoming) : Incoming :=
  mkIncoming (in_tls i) (handshakes i ++ [mkHandshake s current (now + HANDSHAKE) None]).
Definition end_task (s : Stream) (well : bool) (i : Incoming) : Incoming :=
  mkIncoming (in_tls i)
    (map (λ h, if bool_decide (hs_stream h = s) then mkHandshake (hs_stream h) (hs_config h) (until h) (Some well) else h)
      (handshakes i)).

(** What [select!] may find ready: the listener has a connection, or an error;
    a task that ended. *)
Inductive Ready := Accepted (s : Stream) | CannotAccept | Joined (s : Stream).

Definition room (i : Incoming) : bool := length (handshakes i) <? HANDSHAKES.

(** A turn of the loop of [accept]: what it returns, when it does; after an
    error it waits a quarter of a second before the next turn. *)
Definition turn (current : ServerConfig) (now : N) (r : Ready) (i : Incoming) : option Conn * Incoming * N :=
  match r with
  | Accepted s =>
      if in_tls i then (None, spawn s current now i, now) else (Some (Plain s), i, now)
  | CannotAccept => (None, i, now + 250)%N
  | Joined s =>
      match task s i with
      | Some h => (match outcome_of h with Some true => Some (Tls s (hs_config h)) | _ => None end, without s i, now)
      | None => (None, i, now)
      end
  end.

(** What is ready: the listener is asked only while there is room. *)
Definition is_ready (r : Ready) (i : Incoming) : Prop :=
  match r with
  | Accepted _ | CannotAccept => room i = true
  | Joined s => ∃ h, task s i = Some h ∧ is_Some (outcome_of h)
  end.

(** ** What may happen

    An arrival is a connection, the pair that was in use and the time.  A task
    may end at any time, and time does not pass one that goes on by more than
    it is given. *)
Definition Arrival : Type := Stream * (ServerConfig * N).
Record At := mkAt {
  at_time : N;
  at_in : Incoming;
  awake : N;
  came : list Arrival;
  shaken : list (Stream * N);
  returned : list Conn;
}.

Definition arrive (r : Ready) (current : ServerConfig) (a : At) : list Arrival :=
  match r with Accepted s => (s, (current, at_time a)) :: came a | _ => came a end.
Definition take_turn (current : ServerConfig) (r : Ready) (a : At) : At :=
  let '(out, i, next) := turn current (at_time a) r (at_in a) in
  mkAt (at_time a) i next (arrive r current a) (shaken a) (from_option (λ c, c :: returned a) (returned a) out).

Inductive step : At → At → Prop :=
| step_time a t :
    (at_time a ≤ t)%N → Forall (λ h, outcome_of h = None → t ≤ until h)%N (handshakes (at_in a)) →
    step a (mkAt t (at_in a) (awake a) (came a) (shaken a) (returned a))
| step_task a s well h :
    task s (at_in a) = Some h → outcome_of h = None →
    step a (mkAt (at_time a) (end_task s well (at_in a)) (awake a) (came a)
      (if well then (s, at_time a) :: shaken a else shaken a) (returned a))
| step_turn a r current :
    (awake a ≤ at_time a)%N → is_ready r (at_in a) → (∀ s, r = Accepted s → s ∉ (came a).*1) →
    step a (take_turn current r a).

Definition begins (in_tls : bool) (now : N) : At := mkAt now (mkIncoming in_tls []) now [] [] [].

(** ** The invariant *)

Definition waiting (a : At) : list Stream := map hs_stream (handshakes (at_in a)).

(** A handshake that ended well, in its time. *)
Definition shook (a : At) (s : Stream) (config : ServerConfig) : Prop :=
  ∃ began ended, (s, (config, began)) ∈ came a ∧ (s, ended) ∈ shaken a ∧ (ended ≤ began + HANDSHAKE)%N.
Definition fair_task (a : At) (h : Handshake) : Prop :=
  (∃ began, (hs_stream h, (hs_config h, began)) ∈ came a ∧ until h = (began + HANDSHAKE)%N ∧
    (outcome_of h = None → at_time a ≤ until h)%N) ∧
  (outcome_of h = Some true → shook a (hs_stream h) (hs_config h)).

Record inv (tls : bool) (a : At) : Prop := {
  inv_mode : in_tls (at_in a) = tls;
  inv_room : length (handshakes (at_in a)) ≤ HANDSHAKES;
  inv_plain : tls = false → handshakes (at_in a) = [] ∧ returned a = map Plain (came a).*1;
  inv_once : NoDup (waiting a ++ map stream_of (returned a));
  inv_came s : s ∈ waiting a ++ map stream_of (returned a) → s ∈ (came a).*1;
  inv_tasks : Forall (fair_task a) (handshakes (at_in a));
  inv_returned : tls = true → Forall (λ c, ∃ s config, c = Tls s config ∧ shook a s config) (returned a);
}.

Lemma task_Some s i h : task s i = Some h → h ∈ handshakes i ∧ hs_stream h = s.
Proof. intros [Hin Hs]%List.find_some. apply list_elem_of_In in Hin. by apply bool_decide_eq_true in Hs. Qed.

Lemma nodup_map_inj {A B} (f : A → B) (l : list A) x y : NoDup (map f l) → x ∈ l → y ∈ l → f x = f y → x = y.
Proof.
  intros Hl. induction l as [|z l IH]; [by intros ?%elem_of_nil|]. cbn in Hl. apply NoDup_cons in Hl as [Hz Hl].
  assert (∀ w, w ∈ l → f z ≠ f w) as Hne by (intros w Hw He; apply Hz; rewrite He; by apply list_elem_of_fmap_2).
  intros [->|Hx]%elem_of_cons [->|Hy]%elem_of_cons He; [done|by destruct (Hne y)|by destruct (Hne x)|by apply IH].
Qed.

Lemma waiting_end_task s well i : map hs_stream (handshakes (end_task s well i)) = map hs_stream (handshakes i).
Proof. cbn. rewrite List.map_map. apply List.map_ext. intros h. by case_bool_decide. Qed.
Lemma waiting_without s i : map hs_stream (handshakes (without s i)) = filter (λ s', s' ≠ s) (map hs_stream (handshakes i)).
Proof.
  unfold without. cbn [handshakes]. induction (handshakes i) as [|h l IH]; [done|]. cbn [map]. rewrite !filter_cons.
  destruct (decide (hs_stream h ≠ s)); cbn [map]; by rewrite ?IH.
Qed.

Lemma shook_later a a' s config :
  came a ⊆ came a' → shaken a ⊆ shaken a' → shook a s config → shook a' s config.
Proof. intros Hc Hs (began & ended & H1 & H2 & H3). exists began, ended. auto. Qed.
Lemma fair_later a a' h :
  came a ⊆ came a' → shaken a ⊆ shaken a' → at_time a' = at_time a → fair_task a h → fair_task a' h.
Proof.
  intros Hc Hs Ht [(began & H1 & H2 & H3) H4]. split; [exists began; rewrite Ht; auto|]. intros Ho. eapply shook_later; eauto.
Qed.

Lemma begins_inv tls now : inv tls (begins tls now).
Proof. split; cbn; try done; first [apply NoDup_nil_2|unfold HANDSHAKES; lia|by intros ? ?%elem_of_nil]. Qed.

Lemma inv_time tls a t :
  inv tls a → (at_time a ≤ t)%N → Forall (λ h, outcome_of h = None → t ≤ until h)%N (handshakes (at_in a)) →
  inv tls (mkAt t (at_in a) (awake a) (came a) (shaken a) (returned a)).
Proof.
  intros [H1 H2 H3 H4 H5 H6 H7] Ht Hu. split; try done. apply Forall_forall. intros h Hin.
  rewrite Forall_forall in Hu, H6. destruct (H6 h Hin) as [(began & Hc & Hb & _) Ho]. split; [|done]. exists began. auto.
Qed.

Lemma inv_task tls a s well h : inv tls a → task s (at_in a) = Some h → outcome_of h = None →
  inv tls (mkAt (at_time a) (end_task s well (at_in a)) (awake a) (came a)
    (if well then (s, at_time a) :: shaken a else shaken a) (returned a)).
Proof.
  intros [H1 H2 H3 H4 H5 H6 H7] [Hin Hs]%task_Some Ho.
  assert (shaken a ⊆ (if well then (s, at_time a) :: shaken a else shaken a)) as Hsub by (destruct well; set_solver).
  split; unfold waiting in *; cbn [at_in returned came at_time shaken] in *; rewrite ?waiting_end_task; try done.
  - cbn. by rewrite length_map.
  - intros Ht. destruct (H3 Ht) as [He Hr]. cbn. by rewrite He.
  - cbn. apply List.Forall_map, Forall_forall. intros h' Hin'. rewrite Forall_forall in H6. pose proof (H6 h' Hin') as Hf.
    case_bool_decide as Hs'; [|by eapply fair_later; [..|exact Hf]].
    assert (h' = h) as ->.
    { apply NoDup_app in H4 as [Hn _]. eapply nodup_map_inj; [exact Hn|done..|congruence]. }
    destruct Hf as [(began & Hc & Hb & Hr) _]. specialize (Hr Ho). split; cbn; [by exists began|]. intros [= ->].
    exists began, (at_time a). rewrite Hs in *. split_and!; [done|by left|]. by rewrite <-Hb.
  - intros Ht. specialize (H7 Ht). eapply Forall_impl; [exact H7|]. intros c (s' & config & -> & Hsh).
    exists s', config. split; [done|]. by eapply shook_later; [..|exact Hsh].
Qed.

Lemma inv_turn tls a r current : inv tls a → is_ready r (at_in a) → (∀ s, r = Accepted s → s ∉ (came a).*1) →
  inv tls (take_turn current r a).
Proof.
  intros [H1 H2 H3 H4 H5 H6 H7] Hr Hnew. unfold take_turn, turn, arrive. destruct r as [s| |s]; cbn [is_ready] in Hr.
  - specialize (Hnew s eq_refl). assert (s ∉ waiting a ++ map stream_of (returned a)) as Hs by (intros Hin; by apply Hnew, H5).
    assert (came a ⊆ (s, (current, at_time a)) :: came a) as Hc by set_solver.
    destruct (in_tls (at_in a)) eqn:Htls.
    + split; cbn; [congruence| |congruence|..].
      * rewrite length_app. unfold room in Hr. apply Nat.ltb_lt in Hr. cbn. lia.
      * unfold waiting. cbn. rewrite map_app. cbn. rewrite <-app_assoc. cbn. rewrite <-Permutation_middle. apply NoDup_cons. split; [done|exact H4].
      * intros s' Hin. unfold waiting in *. cbn in Hin. rewrite map_app, !elem_of_app in Hin. apply elem_of_cons.
        destruct Hin as [[Hin| ->%list_elem_of_singleton]|Hin]; [right|by left|right]; apply H5, elem_of_app; auto.
      * apply Forall_app. split.
        -- eapply Forall_impl; [exact H6|]. intros h Hf. by eapply fair_later; [..|exact Hf].
        -- constructor; [|done]. split; [|done]. exists (at_time a). cbn. split_and!; [by left|done|]. intros _. lia.
      * intros Ht. eapply Forall_impl; [exact (H7 Ht)|]. intros c (s' & config & -> & Hsh). exists s', config.
        split; [done|]. by eapply shook_later; [..|exact Hsh].
    + assert (tls = false) as Hf by congruence. destruct (H3 Hf) as [He Hret]. split; cbn; [congruence|done|..].
      * intros _. by rewrite Hret.
      * unfold waiting in *. cbn. rewrite He in *. cbn in *. apply NoDup_cons. by split.
      * intros s' Hin. unfold waiting in *. cbn in Hin. rewrite He in *. cbn in *. apply elem_of_cons in Hin as [->|Hin]; [by left|right; auto].
      * by rewrite He.
      * congruence.
  - by split.
  - destruct Hr as (h & Htask & [well Ho]). rewrite Htask. apply task_Some in Htask as [Hin Hs].
    assert (s ∈ waiting a) as Hw by (unfold waiting; rewrite <-Hs; by apply list_elem_of_fmap_2).
    assert (tls = true) as Ht. { destruct tls; [done|]. destruct (H3 eq_refl) as [He _]. rewrite He in Hin. by apply elem_of_nil in Hin. }
    apply NoDup_app in H4 as (Hn1 & Hn2 & Hn3). rewrite Forall_forall in H6. destruct (H6 h Hin) as [_ Hsh].
    assert (∀ out, out = [] ∨ out = [Tls s (hs_config h)] ∧ well = true →
      inv tls (mkAt (at_time a) (without s (at_in a)) (at_time a) (came a) (shaken a) (out ++ returned a))) as Hinv.
    { intros out Hout. split; cbn [at_in returned came at_time shaken]; [done| | |..].
      - etrans; [apply length_filter|exact H2].
      - congruence.
      - unfold waiting. cbn [at_in returned]. rewrite waiting_without. apply NoDup_app. split_and!; [by apply NoDup_filter| |].
        + intros s' [Hne Hs']%list_elem_of_filter. rewrite map_app, elem_of_app. intros [Ho'|Hret]; [|by eapply Hn2].
          destruct Hout as [->|[-> _]]; [by apply elem_of_nil in Ho'|]. apply list_elem_of_singleton in Ho'. by subst.
        + rewrite map_app. destruct Hout as [->|[-> _]]; [done|]. cbn. apply NoDup_cons. split; [by apply Hn2|done].
      - intros s' Hs'. apply H5. unfold waiting in *. cbn [at_in] in Hs'. rewrite waiting_without in Hs'.
        apply elem_of_app in Hs' as [[_ Hs']%list_elem_of_filter|Hs']; [apply elem_of_app; by left|].
        rewrite map_app in Hs'. apply elem_of_app in Hs' as [Hs'|Hs']; [|apply elem_of_app; by right].
        destruct Hout as [->|[-> _]]; [by apply elem_of_nil in Hs'|]. apply list_elem_of_singleton in Hs' as ->. apply elem_of_app. by left.
      - apply Forall_forall. intros h' [_ Hin']%list_elem_of_filter. by apply H6.
      - intros _. apply Forall_app. split; [|by apply H7]. destruct Hout as [->|[-> ->]]; [done|]. constructor; [|done].
        exists s, (hs_config h). split; [done|]. rewrite <-Hs. by apply Hsh. }
    rewrite Ho. destruct well; [apply (Hinv [_]); by right|apply (Hinv []); by left].
Qed.

Lemma accepting_inv tls now a : rtc step (begins tls now) a → inv tls a.
Proof.
  intros Hr. assert (∀ x y, rtc step x y → inv tls x → inv tls y) as Hk; [|by eapply Hk; [exact Hr|apply begins_inv]].
  clear. induction 1 as [|x y z Hst _ IH]; [done|]. intros Hx. apply IH. destruct Hst; [by apply inv_time|by eapply inv_task|by apply inv_turn].
Qed.

(** C35: A client that says nothing holds up nobody but itself.  There are never
    more handshakes than there may be, and one that goes on began no longer
    ago than it is given; each connection is handed out at most once, in TLS
    mode only after a handshake that ended well and in its time, with the pair
    that was in use when it came, in plain mode each and in the order they
    came; and whoever has shaken hands can be handed out next, whatever the
    others do. *)
Theorem silence_holds_up_nobody (tls : bool) (now : N) (a : At) :
  rtc step (begins tls now) a →
  length (handshakes (at_in a)) ≤ HANDSHAKES ∧
  NoDup (map stream_of (returned a)) ∧
  (tls = false → returned a = map Plain (came a).*1) ∧
  (tls = true → Forall (λ c, ∃ s config, c = Tls s config ∧ shook a s config) (returned a)) ∧
  Forall (λ h, outcome_of h = None → ∃ began, (hs_stream h, (hs_config h, began)) ∈ came a ∧ (at_time a ≤ began + HANDSHAKE)%N)
    (handshakes (at_in a)) ∧
  ∀ s h, task s (at_in a) = Some h → outcome_of h = Some true → (awake a ≤ at_time a)%N →
    ∃ a', step a a' ∧ returned a' = Tls s (hs_config h) :: returned a.
Proof.
  intros Hr. destruct (accepting_inv _ _ _ Hr) as [H1 H2 H3 H4 H5 H6 H7]. split_and!; [done|by apply NoDup_app in H4 as (_ & _ & ?)| |done| |].
  - intros Ht. by apply H3.
  - eapply Forall_impl; [exact H6|]. intros h [(began & Hc & Hb & Ho) _] Hn. exists began. rewrite <-Hb. auto.
  - intros s h Ht Ho Ha. exists (take_turn (mkServerConfig [] "") (Joined s) a). split.
    + apply step_turn; [done|by exists h; rewrite Ho|done].
    + unfold take_turn, turn. by rewrite Ht, Ho.
Qed.

(** ** A silent client and another *)

Definition pair0 : ServerConfig := mkServerConfig ["c"] "k".
Definition silent : Stream := (1, (V4 1, 4000))%N.
Definition other : Stream := (2, (V4 2, 4000))%N.
Definition both_came : At := take_turn pair0 (Accepted other) (take_turn pair0 (Accepted silent) (begins true 0)).
Definition other_shook : At :=
  mkAt 0 (end_task other true (at_in both_came)) (awake both_came) (came both_came) [(other, 0%N)] [].
Definition handed_out : At := take_turn pair0 (Joined other) other_shook.

Lemma silence_holds_up_nobody_witness :
  returned handed_out = [Tls other pair0] ∧ waiting handed_out = [silent] ∧ NoDup (map stream_of (returned handed_out)).
Proof.
  assert (rtc step (begins true 0) handed_out) as Hr.
  { eapply rtc_l; [apply (step_turn _ (Accepted silent) pair0); [done|done|intros s _; apply not_elem_of_nil]|].
    eapply rtc_l; [apply (step_turn _ (Accepted other) pair0); [done|done|]|].
    { intros s [= <-]. cbn. intros [[=]|[]%elem_of_nil]%elem_of_cons. }
    eapply rtc_l; [exact (step_task both_came other true (mkHandshake other pair0 10000 None) eq_refl eq_refl)|].
    apply rtc_once. apply (step_turn other_shook (Joined other) pair0); [done| |done].
    exists (mkHandshake other pair0 10000 (Some true)). split; [reflexivity|by eexists]. }
  split; [vm_compute; reflexivity|]. split; [vm_compute; reflexivity|].
  exact (proj1 (proj2 (silence_holds_up_nobody true 0 handed_out Hr))).
Defined.
