(* ===== verification/Starting.v ===== *)
(** Starting the server ([Server::bind] and [open_pair] of
    [passalong-server-api/src/server.rs]): the database, the pair, the
    listener, in this order; and that a server which is to speak TLS speaks
    nothing else. *)

From stdpp Require Import functions relations.
From S2P Require Import Prelude Text Errors Shelf Demo.
Import Demo.
From S2P Require Import Schema Migration Rate Clock Config Tls Reloading TlsDemo Accepting.

(** [TcpListener::bind]: the address that is listened on, with the port the
    system chose when it was to choose. *)
Class TcpHost (W : Type) := bind_tcp : IpAddr * N → W → outcome string (IpAddr * N) * W.

(** Why the server did not start. *)
Inductive StartError :=
| CannotOpen (database : string)
| NoTls
| UnusablePair (cert_file key_file : string)
| CannotListen (address : IpAddr * N) (why : string).

(** Requests wait so long for the database, in milliseconds. *)
Definition BUSY : N := 10000.

(** A server that is bound and not yet serving. *)
Record Bound (C : Type) := mkBound {
  control : C;
  incoming : Incoming;
  reloading : option Pair;
  failures : FailureLimiter;
  addr : IpAddr * N;
  mode_name : string;
}.
Arguments mkBound {C} _ _ _ _ _ _.
Arguments control {C} _. Arguments incoming {C} _. Arguments reloading {C} _. Arguments failures {C} _.
Arguments addr {C} _. Arguments mode_name {C} _.

Section starting.
Context {W C X : Type} `{Externals} `{Certs : Certificates} `{Jn : Journal C} `{Mig : !Migrating C X} `{Db : !DatabaseFile W C}
  `{Tcp : !TcpHost W}.
(** The files of the pair, as they are while the server starts. *)
Context (pair_files : string → string → Part → option File).

(** [Reloading::open]: the calls of a look, from no pair. *)
Definition opened_pair (cert_file key_file : string) : Pair :=
  Nat.iter 4 (look cert_file key_file (pair_files cert_file key_file)) unopened.
Definition open_reloading (cert_file key_file : string) : option Pair :=
  let p := opened_pair cert_file key_file in if current p then Some p else None.

(** It never falls back to plain HTTP. *)
Definition open_pair (config : Config) : outcome StartError Pair :=
  match tls config with
  | None => Err NoTls
  | Some files =>
      match open_reloading (cert_file files) (key_file files) with
      | Some p => Ok p
      | None => Err (UnusablePair (cert_file files) (key_file files))
      end
  end.

Definition pair_for (config : Config) : outcome StartError (option Pair) :=
  match mode (listen config) with
  | PlainMode => Ok None
  | TlsMode => p ← open_pair config; Ok (Some p)
  end.

Definition open_control (fuel : nat) (config : Config) : M StartError W C := λ w,
  let '(x, w) := open_connection fuel (control_database config) BUSY w in
  (map_err (λ _, CannotOpen (control_database config)) x, w).
Definition bind_address (config : Config) : M StartError W (IpAddr * N) := λ w,
  let '(x, w) := bind_tcp (address (listen config)) w in (map_err (CannotListen (address (listen config))) x, w).

Definition bind (fuel : nat) (config : Config) : M StartError W (Bound C) :=
  c ← open_control fuel config;
  p ← lift (pair_for config);
  at_ ← bind_address config;
  mret (mkBound c (mkIncoming (match p with Some _ => true | None => false end) []) p
    (FailureLimiter.new (auth_failures_per_minute (limits_section config)) CAPACITY) at_
    (match mode (listen config) with PlainMode => "plain" | TlsMode => "tls" end)).

(** ** What has started *)

(** While nobody touches the files, an opening reads them as they are. *)
Lemma opened_pair_loads cert_file key_file (p : Pair) : open_reloading cert_file key_file = Some p →
  ∃ config, current p = Some config ∧ phase p = Idle ∧
    load cert_file key_file (read_file (pair_files cert_file key_file Cert)) (read_file (pair_files cert_file key_file Key)) = Ok config.
Proof.
  unfold open_reloading, opened_pair. set (d := pair_files cert_file key_file). clearbody d. set (q := Nat.iter 4 _ _).
  set (seen0 := Some (stamp_of (d Cert), stamp_of (d Key))). rewrite load_split.
  assert (q = look cert_file key_file d (look cert_file key_file d (mkPair None seen0 Loading))) as Hq by reflexivity.
  clearbody q. revert Hq. unfold look at 2. cbn [phase seen current].
  destruct (load_certificates cert_file (read_file (d Cert))) as [cs| | |]; [|by intros -> [=]..].
  unfold look. cbn [phase seen current].
  destruct (load_key cert_file key_file cs (read_file (d Key))) as [config| | |] eqn:Hk; [|by intros -> [=]..].
  intros -> [= <-]. by exists config.
Qed.

Lemma bound_by_bind fuel config w b w' : bind fuel config w = (Ok b, w') →
  ∃ c w1, open_connection fuel (control_database config) BUSY w = (Ok c, w1) ∧ control b = c ∧
    pair_for config = Ok (reloading b) ∧ in_tls (incoming b) = (match reloading b with Some _ => true | None => false end) ∧
    handshakes (incoming b) = [] ∧ bind_tcp (address (listen config)) w1 = (Ok (addr b), w').
Proof.
  unfold bind, open_control, bind_address, mbind, M_bind, lift.
  destruct (open_connection fuel (control_database config) BUSY w) as [[c| | |] w1]; try done. cbn.
  destruct (pair_for config) as [p| | |]; try done.
  destruct (bind_tcp (address (listen config)) w1) as [[a| | |] w2] eqn:Hb; try done. cbn. intros [= <- <-].
  by exists c, w1.
Qed.

(** C36: A server that is to speak TLS never speaks anything else.  It starts only
    with a database that was opened and brought up to date, and with the pair
    its configuration names, as that was read, and then every connection it
    ever hands to its router has shaken hands, with a pair that was in use;
    and where there is no such pair it ends without having listened at all. *)
Theorem a_tls_server_speaks_nothing_else (fuel : nat) (config : Config) (w : W) :
  mode (listen config) = TlsMode →
  (∀ b w', bind fuel config w = (Ok b, w') →
    ∃ files p first, tls config = Some files ∧ reloading b = Some p ∧ current p = Some first ∧
      load (cert_file files) (key_file files) (read_file (pair_files (cert_file files) (key_file files) Cert))
        (read_file (pair_files (cert_file files) (key_file files) Key)) = Ok first ∧
      (∃ w1, open_connection fuel (control_database config) BUSY w = (Ok (control b), w1)) ∧
      ∀ now a, rtc step (mkAt now (incoming b) now [] [] []) a →
        Forall (λ c, ∃ s used, c = Accepting.Tls s used ∧ shook a s used) (returned a)) ∧
  (∀ e w', pair_for config = Err e → bind fuel config w = (Err e, w') →
    w' = (open_connection fuel (control_database config) BUSY w).2).
Proof.
  intros Hmode. split.
  - intros b w' (c & w1 & Hc & <- & Hp & Htls & Hh & _)%bound_by_bind. unfold pair_for in Hp. rewrite Hmode in Hp.
    unfold open_pair in Hp. destruct (tls config) as [files|]; [|done].
    destruct (open_reloading (cert_file files) (key_file files)) as [p|] eqn:Ho; [|done]. injection Hp as Hp.
    destruct (opened_pair_loads _ _ _ Ho) as (first & Hcur & _ & Hload). exists files, p, first. rewrite <- Hp in Htls.
    split_and!; [done..|by exists w1|]. intros now a Hr.
    assert (incoming b = mkIncoming true []) as Hi by (destruct (incoming b); cbn in *; by subst).
    rewrite Hi in Hr. by apply (inv_returned _ _ (accepting_inv true now a Hr)).
  - intros e w' He. unfold bind, open_control, mbind, M_bind, lift.
    destruct (open_connection fuel (control_database config) BUSY w) as [[c| | |] w1]; cbn; [rewrite He|..]; by intros [=].
Qed.
End starting.

(** ** A server that starts, and one that does not *)

(** A world: the schema that is in the database's file, and what is listened
    on. *)
Record Hostlet := mkHostlet { stored : Schema.Schema; listening : list (IpAddr * N) }.
#[local] Instance hostlet_file : DatabaseFile Hostlet Connected := {
  create_file _ w := (true, w);
  connect _ w := (Some (mkConnected (stored w) [] 0), w);
  busy_timeout _ c := (true, c);
  configure c := (true, c);
}.
#[local] Instance hostlet_tcp : TcpHost Hostlet := λ a w,
  if bool_decide (a ∈ listening w) then (Err "Address already in use", w) else (Ok a, mkHostlet (stored w) (a :: listening w)).

Definition hostlet : Hostlet := mkHostlet (Schema.of_version 0) [].
Definition with_pair (config : Config) : Config :=
  mkConfig (server config) (listen config) (Some (mkTls "cert.pem" "key.pem")) (limits_section config) (rewriting config)
    (staging_section config).
Definition toy_files (cert_file key_file : string) : Part → option File := files ((1, 1)%N, Ok "a:1") ((1, 1)%N, Ok "1").

Lemma a_tls_server_speaks_nothing_else_witness :
  mode (listen (with_pair default_config)) = TlsMode ∧
  (bind (X := Begun) toy_files 4 default_config hostlet).2 = hostlet ∧
  ∃ b w', bind (X := Begun) toy_files 4 (with_pair default_config) hostlet = (Ok b, w') ∧
    listening w' = [(V4 0, 8443%N)] ∧ ∃ p first, reloading b = Some p ∧ current p = Some first.
Proof.
  split; [reflexivity|]. split.
  - etrans; [apply (proj2 (a_tls_server_speaks_nothing_else (X := Begun) toy_files 4 default_config hostlet eq_refl) NoTls);
      [reflexivity|vm_compute; reflexivity]|vm_compute; reflexivity].
  - destruct (bind (X := Begun) toy_files 4 (with_pair default_config) hostlet) as [x w'] eqn:Hb.
    assert (∃ b, x = Ok b ∧ listening w' = [(V4 0, 8443%N)]) as (b & -> & Hl).
    { change x with (x, w').1. change w' with (x, w').2 at 2. rewrite <- Hb. vm_compute. by eexists. }
    exists b, w'. split; [done|]. split; [done|].
    destruct (proj1 (a_tls_server_speaks_nothing_else (X := Begun) toy_files 4 (with_pair default_config) hostlet eq_refl) b w' Hb)
      as (? & p & first & _ & ? & ? & _). by exists p, first.
Defined.
