(* ===== verification/Stopping.v ===== *)
(** Serving and the orderly stop ([Server::run] of
    [passalong-server-api/src/server.rs], [told_to_stop] of [serve.rs]): what is
    in flight gets its time, which is bounded. *)

From stdpp Require Import relations.
From S2P Require Import Prelude Rate Accepting.

(** How long requests in flight may take to finish, in milliseconds. *)
Definition DRAIN : N := 30000.

(** [told_to_stop]: by SIGTERM, if it can be listened for, or by Ctrl-C. *)
Inductive Signal := Sigterm | CtrlC.
Definition stops (hears_term : bool) (s : Signal) : bool := match s with Sigterm => hears_term | CtrlC => true end.

(** How [run] ended: what is in flight was done, or its time was over; in
    either case the janitor is stopped. *)
Inductive Ending := AllDone | CutShort.

Record Running := mkRunning {
  run_time : N;
  in_flight : list Stream;
  told : option N;
  janitor_runs : bool;
  ended : option Ending;
}.

(** The answer to what may happen next: [axum::serve] takes connections until it
    is told, and is done when there are none; [select!] and [timeout] look at
    the clock. *)
Inductive Event := Connects (s : Stream) | Finishes (s : Stream) | Signalled (s : Signal) | Drained | TimeOver.

Section running.
Context (drain : N) (hears_term : bool).

Definition happens (e : Event) (r : Running) : option Running :=
  match ended r, e with
  | Some _, _ => None
  | None, Connects s =>
      match told r with None => Some (mkRunning (run_time r) (s :: in_flight r) None (janitor_runs r) None) | Some _ => None end
  | None, Finishes s => Some (mkRunning (run_time r) (filter (λ s', s' ≠ s) (in_flight r)) (told r) (janitor_runs r) None)
  | None, Signalled s =>
      Some (mkRunning (run_time r) (in_flight r)
        (match told r with None => if stops hears_term s then Some (run_time r) else None | t => t end) (janitor_runs r) None)
  | None, Drained =>
      match told r, in_flight r with
      | Some t, [] => Some (mkRunning (run_time r) [] (Some t) false (Some AllDone))
      | _, _ => None
      end
  | None, TimeOver =>
      match told r with
      | Some t => if (t + drain <=? run_time r)%N then Some (mkRunning (run_time r) (in_flight r) (Some t) false (Some CutShort)) else None
      | None => None
      end
  end.

(** Time does not pass the end of the drain while it goes on. *)
Definition may_pass (t : N) (r : Running) : Prop :=
  (run_time r ≤ t)%N ∧ (ended r = None → ∀ t0, told r = Some t0 → (t ≤ t0 + drain)%N).

Inductive run_step : Running → Running → Prop :=
| run_event e r r' : happens e r = Some r' → run_step r r'
| run_passes t r : may_pass t r → run_step r (mkRunning t (in_flight r) (told r) (janitor_runs r) (ended r)).

Definition run_begins (now : N) : Running := mkRunning now [] None true None.

Record run_inv (r : Running) : Prop := {
  told_before t : told r = Some t → (t ≤ run_time r)%N;
  within_drain t : ended r = None → told r = Some t → (run_time r ≤ t + drain)%N;
  ended_told : is_Some (ended r) → is_Some (told r);
  done_empty : ended r = Some AllDone → in_flight r = [];
  cut_late : ended r = Some CutShort → ∃ t, told r = Some t ∧ (t + drain ≤ run_time r)%N;
  janitor_until : janitor_runs r = true ↔ ended r = None;
}.

Lemma happens_inv e r r' : run_inv r → happens e r = Some r' → run_inv r'.
Proof.
  intros [H1 H2 H3 H4 H5 H6]. unfold happens. destruct (ended r) eqn:He; [done|].
  destruct e as [s|s|s| |].
  - destruct (told r) eqn:Ht; [done|]. intros [= <-]. by split.
  - intros [= <-]. split; try done; auto.
  - intros [= <-]. split; cbn; try done; [|].
    + intros t. destruct (told r); [auto|]. destruct (stops hears_term s); [|done]. intros [= <-]. lia.
    + intros t _. destruct (told r); [auto|]. destruct (stops hears_term s); [|done]. intros [= <-]. lia.
  - destruct (told r) as [t|] eqn:Ht; [|done]. destruct (in_flight r); [|done]. intros [= <-]. by split; cbn.
  - destruct (told r) as [t|] eqn:Ht; [|done]. destruct (N.leb_spec (t + drain) (run_time r)); [|done].
    intros [= <-]. split; cbn; try done. intros _. by exists t.
Qed.
Lemma run_step_inv r r' : run_inv r → run_step r r' → run_inv r'.
Proof.
  intros Hinv Hst. destruct Hst as [e r r' Hh|t r [Ht Hd]]; [exact (happens_inv e r r' Hinv Hh)|]. destruct Hinv as [H1 H2 H3 H4 H5 H6].
  split; cbn; try done.
  - intros t0 Ht0. specialize (H1 _ Ht0). lia.
  - intros t0 He Ht0. by apply Hd.
  - intros He. destruct (H5 He) as (t0 & Ht0 & ?). exists t0. split; [done|lia].
Qed.
Lemma run_reached now r : rtc run_step (run_begins now) r → run_inv r.
Proof.
  intros Hr. assert (run_inv (run_begins now)) as H0 by (split; cbn; try done; by intros [? [=]]).
  revert H0. induction Hr; eauto using run_step_inv.
Qed.

(** Stopping is orderly and ends: told to stop, the server takes no connection
    any more and runs no longer than the drain allows; when it says that all
    is done nothing was in flight, and it cuts off what is only when its time
    is over; and from wherever it is when it is told, it comes to an end,
    whatever the clients do not do. *)
Theorem a_stop_ends (now : N) (r : Running) :
  rtc run_step (run_begins now) r →
  (∀ t, told r = Some t → (∀ s, happens (Connects s) r = None) ∧ (ended r = None → (run_time r ≤ t + drain)%N)) ∧
  (ended r = Some AllDone → in_flight r = []) ∧
  (ended r = Some CutShort → ∃ t, told r = Some t ∧ (t + drain ≤ run_time r)%N) ∧
  (is_Some (told r) → ∃ r', rtc run_step r r' ∧ is_Some (ended r') ∧ janitor_runs r' = false).
Proof.
  intros Hr. pose proof (run_reached _ _ Hr) as [H1 H2 H3 H4 H5 H6]. split_and!; [|done|done|].
  - intros t Ht. split; [|auto]. intros s. unfold happens. destruct (ended r); [done|]. by rewrite Ht.
  - intros [t Ht]. destruct (ended r) as [e|] eqn:He.
    + exists r. rewrite He. split_and!; [done|by eexists|]. destruct (janitor_runs r); [|done]. by destruct H6 as [H6 _]; specialize (H6 eq_refl).
    + exists (mkRunning (t + drain)%N (in_flight r) (Some t) false (Some CutShort)). split_and!; [|by eexists|done].
      specialize (H2 t eq_refl Ht). eapply rtc_l; [apply (run_passes (t + drain)%N); split; [done|]|].
      { intros _ t0. rewrite Ht. by intros [= ->]. }
      apply rtc_once, (run_event TimeOver). unfold happens. cbn. rewrite He, Ht.
      by rewrite (proj2 (N.leb_le _ _) (N.le_refl _)).
Qed.
End running.

(** A client that never finishes keeps the process for half a minute. *)
Example a_silent_client_is_cut_off :
  let r := mkRunning 1000 [silent] (Some 1000%N) true None in
  happens DRAIN true Drained r = None ∧ happens DRAIN true TimeOver r = None ∧
  happens DRAIN true TimeOver (mkRunning 31000 [silent] (Some 1000%N) true None) =
    Some (mkRunning 31000 [silent] (Some 1000%N) false (Some CutShort)).
Proof. repeat split. Qed.
