(* ===== verification/Files.v ===== *)
(** The file system, as [shelf/fs.rs] uses it through [std::fs]: a tree of
    directories and files, and calls that may fail or be cut short by a kill
    at any moment, having done part of their work. *)

From S2P Require Import Prelude Errors.

(** ** Trees *)

Inductive node :=
| File (bytes : list byte)
| Dir (entries : gmap string node).

(** From the shelf's root down. *)
Abbreviation path := (list string) (only parsing).

Fixpoint at_path (p : path) (t : node) : option node :=
  match p with
  | [] => Some t
  | s :: p => match t with Dir m => m !! s ≫= at_path p | File _ => None end
  end.

(** [x] at [p], whose parent is there; the tree itself where it is not. *)
Fixpoint put (p : path) (x : option node) (t : node) : node :=
  match p, t with
  | [s], Dir m => Dir (partial_alter (λ _, x) s m)
  | s :: p, Dir m => match m !! s with Some t' => Dir (<[s := put p x t']> m) | None => t end
  | _, t => t
  end.

Definition parent_is_dir (p : path) (t : node) : bool :=
  match at_path (removelast p) t with Some (Dir _) => true | _ => false end.

(** ** Calls

    [std::io::ErrorKind], as far as it is looked at. *)
Inductive ErrorKind := NoEntry | DirectoryNotEmpty | AlreadyExists | OtherError.

(** What becomes of a call: it is carried out, or fails, or the process dies,
    the last two having done [n] steps of its work. *)
Inductive Luck := Fine | Fails (n : nat) | Dies (n : nat).

(** The luck of each call; [glance], whether a [stat] behind [is_dir],
    [is_file] or [exists] can tell, since these say [false] when it fails; and
    the length of a directory, of which nothing is said. *)
Class Weather := {
  luck : nat → Luck;
  glance : nat → bool;
  dir_len : N;
}.

(** A shelf's directory, the calls made so far, and the shelf's own count of
    what it threw away ([FsShelf::trashed]). *)
Record Disk := mkDisk {
  tree : node;
  calls : nat;
  trashed : N;
}.

Definition with_tree (t : node) (d : Disk) : Disk := mkDisk t (S (calls d)) (trashed d).

Section calls.
Context `{Weather}.

Definition Io (A : Type) : Type := M ErrorKind Disk A.

(** A call that does [act], or [part n] of it when it is cut short. *)
Definition call_fs {A} (act : node → outcome ErrorKind A * node) (part : nat → node → node) : Io A := λ d,
  match luck (calls d) with
  | Fine => let '(x, t) := act (tree d) in (x, with_tree t d)
  | Fails n => (Err OtherError, with_tree (part n (tree d)) d)
  | Dies n => (Killed, with_tree (part n (tree d)) d)
  end.

(** Done or not done. *)
Definition whole_or_nothing {A} (act : node → outcome ErrorKind A * node) (n : nat) (t : node) : node :=
  match n with O => t | S _ => (act t).2 end.
Definition at_once {A} (act : node → outcome ErrorKind A * node) : Io A := call_fs act (whole_or_nothing act).

(** A call that changes nothing. *)
Definition look {A} (f : node → outcome ErrorKind A) : Io A := call_fs (λ t, (f t, t)) (λ _ t, t).

(** [DirBuilder::recursive]: each component that is missing. *)
Fixpoint mkdirs (p : path) (t : node) : outcome ErrorKind unit * node :=
  match p, t with
  | [], Dir _ => (Ok (), t)
  | s :: p, Dir m =>
      let '(x, t') := mkdirs p (default (Dir ∅) (m !! s)) in (x, Dir (<[s := t']> m))
  | _, File _ => (Err OtherError, t)
  end.
Definition create_dir_all (p : path) : Io unit := call_fs (mkdirs p) (λ n t, (mkdirs (take n p) t).2).

(** [OpenOptions] with [write], [create] and [truncate]. *)
Definition truncate_at (p : path) (t : node) : outcome ErrorKind unit * node :=
  match at_path p t with
  | Some (Dir _) => (Err OtherError, t)
  | Some (File _) => (Ok (), put p (Some (File [])) t)
  | None => if parent_is_dir p t then (Ok (), put p (Some (File [])) t) else (Err NoEntry, t)
  end.
Definition open_truncated (p : path) : Io unit := at_once (truncate_at p).

(** [write_all] at the end of a file that is open. *)
Definition append_at (p : path) (bytes : list byte) (t : node) : node :=
  match at_path p t with Some (File old) => put p (Some (File (old ++ bytes))) t | _ => t end.
Definition write_all (p : path) (bytes : list byte) : Io unit :=
  call_fs (λ t, (Ok (), append_at p bytes t)) (λ n t, append_at p (take n bytes) t).

(** [set_len(0)] of a file that is open. *)
Definition empty_at (p : path) (t : node) : outcome ErrorKind unit * node :=
  match at_path p t with Some (File _) => (Ok (), put p (Some (File [])) t) | _ => (Ok (), t) end.
Definition set_len_0 (p : path) : Io unit := at_once (empty_at p).

(** [sync_all]: what a process sees is what was written, flushed or not. *)
Definition sync : Io unit := look (λ _, Ok ()).
Definition open_dir_at (p : path) : Io unit :=
  look (λ t, match at_path p t with Some _ => Ok () | None => Err NoEntry end).

Definition read_file (p : path) : Io (list byte) := look (λ t,
  match at_path p t with Some (File b) => Ok b | Some (Dir _) => Err OtherError | None => Err NoEntry end).

(** [metadata(p).len()] *)
Definition len_of (p : path) : Io N := look (λ t,
  match at_path p t with Some (File b) => Ok (N.of_nat (length b)) | Some (Dir _) => Ok dir_len | None => Err NoEntry end).

(** [File::open], and [seek] to an offset. *)
Definition open_at (p : path) : Io (list byte) := look (λ t,
  match at_path p t with Some (File b) => Ok b | Some (Dir _) => Ok [] | None => Err NoEntry end).
Definition seek (offset : N) (file : list byte) : Io (list byte) := look (λ _, Ok (drop (N.to_nat offset) file)).

Definition entries_of (p : path) (t : node) : outcome ErrorKind (list string) :=
  match at_path p t with
  | Some (Dir m) => Ok (map_to_list m).*1
  | Some (File _) => Err OtherError
  | None => Err NoEntry
  end.
Definition read_dir (p : path) : Io (list string) := look (entries_of p).

Definition unlink (p : path) (t : node) : outcome ErrorKind unit * node :=
  match at_path p t with
  | Some (File _) => (Ok (), put p None t)
  | Some (Dir _) => (Err OtherError, t)
  | None => (Err NoEntry, t)
  end.
Definition remove_file (p : path) : Io unit := at_once (unlink p).

(** Entry by entry, and the directory last. *)
Definition remove_some (n : nat) (x : node) : node :=
  match x with
  | Dir m => Dir (list_to_map (drop n (map_to_list m)))
  | File b => File b
  end.
Definition remove_dir_all (p : path) : Io unit := call_fs
  (λ t, match at_path p t with
    | Some (Dir _) => (Ok (), put p None t)
    | Some (File _) => (Err OtherError, t)
    | None => (Err NoEntry, t)
    end)
  (λ n t, match at_path p t with Some x => put p (Some (remove_some n x)) t | None => t end).

(** [rename] of a directory: onto an empty one, or to where nothing is. *)
Definition move (from to : path) (t : node) : outcome ErrorKind unit * node :=
  match at_path from t with
  | None => (Err NoEntry, t)
  | Some x =>
      match at_path to t with
      | Some (File _) => (Err OtherError, t)
      | Some (Dir m) =>
          if bool_decide (m = ∅) then (Ok (), put to (Some x) (put from None t)) else (Err DirectoryNotEmpty, t)
      | None => if parent_is_dir to t then (Ok (), put to (Some x) (put from None t)) else (Err NoEntry, t)
      end
  end.
Definition rename (from to : path) : Io unit := at_once (move from to).

(** [Path::is_dir], [is_file] and [exists]: an error is told as [false]. *)
Definition glimpse (f : option node → bool) (p : path) : M ApiError Disk bool := λ d,
  let d' := mkDisk (tree d) (S (calls d)) (trashed d) in
  match luck (calls d) with
  | Dies _ => (Killed, d')
  | _ => (Ok (glance (calls d) && f (at_path p (tree d))), d')
  end.
Definition is_dir := glimpse (λ x, match x with Some (Dir _) => true | _ => false end).
Definition is_file := glimpse (λ x, match x with Some (File _) => true | _ => false end).
Definition exists_at := glimpse (λ x, match x with Some _ => true | None => false end).

(** A call whose error is looked at. *)
Definition attempt {A} (m : Io A) : M ApiError Disk (A + ErrorKind) := λ d,
  match m d with
  | (Ok a, d) => (Ok (inl a), d)
  | (Err e, d) => (Ok (inr e), d)
  | (Killed, d) => (Killed, d)
  | (Spinning, d) => (Spinning, d)
  end.

(** [.map_err(|err| unavailable(..))?] *)
Definition available {A} (m : Io A) : M ApiError Disk A := λ d,
  match m d with
  | (Ok a, d) => (Ok a, d)
  | (Err _, d) => (Err ServiceUnavailable, d)
  | (Killed, d) => (Killed, d)
  | (Spinning, d) => (Spinning, d)
  end.

(** A process may die anywhere, and so at a fault point. *)
Definition fault_point : M ApiError Disk unit := available (look (λ _, Ok ())).
End calls.
