(* ===== verification/FsShelf.v ===== *)
(** The shelf in a directory ([shelf/fs.rs]): its operations, as sequences of
    calls of the file system, each of which may fail or be cut short.

<<
    gen-<n>/items/<id>/content, meta.json, server.json
    staging/<upload id>/content, and staging/<upload id>.sha256
    trash/
>> *)

From stdpp Require Import pretty.
From S2P Require Import Prelude Text Errors Random Ids Shelf Files.

(** ** Names *)

Definition CONTENT : string := "content".
Definition META : string := "meta.json".
Definition SERVER : string := "server.json".
Definition SHA256 : string := ".sha256".

(** [server.json], which [serde_json] writes and reads. *)
Record ServerFile := mkServerFile { sf_under : option string; sf_received_at : N }.

Class ServerJson := {
  server_to_vec : ServerFile → option (list byte);
  server_from_slice : list byte → option ServerFile;
}.

(** What was written is read. *)
Class LawfulServerJson `{ServerJson} :=
  server_json_law s : server_from_slice (default [] (server_to_vec s)) = Some s.

(** [format!("gen-{generation}")] *)
Definition gen_name (g : N) : string := "gen-" ++ pretty g.
Definition gen_of (name : string) : option N := strip_prefix "gen-" name ≫= parse_u64.

(** [name.strip_suffix(end)] *)
Definition strip_end (suffix name : string) : option string :=
  str_rev <$> strip_prefix (str_rev suffix) (str_rev name).

(** A parser's [.ok()]. *)
Definition parsed {A} (x : outcome ApiError A) : option A := match x with Ok a => Some a | _ => None end.

(** [.filter(..)] of names whose files are looked at. *)
Section filter.
Context {E S A : Type} (p : A → M E S bool).
Fixpoint filter_m (l : list A) : M E S (list A) :=
  match l with
  | [] => mret []
  | x :: l => keep ← p x; rest ← filter_m l; mret (if keep : bool then x :: rest else rest)
  end.
End filter.

Module FsShelf.
Section FsShelf.
Context `{Ext : Externals} `{Sky : Weather} `{Json : ServerJson}.
(** [std::process::id()] *)
Context (pid : N).
#[local] Abbreviation Fs := (M ApiError Disk) (only parsing).

Definition staging : path := ["staging"].
Definition trash : path := ["trash"].
Definition digest_file (u : UploadId) : path := ["staging"; (text u ++ SHA256)%string].
Definition staged_dir (u : UploadId) : path := ["staging"; text u].
Definition gen_dir (g : N) : path := [gen_name g].
Definition items (g : N) : path := [gen_name g; "items"].
Definition item_dir (g : N) (id : ItemId) : path := items g ++ [text id].

Definition make_dir (p : path) : Fs unit := available (create_dir_all p).
Definition create_file (p : path) : Fs unit := available (open_truncated p).
Definition write_file (p : path) (bytes : list byte) : Fs unit :=
  create_file p;; available (write_all p bytes;; sync).
Definition sync_dir (p : path) : Fs unit := available (open_dir_at p;; sync).

(** The names in a directory, or none where it is not. *)
Definition entries (p : path) : Fs (list string) :=
  found ← attempt (read_dir p);
  match found with
  | inl names => mret names
  | inr NoEntry => mret []
  | inr _ => throw ServiceUnavailable
  end.

(** A removal of what may not be there. *)
Definition gone (removal : Io unit) : Fs unit :=
  found ← attempt removal;
  match found with
  | inl _ | inr NoEntry => mret ()
  | inr _ => throw ServiceUnavailable
  end.
Definition remove_tree (p : path) : Fs unit := gone (remove_dir_all p).
Definition remove_digest (u : UploadId) : Fs unit := gone (remove_file (digest_file u)).

(** ** Opening *)

Definition sweep_digest (name : string) : Fs unit :=
  match strip_end SHA256 name ≫= λ u, parsed (UploadId.parse u) with
  | None => mret ()
  | Some u =>
      there ← is_dir (staged_dir u);
      if there : bool then mret () else available (remove_file (staging ++ [name]))
  end.
Definition sweep_digests : Fs unit := names ← entries staging; for_each names sweep_digest.
Definition empty_trash : Fs unit := names ← entries trash; for_each names (λ name, remove_tree (trash ++ [name])).

Definition open : Fs unit :=
  modify (λ d, mkDisk (tree d) (calls d) 0);;
  make_dir [];;
  make_dir staging;;
  make_dir trash;;
  empty_trash;;
  sweep_digests.

(** ** Away, in one step *)

Definition bin_name (n : N) : string := pretty pid ++ "-" ++ pretty n.
Definition fetch_trashed : Fs N := λ d, (Ok (trashed d), mkDisk (tree d) (calls d) (wadd (trashed d) 1)).

(** [Ok(false)] when nothing was there. *)
Definition discard (p : path) : Fs bool :=
  n ← fetch_trashed;
  let bin := trash ++ [bin_name n] in
  moved ← attempt (rename p bin);
  match moved with
  | inr NoEntry => mret false
  | inr _ => throw ServiceUnavailable
  | inl _ => fault_point;; remove_tree bin;; mret true
  end.

(** ** Staging *)

Definition stage_create (u : UploadId) : Fs unit :=
  make_dir (staged_dir u);;
  there ← exists_at (staged_dir u ++ [CONTENT]);
  if there : bool then mret () else create_file (staged_dir u ++ [CONTENT]).

(** What [write] does with what it took. *)
Definition write_end (u : UploadId) (hasher : option (list byte)) (written : outcome ApiError N) : Fs N :=
  match written with
  | Ok total =>
      available sync;;
      match hasher with
      | Some bytes => write_file (digest_file u) (sha256 bytes)
      | None => mret ()
      end;;
      mret total
  | Err refusal => available (set_len_0 (staged_dir u ++ [CONTENT]));; throw refusal
  | Killed => lift Killed
  | Spinning => lift Spinning
  end.

Definition write_pieces (u : UploadId) (content : Reader) (announced : N) (hashed : bool) : Fs N := λ d,
  let '(written, hasher, d) :=
    pump content announced (if hashed then Some [] else None)
      (λ piece, available (write_all (staged_dir u ++ [CONTENT]) piece)) d in
  write_end u hasher written d.

Definition write (u : UploadId) (content : Reader) (announced : N) (hashed : bool) : Fs N :=
  there ← is_dir (staged_dir u);
  if negb there then throw NotFound
  else
    remove_digest u;;
    create_file (staged_dir u ++ [CONTENT]);;
    write_pieces u content announced hashed.

Definition stage_write (u : UploadId) (content : Reader) (announced : N) := write u content announced false.
Definition stage_write_hashed (u : UploadId) (content : Reader) (announced : N) := write u content announced true.

Definition stage_digest (u : UploadId) : Fs (option (list byte)) :=
  found ← attempt (read_file (digest_file u));
  match found with
  | inl bytes => mret (if length bytes =? 32 then Some bytes else None)
  | inr NoEntry => mret None
  | inr _ => throw ServiceUnavailable
  end.

Definition stage_size (u : UploadId) : Fs (option N) :=
  found ← attempt (len_of (staged_dir u ++ [CONTENT]));
  match found with
  | inl n => mret (Some n)
  | inr NoEntry => mret None
  | inr _ => throw ServiceUnavailable
  end.

Definition stage_remove (u : UploadId) : Fs unit := discard (staged_dir u);; remove_digest u.

Definition staged : Fs (list UploadId) :=
  names ← entries staging;
  mret (merge_sort key_le (omap (λ name, parsed (UploadId.parse name)) names)).

(** ** Items *)

Definition publish (u : UploadId) (g : N) (id : ItemId) (e : Envelope) : Fs bool :=
  there ← is_dir (staged_dir u);
  if negb there then throw NotFound
  else
    let server := default [] (server_to_vec (mkServerFile (text <$> under e) (received_at e))) in
    write_file (staged_dir u ++ [META]) (meta e);;
    write_file (staged_dir u ++ [SERVER]) server;;
    sync_dir (staged_dir u);;
    make_dir (items g);;
    fault_point;;
    moved ← attempt (rename (staged_dir u) (item_dir g id));
    match moved with
    | inr DirectoryNotEmpty | inr AlreadyExists => mret false
    | inr _ => throw ServiceUnavailable
    | inl _ =>
        remove_digest u;;
        sync_dir (items g);;
        sync_dir staging;;
        mret true
    end.

(** A directory without [content] is not an item. *)
Definition read_item (dir : path) : Fs (option StoredItem) :=
  found ← attempt (len_of (dir ++ [CONTENT]));
  match found with
  | inr NoEntry => mret None
  | inr _ => throw ServiceUnavailable
  | inl size =>
      meta ← available (read_file (dir ++ [META]));
      server ← available (read_file (dir ++ [SERVER]));
      server ← lift (ok_or ServiceUnavailable (server_from_slice server));
      under ← match sf_under server with
        | Some text => key ← lift (ok_or ServiceUnavailable (parsed (KeyId.parse text))); mret (Some key)
        | None => mret None
        end;
      mret (Some (mkStoredItem size (mkEnvelope meta under (sf_received_at server))))
  end.

Definition get (g : N) (id : ItemId) : Fs (option StoredItem) := read_item (item_dir g id).

Definition open_content_from (g : N) (id : ItemId) (offset : N) : Fs (option (list byte)) :=
  found ← attempt (open_at (item_dir g id ++ [CONTENT]));
  match found with
  | inr NoEntry => mret None
  | inr _ => throw ServiceUnavailable
  | inl file =>
      file ← if (0 <? offset)%N then available (seek offset file) else mret file;
      mret (Some file)
  end.

Definition ids (g : N) : Fs (list ItemId) :=
  names ← entries (items g);
  found ← filter_m (λ name, is_file (items g ++ [name; CONTENT])) names;
  mret (reverse (merge_sort key_le (omap (λ name, parsed (ItemId.parse name)) found))).

Definition remove (g : N) (id : ItemId) : Fs (option StoredItem) :=
  item ← read_item (item_dir g id);
  match item with
  | None => mret None
  | Some item =>
      moved ← discard (item_dir g id);
      if negb moved then mret None
      else sync_dir (items g);; mret (Some item)
  end.

Definition drop_generation (g : N) : Fs unit :=
  moved ← discard (gen_dir g);
  if moved : bool then sync_dir [] else mret ().

Fixpoint holding (names : list string) : Fs (list N) :=
  match names with
  | [] => mret []
  | name :: names =>
      match gen_of name with
      | None => holding names
      | Some g =>
          ids ← ids g;
          rest ← holding names;
          mret (match ids with [] => rest | _ => g :: rest end)
      end
  end.
Definition generations : Fs (list N) :=
  names ← entries [];
  found ← holding names;
  mret (merge_sort N.le found).

Fixpoint add_up (g : N) (ids : list ItemId) (total : N) : Fs N :=
  match ids with
  | [] => mret total
  | id :: ids =>
      n ← available (len_of (item_dir g id ++ [CONTENT]));
      add_up g ids (wadd total n)
  end.
Definition bytes (g : N) : Fs N := ids ← ids g; add_up g ids 0.
End FsShelf.
End FsShelf.
