(* ===== verification/FsRep.v ===== *)
(** What a directory stands for: the shelf that the tree of [Files.v] holds, when
    it is in order, and how a change of the tree changes that. *)

From stdpp Require Import pretty.
From S2P Require Import Prelude Text Errors Random Ids Shelf Files FsShelf.

(** ** Trees *)

Lemma at_path_app p q t : at_path (p ++ q) t = at_path p t ≫= at_path q.
Proof.
  revert t. induction p as [|s p IH]; intros [b|m]; try done. cbn.
  destruct (m !! s) as [t|]; cbn; [apply IH|done].
Qed.

Lemma put_cons s p x m t : p ≠ [] → m !! s = Some t → put (s :: p) x (Dir m) = Dir (<[s := put p x t]> m).
Proof. intros Hp Hm. destruct p; [done|]. cbn. by rewrite Hm. Qed.

Lemma put_app p q x t n :
  p ≠ [] → q ≠ [] → at_path p t = Some n → put (p ++ q) x t = put p (Some (put q x n)) t.
Proof.
  intros Hp Hq. revert t. induction p as [|s p IH]; intros t Hn; [done|].
  destruct t as [b|m]; [done|]. cbn in Hn. destruct (m !! s) as [t|] eqn:Hm; [|done]. cbn in Hn.
  destruct p as [|s' p].
  - injection Hn as ->. cbn [app]. rewrite (put_cons s q x m n) by done. done.
  - rewrite <- app_comm_cons, (put_cons s _ x m t), (put_cons s (s' :: p) _ m t) by done.
    by rewrite IH.
Qed.

Lemma put_twice p x y t : put p y (put p x t) = put p y t.
Proof.
  revert t. induction p as [|s p IH]; intros [b|m]; try done.
  - by destruct p.
  - destruct p as [|s' p].
    + cbn. f_equal. apply map_eq. intros s'. destruct (decide (s' = s)) as [->|Hne];
        by rewrite ?lookup_partial_alter_eq, ?lookup_partial_alter_ne by done.
    + destruct (m !! s) as [t|] eqn:Hm; [|cbn; by rewrite Hm; cbn; rewrite Hm].
      rewrite !(put_cons s (s' :: p) _ m t), (put_cons s (s' :: p) y _ (put (s' :: p) x t)), IH
        by (done || apply lookup_insert_eq).
      by rewrite insert_insert_eq.
Qed.

Lemma at_put_eq p x t : p ≠ [] → parent_is_dir p t = true → at_path p (put p x t) = x.
Proof.
  unfold parent_is_dir. intros Hp. revert t. induction p as [|s p IH]; intros t Ht; [done|].
  destruct p as [|s' p].
  - destruct t as [b|m]; [done|]. cbn. rewrite lookup_partial_alter_eq. by destruct x.
  - destruct t as [b|m]; [done|]. change (removelast (s :: s' :: p)) with (s :: removelast (s' :: p)) in Ht.
    cbn [at_path] in Ht. destruct (m !! s) as [t|] eqn:Hm; [|done]. cbn [mbind option_bind] in Ht.
    rewrite (put_cons s (s' :: p) x m t) by done. cbn [at_path]. rewrite lookup_insert_eq. cbn [mbind option_bind].
    by apply IH.
Qed.

Lemma at_path_parent p t n : p ≠ [] → at_path p t = Some n → parent_is_dir p t = true.
Proof.
  intros Hp Hn. unfold parent_is_dir.
  rewrite (app_removelast_last "" Hp), at_path_app in Hn.
  destruct (at_path (removelast p) t) as [[b|m]|]; done.
Qed.

Lemma at_put_here p x t n : p ≠ [] → at_path p t = Some n → at_path p (put p x t) = x.
Proof. intros Hp Hn. apply at_put_eq; [done|]. by eapply at_path_parent. Qed.

Lemma at_put_apart a b p q x t : a ≠ b → at_path (a :: p) (put (b :: q) x t) = at_path (a :: p) t.
Proof.
  intros Hne. destruct t as [c|m]; [by destruct q|]. destruct q as [|s q].
  - cbn. by rewrite lookup_partial_alter_ne.
  - cbn. destruct (m !! b) as [t'|]; [|done]. cbn. by rewrite lookup_insert_ne.
Qed.

Lemma put_root_dir s p x m : ∃ m', put (s :: p) x (Dir m) = Dir m'.
Proof. destruct p; cbn; [by eexists|]. destruct (m !! s); by eexists. Qed.

(** ** Names *)

Lemma parsed_upload u : parsed (UploadId.parse (text u)) = Some u.
Proof. unfold UploadId.parse. by rewrite (proj2 (check_ok _ _ u)). Qed.
Lemma parsed_upload_text s u : parsed (UploadId.parse s) = Some u → s = text u.
Proof.
  unfold UploadId.parse. destruct (check _ s) as [u'|e| |] eqn:Hc; try done. intros [= ->].
  by apply check_ok in Hc.
Qed.
Lemma parsed_item (id : ItemId) : parsed (ItemId.parse (text id)) = Some id.
Proof. unfold ItemId.parse. by rewrite (proj2 (check_ok _ _ id)). Qed.
Lemma parsed_item_text s id : parsed (ItemId.parse s) = Some id → s = text id.
Proof.
  unfold ItemId.parse. destruct (check _ s) as [u'|e| |] eqn:Hc; try done. intros [= ->].
  by apply check_ok in Hc.
Qed.
Lemma parsed_key (k : KeyId) : parsed (KeyId.parse (text k)) = Some k.
Proof. unfold KeyId.parse. by rewrite (proj2 (check_ok _ _ k)). Qed.

Lemma gen_of_name g : (g ≤ u64_max)%N → gen_of (gen_name g) = Some g.
Proof. intros Hg. unfold gen_of, gen_name. rewrite strip_prefix_app. cbn. by apply parse_pretty. Qed.

Lemma gen_name_not_staging g : gen_name g ≠ "staging".
Proof. done. Qed.
Lemma gen_name_not_trash g : gen_name g ≠ "trash".
Proof. done. Qed.

Lemma upload_length (u : UploadId) : String.length (text u) = 32.
Proof.
  pose proof (text_form u) as Hu. unfold upload_form in Hu. apply andb_true_iff in Hu as [Hu _]. by apply Nat.eqb_eq.
Qed.

Lemma digest_name_length (u : UploadId) : String.length (text u ++ SHA256)%string = 39.
Proof. by rewrite length_app_str, upload_length. Qed.

Lemma digest_name_apart (u u' : UploadId) : (text u ++ SHA256)%string ≠ text u'.
Proof. intros H. apply (f_equal String.length) in H. rewrite digest_name_length, upload_length in H. done. Qed.

Lemma str_app_inj a b c : (a ++ c)%string = (b ++ c)%string → a = b.
Proof.
  intros H. assert (str_take (String.length a) (a ++ c)%string = str_take (String.length b) (b ++ c)%string) as Ht.
  { f_equal; [|done]. apply (f_equal String.length) in H. rewrite !length_app_str in H. lia. }
  by rewrite !str_take_app in Ht.
Qed.

Lemma digest_name_inj (u u' : UploadId) : (text u ++ SHA256)%string = (text u' ++ SHA256)%string → u = u'.
Proof. intros H%str_app_inj. by apply checked_eq. Qed.

Lemma digest_name_unparsed (u : UploadId) : parsed (UploadId.parse (text u ++ SHA256)%string) = None.
Proof.
  destruct (parsed _) as [u'|] eqn:H; [|done]. apply parsed_upload_text in H. by apply digest_name_apart in H.
Qed.

Lemma gen_of_root s : s = "staging" ∨ s = "trash" → gen_of s = None.
Proof. by intros [-> | ->]. Qed.

(** ** What a directory stands for *)

(** A map from the names that [parse], of what [f] finds. *)
Section collect.
Context {K A : Type} `{Countable K} (name : K → string) (parse : string → option K) (f : K → option A).

Definition collect (m : gmap string node) : gmap K A :=
  list_to_map (omap (λ s, k ← parse s; a ← f k; Some (k, a)) (map_to_list m).*1).

Lemma lookup_collect m k :
  (∀ s k, parse s = Some k → s = name k) →
  (∀ k, is_Some (f k) → parse (name k) = Some k ∧ is_Some (m !! name k)) →
  collect m !! k = f k.
Proof.
  intros Hname Hf. unfold collect. set (g := λ s, k ← parse s; a ← f k; Some (k, a)).
  assert (∀ s k a, g s = Some (k, a) → s = name k ∧ f k = Some a) as Hg.
  { intros s k' a. unfold g. destruct (parse s) as [k0|] eqn:Hp; [|done]. cbn.
    destruct (f k0) as [a'|] eqn:Hfk; [|done]. cbn. intros [= <- <-]. split; [by apply Hname|done]. }
  assert (NoDup (omap g (map_to_list m).*1).*1) as Hnd.
  { pose proof (NoDup_fst_map_to_list m) as Hl. induction Hl as [|s l Hs Hl IH]; [constructor|]. cbn.
    destruct (g s) as [[k' a]|] eqn:Hgs; [|done]. cbn. constructor; [|done].
    intros Hin. apply list_elem_of_fmap in Hin as ([k2 a2] & Heq & Hin). cbn in Heq. subst k2.
    apply list_elem_of_omap in Hin as (s' & Hin & Hgs').
    apply Hg in Hgs as [-> _]. apply Hg in Hgs' as [-> _]. done. }
  destruct (f k) as [a|] eqn:Hfk.
  - destruct (Hf k) as [Hp [n Hn]]; [by rewrite Hfk|].
    apply elem_of_list_to_map; [done|]. apply list_elem_of_omap. exists (name k). split.
    + apply list_elem_of_fmap. exists (name k, n). split; [done|]. by apply elem_of_map_to_list.
    + unfold g. rewrite Hp. cbn. by rewrite Hfk.
  - apply not_elem_of_list_to_map. intros Hin. apply list_elem_of_fmap in Hin as ([k' a] & Heq & Hin).
    cbn in Heq. subst k'. apply list_elem_of_omap in Hin as (s & _ & Hgs). apply Hg in Hgs as [_ Hgs]. congruence.
Qed.
End collect.

(** Names that parse, in the order of what they stand for. *)
Section sorted.
Context {K A V : Type} `{Countable K} `{!KeyOrder K} (name : K → string) (parse : string → option K).
Context (parse_name : ∀ k, parse (name k) = Some k) (name_parse : ∀ s k, parse s = Some k → s = name k).

Lemma sorted_parsed (m : gmap string A) (v : gmap K V) :
  (∀ k, is_Some (m !! name k) ↔ is_Some (v !! k)) →
  merge_sort key_le (omap parse (map_to_list m).*1) = btree_keys v.
Proof.
  intros Hv. symmetry. apply btree_keys_unique.
  - rewrite merge_sort_Permutation. pose proof (NoDup_fst_map_to_list m) as Hnd.
    induction Hnd as [|s l Hs Hnd IH]; [constructor|]. cbn.
    destruct (parse s) as [k|] eqn:Hp; [|done]. constructor; [|done].
    intros (s' & Hin & Hp')%list_elem_of_omap. apply name_parse in Hp as ->. by apply name_parse in Hp' as ->.
  - apply (StronglySorted_merge_sort key_le).
  - intros k. rewrite merge_sort_Permutation, list_elem_of_omap, <- Hv. split.
    + intros (s & Hs & ->%name_parse). apply list_elem_of_fmap in Hs as ([s n] & -> & Hs%elem_of_map_to_list). by eexists.
    + intros [n Hn]. exists (name k). split; [|apply parse_name]. apply list_elem_of_fmap. exists (name k, n).
      split; [done|]. by apply elem_of_map_to_list.
Qed.
End sorted.

Section view.
Context `{Json : ServerJson}.

Definition file_bytes (n : node) : option (list byte) := match n with File b => Some b | Dir _ => None end.
Definition entries_in (n : node) : gmap string node := match n with Dir m => m | File _ => ∅ end.
Definition child (s : string) (n : node) : option node := entries_in n !! s.

Definition file_in (s : string) (n : node) : option (list byte) := child s n ≫= file_bytes.

(** The content of a place, once it is finished. *)
Definition place_of (n : node) : option (list byte) := file_in CONTENT n.
Definition digest_in (st : gmap string node) (u : UploadId) : option (list byte) :=
  b ← st !! (text u ++ SHA256)%string ≫= file_bytes; if length b =? 32 then Some b else None.
Definition staged_in (st : gmap string node) (u : UploadId) : option staged_content :=
  (λ c, (c, digest_in st u)) <$> (st !! text u ≫= place_of).

Definition envelope_from (meta : list byte) (server : ServerFile) : option Envelope :=
  match sf_under server with
  | None => Some (mkEnvelope meta None (sf_received_at server))
  | Some text => (λ k, mkEnvelope meta (Some k) (sf_received_at server)) <$> parsed (KeyId.parse text)
  end.
Definition item_of (n : node) : option shelved :=
  c ← file_in CONTENT n;
  m ← file_in META n;
  s ← file_in SERVER n;
  server ← server_from_slice s;
  e ← envelope_from m server;
  Some (c, e).
Definition items_in (its : gmap string node) : gmap ItemId shelved :=
  collect (λ s, parsed (ItemId.parse s)) (λ id, its !! text id ≫= item_of) its.
Definition gen_in (n : node) : option (gmap ItemId shelved) :=
  match child "items" n with Some (Dir its) => Some (items_in its) | _ => None end.

(** The number a name stands for, if it is the one the shelf writes. *)
Definition number_of (s : string) : option N :=
  g ← gen_of s; if String.eqb s (gen_name g) then Some g else None.
Definition gen_at (t : node) (g : N) : option (gmap ItemId shelved) :=
  if (g <=? u64_max)%N then child (gen_name g) t ≫= gen_in else None.

Definition view_tree (t : node) : Shelves :=
  let st := from_option entries_in ∅ (child "staging" t) in
  mkShelves (collect (λ s, parsed (UploadId.parse s)) (staged_in st) st)
    (collect number_of (gen_at t) (entries_in t)).

Lemma items_in_lookup its id : items_in its !! id = its !! text id ≫= item_of.
Proof.
  apply (lookup_collect text _ (λ id : ItemId, its !! text id ≫= item_of)); [apply parsed_item_text|].
  intros id' Hs. split; [apply parsed_item|]. destruct (its !! text id'); [by eexists|by destruct Hs].
Qed.

Lemma view_staging t u :
  staging (view_tree t) !! u = staged_in (from_option entries_in ∅ (child "staging" t)) u.
Proof.
  apply (lookup_collect text _ (staged_in _)); [apply parsed_upload_text|].
  intros u' Hs. split; [apply parsed_upload|]. unfold staged_in in Hs.
  destruct (from_option entries_in ∅ _ !! text u'); [by eexists|by destruct Hs].
Qed.

Lemma number_of_name s g : number_of s = Some g → s = gen_name g.
Proof.
  unfold number_of. destruct (gen_of s) as [g'|]; [|done]. cbn. destruct (String.eqb_spec s (gen_name g')); [|done].
  by intros [= <-].
Qed.
Lemma name_number_of g : (g ≤ u64_max)%N → number_of (gen_name g) = Some g.
Proof. intros Hg. unfold number_of. rewrite gen_of_name by done. cbn. by rewrite String.eqb_refl. Qed.

Lemma view_gens t g : gens (view_tree t) !! g = gen_at t g.
Proof.
  apply (lookup_collect gen_name _ (gen_at t)); [apply number_of_name|].
  intros g' Hs. unfold gen_at in Hs. destruct (g' <=? u64_max)%N eqn:Hg; [|by destruct Hs].
  split; [by apply name_number_of, N.leb_le|]. unfold child in Hs.
  destruct (entries_in t !! gen_name g'); [by eexists|by destruct Hs].
Qed.

(** ** Directories in order *)

Definition is_file_node (n : node) : Prop := is_Some (file_bytes n).

(** The place of an upload holds files. *)
Definition place_ok (n : node) : Prop := ∃ e, n = Dir e ∧ map_Forall (λ _, is_file_node) e.
Definition staging_ok (st : gmap string node) : Prop :=
  ∀ s n, st !! s = Some n → if parsed (UploadId.parse s) then place_ok n else is_file_node n.

Definition items_ok (its : gmap string node) : Prop :=
  ∀ s n, its !! s = Some n → ∃ id : ItemId, s = text id ∧ is_Some (item_of n).
Definition gen_ok (n : node) : Prop :=
  ∃ e, n = Dir e ∧ ∀ n', e !! "items" = Some n' → ∃ its, n' = Dir its ∧ items_ok its.

(** Directories are thrown away, never files. *)
Definition trash_ok (tr : gmap string node) : Prop := ∀ s b, tr !! s ≠ Some (File b).

(** [t] is in order, and stands for [v]. *)
Record Rep (t : node) (v : Shelves) : Prop := mkRep {
  rep_root s n : child s t = Some n → s = "staging" ∨ s = "trash" ∨
    ∃ g, (g ≤ u64_max)%N ∧ s = gen_name g ∧ gen_ok n;
  rep_staging : ∃ st, child "staging" t = Some (Dir st) ∧ staging_ok st ∧ ∀ u, staging v !! u = staged_in st u;
  rep_trash : ∃ tr, child "trash" t = Some (Dir tr) ∧ trash_ok tr;
  rep_gens g : gens v !! g = gen_at t g;
}.

Lemma rep_view t v : Rep t v → view_tree t = v.
Proof.
  intros [_ (st & Hst & _ & Hs) _ Hg]. destruct v as [sv gv]. unfold view_tree. f_equal.
  - apply map_eq. intros u. change (collect _ _ _ !! u) with (staging (view_tree t) !! u).
    rewrite view_staging, Hst. symmetry. apply Hs.
  - apply map_eq. intros g. change (collect _ _ _ !! g) with (gens (view_tree t) !! g). by rewrite view_gens.
Qed.

Definition Whole (t : node) : Prop := Rep t (view_tree t).
Lemma rep_whole t v : Rep t v → Whole t.
Proof. intros Hr. unfold Whole. by rewrite (rep_view t v). Qed.

Lemma child_at s t : at_path [s] t = child s t.
Proof. destruct t as [b|m]; unfold child; cbn; [by rewrite lookup_empty|]. by destruct (m !! s). Qed.

Lemma rep_dir t v : Rep t v → ∃ m, t = Dir m.
Proof. intros [_ (st & Hst & _) _ _]. destruct t as [b|m]; [|by eexists]. unfold child in Hst. cbn in Hst. by rewrite lookup_empty in Hst. Qed.

(** What a change at the top leaves at the other names. *)
Lemma child_put s s' x t v : Rep t v → child s' (put [s] x t) = if decide (s' = s) then x else child s' t.
Proof.
  intros [m ->]%rep_dir. unfold child. cbn. case_decide; subst; by rewrite ?lookup_partial_alter_eq, ?lookup_partial_alter_ne by done.
Qed.

Lemma rep_put_staging t v st' v' :
  Rep t v → staging_ok st' → (∀ u, staging v' !! u = staged_in st' u) → gens v' = gens v →
  Rep (put ["staging"] (Some (Dir st')) t) v'.
Proof.
  intros Hr Hok Hs Hg. pose proof Hr as [Hroot (st & Hst & _) (tr & Htr & Htrok) Hgens].
  assert (∀ s, s ≠ "staging" → child s (put ["staging"] (Some (Dir st')) t) = child s t) as Hne.
  { intros s Hne. rewrite (child_put _ _ _ _ v) by done. by rewrite decide_False. }
  split.
  - intros s n. rewrite (child_put _ _ _ _ v) by done. case_decide; [by left|]. apply Hroot.
  - exists st'. split_and!; [|done|done]. rewrite (child_put _ _ _ _ v) by done. by rewrite decide_True.
  - exists tr. by rewrite Hne.
  - intros g. rewrite Hg, Hgens. unfold gen_at. by rewrite Hne.
Qed.

Lemma rep_put_trash t v tr' : Rep t v → trash_ok tr' → Rep (put ["trash"] (Some (Dir tr')) t) v.
Proof.
  intros Hr Htr'. pose proof Hr as [Hroot (st & Hst & Hok & Hs) (tr & Htr & Htrok) Hgens].
  assert (∀ s, s ≠ "trash" → child s (put ["trash"] (Some (Dir tr')) t) = child s t) as Hne.
  { intros s Hne. rewrite (child_put _ _ _ _ v) by done. by rewrite decide_False. }
  split.
  - intros s n. rewrite (child_put _ _ _ _ v) by done. case_decide; [by right; left|]. apply Hroot.
  - exists st. by rewrite Hne.
  - exists tr'. split; [|done]. rewrite (child_put _ _ _ _ v) by done. by rewrite decide_True.
  - intros g. rewrite Hgens. unfold gen_at. by rewrite Hne.
Qed.

Lemma gen_name_inj g g' : gen_name g = gen_name g' → g = g'.
Proof.
  intros He. apply (f_equal (strip_prefix "gen-")) in He. unfold gen_name in He. rewrite !strip_prefix_app in He.
  injection He. apply (inj pretty).
Qed.

Lemma rep_put_gen t v g x v' :
  Rep t v → (g ≤ u64_max)%N → (∀ n, x = Some n → gen_ok n) →
  staging v' = staging v → gens v' = partial_alter (λ _, x ≫= gen_in) g (gens v) →
  Rep (put [gen_name g] x t) v'.
Proof.
  intros Hr Hg Hx Hs' Hg'. pose proof Hr as [Hroot (st & Hst & Hok & Hs) (tr & Htr & Htrok) Hgens].
  split.
  - intros s n. rewrite (child_put _ _ _ _ v) by done. case_decide; [|apply Hroot].
    intros Hn. right; right. exists g. split_and!; [done|done|]. by apply Hx.
  - exists st. rewrite (child_put _ _ _ _ v), decide_False, Hs' by done. done.
  - exists tr. by rewrite (child_put _ _ _ _ v), decide_False by done.
  - intros g'. rewrite Hg'. destruct (decide (g' = g)) as [->|Hne].
    + rewrite lookup_partial_alter_eq. unfold gen_at. rewrite (child_put _ _ _ _ v), decide_True by done.
      by rewrite (proj2 (N.leb_le _ _)).
    + rewrite lookup_partial_alter_ne, Hgens by done. unfold gen_at.
      destruct (N.leb_spec g' u64_max); [|done]. rewrite (child_put _ _ _ _ v) by done.
      rewrite decide_False; [done|]. by intros ?%gen_name_inj.
Qed.
End view.

(** ** Changes of the staging *)

Section staging.
Context `{Json : ServerJson}.
Implicit Types (t : node) (v : Shelves) (u : UploadId).

Definition place_at (t : node) (u : UploadId) : option node := at_path (FsShelf.staged_dir u) t.
Definition digest_at (t : node) (u : UploadId) : option (list byte) :=
  digest_in (from_option entries_in ∅ (child "staging" t)) u.
Definition trash_at (t : node) : option node := child "trash" t.

(** The same but for the place and the note of [u], and the generations. *)
Definition beside u t t' : Prop := trash_at t' = trash_at t ∧
  ∀ u', u' ≠ u → place_at t' u' = place_at t u' ∧ digest_at t' u' = digest_at t u'.

Lemma beside_refl u t : beside u t t.
Proof. done. Qed.
Lemma beside_trans u t1 t2 t3 : beside u t1 t2 → beside u t2 t3 → beside u t1 t3.
Proof. intros [H1 H1'] [H2 H2']. split; [congruence|]. intros u' Hu. by rewrite (proj1 (H2' u' Hu)), (proj2 (H2' u' Hu)), (proj1 (H1' u' Hu)), (proj2 (H1' u' Hu)). Qed.

(** No place is unfinished, and no note is left of one that is gone: this is
    so unless something was cut short. *)
Definition Finished t : Prop := ∀ u,
  (place_at t u = None → digest_at t u = None) ∧ ∀ n, place_at t u = Some n → is_Some (place_of n).

(** What every operation that ends leaves as it was. *)
Definition Kept t t' : Prop := trash_at t' = trash_at t ∧ (Finished t → Finished t').

Lemma kept_refl t : Kept t t.
Proof. by split. Qed.
Lemma kept_trans t1 t2 t3 : Kept t1 t2 → Kept t2 t3 → Kept t1 t3.
Proof. intros [H1 H1'] [H2 H2']. split; [congruence|auto]. Qed.

Lemma kept_staging t t' : child "staging" t' = child "staging" t → trash_at t' = trash_at t → Kept t t'.
Proof.
  intros Hst Htr. split; [done|]. intros Ht u. unfold place_at, digest_at, FsShelf.staged_dir.
  change ["staging"; text u] with (["staging"] ++ [text u]). rewrite at_path_app, child_at, Hst. specialize (Ht u).
  unfold place_at, digest_at, FsShelf.staged_dir in Ht. change ["staging"; text u] with (["staging"] ++ [text u]) in Ht.
  by rewrite at_path_app, child_at in Ht.
Qed.

(** What is thrown away says nothing of the staging. *)
Lemma staging_put_trash t x : child "staging" (put ["trash"] x t) = child "staging" t.
Proof. by rewrite <- !child_at, at_put_apart by done. Qed.
Lemma place_put_trash t x u : place_at (put ["trash"] x t) u = place_at t u.
Proof. unfold place_at, FsShelf.staged_dir. by rewrite at_put_apart. Qed.
Lemma beside_put_trash u t t1 x :
  beside u t t1 → trash_at (put ["trash"] x t1) = trash_at t → beside u t (put ["trash"] x t1).
Proof.
  intros [_ Hb] Htr. split; [done|]. intros u' Hu. destruct (Hb u' Hu) as [<- <-].
  unfold digest_at. by rewrite staging_put_trash, place_put_trash.
Qed.

Lemma kept_away t s p y x : s ≠ "staging" → trash_at (put ["trash"] x (put (s :: p) y t)) = trash_at t →
  Kept t (put ["trash"] x (put (s :: p) y t)).
Proof.
  intros Hs Htr. apply kept_staging; [|done].
  by rewrite staging_put_trash, <- !child_at, at_put_apart by done.
Qed.

Lemma kept_beside u t t' : beside u t t' → (place_at t' u = None → digest_at t' u = None) →
  (∀ n, place_at t' u = Some n → is_Some (place_of n)) → Kept t t'.
Proof.
  intros [Htr Hb] Hno Hyes. split; [done|]. intros Ht u'. destruct (decide (u' = u)) as [->|Hne]; [by split|].
  destruct (Hb u' Hne) as [-> ->]. apply Ht.
Qed.

Lemma at_staging t st s : child "staging" t = Some (Dir st) → at_path ["staging"; s] t = st !! s.
Proof.
  intros Hst. change ["staging"; s] with (["staging"] ++ [s]). rewrite at_path_app, child_at, Hst. cbn. by destruct (st !! s).
Qed.

Lemma put_in_staging t st s p x : child "staging" t = Some (Dir st) →
  put ("staging" :: s :: p) x t = put ["staging"] (Some (put (s :: p) x (Dir st))) t.
Proof.
  intros Hst. change ("staging" :: s :: p) with (["staging"] ++ s :: p). apply (put_app _ _ _ _ (Dir st)); [done|done|].
  by rewrite child_at.
Qed.

(** A place is a directory of files, or is not there. *)
Lemma place_cases t v u : Rep t v →
  (place_at t u = None ∧ staging v !! u = None) ∨
  ∃ e, place_at t u = Some (Dir e) ∧ map_Forall (λ _, is_file_node) e ∧
    staging v !! u = (λ c, (c, digest_at t u)) <$> file_in CONTENT (Dir e).
Proof.
  intros [_ (st & Hst & Hok & Hs) _ _]. unfold place_at, FsShelf.staged_dir, digest_at.
  rewrite (at_staging t st), Hst by done. cbn [from_option entries_in].
  specialize (Hok (text u)). rewrite parsed_upload in Hok. rewrite (Hs u). unfold staged_in.
  destruct (st !! text u) as [n|]; [right|by left]. destruct (Hok n eq_refl) as (e & -> & He). by exists e.
Qed.

(** The other names of the staging directory are files. *)
Lemma digest_cases t v u : Rep t v →
  at_path (FsShelf.digest_file u) t = None ∨ ∃ b, at_path (FsShelf.digest_file u) t = Some (File b).
Proof.
  intros [_ (st & Hst & Hok & Hs) _ _]. unfold FsShelf.digest_file. rewrite (at_staging t st) by done.
  specialize (Hok (text u ++ SHA256)%string). rewrite digest_name_unparsed in Hok.
  destruct (st !! (text u ++ SHA256)%string) as [n|]; [right|by left].
  destruct (Hok n eq_refl) as [b Hb]. destruct n; [by eexists|done].
Qed.

Definition set_place (u : UploadId) (x : option staged_content) : Shelves → Shelves :=
  set_staging (partial_alter (λ _, x) u).

Lemma set_place_id u v : set_place u (staging v !! u) v = v.
Proof. unfold set_place, set_staging. rewrite partial_alter_self. by destruct v. Qed.

Lemma set_place_same u x v : staging v !! u = x → set_place u x v = v.
Proof. intros <-. apply set_place_id. Qed.

Lemma set_place_twice u x y v : set_place u y (set_place u x v) = set_place u y v.
Proof.
  unfold set_place, set_staging. cbn. f_equal. apply map_eq. intros u'.
  destruct (decide (u' = u)) as [->|Hne]; by rewrite ?lookup_partial_alter_eq, ?lookup_partial_alter_ne by done.
Qed.

Lemma staging_set_place u x v : staging (set_place u x v) !! u = x.
Proof. unfold set_place. cbn. by rewrite lookup_partial_alter_eq. Qed.

(** The place of [u] changes; [x] is what is there then. *)
Lemma rep_place t v u x :
  Rep t v → (∀ n, x = Some n → place_ok n) →
  let t' := put (FsShelf.staged_dir u) x t in
  Rep t' (set_place u (x ≫= λ n, (λ c, (c, digest_at t u)) <$> file_in CONTENT n) v) ∧
  place_at t' u = x ∧ digest_at t' u = digest_at t u ∧ beside u t t'.
Proof.
  intros Hr Hx t'. pose proof Hr as [Hroot (st & Hst & Hok & Hs) _ _].
  set (st' := partial_alter (λ _, x) (text u) st).
  assert (t' = put ["staging"] (Some (Dir st')) t) as Ht'.
  { unfold t', FsShelf.staged_dir. by rewrite (put_in_staging t st). }
  assert (child "staging" t' = Some (Dir st')) as Hst'.
  { rewrite Ht', (child_put _ _ _ _ v) by done. done. }
  assert (digest_in st' u = digest_in st u) as Hdig.
  { unfold digest_in, st'. rewrite lookup_partial_alter_ne; [done|]. intros H. by apply (digest_name_apart u u). }
  split_and!.
  - rewrite Ht'. apply (rep_put_staging t v); [done| | |done].
    + intros s n. unfold st'. destruct (decide (s = text u)) as [->|Hne].
      * rewrite lookup_partial_alter_eq, parsed_upload. apply Hx.
      * rewrite lookup_partial_alter_ne by done. apply Hok.
    + intros u'. unfold set_place. cbn. destruct (decide (u' = u)) as [->|Hne].
      * rewrite lookup_partial_alter_eq. unfold staged_in. rewrite Hdig. unfold st', digest_at. rewrite Hst.
        rewrite lookup_partial_alter_eq. by destruct x.
      * rewrite lookup_partial_alter_ne, Hs by done. unfold staged_in, digest_in, st'.
        rewrite !lookup_partial_alter_ne; [done|intros H..];
          first [by apply Hne, checked_eq|by apply (digest_name_apart u' u)|by apply (digest_name_apart u' u (eq_sym H))|by apply Hne, checked_eq, eq_sym].
  - unfold place_at, FsShelf.staged_dir. rewrite (at_staging t' st') by done. unfold st'. by rewrite lookup_partial_alter_eq.
  - unfold digest_at. by rewrite Hst', Hst.
  - split; [unfold trash_at; by rewrite Ht', (child_put _ _ _ _ v) by done|]. intros u' Hne.
    unfold place_at, digest_at, FsShelf.staged_dir. rewrite (at_staging t' st'), (at_staging t st), Hst', Hst by done.
    unfold digest_in, st'. cbn [from_option entries_in].
    rewrite !lookup_partial_alter_ne; [done|intros H..]; [by apply (digest_name_apart u' u)|by apply Hne, checked_eq].
Qed.

(** A file of a place that is there. *)
Lemma put_in_place t u e s x : place_at t u = Some (Dir e) →
  put (FsShelf.staged_dir u ++ [s]) x t = put (FsShelf.staged_dir u) (Some (Dir (partial_alter (λ _, x) s e))) t.
Proof. intros He. exact (put_app (FsShelf.staged_dir u) [s] x t (Dir e) ltac:(done) ltac:(done) He). Qed.

Lemma at_in_place t u e s : place_at t u = Some (Dir e) → at_path (FsShelf.staged_dir u ++ [s]) t = e !! s.
Proof. intros He. rewrite at_path_app. unfold place_at in He. rewrite He. cbn. by destruct (e !! s). Qed.

Lemma file_in_insert s s' b e : file_in s (Dir (<[s' := File b]> e)) = if decide (s = s') then Some b else file_in s (Dir e).
Proof.
  unfold file_in, child. cbn. case_decide; subst; by rewrite ?lookup_insert_eq, ?lookup_insert_ne by done.
Qed.

(** Its content. *)
Lemma rep_content t v u e c :
  Rep t v → place_at t u = Some (Dir e) → map_Forall (λ _, is_file_node) e →
  let t' := put (FsShelf.staged_dir u ++ [CONTENT]) (Some (File c)) t in
  Rep t' (set_place u (Some (c, digest_at t u)) v) ∧ place_at t' u = Some (Dir (<[CONTENT := File c]> e)) ∧
  digest_at t' u = digest_at t u ∧ beside u t t'.
Proof.
  intros Hr He Hf. cbn zeta. rewrite (put_in_place t u e) by done.
  pose proof (rep_place t v u (Some (Dir (<[CONTENT := File c]> e))) Hr) as Hp. cbn zeta in Hp.
  cbn [mbind option_bind] in Hp. rewrite file_in_insert, decide_True in Hp by done. apply Hp.
  intros n [= <-]. eexists. split; [done|]. apply map_Forall_insert_2; [by eexists|done].
Qed.

(** Another of its files, which says nothing. *)
Lemma rep_extra t v u e s b :
  Rep t v → place_at t u = Some (Dir e) → map_Forall (λ _, is_file_node) e → s ≠ CONTENT →
  let t' := put (FsShelf.staged_dir u ++ [s]) (Some (File b)) t in
  Rep t' v ∧ place_at t' u = Some (Dir (<[s := File b]> e)) ∧
  digest_at t' u = digest_at t u ∧ beside u t t'.
Proof.
  intros Hr He Hf Hs. cbn zeta. rewrite (put_in_place t u e) by done.
  destruct (place_cases t v u Hr) as [[Hn _]|(e' & He' & _ & Hv)]; [congruence|].
  assert (e' = e) as -> by congruence.
  pose proof (rep_place t v u (Some (Dir (<[s := File b]> e))) Hr) as Hp. cbn zeta in Hp.
  cbn [mbind option_bind] in Hp. rewrite file_in_insert, decide_False in Hp by done.
  rewrite set_place_same in Hp by done. apply Hp.
  intros n [= <-]. eexists. split; [done|]. apply map_Forall_insert_2; [by eexists|done].
Qed.

(** The note of a digest. *)
Definition as_digest (b : list byte) : option (list byte) := if length b =? 32 then Some b else None.

Lemma rep_digest t v u (b : option (list byte)) :
  Rep t v →
  let t' := put (FsShelf.digest_file u) (File <$> b) t in
  Rep t' (set_place u ((λ c : staged_content, (c.1, b ≫= as_digest)) <$> staging v !! u) v) ∧
  place_at t' u = place_at t u ∧ digest_at t' u = b ≫= as_digest ∧ beside u t t'.
Proof.
  intros Hr t'. pose proof Hr as [Hroot (st & Hst & Hok & Hs) _ _].
  set (st' := partial_alter (λ _, File <$> b) (text u ++ SHA256)%string st).
  assert (t' = put ["staging"] (Some (Dir st')) t) as Ht'.
  { unfold t', FsShelf.digest_file. by rewrite (put_in_staging t st). }
  assert (child "staging" t' = Some (Dir st')) as Hst'.
  { rewrite Ht', (child_put _ _ _ _ v) by done. done. }
  assert (digest_in st' u = b ≫= as_digest) as Hdig.
  { unfold digest_in, st'. rewrite lookup_partial_alter_eq. by destruct b. }
  assert (∀ u' : UploadId, st' !! text u' = st !! text u') as Hpl.
  { intros u'. unfold st'. rewrite lookup_partial_alter_ne; [done|]. apply digest_name_apart. }
  split_and!.
  - rewrite Ht'. apply (rep_put_staging t v); [done| | |done].
    + intros s n. unfold st'. destruct (decide (s = (text u ++ SHA256)%string)) as [->|Hne].
      * rewrite lookup_partial_alter_eq, digest_name_unparsed. destruct b; [|done]. intros [= <-]. by eexists.
      * rewrite lookup_partial_alter_ne by done. apply Hok.
    + intros u'. unfold set_place. cbn. destruct (decide (u' = u)) as [->|Hne].
      * rewrite lookup_partial_alter_eq, Hs. unfold staged_in. rewrite Hdig, Hpl.
        by destruct (st !! text u ≫= place_of).
      * rewrite lookup_partial_alter_ne, Hs by done. unfold staged_in. rewrite Hpl. unfold digest_in, st'.
        rewrite lookup_partial_alter_ne; [done|]. by intros ?%digest_name_inj.
  - unfold place_at, FsShelf.staged_dir. by rewrite (at_staging t' st'), (at_staging t st), Hpl.
  - unfold digest_at. by rewrite Hst'.
  - split; [unfold trash_at; by rewrite Ht', (child_put _ _ _ _ v) by done|]. intros u' Hne.
    unfold place_at, digest_at, FsShelf.staged_dir. rewrite (at_staging t' st'), (at_staging t st), Hpl, Hst', Hst by done.
    unfold digest_in, st'. cbn [from_option entries_in]. rewrite lookup_partial_alter_ne; [done|].
    intros H. by apply Hne, eq_sym, digest_name_inj.
Qed.
End staging.
