(* ===== verification/FsRules.v ===== *)
(** Running the calls of the file system on a directory in order, whatever a call
    does or leaves half done: the staging, and what is thrown away. *)

From stdpp Require Import pretty.
From S2P Require Import Prelude Text Errors Random Ids Shelf Files FsShelf FsRep.

(** ** Running calls

    [wpd m Q t k]: from any state with the tree [t] and the count [k], [m] ends
    in an outcome, a tree and a count that satisfy [Q].  [excuse] is what may
    excuse a call that is not carried out. *)

Section calls.
Context `{Sky : Weather} (excuse : Prop) (excused : ∀ n, luck n ≠ Fine → excuse).

Definition postd (E A : Type) : Type := outcome E A → node → N → Prop.
Definition wpd {E A} (m : M E Disk A) (Q : postd E A) (t : node) (k : N) : Prop := ∀ d,
  tree d = t → trashed d = k → Q (m d).1 (tree (m d).2) (trashed (m d).2).
Definition andthend {E A B} (f : A → M E Disk B) (Q : postd E B) : postd E A := λ x t k,
  match x with
  | Ok a => wpd (f a) Q t k
  | Err e => Q (Err e) t k
  | Killed => Q Killed t k
  | Spinning => Q Spinning t k
  end.

Lemma wpd_bind {E A B} (m : M E Disk A) (f : A → M E Disk B) Q t k :
  wpd m (andthend f Q) t k → wpd (m ≫= f) Q t k.
Proof.
  intros Hm d Ht Hk. specialize (Hm d Ht Hk). unfold mbind, M_bind, andthend in *.
  destruct (m d) as [[a|e| |] d']; cbn in *; try done. by apply Hm.
Qed.
Lemma wpd_mono {E A} (m : M E Disk A) (Q Q' : postd E A) t k :
  wpd m Q t k → (∀ x t' k', Q x t' k' → Q' x t' k') → wpd m Q' t k.
Proof. intros Hm HQ d Ht Hk. by apply HQ, Hm. Qed.
Lemma wpd_ret {E A} (a : A) (Q : postd E A) t k : Q (Ok a) t k → wpd (mret a) Q t k.
Proof. by intros HQ d <- <-. Qed.
Lemma wpd_throw {E A} (e : E) (Q : postd E A) t k : Q (Err e) t k → wpd (throw e) Q t k.
Proof. by intros HQ d <- <-. Qed.
Lemma wpd_lift {E A} (x : outcome E A) (Q : postd E A) t k : Q x t k → wpd (lift x) Q t k.
Proof. by intros HQ d <- <-. Qed.

(** A call of the file system, carried out or not. *)
Lemma wpd_call_fs {A} act part (Q : postd ErrorKind A) t k :
  Q (act t).1 (act t).2 k →
  (∀ n x, excuse → x = Err OtherError ∨ x = Killed → Q x (part n t) k) →
  wpd (call_fs act part) Q t k.
Proof.
  intros HQ Hcut d <- <-. unfold call_fs. destruct (luck (calls d)) as [|n|n] eqn:Hl.
  - destruct (act (tree d)) as [x t']. exact HQ.
  - apply Hcut; [apply (excused (calls d)); by rewrite Hl|by left].
  - apply Hcut; [apply (excused (calls d)); by rewrite Hl|by right].
Qed.

Definition attempted {A} (x : outcome ErrorKind A) : outcome ApiError (A + ErrorKind) :=
  match x with Ok a => Ok (inl a) | Err e => Ok (inr e) | Killed => Killed | Spinning => Spinning end.
Definition told {A} (x : outcome ErrorKind A) : outcome ApiError A :=
  match x with Ok a => Ok a | Err _ => Err ServiceUnavailable | Killed => Killed | Spinning => Spinning end.

Lemma wpd_attempt {A} (m : Io A) (Q : postd ApiError (A + ErrorKind)) t k :
  wpd m (λ x, Q (attempted x)) t k → wpd (attempt m) Q t k.
Proof. intros Hm d Ht Hk. specialize (Hm d Ht Hk). unfold attempt. by destruct (m d) as [[a|e| |] d']. Qed.
Lemma wpd_available {A} (m : Io A) (Q : postd ApiError A) t k :
  wpd m (λ x, Q (told x)) t k → wpd (available m) Q t k.
Proof. intros Hm d Ht Hk. specialize (Hm d Ht Hk). unfold available. by destruct (m d) as [[a|e| |] d']. Qed.

(** Calls whose errors are told. *)
Lemma wpd_available_call {A} act part (Q : postd ApiError A) t k :
  Q (told (act t).1) (act t).2 k →
  (∀ n x, excuse → interrupted x → Q x (part n t) k) →
  wpd (available (call_fs act part)) Q t k.
Proof.
  intros HQ Hcut. apply wpd_available, wpd_call_fs; [done|].
  intros n x He [-> | ->]; apply Hcut; auto; [by left|by right].
Qed.

(** A look that goes well or is cut short. *)
Lemma wpd_look {A} (f : node → outcome ErrorKind A) (Q : postd ApiError A) t k :
  Q (told (f t)) t k → (∀ x, excuse → interrupted x → Q x t k) → wpd (available (look f)) Q t k.
Proof. intros HQ Hcut. apply wpd_available_call; auto. Qed.

(** A look whose error is looked at. *)
Lemma wpd_attempt_look {A} (f : node → outcome ErrorKind A) (Q : postd ApiError (A + ErrorKind)) t k :
  Q (attempted (f t)) t k → (∀ x, excuse → x = Ok (inr OtherError) ∨ x = Killed → Q x t k) →
  wpd (attempt (look f)) Q t k.
Proof.
  intros HQ Hcut. apply wpd_attempt, wpd_call_fs; [done|].
  intros n x He [-> | ->]; apply Hcut; auto.
Qed.

Context (sharp : ∀ n, glance n = true).

Lemma wpd_glimpse f p (Q : postd ApiError bool) t k :
  Q (Ok (f (at_path p t))) t k → (excuse → Q Killed t k) → wpd (glimpse f p) Q t k.
Proof.
  intros HQ Hcut d <- <-. unfold glimpse. rewrite sharp.
  destruct (luck (calls d)) as [|n|n] eqn:Hl; [done|done|].
  apply Hcut, (excused (calls d)). by rewrite Hl.
Qed.
End calls.

Ltac fs_step := first
  [ apply wpd_bind | apply wpd_ret | apply wpd_throw | apply wpd_lift ].

(** ** Staging *)

Lemma mkdirs_here p t m : at_path p t = Some (Dir m) → mkdirs p t = (Ok (), t).
Proof.
  revert t. induction p as [|s p IH]; intros t Ht; [by injection Ht as ->|].
  destruct t as [b|m']; [done|]. cbn in *. destruct (m' !! s) as [t|] eqn:Hs; [|done]. cbn in *.
  rewrite IH by done. by rewrite insert_id.
Qed.

Lemma mkdirs_snoc p s t m : at_path p t = Some (Dir m) → m !! s = None →
  mkdirs (p ++ [s]) t = (Ok (), put (p ++ [s]) (Some (Dir ∅)) t).
Proof.
  intros Ht Hs. revert t Ht. induction p as [|s' p IH]; intros t Ht.
  - injection Ht as ->. cbn. rewrite Hs. done.
  - destruct t as [b|m']; [done|]. cbn in Ht. destruct (m' !! s') as [t|] eqn:Hs'; [|done]. cbn in Ht.
    cbn [app mkdirs]. rewrite Hs'. cbn [default from_option]. rewrite IH by done.
    rewrite (put_cons s' (p ++ [s]) _ m' t); [done|by destruct p|done].
Qed.

Section staging_ops.
Context `{Ext : Externals} `{Sky : Weather} `{Json : ServerJson} (pid : N).
Context (excuse : Prop) (excused : ∀ n, luck n ≠ Fine → excuse) (sharp : ∀ n, glance n = true).
Implicit Types (t : node) (v : Shelves) (u : UploadId) (k : N).

(** An operation that answers [y] and leaves what stands for [v'], and nothing
    thrown away or half done; or that is cut short. *)
Definition ends {A} t0 (y : outcome ApiError A) v' (torn : Shelves → Prop) : postd ApiError A := λ x t' k',
  (x = y ∧ Rep t' v' ∧ (excuse ∨ Kept t0 t')) ∨
  (interrupted x ∧ excuse ∧ ∃ v2, Rep t' v2 ∧ torn v2).

Lemma ends_ok {A} t0 (y : outcome ApiError A) v' torn t' k' :
  Rep t' v' → Kept t0 t' → ends t0 y v' torn y t' k'.
Proof. intros Hr Ht. left. auto. Qed.
Lemma ends_cut {A} t0 (y : outcome ApiError A) v' (torn : Shelves → Prop) x t' k' v2 :
  interrupted x → excuse → Rep t' v2 → torn v2 → ends t0 y v' torn x t' k'.
Proof. intros. right. eauto. Qed.

Lemma wpd_is_dir_place u (Q : postd ApiError bool) t k v :
  Rep t v →
  (place_at t u = None → staging v !! u = None → Q (Ok false) t k) →
  (∀ e, place_at t u = Some (Dir e) → map_Forall (λ _, is_file_node) e →
    staging v !! u = (λ c, (c, digest_at t u)) <$> file_in CONTENT (Dir e) → Q (Ok true) t k) →
  (excuse → Q Killed t k) →
  wpd (is_dir (FsShelf.staged_dir u)) Q t k.
Proof.
  intros Hr Hno Hyes Hcut. apply (wpd_glimpse excuse excused sharp); [|done].
  destruct (place_cases t v u Hr) as [[Hn Hv]|(e & He & Hf & Hv)].
  - unfold place_at in Hn. rewrite Hn. by apply Hno.
  - pose proof He as He'. unfold place_at in He'. rewrite He'. by eapply Hyes.
Qed.

Definition set_digest (u : UploadId) (d : option (list byte)) v : Shelves :=
  set_place u ((λ c : staged_content, (c.1, d)) <$> staging v !! u) v.

Lemma set_digest_same t v u : Rep t v → set_digest u (digest_at t u) v = v.
Proof.
  intros Hr. apply set_place_same. destruct (place_cases t v u Hr) as [[_ Hv]|(e & _ & _ & Hv)]; rewrite Hv; [done|].
  by destruct (file_in CONTENT (Dir e)).
Qed.

Lemma digest_at_none t v u : Rep t v → at_path (FsShelf.digest_file u) t = None → digest_at t u = None.
Proof.
  intros [_ (st & Hst & _) _ _] Hn. unfold FsShelf.digest_file in Hn. rewrite (at_staging t st) in Hn by done.
  unfold digest_at, digest_in. rewrite Hst. cbn. by rewrite Hn.
Qed.

(** A removal of what may not be there. *)
Lemma wpd_gone act part (Q : postd ApiError unit) t k :
  (act t).1 = Ok () ∨ (act t).1 = Err NoEntry → Q (Ok ()) (act t).2 k →
  (∀ n x, excuse → interrupted x → Q x (part n t) k) →
  wpd (FsShelf.gone (call_fs act part)) Q t k.
Proof.
  intros Ha HQ Hcut. unfold FsShelf.gone. fs_step. apply wpd_attempt, (wpd_call_fs excuse excused).
  - by destruct Ha as [-> | ->]; cbn; fs_step.
  - intros n x He [-> | ->]; cbn; [fs_step|]; apply Hcut; try done; [by left|by right].
Qed.

Lemma wpd_remove_digest u (Q : postd ApiError unit) t k v :
  Rep t v →
  (∀ t', Rep t' (set_digest u None v) → place_at t' u = place_at t u → digest_at t' u = None →
    beside u t t' → Q (Ok ()) t' k) →
  (∀ x t' d, excuse → interrupted x → Rep t' (set_digest u d v) → Q x t' k) →
  wpd (FsShelf.remove_digest u) Q t k.
Proof.
  intros Hr Hok Hcut. unfold FsShelf.remove_digest, remove_file, at_once.
  pose proof (rep_digest t v u None Hr) as (Hr' & Hp & Hd & Htr).
  pose proof (set_digest_same t v u Hr) as Hsame.
  destruct (digest_cases t v u Hr) as [Hn|[b Hb]].
  - assert (unlink (FsShelf.digest_file u) t = (Err NoEntry, t)) as Hun by (unfold unlink; by rewrite Hn).
    pose proof (digest_at_none t v u Hr Hn) as Hdn. rewrite Hdn in Hsame.
    apply (wpd_gone (unlink (FsShelf.digest_file u))); rewrite ?Hun; [by right|by apply Hok; rewrite ?Hsame|].
    intros n x He Hx. apply (Hcut _ _ None); [done|done|]. unfold whole_or_nothing. rewrite Hun, Hsame. by destruct n.
  - assert (unlink (FsShelf.digest_file u) t = (Ok (), put (FsShelf.digest_file u) None t)) as Hun
      by (unfold unlink; by rewrite Hb).
    apply (wpd_gone (unlink (FsShelf.digest_file u))); rewrite ?Hun; [by left|by apply Hok|].
    intros n x He Hx. unfold whole_or_nothing. rewrite Hun. destruct n.
    + apply (Hcut _ _ (digest_at t u)); [done|done|]. by rewrite Hsame.
    + by apply (Hcut _ _ None).
Qed.

(** Creating, or emptying, a file of a place. *)
Lemma truncate_in_place t u e s : place_at t u = Some (Dir e) → map_Forall (λ _, is_file_node) e →
  truncate_at (FsShelf.staged_dir u ++ [s]) t = (Ok (), put (FsShelf.staged_dir u ++ [s]) (Some (File [])) t).
Proof.
  intros He Hf. unfold truncate_at. rewrite (at_in_place t u e) by done.
  destruct (e !! s) as [n|] eqn:Hs.
  - destruct (Hf s n Hs) as [b Hb]. by destruct n.
  - unfold parent_is_dir. rewrite removelast_last. unfold place_at in He. by rewrite He.
Qed.

Lemma wpd_create_in_place u e s (Q : postd ApiError unit) t k :
  place_at t u = Some (Dir e) → map_Forall (λ _, is_file_node) e →
  Q (Ok ()) (put (FsShelf.staged_dir u ++ [s]) (Some (File [])) t) k →
  (∀ x t', excuse → interrupted x → t' = t ∨ t' = put (FsShelf.staged_dir u ++ [s]) (Some (File [])) t → Q x t' k) →
  wpd (FsShelf.create_file (FsShelf.staged_dir u ++ [s])) Q t k.
Proof.
  intros He Hf HQ Hcut. apply (wpd_available_call excuse excused (truncate_at (FsShelf.staged_dir u ++ [s])));
    [by rewrite (truncate_in_place t u e)|].
  intros n x Hx Hi. apply Hcut; [done|done|]. unfold whole_or_nothing.
  destruct n; [by left|right]. by rewrite (truncate_in_place t u e).
Qed.

(** Opening a note that is to be written. *)
Lemma truncate_digest t v u : Rep t v →
  truncate_at (FsShelf.digest_file u) t = (Ok (), put (FsShelf.digest_file u) (Some (File [])) t).
Proof.
  intros Hr. unfold truncate_at. destruct (digest_cases t v u Hr) as [Hn|[b Hb]]; [|by rewrite Hb].
  rewrite Hn. destruct Hr as [_ (st & Hst & _) _ _]. unfold parent_is_dir. cbn [removelast FsShelf.digest_file].
  by rewrite child_at, Hst.
Qed.

Lemma set_digest_twice u d d' v : set_digest u d' (set_digest u d v) = set_digest u d' v.
Proof. unfold set_digest. rewrite set_place_twice, staging_set_place. f_equal. by destruct (staging v !! u). Qed.

Lemma wpd_write_digest u b (Q : postd ApiError unit) t k v :
  Rep t v →
  (∀ t', Rep t' (set_digest u (as_digest b) v) → place_at t' u = place_at t u → beside u t t' → Q (Ok ()) t' k) →
  (∀ x t' d, excuse → interrupted x → Rep t' (set_digest u d v) → Q x t' k) →
  wpd (FsShelf.write_file (FsShelf.digest_file u) b) Q t k.
Proof.
  intros Hr Hok Hcut. unfold FsShelf.write_file, FsShelf.create_file.
  pose proof (rep_digest t v u (Some []) Hr) as (Hr1 & Hp1 & _ & Htr1).
  pose proof (set_digest_same t v u Hr) as Hsame. set (t1 := put _ (File <$> Some []) t) in *.
  assert (∀ b', append_at (FsShelf.digest_file u) b' t1 = put (FsShelf.digest_file u) (Some (File b')) t1) as Happ.
  { intros b'. unfold append_at, t1. rewrite at_put_eq; [done|done|]. unfold parent_is_dir. cbn [removelast FsShelf.digest_file].
    destruct Hr as [_ (st & Hst & _) _ _]. by rewrite child_at, Hst. }
  assert (∀ b', Rep (append_at (FsShelf.digest_file u) b' t1) (set_digest u (as_digest b') v) ∧
    place_at (append_at (FsShelf.digest_file u) b' t1) u = place_at t u ∧
    beside u t (append_at (FsShelf.digest_file u) b' t1)) as Hrep.
  { intros b'. rewrite Happ. pose proof (rep_digest t1 _ u (Some b') Hr1) as (Hr2 & Hp2 & _ & Htr2).
    split_and!; [|etrans; [exact Hp2|exact Hp1]|by eapply beside_trans].
    rewrite <- (set_digest_twice u (as_digest []) (as_digest b') v). exact Hr2. }
  fs_step. apply (wpd_available_call excuse excused (truncate_at (FsShelf.digest_file u))).
  2: { intros n x He Hx. assert (∃ d, Rep (whole_or_nothing (truncate_at (FsShelf.digest_file u)) n t) (set_digest u d v)) as [d Hd].
    { unfold whole_or_nothing. destruct n; [exists (digest_at t u); by rewrite Hsame|].
      rewrite (truncate_digest t v) by done. by exists (as_digest []). }
    destruct Hx as [-> | ->]; cbn; eapply Hcut; try done; [by left|by right]. }
  rewrite (truncate_digest t v) by done. cbn [fst snd told andthend]. apply wpd_available. fs_step.
  apply (wpd_call_fs excuse excused).
  - cbn [fst snd andthend]. apply (wpd_call_fs excuse excused).
    + cbn. destruct (Hrep b) as (?&?&?). by apply Hok.
    + intros n x He [-> | ->]; cbn; eapply Hcut; try apply Hrep; try done; [by left|by right].
  - intros n x He [-> | ->]; cbn; eapply Hcut; try apply Hrep; try done; [by left|by right].
Qed.

(** A file of a place, written whole. *)
Lemma append_in_place t u e s b b' : place_at t u = Some (Dir e) → e !! s = Some (File b) →
  append_at (FsShelf.staged_dir u ++ [s]) b' t = put (FsShelf.staged_dir u ++ [s]) (Some (File (b ++ b'))) t.
Proof. intros He Hs. unfold append_at. by rewrite (at_in_place t u e), Hs. Qed.

Lemma wpd_write_extra u e s b (Q : postd ApiError unit) t k v :
  Rep t v → place_at t u = Some (Dir e) → map_Forall (λ _, is_file_node) e → s ≠ CONTENT →
  (∀ t', Rep t' v → place_at t' u = Some (Dir (<[s := File b]> e)) → beside u t t' → Q (Ok ()) t' k) →
  (∀ x t', excuse → interrupted x → Rep t' v → Q x t' k) →
  wpd (FsShelf.write_file (FsShelf.staged_dir u ++ [s]) b) Q t k.
Proof.
  intros Hr He Hf Hs Hok Hcut. unfold FsShelf.write_file.
  pose proof (rep_extra t v u e s [] Hr He Hf Hs) as (Hr1 & He1 & _ & Htr1). set (t1 := put _ _ t) in *.
  assert (map_Forall (λ _, is_file_node) (<[s := File []]> e)) as Hf1 by (apply map_Forall_insert_2; [by eexists|done]).
  assert (∀ b', Rep (append_at (FsShelf.staged_dir u ++ [s]) b' t1) v ∧
    place_at (append_at (FsShelf.staged_dir u ++ [s]) b' t1) u = Some (Dir (<[s := File b']> e)) ∧
    beside u t (append_at (FsShelf.staged_dir u ++ [s]) b' t1)) as Hrep.
  { intros b'. rewrite (append_in_place t1 u (<[s := File []]> e) s [] b') by (done || apply lookup_insert_eq).
    pose proof (rep_extra t1 v u _ s ([] ++ b') Hr1 He1 Hf1 Hs) as (Hr2 & He2 & _ & Htr2).
    split_and!; [done| |by eapply beside_trans]. by rewrite He2, insert_insert_eq. }
  fs_step. apply (wpd_create_in_place u e); [done|done| |].
  2: { intros x t' Hx Hi Ht'. assert (Rep t' v) by (by destruct Ht' as [-> | ->]).
    destruct Hi as [-> | ->]; cbn; eapply Hcut; try done; [by left|by right]. }
  cbn [andthend]. apply wpd_available. fs_step. apply (wpd_call_fs excuse excused).
  - cbn [fst snd andthend]. apply (wpd_call_fs excuse excused).
    + cbn. destruct (Hrep b) as (?&?&?). by apply Hok.
    + intros n x Hx [-> | ->]; cbn; eapply Hcut; try apply Hrep; try done; [by left|by right].
  - intros n x Hx [-> | ->]; cbn; eapply Hcut; try apply Hrep; try done; [by left|by right].
Qed.
End staging_ops.

(** A step that was cut short. *)
Ltac cut_short := match goal with
  | H : Rep _ ?v2 |- ends _ _ _ _ _ _ _ _ =>
      apply (ends_cut _ _ _ _ _ _ _ _ v2); [solve [done|by left|by right]|done|exact H|solve [done|by left|by right|eauto]]
  end.

(** ** Writing content *)

Section writing.
Context `{Ext : Externals} `{LawExt : !LawfulExternals} `{Sky : Weather} `{Json : ServerJson} (pid : N).
Context (excuse : Prop) (excused : ∀ n, luck n ≠ Fine → excuse) (sharp : ∀ n, glance n = true).
Implicit Types (t : node) (v : Shelves) (u : UploadId) (k : N).

Lemma wpd_stage_create u t k v : Rep t v →
  let d := digest_at t u in
  wpd (FsShelf.stage_create u)
    (ends excuse t (Ok ()) (create_place d u v) (λ v', v' = v ∨ v' = create_place d u v)) t k.
Proof.
  intros Hr d. unfold FsShelf.stage_create, FsShelf.make_dir. fs_step.
  (* the directory *)
  assert (∃ t1 e, mkdirs (FsShelf.staged_dir u) t = (Ok (), t1) ∧ Rep t1 v ∧ place_at t1 u = Some (Dir e) ∧
    map_Forall (λ _, is_file_node) e ∧ digest_at t1 u = d ∧ beside u t t1 ∧
    staging v !! u = (λ c, (c, d)) <$> file_in CONTENT (Dir e) ∧
    ∀ n, (mkdirs (take n (FsShelf.staged_dir u)) t).2 = t ∨ (mkdirs (take n (FsShelf.staged_dir u)) t).2 = t1)
    as (t1 & e & Hmk & Hr1 & He & Hf & Hd1 & Htr1 & Hv & Hpart).
  { pose proof Hr as [_ (st & Hst & _) _ _].
    destruct (rep_dir t v Hr) as [m Hm].
    assert (∀ n, n < 2 → (mkdirs (take n (FsShelf.staged_dir u)) t).2 = t) as Hfew.
    { intros [|[|]] Hn; [subst t; done| |lia].
      change (take 1 (FsShelf.staged_dir u)) with ["staging"].
      by rewrite (mkdirs_here _ _ st) by (by rewrite child_at). }
    assert (∀ n, 2 ≤ n → take n (FsShelf.staged_dir u) = FsShelf.staged_dir u) as Hall by (intros; by apply take_ge).
    destruct (place_cases t v u Hr) as [[Hn Hv]|(e & He & Hf & Hv)].
    - pose proof (rep_place t v u (Some (Dir ∅)) Hr) as (Hr1 & Hp1 & Hd1 & Htr1).
      { intros n [= <-]. by exists ∅. }
      assert (mkdirs (FsShelf.staged_dir u) t = (Ok (), put (FsShelf.staged_dir u) (Some (Dir ∅)) t)) as Hmk.
      { change (FsShelf.staged_dir u) with (["staging"] ++ [text u]). apply (mkdirs_snoc _ _ _ st); [by rewrite child_at|].
        unfold place_at, FsShelf.staged_dir in Hn. by rewrite (at_staging t st) in Hn. }
      exists (put (FsShelf.staged_dir u) (Some (Dir ∅)) t), ∅. split_and!; try done.
      + change (Rep (put (FsShelf.staged_dir u) (Some (Dir ∅)) t) (set_place u None v)) in Hr1.
        by rewrite set_place_same in Hr1.
      + intros n. destruct (decide (n < 2)); [left; by apply Hfew|right]. rewrite Hall by lia. by rewrite Hmk.
    - exists t, e. split_and!; try done; [by apply (mkdirs_here _ _ e)|].
      intros n. left. destruct (decide (n < 2)); [by apply Hfew|]. rewrite Hall by lia. by rewrite (mkdirs_here _ _ e). }
  apply (wpd_available_call excuse excused (mkdirs (FsShelf.staged_dir u))).
  2: { intros n x Hx Hi. assert (∃ t', (mkdirs (take n (FsShelf.staged_dir u)) t).2 = t' ∧ Rep t' v) as (t' & -> & Hr').
    { eexists; split; [done|]. by destruct (Hpart n) as [-> | ->]. }
    destruct Hi as [-> | ->]; cbn; cut_short. }
  rewrite Hmk. cbn [fst snd told andthend]. fs_step. apply (wpd_glimpse excuse excused sharp).
  2: { intros Hx. cbn. cut_short. }
  rewrite (at_in_place t1 u e) by done.
  destruct (e !! CONTENT) as [n|] eqn:Hc; cbn [andthend].
  - fs_step. destruct (Hf _ _ Hc) as [c Hn]. destruct n as [c'|]; [|done].
    unfold file_in, child in Hv. cbn [entries_in] in Hv. rewrite Hc in Hv. cbn in Hv.
    unfold create_place. rewrite Hv. apply ends_ok; [done|]. apply (kept_beside u); [done|congruence|].
    intros n. rewrite He. intros [= <-]. unfold place_of, file_in, child. cbn. rewrite Hc. by eexists.
  - unfold file_in, child in Hv. cbn [entries_in] in Hv. rewrite Hc in Hv. cbn in Hv.
    unfold create_place. rewrite Hv.
    pose proof (rep_content t1 v u e [] Hr1 He Hf) as (Hr2 & He2 & _ & Htr2). rewrite Hd1 in Hr2.
    apply (wpd_create_in_place excuse excused u e); [done|done| |].
    + apply ends_ok; [done|]. apply (kept_beside u); [by eapply beside_trans|congruence|].
      intros n. rewrite He2. intros [= <-]. unfold place_of. rewrite file_in_insert. by eexists.
    + intros x t' Hx Hi [-> | ->]; eapply ends_cut; eauto.
Qed.

(** In the middle of a write. *)
Definition filled u v t0 (c : list byte) t : Prop := ∃ e,
  Rep t (set_place u (Some (c, None)) v) ∧ place_at t u = Some (Dir e) ∧ map_Forall (λ _, is_file_node) e ∧
  e !! CONTENT = Some (File c) ∧ digest_at t u = None ∧ beside u t0 t.

Lemma filled_again u v t0 c c' t : filled u v t0 c t →
  filled u v t0 c' (put (FsShelf.staged_dir u ++ [CONTENT]) (Some (File c')) t).
Proof.
  intros (e & Hr & He & Hf & Hc & Hd & Htr).
  pose proof (rep_content t _ u e c' Hr He Hf) as (Hr' & He' & Hd' & Htr').
  exists (<[CONTENT := File c']> e). rewrite Hd, set_place_twice in Hr'. do 2 (split; [done|]).
  split; [apply map_Forall_insert_2; [by eexists|done]|]. split; [apply lookup_insert_eq|].
  split; [congruence|by eapply beside_trans].
Qed.

Lemma filled_append u v t0 c t (b : list byte) : filled u v t0 c t →
  filled u v t0 (c ++ b) (append_at (FsShelf.staged_dir u ++ [CONTENT]) b t).
Proof.
  intros Hfi. pose proof Hfi as (e & _ & He & _ & Hc & _). rewrite (append_in_place t u e CONTENT c b) by done.
  by eapply filled_again.
Qed.

Lemma filled_torn u v t0 c t : filled u v t0 c t → ∃ v2, Rep t v2 ∧ torn_write u v v2.
Proof. intros (e & Hr & _). eexists. split; [exact Hr|]. right. by eexists. Qed.

Lemma filled_kept u v t0 c t : filled u v t0 c t → Kept t0 t.
Proof.
  intros (e & _ & He & _ & Hc & _ & Hb). apply (kept_beside u); [done|congruence|]. rewrite He. intros n [= <-].
  unfold place_of, file_in, child. cbn. rewrite Hc. by eexists.
Qed.

(** The pump fills the file as it fills the buffer of the shelf in memory. *)
Lemma pump_agrees u v t0 announced content sum hasher c d :
  filled u v t0 c (tree d) →
  let '(w, h, d') := pump_from announced (λ piece, available (write_all (FsShelf.staged_dir u ++ [CONTENT]) piece))
    content sum hasher d in
  let '(w0, h0, c0) := pump_from announced (λ piece bytes, (Ok (), bytes ++ piece)) content sum hasher c in
  trashed d' = trashed d ∧ ((∃ n, w0 = Ok n) ∨ ∃ e, w0 = Err e) ∧
  ((w = w0 ∧ h = h0 ∧ filled u v t0 c0 (tree d')) ∨ (interrupted w ∧ excuse ∧ ∃ c', filled u v t0 c' (tree d'))).
Proof.
  set (sink := λ piece, available (write_all (FsShelf.staged_dir u ++ [CONTENT]) piece)).
  revert sum hasher c d. induction content as [|[[|b piece]| |] content IH]; intros sum hasher c d Hd; cbn [pump_from].
  - split_and!; eauto 6.
  - split_and!; eauto 6.
  - destruct (announced <? _)%N; [split_and!; eauto 6|].
    assert (wpd (sink (b :: piece)) (λ x t' k',
      (x = Ok () ∧ filled u v t0 (c ++ b :: piece) t' ∧ k' = trashed d) ∨
      (interrupted x ∧ excuse ∧ (∃ c', filled u v t0 c' t') ∧ k' = trashed d)) (tree d) (trashed d)) as Hs.
    { unfold sink. apply (wpd_available_call excuse excused); cbn [fst snd told].
      - left. split_and!; [done|by apply filled_append|done].
      - intros n x Hx Hi. right. split_and!; [done|done| |done]. eexists. by apply filled_append. }
    specialize (Hs d eq_refl eq_refl).
    pose proof (IH (wadd sum (len64 (b :: piece))) ((λ h, h ++ b :: piece) <$> hasher) (c ++ b :: piece)) as IHs.
    destruct (sink (b :: piece) d) as [x d1]. cbn [fst snd] in Hs.
    destruct Hs as [(-> & Hfi & Hk)|(Hi & Hx & Hfi & Hk)].
    + specialize (IHs d1 Hfi). rewrite Hk in IHs. exact IHs.
    + specialize (IHs (mkDisk (append_at (FsShelf.staged_dir u ++ [CONTENT]) (b :: piece) (tree d)) 0 0)).
      specialize (IHs (filled_append _ _ _ _ _ _ Hd)).
      destruct (pump_from announced sink content _ _ _) as [[w h] d2].
      destruct (pump_from announced _ content _ _ (c ++ b :: piece)) as [[w0 h0] c0].
      destruct IHs as (_ & Hw & _). destruct Hi as [-> | ->]; split_and!; try done; right; split_and!; try done;
        [by left|by right].
  - by apply IH.
  - split_and!; eauto 6.
Qed.

(** What is done with what was taken. *)
Lemma wpd_write_end u v t0 (w : outcome ApiError N) (h : option (list byte)) c t k :
  filled u v t0 c t → (∃ n, w = Ok n) ∨ (∃ e, w = Err e) →
  wpd (FsShelf.write_end u h w)
    (ends excuse t0 w (set_place u (Some (if is_ok w then (c, sha256 <$> h) else ([], None))) v) (torn_write u v)) t k.
Proof.
  intros Hfi Hw. pose proof (filled_torn _ _ _ _ _ Hfi) as (v2 & Hr2 & Ht2).
  pose proof Hfi as (e & Hr & He & Hf & Hc & Hd & Htr).
  destruct Hw as [[n ->]|[e' ->]]; cbn [FsShelf.write_end is_ok].
  - fs_step. apply (wpd_look excuse excused); [|intros x Hx [-> | ->]; cbn; cut_short].
    cbn [told andthend]. fs_step. destruct h as [bytes|]; cbn [fmap option_fmap option_map].
    + apply (wpd_write_digest excuse excused u (sha256 bytes) _ _ _ (set_place u (Some (c, None)) v)); [done| |].
      * intros t' Hr' Hp' Htr'. cbn [andthend]. fs_step. apply ends_ok.
        2: { apply (kept_beside u); [by eapply beside_trans|congruence|]. rewrite Hp', He. intros n' [= <-].
          unfold place_of, file_in, child. cbn. rewrite Hc. by eexists. }
        unfold set_digest in Hr'. rewrite staging_set_place, set_place_twice in Hr'. cbn in Hr'.
        unfold as_digest in Hr'. by rewrite sha256_length in Hr'.
      * intros x t' d Hx Hi Hr'. unfold set_digest in Hr'. rewrite staging_set_place, set_place_twice in Hr'.
        destruct Hi as [-> | ->]; cbn; (eapply ends_cut; [|done|exact Hr'|right; by eexists]); [by left|by right].
    + fs_step. cbn [andthend]. fs_step. apply ends_ok; [done|by eapply filled_kept].
  - fs_step. apply (wpd_available_call excuse excused (empty_at (FsShelf.staged_dir u ++ [CONTENT]))).
    + unfold empty_at. rewrite (at_in_place t u e), Hc by done. cbn [fst snd told andthend]. fs_step.
      pose proof (filled_again u v t0 c [] t Hfi) as Hfi'. pose proof Hfi' as (e2 & Hr' & _).
      apply ends_ok; [done|by eapply filled_kept].
    + intros n x Hx Hi.
      assert (∃ c', filled u v t0 c' (whole_or_nothing (empty_at (FsShelf.staged_dir u ++ [CONTENT])) n t)) as [c' Hc'].
      { unfold whole_or_nothing, empty_at. rewrite (at_in_place t u e), Hc by done.
        destruct n; [by exists c|]. exists []. by eapply filled_again. }
      destruct (filled_torn _ _ _ _ _ Hc') as (v3 & Hr3 & Ht3).
      destruct Hi as [-> | ->]; cbn; cut_short.
Qed.

Lemma wpd_write u content announced (hashed : bool) t k v : Rep t v → ∃ v0, place_found u v v0 ∧
  (place_at t u = None → v0 = v) ∧
  wpd (FsShelf.write u content announced hashed)
    (ends excuse t (MemoryShelf.write u content announced hashed v0).1
      (MemoryShelf.write u content announced hashed v0).2 (torn_write u v)) t k.
Proof.
  intros Hr.
  exists (if place_at t u then create_place None u v else v).
  split. { destruct (place_at t u); [right; by eexists|by left]. }
  split. { by intros ->. }
  unfold FsShelf.write. fs_step. apply (wpd_is_dir_place excuse excused sharp u _ _ _ v); [done| | |].
  - intros Hn Hv. rewrite Hn. cbn [andthend negb]. fs_step. unfold MemoryShelf.write. rewrite Hv. by apply ends_ok.
  - intros e He Hf Hv. rewrite He. cbn [andthend negb]. set (v0 := create_place None u v).
    assert (∃ c0, staging v0 !! u = Some c0 ∧ ∀ c, set_place u c v0 = set_place u c v) as (c0 & Hc0 & Hset).
    { unfold v0, create_place. destruct (staging v !! u) as [c0|] eqn:Hu; [by exists c0|].
      exists ([], None). cbn. split; [apply lookup_insert_eq|]. intros c. apply (set_place_twice u (Some ([], None))). }
    unfold MemoryShelf.write. rewrite Hc0.
    (* the old note goes *)
    fs_step. apply (wpd_remove_digest excuse excused u _ _ _ v); [done| |].
    2: { intros x t' d Hx Hi Hr'. assert (torn_write u v (set_digest u d v)) as Ht.
      { unfold set_digest. destruct (staging v !! u) eqn:Hu; [right; by eexists|left; by apply set_place_same]. }
      destruct Hi as [-> | ->]; cbn; cut_short. }
    intros t1 Hr1 Hp1 Hd1 Htr1. cbn [andthend]. rewrite He in Hp1.
    (* the file is emptied *)
    pose proof (rep_content t1 _ u e [] Hr1 Hp1 Hf) as (Hr2 & Hp2 & Hd2 & Htr2). set (t2 := put _ _ t1) in *.
    assert (filled u v t [] t2) as Hfi.
    { exists (<[CONTENT := File []]> e). unfold set_digest in Hr2. rewrite set_place_twice, Hd1 in Hr2.
      do 2 (split; [done|]). split; [apply map_Forall_insert_2; [by eexists|done]|]. split; [apply lookup_insert_eq|].
      split; [congruence|by eapply beside_trans]. }
    fs_step. apply (wpd_create_in_place excuse excused u e); [done|done| |].
    2: { intros x t' Hx Hi Ht'. assert (∃ v2, Rep t' v2 ∧ torn_write u v v2) as (v2 & Hr' & Htn).
      { destruct Ht' as [-> | ->]; [|by eapply filled_torn]. eexists. split; [exact Hr1|]. unfold set_digest.
        destruct (staging v !! u) eqn:Hu; [right; by eexists|left; by apply set_place_same]. }
      destruct Hi as [-> | ->]; cbn; cut_short. }
    cbn [andthend]. fold t2. intros d Hdt Hdk. unfold FsShelf.write_pieces, pump. rewrite <- Hdt in Hfi.
    pose proof (pump_agrees u v t announced content 0 (if hashed then Some [] else None) [] d Hfi) as Hag.
    destruct (pump_from announced _ content 0 _ d) as [[w h] d1].
    destruct (pump_from announced _ content 0 _ []) as [[w0 h0] cc].
    destruct Hag as (Hk & Hw0 & [(-> & -> & Hfi1)|(Hi & Hx & [c' Hfi1])]).
    + pose proof (wpd_write_end u v t w0 h0 cc (tree d1) k Hfi1 Hw0 d1 eq_refl ltac:(congruence)) as Hend.
      cbn [fst snd]. by rewrite <- (Hset (Some _)) in Hend.
    + destruct (filled_torn _ _ _ _ _ Hfi1) as (v2 & Hr' & Htn).
      destruct Hi as [-> | ->].
      * pose proof (wpd_write_end u v t (Err ServiceUnavailable) h c' (tree d1) k Hfi1 ltac:(eauto) d1 eq_refl ltac:(congruence)) as Hend.
        destruct Hend as [(Hxe & Hre & _)|(Hi' & _ & v3 & Hr3 & Ht3)].
        -- rewrite Hxe. eapply ends_cut; [by left|done|exact Hre|right; by eexists].
        -- by eapply ends_cut.
      * cbn. cut_short.
  - intros Hx. cbn. eapply ends_cut; eauto; [by right|by left].
Qed.
End writing.

(** ** Looking at the staging, and throwing away *)

Section away.
Context `{Ext : Externals} `{Sky : Weather} `{Json : ServerJson} (pid : N).
Context (excuse : Prop) (excused : ∀ n, luck n ≠ Fine → excuse) (sharp : ∀ n, glance n = true).
Implicit Types (t : node) (v : Shelves) (u : UploadId) (k : N).

Lemma wpd_entries p (Q : postd ApiError (list string)) t k :
  (∀ m, at_path p t = Some (Dir m) → Q (Ok (map_to_list m).*1) t k) →
  (at_path p t = None → Q (Ok []) t k) →
  (∀ b, at_path p t ≠ Some (File b)) →
  (∀ x, excuse → interrupted x → Q x t k) →
  wpd (FsShelf.entries p) Q t k.
Proof.
  intros Hdir Hno Hfile Hcut. unfold FsShelf.entries. fs_step. apply (wpd_attempt_look excuse excused).
  - unfold entries_of. destruct (at_path p t) as [[b|m]|]; [by destruct (Hfile b)| |]; cbn; fs_step; auto.
  - intros x Hx [-> | ->]; cbn; [fs_step|]; apply Hcut; try done; [by left|by right].
Qed.

Lemma finished_place t v u : Rep t v → Finished t → place_at t u = None ↔ staging v !! u = None.
Proof.
  intros Hr Ht. destruct (place_cases t v u Hr) as [[Hn Hv]|(e & He & _ & Hv)]; [by rewrite Hn, Hv|].
  rewrite He, Hv. destruct (proj2 (Ht u) _ He) as [c Hc]. unfold place_of in Hc. by rewrite Hc.
Qed.

(** Where nothing is unfinished, a note says what the digest of its upload is. *)
Lemma finished_digest t v u : Rep t v → Finished t → digest_at t u = (staging v !! u ≫= snd).
Proof.
  intros Hr Ht. destruct (place_cases t v u Hr) as [[Hn Hv]|(e & He & _ & Hv)]; rewrite Hv; [by apply Ht|].
  destruct (proj2 (Ht u) _ He) as [c Hc]. unfold place_of in Hc. by rewrite Hc.
Qed.

(** An unfinished place is listed with the uploads that are staged. *)
Lemma wpd_staged t k v : Rep t v → ∃ us, (∀ u, is_Some (staging v !! u) → u ∈ us) ∧
  (Finished t → us = btree_keys (staging v)) ∧ wpd FsShelf.staged (ends excuse t (Ok us) v (eq v)) t k.
Proof.
  intros Hr. pose proof Hr as [_ (st & Hst & Hok & Hs) _ _].
  exists (merge_sort key_le (omap (λ name, parsed (UploadId.parse name)) (map_to_list st).*1)). split_and!.
  - intros u Hu. rewrite merge_sort_Permutation. apply list_elem_of_omap. exists (text u). split; [|apply parsed_upload].
    rewrite Hs in Hu. unfold staged_in in Hu. destruct (st !! text u) as [n|] eqn:Hn; [|by destruct Hu].
    apply list_elem_of_fmap. exists (text u, n). split; [done|]. by apply elem_of_map_to_list.
  - intros Ht. apply (sorted_parsed text); [apply parsed_upload|apply parsed_upload_text|]. intros u.
    rewrite <- (at_staging t st) by done. change ["staging"; text u] with (FsShelf.staged_dir u).
    fold (place_at t u). rewrite <- !not_eq_None_Some. by rewrite (finished_place t v u Hr Ht).
  - assert (at_path ["staging"] t = Some (Dir st)) as Hat by (by rewrite child_at).
    unfold FsShelf.staged. fs_step. unfold FsShelf.staging. apply wpd_entries; rewrite ?Hat; [|done|done|].
    + intros m [= <-]. cbn. fs_step. by apply ends_ok.
    + intros x Hx [-> | ->]; cbn; cut_short.
Qed.

Lemma wpd_note u t k v : Rep t v → wpd (FsShelf.stage_digest u) (ends excuse t (Ok (digest_at t u)) v (eq v)) t k.
Proof.
  intros Hr. pose proof Hr as [_ (st & Hst & _) _ _]. unfold digest_at. rewrite Hst. cbn [from_option entries_in].
  unfold FsShelf.stage_digest. fs_step. apply (wpd_attempt_look excuse excused).
  - destruct (digest_cases t v u Hr) as [Hn|[b Hb]].
    + rewrite Hn. unfold FsShelf.digest_file in Hn. rewrite (at_staging t st) in Hn by done.
      unfold digest_in. rewrite Hn. cbn. fs_step. by apply ends_ok.
    + rewrite Hb. unfold FsShelf.digest_file in Hb. rewrite (at_staging t st) in Hb by done.
      unfold digest_in. rewrite Hb. cbn. fs_step. by apply ends_ok.
  - intros x Hx [-> | ->]; cbn; [fs_step|]; cut_short.
Qed.

Lemma wpd_stage_digest u t k v : Rep t v → is_Some (staging v !! u) →
  wpd (FsShelf.stage_digest u) (ends excuse t (Ok (staging v !! u ≫= snd)) v (eq v)) t k.
Proof.
  intros Hr Hu. replace (staging v !! u ≫= snd) with (digest_at t u); [by apply wpd_note|].
  destruct (place_cases t v u Hr) as [[_ Hv]|(e & He & _ & Hv)]; rewrite Hv in Hu |- *; [by destruct Hu|].
  destruct (file_in CONTENT (Dir e)); [done|by destruct Hu].
Qed.

Lemma wpd_stage_size u t k v : Rep t v →
  wpd (FsShelf.stage_size u) (ends excuse t (Ok (len64 ∘ fst <$> staging v !! u)) v (eq v)) t k.
Proof.
  intros Hr. unfold FsShelf.stage_size. fs_step. apply (wpd_attempt_look excuse excused).
  2: { intros x Hx [-> | ->]; cbn; [fs_step|]; cut_short. }
  destruct (place_cases t v u Hr) as [[Hn Hv]|(e & He & Hf & Hv)].
  - rewrite at_path_app. unfold place_at in Hn. rewrite Hn, Hv. cbn. fs_step. by apply ends_ok.
  - rewrite (at_in_place t u e), Hv by done. unfold file_in, child. cbn [entries_in].
    destruct (e !! CONTENT) as [n|] eqn:Hc; [|cbn; fs_step; by apply ends_ok].
    destruct (Hf _ _ Hc) as [b Hb]. destruct n; [|done]. cbn. fs_step. by apply ends_ok.
Qed.

(** What [discard] makes disappear at once. *)
Lemma wpd_discard p (Q : postd ApiError bool) t k v v1 :
  Rep t v → p ≠ [] → (∀ b, at_path p t ≠ Some (File b)) →
  (is_Some (at_path (FsShelf.trash ++ [FsShelf.bin_name pid k]) t) → excuse) →
  (at_path p t = None → Q (Ok false) t (wadd k 1)) →
  (is_Some (at_path p t) → Rep (put p None t) v1 ∧ trash_at (put p None t) = trash_at t) →
  (∀ tr, let t' := put ["trash"] (Some (Dir tr)) (put p None t) in
    Rep t' v1 → excuse ∨ trash_at t' = trash_at t → is_Some (at_path p t) → Q (Ok true) t' (wadd k 1)) →
  (∀ x t', excuse → interrupted x → Rep t' v ∨ is_Some (at_path p t) ∧ Rep t' v1 → Q x t' (wadd k 1)) →
  wpd (FsShelf.discard pid p) Q t k.
Proof.
  intros Hr Hp Hnf Hclash Hno Hgone Hyes Hcut. unfold FsShelf.discard. set (b := FsShelf.bin_name pid k) in *.
  fs_step. intros d Hdt Hdk. cbn [fst snd FsShelf.fetch_trashed andthend tree trashed]. rewrite Hdt, Hdk. fold b.
  clear d Hdt Hdk. fs_step. apply wpd_attempt.
  set (after := andthend (λ moved : () + ErrorKind, match moved with
    | inl _ => fault_point;; FsShelf.remove_tree (FsShelf.trash ++ [b]);; mret true
    | inr NoEntry => mret false
    | inr _ => throw ServiceUnavailable
    end) Q).
  pose proof Hr as [_ _ (tr & Htr & Htrok) _].
  assert (at_path (FsShelf.trash ++ [b]) t = tr !! b) as Hb.
  { rewrite at_path_app. change (at_path FsShelf.trash t) with (at_path ["trash"] t). rewrite child_at, Htr. cbn. by destruct (tr !! b). }
  rewrite Hb in Hclash.
  destruct (at_path p t) as [x|] eqn:Hx.
  2: { (* nothing there *)
    assert (move p (FsShelf.trash ++ [b]) t = (Err NoEntry, t)) as Hmv by (unfold move; by rewrite Hx).
    apply (wpd_call_fs excuse excused (move p (FsShelf.trash ++ [b]))); [rewrite Hmv; cbn; fs_step; by apply Hno|].
    intros n y He Hy. unfold whole_or_nothing. rewrite Hmv.
    replace (match n with 0 => t | S _ => _ end) with t by (by destruct n).
    destruct Hy as [-> | ->]; cbn; [fs_step|]; apply Hcut; try done; try (by left); by right. }
  destruct x as [c|mx]; [by destruct (Hnf c)|].
  destruct (Hgone ltac:(by eexists)) as [Hr1 Htr1]. set (t1 := put p None t) in *.
  assert (∀ y, put (FsShelf.trash ++ [b]) y t1 = put ["trash"] (Some (Dir (partial_alter (λ _, y) b tr))) t1) as Hput.
  { intros y. apply (put_app ["trash"] [b] y t1 (Dir tr)); [done|done|]. unfold trash_at in Htr1. by rewrite child_at, Htr1, Htr. }
  assert (∀ tr', trash_at (put ["trash"] (Some (Dir tr')) t1) = Some (Dir tr')) as Htrash.
  { intros tr'. unfold trash_at. by rewrite (child_put _ _ _ _ v1). }
  set (t2 := put (FsShelf.trash ++ [b]) (Some (Dir mx)) t1).
  assert (∀ y, (∀ c, y ≠ Some (File c)) → trash_ok (partial_alter (λ _, y) b tr)) as Hok.
  { intros y Hy s c. destruct (decide (s = b)) as [->|Hne];
      rewrite ?lookup_partial_alter_eq, ?lookup_partial_alter_ne by done; [apply Hy|apply Htrok]. }
  assert (Rep t2 v1) as Hr2 by (unfold t2; rewrite Hput; by apply (rep_put_trash t1), Hok).
  assert (is_Some (Some (Dir mx))) as Hsome by (by eexists).
  (* the rest, once it is in the trash *)
  assert (after (attempted (Ok ())) t2 (wadd k 1)) as Hrest.
  { unfold after. cbn [attempted andthend]. fs_step. apply (wpd_look excuse excused).
    2: { intros y He [-> | ->]; cbn [andthend]; apply Hcut; auto; [by left|by right]. }
    cbn [told andthend]. fs_step. unfold FsShelf.remove_tree, remove_dir_all.
    assert (at_path (FsShelf.trash ++ [b]) t2 = Some (Dir mx)) as Hat.
    { unfold t2. rewrite Hput, at_path_app. change (at_path FsShelf.trash) with (at_path ["trash"]).
      rewrite child_at. specialize (Htrash (partial_alter (λ _, Some (Dir mx)) b tr)). unfold trash_at in Htrash.
      rewrite Htrash. cbn. by rewrite lookup_partial_alter_eq. }
    assert (∀ y, put (FsShelf.trash ++ [b]) y t2 = put ["trash"] (Some (Dir (partial_alter (λ _, y) b tr))) t1) as Hput2.
    { intros y. unfold t2. rewrite put_twice. apply Hput. }
    apply (wpd_gone excuse excused); cbn beta.
    - rewrite Hat. by left.
    - rewrite Hat. cbn [snd andthend]. fs_step. rewrite Hput2. apply Hyes; [by apply (rep_put_trash t1), Hok| |by eexists].
      rewrite Htrash. unfold trash_at. rewrite Htr. destruct (tr !! b) as [z|] eqn:Hz; [left; apply Hclash; by eexists|right].
      exact (f_equal (λ m, Some (Dir m)) (delete_id tr b Hz)).
    - intros n y He Hy. cbn beta. rewrite Hat, Hput2.
      assert (Rep (put ["trash"] (Some (Dir (partial_alter (λ _, Some (remove_some n (Dir mx))) b tr))) t1) v1)
        by (by apply (rep_put_trash t1), Hok).
      destruct Hy as [-> | ->]; cbn [andthend]; apply Hcut; auto; [by left|by right]. }
  assert (move p (FsShelf.trash ++ [b]) t = (Ok (), t2) ∨
    excuse ∧ (move p (FsShelf.trash ++ [b]) t = (Err DirectoryNotEmpty, t) ∨ move p (FsShelf.trash ++ [b]) t = (Err OtherError, t))) as Hmv.
  { unfold move. rewrite Hx, Hb. destruct (tr !! b) as [[c|m]|] eqn:Hz.
    - right. split; [apply Hclash; by eexists|by right].
    - case_bool_decide; [by left|]. right. split; [apply Hclash; by eexists|by left].
    - unfold parent_is_dir. rewrite removelast_last. change (at_path FsShelf.trash t) with (at_path ["trash"] t).
      rewrite child_at, Htr. by left. }
  assert (∀ x', excuse → interrupted x' → Q x' t (wadd k 1)) as Hcut0 by (intros; apply Hcut; auto).
  apply (wpd_call_fs excuse excused (move p (FsShelf.trash ++ [b]))).
  - destruct Hmv as [-> |[He [-> | ->]]]; [exact Hrest|cbn; fs_step; apply Hcut0; [done|by left]..].
  - intros n y He Hy. unfold whole_or_nothing.
    assert (Rep (match n with 0 => t | S _ => (move p (FsShelf.trash ++ [b]) t).2 end) v ∨
      Rep (match n with 0 => t | S _ => (move p (FsShelf.trash ++ [b]) t).2 end) v1) as Hrep.
    { destruct n; [by left|]. destruct Hmv as [-> |[_ [-> | ->]]]; [right|by left..].
      unfold t2. cbn [snd]. rewrite Hput. by apply (rep_put_trash t1), Hok. }
    destruct Hy as [-> | ->]; cbn; [fs_step|]; apply Hcut; try done; try (by left); try (by right);
      (destruct Hrep; [by left|right; split; [by eexists|done]]).
Qed.

Lemma staged_dir_no_file t v u b : Rep t v → at_path (FsShelf.staged_dir u) t ≠ Some (File b).
Proof. intros Hr. destruct (place_cases t v u Hr) as [[Hn _]|(e & He & _)]; unfold place_at in *; congruence. Qed.

Lemma wpd_stage_remove u t k v : Rep t v →
  (is_Some (at_path (FsShelf.trash ++ [FsShelf.bin_name pid k]) t) → excuse) →
  wpd (FsShelf.stage_remove pid u)
    (ends excuse t (Ok ()) (set_staging (delete u) v) (λ v', v' = v ∨ v' = set_staging (delete u) v)) t k.
Proof.
  intros Hr Hclash. unfold FsShelf.stage_remove.
  pose proof (rep_place t v u None Hr) as (Hr1 & Hp1 & _ & Htr1); [done|].
  change (set_place u _ v) with (set_staging (delete u) v) in Hr1.
  assert (∀ d, set_digest u d (set_staging (delete u) v) = set_staging (delete u) v) as Hd.
  { intros d. unfold set_digest. cbn. rewrite lookup_delete_eq. apply set_place_same. cbn. by rewrite lookup_delete_eq. }
  assert (∀ t' k', Rep t' (set_staging (delete u) v) → place_at t' u = None → excuse ∨ beside u t t' →
    wpd (FsShelf.remove_digest u)
      (ends excuse t (Ok ()) (set_staging (delete u) v) (λ v', v' = v ∨ v' = set_staging (delete u) v)) t' k') as Hrest.
  { intros t' k' Hr' Hp' Htr'. apply (wpd_remove_digest excuse excused u _ _ _ _ Hr').
    - intros t2 Hr2 Hp2 Hd2 Htr2. rewrite Hd in Hr2. left. do 2 (split; [done|]). destruct Htr' as [|Htr']; [by left|right].
      apply (kept_beside u); [by eapply beside_trans|done|]. intros n. by rewrite Hp2, Hp'.
    - intros x t2 d He Hi Hr2. rewrite Hd in Hr2. cut_short. }
  fs_step. apply (wpd_discard (FsShelf.staged_dir u) _ t k v (set_staging (delete u) v)); [done|done| |done|..].
  - intros b. by eapply staged_dir_no_file.
  - intros Hn. cbn. apply Hrest; [|done|by right].
    destruct (place_cases t v u Hr) as [[_ Hv]|(e & He & _)]; [|unfold place_at in He; congruence].
    change (set_staging (delete u) v) with (set_place u None v). by rewrite set_place_same.
  - intros _. split; [done|apply Htr1].
  - intros tr t' Hr' Htr' _. cbn. apply Hrest; [done| |].
    + exact (eq_trans (place_put_trash _ _ _) Hp1).
    + destruct Htr' as [|Htr']; [by left|right]. by apply beside_put_trash.
  - intros x t' He Hi [Hr'|[_ Hr']]; destruct Hi as [-> | ->]; cbn; cut_short.
Qed.
End away.
