(* ===== verification/FsLaws.v ===== *)
(** The items of a shelf in a directory, their publication, and its opening. *)

From stdpp Require Import pretty.
From S2P Require Import Prelude Text Errors Random Ids Shelf Files FsShelf FsRep FsRules.

(** ** Items *)

Section items.
Context `{Ext : Externals} `{Sky : Weather} `{Json : ServerJson} (pid : N).
Context (excuse : Prop) (excused : ∀ n, luck n ≠ Fine → excuse) (sharp : ∀ n, glance n = true).
Implicit Types (t : node) (v : Shelves) (u : UploadId) (k : N).

Lemma gen_cases t v g : Rep t v →
  child (gen_name g) t = None ∧ gens v !! g = None ∨
  ∃ m, child (gen_name g) t = Some (Dir m) ∧ (g ≤ u64_max)%N ∧
    (m !! "items" = None ∧ gens v !! g = None ∨
     ∃ its, m !! "items" = Some (Dir its) ∧ items_ok its ∧ gens v !! g = Some (items_in its)).
Proof.
  intros [Hroot _ _ Hg]. rewrite Hg. unfold gen_at. destruct (child (gen_name g) t) as [n|] eqn:Hn.
  - right. destruct (Hroot _ _ Hn) as [H|[H|(g' & Hg' & He & (m & -> & Hm))]]; [done..|].
    apply gen_name_inj in He as <-. exists m. split_and!; [done|done|].
    rewrite (proj2 (N.leb_le _ _) Hg'). cbn. unfold gen_in, child. cbn.
    destruct (m !! "items") as [n'|] eqn:Hi; [right|by left].
    destruct (Hm n' eq_refl) as (its & -> & Hok). by exists its.
  - left. split; [done|]. by destruct (g <=? u64_max)%N.
Qed.

Lemma at_items t g : at_path (FsShelf.items g) t = child (gen_name g) t ≫= child "items".
Proof.
  change (FsShelf.items g) with ([gen_name g] ++ ["items"]). rewrite at_path_app, child_at.
  destruct (child (gen_name g) t); [|done]. apply child_at.
Qed.

(** A generation's directory is there or not. *)
Lemma items_cases t v g : Rep t v →
  at_path (FsShelf.items g) t = None ∧ gens v !! g = None ∨
  ∃ its, at_path (FsShelf.items g) t = Some (Dir its) ∧ items_ok its ∧ gens v !! g = Some (items_in its).
Proof.
  intros Hr. rewrite at_items. destruct (gen_cases t v g Hr) as [[-> Hn]|(m & -> & _ & [[Hm Hn]|(its & Hm & Hok & Hg)])];
    [by left|left|right]; cbn; unfold child; cbn; rewrite Hm; [done|by exists its].
Qed.

(** What a directory that stands for an item holds. *)
Lemma item_of_dir n c e : item_of n = Some (c, e) → ∃ m b s server,
  n = Dir m ∧ m !! CONTENT = Some (File c) ∧ m !! META = Some (File b) ∧ m !! SERVER = Some (File s) ∧
  server_from_slice s = Some server ∧ envelope_from b server = Some e.
Proof.
  unfold item_of, file_in, child. destruct n as [b|m]; cbn; [by rewrite lookup_empty|].
  destruct (m !! CONTENT) as [[c'|]|] eqn:Hc; try done. cbn.
  destruct (m !! META) as [[b|]|] eqn:Hm; try done. cbn.
  destruct (m !! SERVER) as [[s|]|] eqn:Hb; try done. cbn.
  destruct (server_from_slice s) as [server|] eqn:Hs; [|done]. cbn.
  destruct (envelope_from b server) as [e'|] eqn:He; [|done]. cbn. intros [= <- <-]. by exists m, b, s, server.
Qed.

Lemma at_item t g id its : at_path (FsShelf.items g) t = Some (Dir its) →
  at_path (FsShelf.item_dir g id) t = its !! text id.
Proof. intros Hi. unfold FsShelf.item_dir. rewrite at_path_app, Hi. cbn. by destruct (its !! text id). Qed.

Lemma at_item_none t g id : at_path (FsShelf.items g) t = None → at_path (FsShelf.item_dir g id) t = None.
Proof. intros Hi. unfold FsShelf.item_dir. by rewrite at_path_app, Hi. Qed.

(** An item's directory is there, whole, or not. *)
Lemma item_cases t v g id : Rep t v →
  at_path (FsShelf.item_dir g id) t = None ∧ (gens v !! g ≫= lookup id) = None ∨
  ∃ n it, at_path (FsShelf.item_dir g id) t = Some n ∧ item_of n = Some it ∧ (gens v !! g ≫= lookup id) = Some it.
Proof.
  intros Hr. destruct (items_cases t v g Hr) as [[Hn ->]|(its & Hi & Hok & ->)].
  - left. split; [by apply at_item_none|done].
  - rewrite (at_item t g id its) by done. cbn. rewrite items_in_lookup.
    destruct (its !! text id) as [n|] eqn:Hn; [right|by left].
    destruct (Hok _ _ Hn) as (id' & _ & [it Hit]). exists n, it. by split_and!.
Qed.

(** Looks, one after the other. *)
Lemma wpd_read_file p b (Q : postd ApiError (list byte)) t k :
  at_path p t = Some (File b) → Q (Ok b) t k → (∀ x, excuse → interrupted x → Q x t k) →
  wpd (available (read_file p)) Q t k.
Proof. intros Hp HQ Hcut. apply (wpd_look excuse excused); [|done]. by rewrite Hp. Qed.

Lemma wpd_read_item g id (Q : postd ApiError (option StoredItem)) t k v : Rep t v →
  Q (Ok (stored <$> (gens v !! g ≫= lookup id))) t k → (∀ x, excuse → interrupted x → Q x t k) →
  wpd (FsShelf.read_item (FsShelf.item_dir g id)) Q t k.
Proof.
  intros Hr HQ Hcut. unfold FsShelf.read_item. fs_step. apply (wpd_attempt_look excuse excused).
  2: { intros x He [-> | ->]; cbn; [fs_step|]; apply Hcut; try done; [by left|by right]. }
  rewrite at_path_app. destruct (item_cases t v g id Hr) as [[-> Hv]|(n & [c e] & Hn & Hit & Hv)]; rewrite Hv in HQ.
  { cbn. by fs_step. }
  apply item_of_dir in Hit as (m & b & s & server & -> & Hc & Hm & Hs & Hsv & He).
  assert (∀ x, at_path (FsShelf.item_dir g id ++ [x]) t = m !! x) as Hat.
  { intros x. rewrite at_path_app, Hn. cbn. by destruct (m !! x). }
  rewrite Hn. cbn [mbind option_bind at_path]. rewrite Hc. cbn [mbind option_bind at_path attempted andthend].
  fs_step. apply (wpd_read_file _ b); [by rewrite Hat| |intros x Hx [-> | ->]; apply Hcut; try done; [by left|by right]].
  cbn [andthend]. fs_step.
  apply (wpd_read_file _ s); [by rewrite Hat| |intros x Hx [-> | ->]; apply Hcut; try done; [by left|by right]].
  cbn [andthend]. fs_step. rewrite Hsv. fs_step. cbn [ok_or andthend]. fs_step.
  cbn in HQ. unfold envelope_from in He. destruct (sf_under server) as [x|]; [|].
  - destruct (parsed (KeyId.parse x)) as [key|]; [|done]. injection He as <-.
    fs_step. fs_step. cbn [ok_or andthend]. fs_step. cbn [andthend]. by fs_step.
  - injection He as <-. fs_step. cbn [andthend]. by fs_step.
Qed.

Lemma wpd_get g id t k v : Rep t v →
  wpd (FsShelf.get g id) (ends excuse t (MemoryShelf.get g id v).1 v (eq v)) t k.
Proof.
  intros Hr. apply (wpd_read_item _ _ _ _ _ v); [done|by apply ends_ok|]. intros x He [-> | ->]; cut_short.
Qed.

Lemma wpd_open_content_from g id offset t k v : Rep t v →
  wpd (FsShelf.open_content_from g id offset) (ends excuse t (MemoryShelf.open_content_from g id offset v).1 v (eq v)) t k.
Proof.
  intros Hr. unfold FsShelf.open_content_from, MemoryShelf.open_content_from. fs_step.
  apply (wpd_attempt_look excuse excused); [|intros x He [-> | ->]; cbn; [fs_step|]; cut_short].
  rewrite at_path_app. destruct (item_cases t v g id Hr) as [[-> Hv]|(n & [c e] & Hn & Hit & Hv)].
  { cbn. fs_step. change (gens v !! g ≫= λ its, its !! id) with (gens v !! g ≫= lookup id). rewrite Hv. by apply ends_ok. }
  apply item_of_dir in Hit as (m & b & s & server & -> & Hc & _).
  rewrite Hn. cbn [mbind option_bind at_path]. rewrite Hc. cbn [mbind option_bind at_path attempted andthend fst].
  change (gens v !! g ≫= λ its, its !! id) with (gens v !! g ≫= lookup id). rewrite Hv. cbn [fmap option_fmap option_map fst].
  assert (drop (N.to_nat (N.min offset (len64 c))) c = drop (N.to_nat offset) c) as ->.
  { unfold len64. destruct (N.le_ge_cases offset (N.of_nat (length c))); [by rewrite N.min_l|].
    rewrite N.min_r, Nat2N.id, !drop_ge by lia. done. }
  fs_step. destruct (N.ltb_spec 0 offset) as [Hlt|Hle].
  - apply (wpd_look excuse excused); [|intros x He [-> | ->]; cbn; cut_short]. cbn. fs_step. by apply ends_ok.
  - fs_step. cbn. fs_step. replace offset with 0%N by lia. by apply ends_ok.
Qed.

(** Every name is kept. *)
Lemma wpd_filter_all (p : string → M ApiError Disk bool) names (Q : postd ApiError (list string)) t k :
  (∀ s (Q' : postd ApiError bool), s ∈ names → Q' (Ok true) t k → (excuse → Q' Killed t k) → wpd (p s) Q' t k) →
  Q (Ok names) t k → (excuse → Q Killed t k) → wpd (filter_m p names) Q t k.
Proof.
  intros Hp HQ Hcut. revert Q HQ Hcut. induction names as [|s names IH]; intros Q HQ Hcut; cbn; [by fs_step|].
  fs_step. apply Hp; [by left| |done]. cbn [andthend]. fs_step.
  apply IH; [intros s' Q' Hs'; apply Hp; by right| |done]. cbn [andthend]. by fs_step.
Qed.

(** The ids of a generation, in either shelf's order. *)
Lemma sorted_names its : items_ok its →
  merge_sort key_le (omap (λ name, parsed (ItemId.parse name)) (map_to_list its).*1) = btree_keys (items_in its).
Proof.
  intros Hok. apply (sorted_parsed text); [apply parsed_item|apply parsed_item_text|]. intros id.
  rewrite items_in_lookup. split; [|by destruct (its !! text id); [eexists|intros []]].
  intros [n Hn]. rewrite Hn. by destruct (Hok _ _ Hn) as (_ & _ & Hit).
Qed.

Lemma wpd_ids_Q g (Q : postd ApiError (list ItemId)) t k v : Rep t v →
  Q (Ok (reverse (btree_keys (items v g)))) t k → (∀ x, excuse → interrupted x → Q x t k) →
  wpd (FsShelf.ids g) Q t k.
Proof.
  intros Hr HQ Hcut. unfold FsShelf.ids. fs_step.
  destruct (items_cases t v g Hr) as [[Hn Hg]|(its & Hi & Hok & Hg)]; unfold items in HQ; rewrite Hg in HQ.
  - apply (wpd_entries excuse excused); rewrite ?Hn; [done| |done|intros x He [-> | ->]; cbn; apply Hcut; try done; [by left|by right]].
    intros _. cbn. fs_step. cbn. fs_step. cbn [andthend]. fs_step. exact HQ.
  - apply (wpd_entries excuse excused); rewrite ?Hi; [|done|done|intros x He [-> | ->]; cbn; apply Hcut; try done; [by left|by right]].
    intros m [= <-]. cbn [andthend]. fs_step. apply wpd_filter_all.
    + intros s Q' Hs HQ' Hcut'. apply list_elem_of_fmap in Hs as ([s' n] & -> & Hs). cbn [fst].
      apply elem_of_map_to_list in Hs. apply (wpd_glimpse excuse excused sharp); [|done].
      rewrite at_path_app, Hi. cbn. rewrite Hs. cbn. destruct (Hok _ _ Hs) as (_ & _ & [[c e] Hit]).
      apply item_of_dir in Hit as (m' & _ & _ & _ & -> & Hc & _). cbn. by rewrite Hc.
    + cbn [andthend]. fs_step. rewrite sorted_names by done. exact HQ.
    + intros He. cbn. apply Hcut; [done|by right].
Qed.

Lemma wpd_ids g t k v : Rep t v → wpd (FsShelf.ids g) (ends excuse t (MemoryShelf.ids g v).1 v (eq v)) t k.
Proof.
  intros Hr. apply (wpd_ids_Q _ _ _ _ v); [done|rewrite memory_ids_spec; by apply ends_ok|].
  intros x He [-> | ->]; cut_short.
Qed.
End items.

(** ** Whole generations *)

Section generations.
Context `{Ext : Externals} `{Sky : Weather} `{Json : ServerJson} (pid : N).
Context (excuse : Prop) (excused : ∀ n, luck n ≠ Fine → excuse) (sharp : ∀ n, glance n = true).
Implicit Types (t : node) (v : Shelves) (u : UploadId) (k : N).

Lemma items_lookup_gens v g id : items v g !! id = (gens v !! g ≫= lookup id).
Proof. unfold items. destruct (gens v !! g); [done|]. cbn. apply lookup_empty. Qed.

(** The bytes of a list of items, added up as the code does. *)
Lemma wpd_add_up g ids total (Q : postd ApiError N) t k v : Rep t v →
  (∀ id, id ∈ ids → is_Some (items v g !! id)) →
  Q (Ok (foldl (λ n id, wadd n (from_option (λ it : shelved, len64 it.1) 0%N (items v g !! id))) total ids)) t k →
  (∀ x, excuse → interrupted x → Q x t k) →
  wpd (FsShelf.add_up g ids total) Q t k.
Proof.
  intros Hr. revert total. induction ids as [|id ids IH]; intros total Hin HQ Hcut; cbn [FsShelf.add_up]; [by fs_step|].
  destruct (Hin id ltac:(by left)) as [it Hit].
  assert (at_path (FsShelf.item_dir g id ++ [CONTENT]) t = Some (File it.1)) as Hat.
  { destruct (item_cases t v g id Hr) as [[_ Hn]|(n & [c e] & Hn & Hio & Hv)]; rewrite items_lookup_gens in Hit; [congruence|].
    apply item_of_dir in Hio as (m & b & s & server & -> & Hc & _). rewrite at_path_app, Hn. cbn. rewrite Hc. cbn.
    rewrite Hv in Hit. by injection Hit as <-. }
  fs_step. unfold len_of. apply (wpd_look excuse excused); cbn beta.
  - rewrite Hat. cbn [told andthend]. apply IH; [intros; apply Hin; by right| |done].
    cbn in HQ. rewrite Hit in HQ. exact HQ.
  - intros x He [-> | ->]; apply Hcut; try done; [by left|by right].
Qed.

Lemma foldl_wadd {A} (f : A → N) (l : list A) (n : N) :
  foldl (λ n x, wadd n (f x)) (n mod two64)%N l = ((n + Nsum (f <$> l)) mod two64)%N.
Proof.
  revert n. induction l as [|x l IH]; intros n; cbn; [by rewrite N.add_0_r|].
  unfold wadd at 2. rewrite N.Div0.add_mod_idemp_l, IH. f_equal. unfold Nsum. lia.
Qed.

Lemma Nsum_keys (its : gmap ItemId shelved) :
  Nsum ((λ id, from_option (λ it : shelved, len64 it.1) 0%N (its !! id)) <$> reverse (btree_keys its)) = true_bytes its.
Proof.
  rewrite reverse_Permutation. unfold btree_keys, true_bytes. rewrite <- list_fmap_compose, <- (btree_iter_perm its).
  f_equal. apply list_fmap_ext. intros i [id it] Hi. cbn. apply list_elem_of_lookup_2, elem_of_btree_iter in Hi. by rewrite Hi.
Qed.

Lemma wpd_bytes g t k v : Rep t v → wpd (FsShelf.bytes g) (ends excuse t (MemoryShelf.bytes g v).1 v (eq v)) t k.
Proof.
  intros Hr. unfold FsShelf.bytes. fs_step.
  apply (wpd_ids_Q excuse excused sharp _ _ _ _ v); [done| |intros x He [-> | ->]; cbn; cut_short].
  cbn [andthend]. apply (wpd_add_up _ _ _ _ _ _ v); [done| | |intros x He [-> | ->]; cut_short].
  - intros id Hid. apply elem_of_reverse, elem_of_btree_keys in Hid. done.
  - rewrite memory_bytes_spec. pose proof (foldl_wadd (λ id, from_option (λ it : shelved, len64 it.1) 0%N (items v g !! id))
      (reverse (btree_keys (items v g))) 0) as Hs.
    rewrite Nsum_keys in Hs. change (0 mod two64)%N with 0%N in Hs. rewrite Hs. by apply ends_ok.
Qed.

(** The generations among some names. *)
Definition held v (names : list string) : list N :=
  omap (λ name, g ← gen_of name; if decide (items v g = ∅) then None else Some g) names.

Lemma wpd_holding names (Q : postd ApiError (list N)) t k v : Rep t v →
  Q (Ok (held v names)) t k → (∀ x, excuse → interrupted x → Q x t k) → wpd (FsShelf.holding names) Q t k.
Proof.
  intros Hr. revert Q. induction names as [|s names IH]; intros Q HQ Hcut; cbn; [by fs_step|].
  unfold held in HQ. cbn in HQ. destruct (gen_of s) as [g|]; [|by apply IH]. cbn in HQ.
  fs_step. apply (wpd_ids_Q excuse excused sharp _ _ _ _ v); [done| |intros x He [-> | ->]; cbn; apply Hcut; try done; [by left|by right]].
  cbn [andthend]. fs_step. apply IH; [|intros x He [-> | ->]; cbn; apply Hcut; try done; [by left|by right]].
  cbn [andthend]. fs_step. destruct (decide (items v g = ∅)) as [He|Hne].
  - by rewrite He.
  - destruct (reverse (btree_keys (items v g))) as [|id l] eqn:Hl; [|exact HQ].
    destruct Hne. apply btree_keys_nil. by apply (f_equal reverse) in Hl; rewrite reverse_involutive in Hl.
Qed.

Lemma memory_generations_sorted v l : (MemoryShelf.generations v).1 = Ok l → NoDup l ∧ StronglySorted N.le l.
Proof.
  intros [= <-]. pose proof (btree_keys_sorted (gens v)) as Hs. pose proof (NoDup_btree_keys (gens v)) as Hnd.
  unfold btree_keys in *. induction (btree_iter (gens v)) as [|[g its] l IH]; [by repeat constructor|].
  cbn in Hs, Hnd. apply StronglySorted_inv in Hs as [Hs Hle]. apply NoDup_cons in Hnd as [Hni Hnd].
  destruct (IH Hs Hnd) as [IHn IHs]. cbn. destruct (negb _); [|done]. cbn.
  assert (∀ x, x ∈ (List.filter (λ e : N * gmap ItemId shelved, negb (bool_decide (e.2 = ∅))) l).*1 → x ∈ l.*1) as Hsub.
  { intros x Hx. apply list_elem_of_fmap in Hx as (y & -> & Hy). apply list_elem_of_In, filter_In in Hy as [Hy _].
    apply list_elem_of_fmap. exists y. split; [done|]. by apply list_elem_of_In. }
  split; constructor; [by intros ?%Hsub|done|done|].
  apply Forall_forall. intros x Hx%Hsub. rewrite Forall_forall in Hle. by apply Hle.
Qed.

Lemma wpd_generations t k v : Rep t v →
  wpd FsShelf.generations (ends excuse t (MemoryShelf.generations v).1 v (eq v)) t k.
Proof.
  intros Hr. pose proof (rep_dir t v Hr) as [m ->]. unfold FsShelf.generations. fs_step.
  apply (wpd_entries excuse excused); [|done|done|intros x He [-> | ->]; cbn; cut_short].
  intros m' [= <-]. cbn [andthend]. fs_step.
  apply (wpd_holding _ _ _ _ v); [done| |intros x He [-> | ->]; cbn; cut_short].
  cbn [andthend]. fs_step.
  set (names := (map_to_list m).*1).
  assert (∀ s g, s ∈ names → gen_of s = Some g → s = gen_name g) as Hcan.
  { intros s g Hs Hg. apply list_elem_of_fmap in Hs as ([s' n] & -> & Hs). cbn in Hg. apply elem_of_map_to_list in Hs.
    destruct (rep_root _ _ Hr s' n Hs) as [->|[->|(g' & Hg' & -> & _)]]; [done..|]. rewrite gen_of_name in Hg by done. cbn. congruence. }
  assert (Ok (merge_sort N.le (held v names)) = (MemoryShelf.generations v).1) as ->; [|by apply ends_ok].
  destruct (MemoryShelf.generations v).1 as [l| | |] eqn:Hl; [|discriminate Hl..]. f_equal.
  destruct (memory_generations_sorted v l Hl) as [Hnd Hs].
  apply (StronglySorted_unique N.le); [apply (StronglySorted_merge_sort N.le)|done|].
  rewrite merge_sort_Permutation. apply NoDup_Permutation; [|done|].
  - subst names. clear Hl Hnd Hs. pose proof (NoDup_fst_map_to_list m) as Hnd. revert Hcan. unfold held.
    induction Hnd as [|s names Hs Hnd IH]; intros Hcan; [constructor|]. cbn.
    destruct (gen_of s) as [g|] eqn:Hg; cbn; [|apply IH; intros; apply Hcan; [by right|done]].
    destruct (decide (items v g = ∅)); [apply IH; intros; apply Hcan; [by right|done]|].
    constructor; [|apply IH; intros; apply Hcan; [by right|done]].
    intros Hin. apply list_elem_of_omap in Hin as (s' & Hin & Hg'). destruct (gen_of s') as [g'|] eqn:Hgs; [|done]. cbn in Hg'.
    destruct (decide (items v g' = ∅)); [done|]. injection Hg' as ->.
    pose proof (Hcan s g ltac:(by left) Hg). pose proof (Hcan s' g ltac:(by right) Hgs). congruence.
  - intros g. rewrite (memory_generations_spec v g l) by done. unfold held. rewrite list_elem_of_omap. split.
    + intros (s & _ & Hg). destruct (gen_of s) as [g'|]; [|done]. cbn in Hg.
      destruct (decide (items v g' = ∅)); [done|]. by injection Hg as ->.
    + intros Hne. destruct (gen_cases _ v g Hr) as [[_ Hn]|(e & He & Hg & _)];
        [unfold items in Hne; by rewrite Hn in Hne|].
      exists (gen_name g). split; [apply list_elem_of_fmap; exists (gen_name g, Dir e); split; [done|by apply elem_of_map_to_list]|].
      rewrite gen_of_name by done. cbn. by rewrite decide_False.
Qed.
End generations.

(** ** Publishing and removing *)

Section publishing.
Context `{Ext : Externals} `{Sky : Weather} `{Json : ServerJson} `{LawJson : !LawfulServerJson} (pid : N).
Context (excuse : Prop) (excused : ∀ n, luck n ≠ Fine → excuse) (sharp : ∀ n, glance n = true).
Implicit Types (t : node) (v : Shelves) (u : UploadId) (k : N).

Lemma items_in_alter its (id : ItemId) x :
  items_in (partial_alter (λ _, x) (text id) its) = partial_alter (λ _, x ≫= item_of) id (items_in its).
Proof.
  apply map_eq. intros id'. rewrite items_in_lookup. destruct (decide (id' = id)) as [->|Hne].
  - by rewrite !lookup_partial_alter_eq.
  - rewrite !lookup_partial_alter_ne; [by rewrite items_in_lookup|done|]. intros H. by apply Hne, checked_eq.
Qed.

(** One item of a generation that is there comes, goes, or changes. *)
Lemma rep_item t v g id its x :
  Rep t v → at_path (FsShelf.items g) t = Some (Dir its) → (∀ n, x = Some n → is_Some (item_of n)) →
  Rep (put (FsShelf.item_dir g id) x t) (set_gens <[g := partial_alter (λ _, x ≫= item_of) id (items v g)]> v) ∧
  trash_at (put (FsShelf.item_dir g id) x t) = trash_at t ∧
  at_path (FsShelf.items g) (put (FsShelf.item_dir g id) x t) = Some (Dir (partial_alter (λ _, x) (text id) its)).
Proof.
  intros Hr Hi Hx. destruct (gen_cases t v g Hr) as [[Hn _]|(m & Hm & Hg & Hits)];
    [rewrite at_items, Hn in Hi; done|].
  rewrite at_items, Hm in Hi. unfold child in Hi. cbn in Hi.
  destruct Hits as [[Hm' _]|(its' & Hm' & Hok & Hgen)]; [congruence|]. assert (its' = its) as -> by congruence.
  set (its1 := partial_alter (λ _, x) (text id) its).
  assert (put (FsShelf.item_dir g id) x t = put [gen_name g] (Some (Dir (<["items" := Dir its1]> m))) t) as ->.
  { change (FsShelf.item_dir g id) with ([gen_name g] ++ ["items"; text id]).
    rewrite (put_app _ _ _ _ (Dir m)); [|done|done|by rewrite child_at]. do 3 f_equal.
    by rewrite (put_cons "items" [text id] x m (Dir its)). }
  split_and!.
  - apply (rep_put_gen t v g); [done|done| |done|].
    + intros n [= <-]. eexists. split; [done|]. intros n'. rewrite lookup_insert_eq. intros [= <-]. exists its1.
      split; [done|]. intros s n Hs. unfold its1 in Hs. destruct (decide (s = text id)) as [->|Hne].
      * rewrite lookup_partial_alter_eq in Hs. exists id. split; [done|]. by apply Hx.
      * rewrite lookup_partial_alter_ne in Hs by done. by apply Hok.
    + cbn. unfold gen_in, child. cbn. rewrite lookup_insert_eq. unfold its1. rewrite items_in_alter.
      unfold items. by rewrite Hgen.
  - unfold trash_at. by rewrite (child_put _ _ _ _ v), decide_False.
  - rewrite at_items, (child_put _ _ _ _ v), decide_True by done. cbn. unfold child. cbn. by rewrite lookup_insert_eq.
Qed.

Lemma wpd_sync_dir p (Q : postd ApiError unit) t k :
  is_Some (at_path p t) → Q (Ok ()) t k → (∀ x, excuse → interrupted x → Q x t k) → wpd (FsShelf.sync_dir p) Q t k.
Proof.
  intros [n Hp] HQ Hcut. unfold FsShelf.sync_dir. apply wpd_available. fs_step.
  apply (wpd_call_fs excuse excused); [rewrite Hp; cbn; apply (wpd_call_fs excuse excused); [done|]|];
    (intros y x He [-> | ->]; apply Hcut; [done|by left|done|by right]).
Qed.

Lemma memory_remove_spec g id v :
  MemoryShelf.remove g id v =
    (Ok (stored <$> items v g !! id), if items v g !! id then set_gens <[g := delete id (items v g)]> v else v).
Proof.
  unfold MemoryShelf.remove, items. destruct (gens v !! g) as [its|] eqn:Hg; cbn; [|by rewrite lookup_empty].
  f_equal. destruct (its !! id) eqn:Hi; [done|]. unfold set_gens. rewrite delete_id, insert_id by done. by destruct v.
Qed.

Lemma wpd_remove g id t k v : Rep t v →
  (is_Some (at_path (FsShelf.trash ++ [FsShelf.bin_name pid k]) t) → excuse) →
  wpd (FsShelf.remove pid g id)
    (ends excuse t (MemoryShelf.remove g id v).1 (MemoryShelf.remove g id v).2
      (λ v', v' = v ∨ v' = (MemoryShelf.remove g id v).2)) t k.
Proof.
  intros Hr Hclash. rewrite memory_remove_spec. cbn [fst snd]. unfold FsShelf.remove. fs_step.
  apply (wpd_read_item excuse excused _ _ _ _ _ v); [done| |intros x He [-> | ->]; cbn; cut_short].
  rewrite items_lookup_gens. destruct (item_cases t v g id Hr) as [[Hn Hv]|(n & it & Hn & Hit & Hv)]; rewrite Hv; cbn [fmap option_fmap option_map andthend].
  { fs_step. by apply ends_ok. }
  destruct (items_cases t v g Hr) as [[Hi _]|(its & Hi & Hok & Hg)]; [by rewrite (at_item_none t g id) in Hn|].
  pose proof (rep_item t v g id its None Hr Hi) as (Hr1 & Htr1 & Hi1); [done|].
  change (partial_alter (λ _, None ≫= item_of) id (items v g)) with (delete id (items v g)) in Hr1.
  fs_step. apply (wpd_discard pid excuse excused (FsShelf.item_dir g id) _ t k v (set_gens <[g := delete id (items v g)]> v)); [done|done| |done|..].
  - intros b Hb. destruct it as [c e]. apply item_of_dir in Hit as (m & _ & _ & _ & -> & _). congruence.
  - congruence.
  - intros _. by split.
  - intros tr t' Hr' Htr' _. cbn [andthend negb]. fs_step. apply wpd_sync_dir; [| |intros x He [-> | ->]; cbn; cut_short].
    + unfold t'. change (FsShelf.items g) with (gen_name g :: ["items"]). rewrite at_put_apart by done.
      change (gen_name g :: ["items"]) with (FsShelf.items g). by rewrite Hi1.
    + cbn [andthend]. fs_step. left. do 2 (split; [done|]). destruct Htr' as [|Htr']; [by left|right]. by apply kept_away.
  - intros x t' He Hi' [Hr'|[_ Hr']]; destruct Hi' as [-> | ->]; cbn; cut_short.
Qed.

Lemma wpd_drop_generation g t k v : Rep t v →
  (is_Some (at_path (FsShelf.trash ++ [FsShelf.bin_name pid k]) t) → excuse) →
  wpd (FsShelf.drop_generation pid g)
    (ends excuse t (Ok ()) (set_gens (delete g) v) (λ v', v' = v ∨ v' = set_gens (delete g) v)) t k.
Proof.
  intros Hr Hclash. unfold FsShelf.drop_generation. fs_step.
  assert (at_path (FsShelf.gen_dir g) t = child (gen_name g) t) as Hat by apply child_at.
  apply (wpd_discard pid excuse excused (FsShelf.gen_dir g) _ t k v (set_gens (delete g) v)); [done|done| |done|..]; rewrite ?Hat.
  - intros b Hb. destruct (gen_cases t v g Hr) as [[Hn _]|(m & Hm & _)]; congruence.
  - intros Hn. cbn. fs_step. apply ends_ok; [|done].
    destruct (gen_cases t v g Hr) as [[_ Hg]|(m & Hm & _)]; [|congruence].
    unfold set_gens. rewrite delete_id by done. by destruct v.
  - intros [n Hn]. destruct (gen_cases t v g Hr) as [[Hn' _]|(m & Hm & Hg & _)]; [congruence|]. split.
    + by apply (rep_put_gen t v g).
    + unfold trash_at, FsShelf.gen_dir. by rewrite (child_put _ _ _ _ v), decide_False.
  - intros tr t' Hr' Htr' _. cbn [andthend]. apply wpd_sync_dir; [by eexists| |intros x He [-> | ->]; cut_short].
    left. do 2 (split; [done|]). destruct Htr' as [|Htr']; [by left|right]. by apply kept_away.
  - intros x t' He Hi' [Hr'|[_ Hr']]; destruct Hi' as [-> | ->]; cbn; cut_short.
Qed.

(** A generation's directory, made if it is not there. *)
Definition begin_gen (g : N) v : Shelves :=
  match gens v !! g with Some _ => v | None => set_gens <[g := ∅]> v end.

Lemma begin_gen_same g v : same_items v (begin_gen g v).
Proof.
  unfold begin_gen. destruct (gens v !! g) eqn:Hg; [done|]. split; [done|]. intros g'. rewrite items_insert.
  case_decide; subst; [|done]. unfold items. by rewrite Hg.
Qed.

Lemma items_in_empty : items_in ∅ = ∅.
Proof. apply map_eq. intros id. by rewrite items_in_lookup, !lookup_empty. Qed.

Lemma wpd_make_gen g (Q : postd ApiError unit) t k v : Rep t v → (g ≤ u64_max)%N →
  (∀ t' its, Rep t' (begin_gen g v) → at_path (FsShelf.items g) t' = Some (Dir its) → items_ok its →
    (∀ p, at_path ("staging" :: p) t' = at_path ("staging" :: p) t) → trash_at t' = trash_at t → Q (Ok ()) t' k) →
  (∀ x t', excuse → interrupted x → Rep t' v ∨ Rep t' (begin_gen g v) → Q x t' k) →
  wpd (FsShelf.make_dir (FsShelf.items g)) Q t k.
Proof.
  intros Hr Hg Hok Hcut. pose proof (rep_dir t v Hr) as [m0 Hm0].
  assert (∃ t', mkdirs (FsShelf.items g) t = (Ok (), t') ∧ Rep t' (begin_gen g v) ∧
    (∃ its, at_path (FsShelf.items g) t' = Some (Dir its) ∧ items_ok its) ∧
    (∀ p, at_path ("staging" :: p) t' = at_path ("staging" :: p) t) ∧ trash_at t' = trash_at t ∧
    ∀ n, Rep (mkdirs (take n (FsShelf.items g)) t).2 v ∨ Rep (mkdirs (take n (FsShelf.items g)) t).2 (begin_gen g v))
    as (t' & Hmk & Hr' & (its & Hi & Hio) & Hst & Htr & Hpart).
  { assert (∀ m' v', put [gen_name g] (Some (Dir m')) t = Dir (<[gen_name g := Dir m']> m0) ∧
      (staging v' = staging v → (∀ n', m' !! "items" = Some n' → ∃ its, n' = Dir its ∧ items_ok its) →
       gens v' = partial_alter (λ _, gen_in (Dir m')) g (gens v) → Rep (put [gen_name g] (Some (Dir m')) t) v') ∧
      (∀ p, at_path ("staging" :: p) (put [gen_name g] (Some (Dir m')) t) = at_path ("staging" :: p) t) ∧
      trash_at (put [gen_name g] (Some (Dir m')) t) = trash_at t) as Hput.
    { intros m' v'. split_and!; [by subst t| | |].
      - intros Hs Hits Hgens. apply (rep_put_gen t v g); [done|done| |done|done]. intros n [= <-]. by exists m'.
      - intros p. by rewrite at_put_apart.
      - unfold trash_at. by rewrite (child_put _ _ _ _ v), decide_False. }
    assert (∀ n, 2 ≤ n → take n (FsShelf.items g) = FsShelf.items g) as Hall by (intros; by apply take_ge).
    destruct (gen_cases t v g Hr) as [[Hn Hgv]|(m & Hm & _ & [[Hi Hgv]|(its & Hi & Hio & Hgv)])].
    - destruct (Hput (<["items" := Dir ∅]> ∅) (begin_gen g v)) as (Heq & Hrep & Hst & Htr).
      assert (Rep (put [gen_name g] (Some (Dir (<["items" := Dir ∅]> ∅))) t) (begin_gen g v)) as Hr'.
      { apply Hrep; unfold begin_gen; rewrite ?Hgv; [done| |].
        - intros n'. rewrite lookup_insert_eq. intros [= <-]. exists ∅. split; [done|]. intros s n. by rewrite lookup_empty.
        - cbn. unfold gen_in, child. cbn. rewrite lookup_insert_eq, items_in_empty. done. }
      assert (mkdirs (FsShelf.items g) t = (Ok (), put [gen_name g] (Some (Dir (<["items" := Dir ∅]> ∅))) t)) as Hmk.
      { rewrite Heq. subst t. unfold child in Hn. cbn in Hn. unfold FsShelf.items. cbn [mkdirs]. rewrite Hn. cbn.
        by rewrite lookup_empty. }
      eexists. split_and!; [exact Hmk|done| |done|done|].
      { exists ∅. split; [|intros s n; by rewrite lookup_empty].
        rewrite at_items, (child_put _ _ _ _ v), decide_True by done. cbn. unfold child. cbn. by rewrite lookup_insert_eq. }
      intros [|[|n]]; [left; by subst t| |right; rewrite Hall by lia; by rewrite Hmk].
      left. destruct (Hput ∅ v) as (Heq1 & Hrep1 & _ & _).
      replace (mkdirs (take 1 (FsShelf.items g)) t).2 with (put [gen_name g] (Some (Dir ∅)) t).
      + apply Hrep1; [done|intros n'; by rewrite lookup_empty|]. unfold gen_in, child. cbn. rewrite lookup_empty.
        symmetry. exact (delete_id (gens v) g Hgv).
      + rewrite Heq1. subst t. unfold child in Hn. cbn in Hn. unfold FsShelf.items. cbn [take mkdirs]. by rewrite Hn.
    - destruct (Hput (<["items" := Dir ∅]> m) (begin_gen g v)) as (_ & Hrep & Hst & Htr).
      assert (Rep (put [gen_name g] (Some (Dir (<["items" := Dir ∅]> m))) t) (begin_gen g v)) as Hr'.
      { apply Hrep; unfold begin_gen; rewrite ?Hgv; [done| |].
        - intros n'. rewrite lookup_insert_eq. intros [= <-]. exists ∅. split; [done|]. intros s n. by rewrite lookup_empty.
        - cbn. unfold gen_in, child. cbn. rewrite lookup_insert_eq, items_in_empty. done. }
      assert (at_path [gen_name g] t = Some (Dir m)) as Hat by (by rewrite child_at).
      assert (mkdirs (FsShelf.items g) t = (Ok (), put [gen_name g] (Some (Dir (<["items" := Dir ∅]> m))) t)) as Hmk.
      { change (FsShelf.items g) with ([gen_name g] ++ ["items"]). rewrite (mkdirs_snoc _ _ _ m) by done.
        by rewrite (put_app _ _ _ _ (Dir m)). }
      eexists. split_and!; [exact Hmk|done| |done|done|].
      { exists ∅. split; [|intros s n; by rewrite lookup_empty].
        rewrite at_items, (child_put _ _ _ _ v), decide_True by done. cbn. unfold child. cbn. by rewrite lookup_insert_eq. }
      intros [|[|n]]; [left; by subst t| |right; rewrite Hall by lia; by rewrite Hmk].
      left. change (take 1 (FsShelf.items g)) with [gen_name g]. by rewrite (mkdirs_here _ _ m).
    - assert (begin_gen g v = v) as -> by (unfold begin_gen; by rewrite Hgv).
      assert (at_path [gen_name g] t = Some (Dir m)) as Hat by (by rewrite child_at).
      assert (at_path (FsShelf.items g) t = Some (Dir its)) as Hat2 by (rewrite at_items, Hm; cbn; unfold child; cbn; by rewrite Hi).
      exists t. split_and!; [by apply (mkdirs_here _ _ its)|done|by exists its|done|done|].
      intros [|[|n]]; [left; by subst t|left|left; rewrite Hall by lia; by rewrite (mkdirs_here _ _ its)].
      change (take 1 (FsShelf.items g)) with [gen_name g]. by rewrite (mkdirs_here _ _ m). }
  unfold FsShelf.make_dir, create_dir_all. apply (wpd_available_call excuse excused (mkdirs (FsShelf.items g))).
  - rewrite Hmk. cbn [fst snd told]. by apply (Hok t' its).
  - intros n x He Hx. by apply Hcut.
Qed.

Lemma envelope_from_server (e : Envelope) :
  envelope_from (meta e) (mkServerFile (text <$> under e) (received_at e)) = Some e.
Proof. destruct e as [m [key|] n]; [|done]. unfold envelope_from. cbn. by rewrite parsed_key. Qed.

(** A finished place, with the two files beside its content, is an item. *)
Lemma place_is_item e c (env : Envelope) s :
  file_in CONTENT (Dir e) = Some c → server_from_slice s = Some (mkServerFile (text <$> under env) (received_at env)) →
  item_of (Dir (<[SERVER := File s]> (<[META := File (meta env)]> e))) = Some (c, env).
Proof.
  intros Hc Hs. set (n := Dir _).
  assert (file_in CONTENT n = Some c) as Hc' by (unfold n; by rewrite !file_in_insert, !decide_False).
  assert (file_in META n = Some (meta env)) as Hm by (unfold n; by rewrite file_in_insert, decide_False, file_in_insert, decide_True).
  assert (file_in SERVER n = Some s) as Hs' by (unfold n; by rewrite file_in_insert, decide_True).
  unfold item_of. rewrite Hc', Hm, Hs'. cbn [mbind option_bind]. rewrite Hs. cbn [mbind option_bind].
  by rewrite envelope_from_server.
Qed.

(** The rename that makes a finished place an item. *)
Lemma rep_published t v u g id its e it :
  Rep t v → place_at t u = Some (Dir e) → item_of (Dir e) = Some it →
  at_path (FsShelf.items g) t = Some (Dir its) → at_path (FsShelf.item_dir g id) t = None →
  let t' := put (FsShelf.item_dir g id) (Some (Dir e)) (put (FsShelf.staged_dir u) None t) in
  move (FsShelf.staged_dir u) (FsShelf.item_dir g id) t = (Ok (), t') ∧
  Rep t' (mkShelves (delete u (staging v)) (<[g := <[id := it]> (items v g)]> (gens v))) ∧
  place_at t' u = None ∧ beside u t t'.
Proof.
  intros Hr He Hit Hi Hn t'.
  pose proof (rep_place t v u None Hr) as (Hr1 & Hp1 & _ & Hb1); [done|]. cbn [mbind option_bind] in Hr1.
  assert (at_path (FsShelf.items g) (put (FsShelf.staged_dir u) None t) = Some (Dir its)) as Hi1.
  { unfold FsShelf.items, FsShelf.staged_dir. rewrite at_put_apart by done. exact Hi. }
  pose proof (rep_item _ _ g id its (Some (Dir e)) Hr1 Hi1) as (Hr2 & Htr2 & _); [intros n [= <-]; by rewrite Hit|].
  cbn [mbind option_bind] in Hr2. rewrite Hit in Hr2.
  assert (∀ u', place_at t' u' = place_at (put (FsShelf.staged_dir u) None t) u') as Hp.
  { intros u'. exact (at_put_apart "staging" (gen_name g) [text u'] ["items"; text id] _ _ ltac:(done)). }
  split_and!; [|exact Hr2|by rewrite Hp|split].
  - unfold move. unfold place_at in He. rewrite He, Hn. unfold parent_is_dir.
    unfold FsShelf.item_dir at 1. by rewrite removelast_last, Hi.
  - etrans; [exact Htr2|]. apply Hb1.
  - intros u' Hu. rewrite Hp. destruct (proj2 Hb1 u' Hu) as [<- <-]. split; [done|]. unfold digest_at. do 2 f_equal.
    rewrite <- !child_at. exact (at_put_apart "staging" (gen_name g) [] ["items"; text id] _ _ ltac:(done)).
Qed.

Lemma begin_gen_insert g v its : <[g := its]> (gens (begin_gen g v)) = <[g := its]> (gens v).
Proof. unfold begin_gen. destruct (gens v !! g); cbn; [done|]. apply insert_insert_eq. Qed.

Lemma begin_gen_item g id v : is_Some (items v g !! id) → begin_gen g v = v.
Proof. intros [it Hi]. unfold begin_gen. unfold items in Hi. destruct (gens v !! g); [done|]. cbn in Hi. by rewrite lookup_empty in Hi. Qed.

(** An item is not written over. *)
Lemma move_refused t v u g id e it :
  Rep t v → place_at t u = Some (Dir e) → items v g !! id = Some it →
  move (FsShelf.staged_dir u) (FsShelf.item_dir g id) t = (Err DirectoryNotEmpty, t).
Proof.
  intros Hr He Hit. rewrite items_lookup_gens in Hit.
  destruct (item_cases t v g id Hr) as [[_ Hn]|(n & [c' e'] & Hn & Hi & _)]; [congruence|].
  apply item_of_dir in Hi as (m & b & s' & server & -> & Hcc & _).
  unfold move. unfold place_at in He. rewrite He, Hn. rewrite bool_decide_false; [done|].
  intros ->. by rewrite lookup_empty in Hcc.
Qed.

Lemma move_cases t v u g id its e it :
  Rep t v → place_at t u = Some (Dir e) → item_of (Dir e) = Some it → at_path (FsShelf.items g) t = Some (Dir its) →
  let moved := move (FsShelf.staged_dir u) (FsShelf.item_dir g id) t in
  if items v g !! id then moved = (Err DirectoryNotEmpty, t)
  else moved.1 = Ok () ∧ Rep moved.2 (mkShelves (delete u (staging v)) (<[g := <[id := it]> (items v g)]> (gens v))) ∧
    place_at moved.2 u = None ∧ beside u t moved.2.
Proof.
  intros Hr He Hit Hi moved. destruct (items v g !! id) as [it'|] eqn:Hid; [by apply (move_refused t v u g id e it')|].
  destruct (item_cases t _ g id Hr) as [[Hn _]|(n & it' & _ & _ & Hit')];
    [|rewrite <- items_lookup_gens in Hit'; congruence].
  unfold moved. destruct (rep_published t v u g id its e it Hr He Hit Hi Hn) as (-> & H). by split.
Qed.

(** Once renamed, the note goes, and the directories are flushed. *)
Lemma wpd_publish_end u g t0 t k v spec :
  Rep t spec.2 → spec.1 = Ok true → staging spec.2 !! u = None → is_Some (gens spec.2 !! g) →
  place_at t u = None → beside u t0 t →
  wpd (FsShelf.remove_digest u;; FsShelf.sync_dir (FsShelf.items g);; FsShelf.sync_dir FsShelf.staging;; mret true)
    (ends excuse t0 spec.1 spec.2 (λ v', same_items v v' ∨ v' = spec.2)) t k.
Proof.
  destruct spec as [x v4]. cbn [fst snd]. intros Hr -> Hu Hg Hp Hb.
  assert (∀ d, set_digest u d v4 = v4) as Hd4.
  { intros d. unfold set_digest. rewrite Hu. by apply set_place_same. }
  fs_step. apply (wpd_remove_digest excuse excused u _ _ _ v4); [done| |].
  2: { intros x' t' d Hx Hy Hr'. rewrite Hd4 in Hr'. destruct Hy as [-> | ->]; cbn; cut_short. }
  intros t5 Hr5 Hp5 Hdig Hb5. rewrite Hd4 in Hr5. cbn [andthend].
  fs_step. apply wpd_sync_dir; [| |intros x' Hx [-> | ->]; cbn; cut_short].
  { destruct (items_cases t5 v4 g Hr5) as [[_ Hgn]|(its5 & Hi5 & _)]; [|by rewrite Hi5].
    rewrite Hgn in Hg. by destruct Hg. }
  cbn [andthend]. fs_step. apply wpd_sync_dir; [| |intros x' Hx [-> | ->]; cbn; cut_short].
  { destruct Hr5 as [_ (st & Hst & _) _ _]. unfold FsShelf.staging. by rewrite child_at, Hst. }
  cbn [andthend]. fs_step. apply ends_ok; [done|]. apply (kept_beside u); [by eapply beside_trans|done|].
  intros n. by rewrite Hp5, Hp.
Qed.

(** Of an upload that has no place, nothing is published. *)
Lemma wpd_publish_absent u g id env t k v : Rep t v → place_at t u = None →
  wpd (FsShelf.publish u g id env) (ends excuse t (Err NotFound) v (eq v)) t k.
Proof.
  intros Hr Hp. unfold FsShelf.publish. fs_step.
  apply (wpd_is_dir_place excuse excused sharp u _ _ _ v); [done| |intros e He; congruence|intros He; cbn; cut_short].
  intros _ _. cbn [andthend negb]. fs_step. by apply ends_ok.
Qed.

Lemma wpd_publish u g id env t k v : Rep t v → (g ≤ u64_max)%N → is_Some (staging v !! u) →
  wpd (FsShelf.publish u g id env)
    (ends excuse t (MemoryShelf.publish u g id env v).1 (MemoryShelf.publish u g id env v).2
      (λ v', same_items v v' ∨ v' = (MemoryShelf.publish u g id env v).2)) t k.
Proof.
  intros Hr Hg Hu. unfold FsShelf.publish. fs_step.
  apply (wpd_is_dir_place excuse excused sharp u _ _ _ v); [done| | |intros He; cbn; cut_short].
  { intros _ Hn. rewrite Hn in Hu. by destruct Hu. }
  intros e He Hf Hv. cbn [andthend negb]. rewrite Hv in Hu.
  destruct (file_in CONTENT (Dir e)) as [c|] eqn:Hc; [|by destruct Hu].
  set (s := default [] (server_to_vec _)).
  assert (MemoryShelf.publish u g id env v =
    if items v g !! id then (Ok false, v)
    else (Ok true, mkShelves (delete u (staging v)) (<[g := <[id := (c, env)]> (items v g)]> (gens v)))) as Hspec.
  { unfold MemoryShelf.publish. rewrite Hv. cbn. by destruct (items v g !! id). }
  assert (same_items v v) as Hself by done. pose proof (begin_gen_same g v) as Hbegun.
  (* the two files *)
  fs_step. apply (wpd_write_extra excuse excused u e META (meta env) _ _ _ v); [done|done|done|done| |].
  2: { intros x t' Hx [-> | ->] Hr'; cbn; cut_short. }
  intros t1 Hr1 He1 Hb1. cbn [andthend].
  assert (map_Forall (λ _, is_file_node) (<[META := File (meta env)]> e)) as Hf1 by (apply map_Forall_insert_2; [by eexists|done]).
  fs_step. apply (wpd_write_extra excuse excused u _ SERVER s _ _ _ v Hr1 He1 Hf1); [done| |].
  2: { intros x t' Hx [-> | ->] Hr'; cbn; cut_short. }
  intros t2 Hr2 He2 Hb2. cbn [andthend]. set (e2 := <[SERVER := File s]> _) in *.
  assert (item_of (Dir e2) = Some (c, env)) as Hitem by (apply place_is_item; [done|apply server_json_law]).
  fs_step. apply wpd_sync_dir; [by eexists| |intros x Hx [-> | ->]; cbn; cut_short]. cbn [andthend].
  (* the generation *)
  fs_step. apply (wpd_make_gen g _ _ _ v); [done|done| |].
  2: { intros x t' Hx [-> | ->] [Hr'|Hr']; cbn; cut_short. }
  intros t3 its Hr3 Hi3 Hio Hst3 Htr3. cbn [andthend].
  assert (place_at t3 u = Some (Dir e2)) as He3 by (rewrite <- He2; apply Hst3).
  assert (beside u t t3) as Hb3.
  { eapply beside_trans; [exact Hb1|]. eapply beside_trans; [exact Hb2|]. split; [done|]. intros u' _. split; [apply Hst3|].
    unfold digest_at. by rewrite <- !child_at, Hst3. }
  fs_step. apply (wpd_look excuse excused); [|intros x Hx [-> | ->]; cbn; cut_short]. cbn [told andthend].
  (* the rename *)
  pose proof (move_cases t3 _ u g id its e2 _ Hr3 He3 Hitem Hi3) as Hmv. cbn zeta in Hmv.
  rewrite begin_gen_insert, (proj1 Hbegun), (proj2 Hbegun) in Hmv.
  fs_step. apply wpd_attempt. apply (wpd_call_fs excuse excused (move (FsShelf.staged_dir u) (FsShelf.item_dir g id))).
  - rewrite Hspec. destruct (items v g !! id) as [it|] eqn:Hid.
    + rewrite (begin_gen_item g id v) in Hr3 by (by eexists). rewrite Hmv.
      cbn [fst snd attempted andthend]. fs_step. apply ends_ok; [done|]. apply (kept_beside u); [done|congruence|].
      intros n. rewrite He3. intros [= <-]. unfold place_of, e2. rewrite !file_in_insert. by rewrite !decide_False, Hc.
    + destruct Hmv as (-> & Hr4 & Hp4 & Hb4). cbn [attempted andthend].
      apply (wpd_publish_end u g t _ k v (Ok true, _)); cbn [fst snd]; [exact Hr4|done|apply lookup_delete_eq| |done|by eapply beside_trans].
      cbn. rewrite lookup_insert_eq. by eexists.
  - intros n x Hx Hy. assert (∃ v2, Rep (whole_or_nothing (move (FsShelf.staged_dir u) (FsShelf.item_dir g id)) n t3) v2 ∧
      (same_items v v2 ∨ v2 = (MemoryShelf.publish u g id env v).2)) as (v2 & Hr4 & Hv2).
    { unfold whole_or_nothing. rewrite Hspec. destruct n; [exists (begin_gen g v); auto|].
      destruct (items v g !! id); [rewrite Hmv; exists (begin_gen g v); auto|]. eexists. split; [apply Hmv|by right]. }
    destruct Hy as [-> | ->]; cbn [attempted andthend]; try fs_step; cut_short.
Qed.
End publishing.

(** ** Opening *)

Section opening.
Context `{Ext : Externals} `{Sky : Weather} `{Json : ServerJson}.
Context (excuse : Prop) (excused : ∀ n, luck n ≠ Fine → excuse) (sharp : ∀ n, glance n = true).
Implicit Types (t : node) (v : Shelves) (u : UploadId) (k : N).

(** Emptying the trash. *)
Lemma wpd_empty_each names tr (Q : postd ApiError unit) t k v :
  Rep t v → trash_at t = Some (Dir tr) → (∀ s, is_Some (tr !! s) → s ∈ names) →
  (∀ t', Rep t' v → trash_at t' = Some (Dir ∅) → Q (Ok ()) t' k) →
  (∀ x t', excuse → interrupted x → Rep t' v → Q x t' k) →
  wpd (for_each names (λ name, FsShelf.remove_tree (FsShelf.trash ++ [name]))) Q t k.
Proof.
  intros Hr Htr Hall Hok Hcut. revert tr t Hr Htr Hall.
  induction names as [|s names IH]; intros tr t Hr Htr Hall; cbn [for_each].
  { fs_step. apply Hok; [done|]. rewrite Htr. do 2 f_equal. apply map_eq. intros s. rewrite lookup_empty.
    destruct (tr !! s) eqn:Hs; [|done]. specialize (Hall s ltac:(by eexists)). by apply not_elem_of_nil in Hall. }
  assert (trash_ok tr) as Htrok.
  { destruct Hr as [_ _ (tr' & Htr' & Hok') _]. unfold trash_at in Htr. by assert (tr' = tr) as <- by congruence. }
  assert (at_path (FsShelf.trash ++ [s]) t = tr !! s) as Hat.
  { rewrite at_path_app. change (at_path FsShelf.trash t) with (at_path ["trash"] t). rewrite child_at.
    unfold trash_at in Htr. rewrite Htr. cbn. by destruct (tr !! s). }
  assert (∀ y, (∀ c, y ≠ Some (File c)) → let t' := put (FsShelf.trash ++ [s]) y t in
    Rep t' v ∧ trash_at t' = Some (Dir (partial_alter (λ _, y) s tr))) as Hput.
  { intros y Hy. cbn zeta. unfold trash_at in Htr |- *.
    rewrite (put_app FsShelf.trash [s] y t (Dir tr)) by (done || (unfold FsShelf.trash; by rewrite child_at)).
    unfold FsShelf.trash. split.
    - apply (rep_put_trash t v); [done|]. intros s' c. destruct (decide (s' = s)) as [->|Hne];
        rewrite ?lookup_partial_alter_eq, ?lookup_partial_alter_ne by done; [apply Hy|apply Htrok].
    - by rewrite (child_put _ _ _ _ v), decide_True by done. }
  fs_step. unfold FsShelf.remove_tree, remove_dir_all. apply (wpd_gone excuse excused); cbn beta; rewrite Hat.
  - destruct (tr !! s) as [[b|m]|] eqn:Hs; [by apply Htrok in Hs|by left|by right].
  - destruct (tr !! s) as [[b|m]|] eqn:Hs; [by apply Htrok in Hs| |]; cbn [snd andthend].
    + destruct (Hput None) as [Hr' Htr']; [done|]. apply (IH _ _ Hr' Htr'). intros s' Hs'.
      destruct (decide (s' = s)) as [->|Hne]; [rewrite lookup_partial_alter_eq in Hs'; by destruct Hs'|].
      rewrite lookup_partial_alter_ne in Hs' by done. apply Hall, elem_of_cons in Hs' as [|]; done.
    + apply (IH tr); [done|done|]. intros s' Hs'. pose proof Hs' as Hs''. apply Hall, elem_of_cons in Hs' as [->|]; [|done].
      rewrite Hs in Hs''. by destruct Hs''.
  - intros n x He Hx.
    assert (Rep (match tr !! s with Some x => put (FsShelf.trash ++ [s]) (Some (remove_some n x)) t | None => t end) v) as Hr'.
    { destruct (tr !! s) as [[b|m]|] eqn:Hs; [by apply Htrok in Hs| |done]. by apply Hput. }
    destruct Hx as [-> | ->]; cbn [andthend]; apply Hcut; try done; [by left|by right].
Qed.

(** Digests whose place is gone. *)
Lemma strip_end_Some suffix name s : strip_end suffix name = Some s → name = (s ++ suffix)%string.
Proof.
  unfold strip_end. destruct (strip_prefix _ _) as [r|] eqn:Hp; [|done]. intros [= <-].
  apply strip_prefix_Some in Hp. apply (f_equal str_rev) in Hp. by rewrite str_rev_app, !str_rev_rev in Hp.
Qed.

(** No note is left of an upload that has no place. *)
Definition Swept t : Prop := ∀ u, place_at t u = None → digest_at t u = None.

Lemma strip_digest_name u : strip_end SHA256 (text u ++ SHA256)%string = Some (text u).
Proof. unfold strip_end. rewrite str_rev_app, strip_prefix_app. cbn [fmap option_fmap option_map]. by rewrite str_rev_rev. Qed.

Lemma wpd_sweep_each names st (Q : postd ApiError unit) t k v :
  Rep t v → child "staging" t = Some (Dir st) → NoDup names → (∀ s, s ∈ names → is_Some (st !! s)) →
  (∀ u, place_at t u = None → is_Some (st !! (text u ++ SHA256)%string) → (text u ++ SHA256)%string ∈ names) →
  (∀ t', Rep t' v → Swept t' → trash_at t' = trash_at t → Q (Ok ()) t' k) →
  (∀ x t', excuse → interrupted x → Rep t' v → Q x t' k) →
  wpd (for_each names FsShelf.sweep_digest) Q t k.
Proof.
  intros Hr Hst Hnd Hin Hleft Hok Hcut. remember (trash_at t) as tr0 eqn:Htr0. symmetry in Htr0.
  revert st t Htr0 Hr Hst Hnd Hin Hleft.
  induction names as [|s names IH]; intros st t Htr0 Hr Hst Hnd Hin Hleft; cbn [for_each].
  { fs_step. apply Hok; [done| |done]. intros u Hp. specialize (Hleft u Hp). unfold digest_at, digest_in. rewrite Hst. cbn.
    destruct (st !! (text u ++ SHA256)%string) eqn:Hd; [|done]. specialize (Hleft ltac:(by eexists)). by apply not_elem_of_nil in Hleft. }
  apply NoDup_cons in Hnd as [Hs Hnd]. fs_step.
  assert ((∀ u : UploadId, strip_end SHA256 s ≫= (λ r, parsed (UploadId.parse r)) = Some u → is_Some (place_at t u)) →
    andthend (λ _, for_each names FsShelf.sweep_digest) Q (Ok ()) t k) as Hskip.
  { intros Hthere. cbn [andthend]. apply (IH st); [done..| |].
    - intros s' Hs'. apply Hin. by right.
    - intros u Hp Hu. specialize (Hleft u Hp Hu). apply elem_of_cons in Hleft as [<-|]; [|done].
      destruct (Hthere u) as [n Hn]; [|congruence]. rewrite strip_digest_name. apply parsed_upload. }
  unfold FsShelf.sweep_digest at 1. destruct (strip_end SHA256 s ≫= _) as [u|] eqn:Hu; [|fs_step; by apply Hskip].
  assert (s = (text u ++ SHA256)%string) as ->.
  { destruct (strip_end SHA256 s) as [r|] eqn:He; [|done]. cbn in Hu. apply strip_end_Some in He as ->.
    by apply parsed_upload_text in Hu as ->. }
  fs_step. apply (wpd_is_dir_place excuse excused sharp u _ _ _ v Hr).
  - intros Hno Hv. cbn [andthend]. change (FsShelf.staging ++ _) with (FsShelf.digest_file u).
    assert (∃ b, at_path (FsShelf.digest_file u) t = Some (File b)) as [b Hb].
    { destruct (digest_cases t v u Hr) as [Hn|Hb]; [|done]. unfold FsShelf.digest_file in Hn.
      rewrite (at_staging t st) in Hn by done. destruct (Hin (text u ++ SHA256)%string) as [n Hn']; [by left|]. congruence. }
    assert (unlink (FsShelf.digest_file u) t = (Ok (), put (FsShelf.digest_file u) None t)) as Hun
      by (unfold unlink; by rewrite Hb).
    pose proof (rep_digest t v u None Hr) as (Hr' & Hp' & _ & Hb'). rewrite Hv in Hr'. cbn [fmap option_fmap option_map] in Hr', Hp', Hb'.
    rewrite set_place_same in Hr' by done.
    apply (wpd_available_call excuse excused (unlink (FsShelf.digest_file u))).
    + rewrite Hun. cbn [fst snd told andthend].
      apply (IH (partial_alter (λ _, None) (text u ++ SHA256)%string st)); [rewrite (proj1 Hb'); done|done| |done| |].
      * unfold FsShelf.digest_file. rewrite (put_in_staging t st) by done.
        by rewrite (child_put _ _ _ _ v), decide_True by done.
      * intros s' Hs'. rewrite lookup_partial_alter_ne; [apply Hin; by right|]. by intros <-.
      * intros u' Hp Hu'. destruct (decide (u' = u)) as [->|Hne]; [rewrite lookup_partial_alter_eq in Hu'; by destruct Hu'|].
        rewrite (proj1 (proj2 Hb' u' Hne)) in Hp.
        rewrite lookup_partial_alter_ne in Hu' by (intros H; by apply Hne, eq_sym, digest_name_inj).
        specialize (Hleft u' Hp Hu'). apply elem_of_cons in Hleft as [H|]; [|done]. by destruct (Hne (digest_name_inj _ _ H)).
    + intros n x He Hx. unfold whole_or_nothing. rewrite Hun.
      destruct n; destruct Hx as [-> | ->]; cbn [snd andthend]; apply Hcut; try done; (by left) || by right.
  - intros e He Hf Hv. cbn [andthend]. fs_step. apply Hskip. intros u' [= <-]. by eexists.
  - intros He. cbn. apply Hcut; [done|by right|done].
Qed.

(** A directory that an opening has begun to make. *)
Definition Begun (t : node) : Prop := ∃ m, t = Dir m ∧
  ∀ s n, m !! s = Some n → (s = "staging" ∨ s = "trash") ∧ n = Dir ∅.

(** A directory of a shelf, or the beginnings of one. *)
Definition Sound (t : node) (v : Shelves) : Prop := Rep t v ∨ Begun t ∧ v = no_shelves.

Lemma sound_rep t v : Sound t v → is_Some (child "staging" t) → is_Some (child "trash" t) → Rep t v.
Proof.
  intros [|[(m & -> & Hm) ->]] [n1 H1] [n2 H2]; [done|]. unfold child in *. cbn in *.
  destruct (Hm _ _ H1) as [_ ->], (Hm _ _ H2) as [_ ->]. split.
  - intros s n Hn. destruct (Hm _ _ Hn) as [[-> | ->] _]; [by left|by right; left].
  - exists ∅. split_and!; [done|by intros s n|]. intros u. cbn. unfold staged_in. by rewrite !lookup_empty.
  - exists ∅. by split.
  - intros g. cbn. rewrite lookup_empty. unfold gen_at, child. cbn. destruct (g <=? u64_max)%N; [|done].
    destruct (m !! gen_name g) as [n|] eqn:Hn; [|done]. by destruct (Hm _ _ Hn) as [[H|H] _].
Qed.

Lemma wpd_make_top s (Q : postd ApiError unit) t k v : s = "staging" ∨ s = "trash" → Sound t v →
  (∀ t', Sound t' v → is_Some (child s t') → (∀ s', is_Some (child s' t) → is_Some (child s' t')) → Q (Ok ()) t' k) →
  (∀ x t', excuse → interrupted x → Sound t' v → Q x t' k) →
  wpd (FsShelf.make_dir [s]) Q t k.
Proof.
  intros Hs Ht Hok Hcut.
  assert (∃ t', mkdirs [s] t = (Ok (), t') ∧ Sound t' v ∧ is_Some (child s t') ∧
    (∀ s', is_Some (child s' t) → is_Some (child s' t')) ∧ (mkdirs [] t).2 = t) as (t' & Hmk & Ht' & Hc & Hm & Hnil).
  { destruct Ht as [Hr|[(m & -> & Hm) ->]].
    - destruct (rep_dir t v Hr) as [m0 Hm0].
      assert (∃ m, child s t = Some (Dir m)) as [m Hc].
      { pose proof Hr as [_ (st & Hst & _) (tr & Htr & _) _]. destruct Hs as [-> | ->]; by eexists. }
      exists t. split_and!; [apply (mkdirs_here _ _ m); by rewrite child_at|by left|by eexists|done|by subst t].
    - exists (Dir (<[s := Dir ∅]> m)). split_and!; [| |unfold child; cbn; by rewrite lookup_insert_eq| |done].
      + cbn. destruct (m !! s) as [n|] eqn:Hn; cbn; [|done]. by destruct (Hm _ _ Hn) as [_ ->].
      + right. split; [|done]. eexists. split; [done|]. intros s' n. destruct (decide (s' = s)) as [->|Hne];
          rewrite ?lookup_insert_eq, ?lookup_insert_ne by done; [by intros [= <-]|apply Hm].
      + intros s'. unfold child. cbn. destruct (decide (s' = s)) as [->|Hne];
          rewrite ?lookup_insert_eq, ?lookup_insert_ne by done; [by intros _|done]. }
  unfold FsShelf.make_dir, create_dir_all. apply (wpd_available_call excuse excused (mkdirs [s])).
  - rewrite Hmk. cbn [fst snd told]. by apply Hok.
  - intros [|n] x He Hx; apply Hcut; try done.
    + cbn [take]. by rewrite Hnil.
    + replace (take (S n) [s]) with [s] by (by destruct n). by rewrite Hmk.
Qed.

(** Whatever an opening finds, made by the shelf or by openings that were cut
    short, it leaves what stands for the same, or fails with an excuse. *)
Definition opened v : postd ApiError unit := λ x t' _,
  (x = Ok () ∧ Rep t' v ∧ trash_at t' = Some (Dir ∅) ∧ Swept t') ∨ (interrupted x ∧ excuse ∧ Sound t' v).

Lemma wpd_open t k v : Sound t v → wpd FsShelf.open (opened v) t k.
Proof.
  intros Ht. unfold FsShelf.open. fs_step. intros d Hd _. cbn [modify fst snd andthend tree trashed].
  rewrite Hd. clear d Hd.
  assert (∀ x t' k', excuse → interrupted x → Sound t' v → opened v x t' k') as Hcut by (intros; by right).
  fs_step. unfold FsShelf.make_dir at 1, create_dir_all. apply (wpd_available_call excuse excused (mkdirs [])).
  2: { intros n x He Hx. rewrite take_nil. assert ((mkdirs [] t).2 = t) as ->.
    { destruct Ht as [Hr|[(m & -> & _) _]]; [|done]. by destruct (rep_dir t v Hr) as [m ->]. }
    destruct Hx as [-> | ->]; cbn; apply Hcut; try done; [by left|by right]. }
  assert (mkdirs [] t = (Ok (), t)) as ->.
  { destruct Ht as [Hr|[(m & -> & _) _]]; [|done]. by destruct (rep_dir t v Hr) as [m ->]. }
  cbn [fst snd told andthend].
  fs_step. apply (wpd_make_top "staging" _ _ _ v); [by left|done| |].
  2: { intros x t' He [-> | ->] Ht'; cbn; apply Hcut; try done; [by left|by right]. }
  intros t1 Ht1 Hst1 _. cbn [andthend].
  fs_step. apply (wpd_make_top "trash" _ _ _ v); [by right|done| |].
  2: { intros x t' He [-> | ->] Ht'; cbn; apply Hcut; try done; [by left|by right]. }
  intros t2 Ht2 Htr2 Hst2. cbn [andthend].
  pose proof (sound_rep t2 v Ht2 (Hst2 _ Hst1) Htr2) as Hr2. clear t Ht t1 Ht1 Hst1 Ht2 Htr2 Hst2.
  (* what is there to go through *)
  pose proof Hr2 as [_ _ (tr & Htr & Htrok) _].
  fs_step. unfold FsShelf.empty_trash. fs_step.
  assert (at_path FsShelf.trash t2 = Some (Dir tr)) as Hat by (unfold FsShelf.trash; by rewrite child_at).
  apply (wpd_entries excuse excused); rewrite ?Hat; [|done|done|].
  2: { intros x He [-> | ->]; cbn; apply Hcut; try done; (by left) || by right. }
  intros m [= <-]. cbn [andthend]. apply (wpd_empty_each _ tr _ _ _ v); [done|done| | |].
  { intros s [n Hn]. apply list_elem_of_fmap. exists (s, n). split; [done|]. by apply elem_of_map_to_list. }
  2: { intros x t' He [-> | ->] Hr'; cbn; apply Hcut; try done; (by left) || by right. }
  clear t2 Hr2 tr Htr Htrok Hat. intros t3 Hr3 Htr3. cbn [andthend].
  pose proof Hr3 as [_ (st & Hst & _) _ _]. unfold FsShelf.sweep_digests. fs_step.
  assert (at_path FsShelf.staging t3 = Some (Dir st)) as Hat by (unfold FsShelf.staging; by rewrite child_at).
  apply (wpd_entries excuse excused); rewrite ?Hat; [|done|done|].
  2: { intros x He [-> | ->]; cbn; apply Hcut; try done; (by left) || by right. }
  intros m [= <-]. cbn [andthend]. apply (wpd_sweep_each _ st _ _ _ v); [done|done| | | | |].
  - apply NoDup_fst_map_to_list.
  - intros s Hs. apply list_elem_of_fmap in Hs as ([s' n] & -> & Hs). exists n. by apply elem_of_map_to_list.
  - intros u _ [n Hn]. apply list_elem_of_fmap. eexists (_, n). split; [done|]. by apply elem_of_map_to_list.
  - intros t4 Hr4 Hsw4 Htr4. left. by rewrite Htr4.
  - intros x t' He Hx Hr'. apply Hcut; [done|done|by left].
Qed.
End opening.
