(* ===== verification/FsDisk.v ===== *)
(** The shelf in a directory as a shelf: what it promises, whatever happens,
    and what it answers when nothing does. *)

From S2P Require Import Prelude Text Errors Random Ids Shelf Clients Engines Files FsShelf FsRep FsRules FsLaws.

(** A [stat] behind [is_dir], [is_file] and [exists] can tell.  Where it
    cannot, the code takes the file for absent ([Corners.v]). *)
Class SharpWeather `{Weather} := sharp n : glance n = true.

(** [std::process::id()] *)
Class Process := pid : N.

(** The operations of [shelf/fs.rs], on any directory. *)
#[export] Instance fs_shelf `{Externals, Weather, ServerJson, Process} : ItemShelf Disk := {|
  stage_create := FsShelf.stage_create;
  stage_write := FsShelf.stage_write;
  stage_write_hashed := FsShelf.stage_write_hashed;
  stage_digest := FsShelf.stage_digest;
  stage_size := FsShelf.stage_size;
  stage_remove := FsShelf.stage_remove pid;
  staged := FsShelf.staged;
  publish := FsShelf.publish;
  shelf_get := FsShelf.get;
  open_content_from := FsShelf.open_content_from;
  shelf_ids := FsShelf.ids;
  shelf_remove := FsShelf.remove pid;
  drop_generation := FsShelf.drop_generation pid;
  generations := FsShelf.generations;
  shelf_bytes := FsShelf.bytes;
|}.

(** A directory in order, which every operation leaves. *)
Record WholeDisk `{ServerJson} := mkWholeDisk {
  disk : Disk;
  disk_whole : Whole (tree disk);
}.
Arguments mkWholeDisk {_}.

Section shelf.
Context `{Ext : Externals} `{LawExt : !LawfulExternals} `{Sky : Weather} `{Sharp : !SharpWeather}
  `{Json : ServerJson} `{LawJson : !LawfulServerJson} `{Proc : Process}.

(** Anything may excuse a call here. *)
Let excused n : luck n ≠ Fine → True := λ _, I.

Definition keeps {A} (m : M ApiError Disk A) : Prop := ∀ d, Whole (tree d) → Whole (tree (m d).2).
Definition on_whole {A} (m : M ApiError Disk A) (Hm : keeps m) : M ApiError WholeDisk A := λ s,
  ((m (disk s)).1, mkWholeDisk (m (disk s)).2 (Hm _ (disk_whole s))).
Definition disk_view (s : WholeDisk) : Shelves := view_tree (tree (disk s)).

(** An operation that ends as it should, from every directory in order. *)
Lemma ends_whole {A} t0 (y : outcome ApiError A) v' torn x t' k' :
  ends True t0 y v' torn x t' k' → Whole t'.
Proof. by intros [(_ & Hr & _)|(_ & _ & v2 & Hr & _)]; eapply rep_whole. Qed.

Lemma ends_obeys {A} (m : M ApiError Disk A) (Hm : keeps m) s (spec : outcome ApiError A * Shelves) torn :
  wpd m (ends True (tree (disk s)) spec.1 spec.2 torn) (tree (disk s)) (trashed (disk s)) →
  obeys disk_view (on_whole m Hm s) spec torn.
Proof.
  intros H. unfold obeys, disk_view. cbn. destruct (H (disk s) eq_refl eq_refl) as [(Hx & Hr & _)|(Hx & _ & v2 & Hr & Ht)].
  - left. split; [done|]. by rewrite (rep_view _ _ Hr).
  - right. split; [done|]. by rewrite (rep_view _ _ Hr).
Qed.

Lemma keeps_ends {A} (m : M ApiError Disk A) :
  (∀ t k v, Rep t v → ∃ y v' torn, wpd m (ends True t y v' torn) t k) → keeps m.
Proof. intros H d Hd. destruct (H _ (trashed d) _ Hd) as (y & v' & torn & Hw). eapply ends_whole. by apply Hw. Qed.

Lemma keeps_stage_create u : keeps (FsShelf.stage_create u).
Proof. apply keeps_ends. intros t k v Hr. do 3 eexists. by apply (wpd_stage_create True excused sharp). Qed.
Lemma keeps_content u content announced hashed : keeps (FsShelf.write u content announced hashed).
Proof.
  apply keeps_ends. intros t k v Hr.
  destruct (wpd_write True excused sharp u content announced hashed t k v Hr) as (v0 & _ & _ & H). by do 3 eexists.
Qed.
Lemma keeps_stage_remove u : keeps (FsShelf.stage_remove pid u).
Proof. apply keeps_ends. intros t k v Hr. do 3 eexists. by apply (wpd_stage_remove pid True excused). Qed.
Lemma keeps_staged : keeps FsShelf.staged.
Proof. apply keeps_ends. intros t k v Hr. destruct (wpd_staged True excused t k v Hr) as (us & _ & _ & H). by do 3 eexists. Qed.
Lemma keeps_get g id : keeps (FsShelf.get g id).
Proof. apply keeps_ends. intros t k v Hr. do 3 eexists. by apply (wpd_get True excused). Qed.
Lemma keeps_stage_size u : keeps (FsShelf.stage_size u).
Proof. apply keeps_ends. intros t k v Hr. do 3 eexists. by apply (wpd_stage_size True excused). Qed.
Lemma keeps_open_content_from g id offset : keeps (FsShelf.open_content_from g id offset).
Proof. apply keeps_ends. intros t k v Hr. do 3 eexists. by apply (wpd_open_content_from True excused). Qed.
Lemma keeps_ids g : keeps (FsShelf.ids g).
Proof. apply keeps_ends. intros t k v Hr. do 3 eexists. by apply (wpd_ids True excused sharp). Qed.
Lemma keeps_remove g id : keeps (FsShelf.remove pid g id).
Proof. apply keeps_ends. intros t k v Hr. do 3 eexists. by apply (wpd_remove pid True excused). Qed.
Lemma keeps_drop_generation g : keeps (FsShelf.drop_generation pid g).
Proof. apply keeps_ends. intros t k v Hr. do 3 eexists. by apply (wpd_drop_generation pid True excused). Qed.
Lemma keeps_generations : keeps FsShelf.generations.
Proof. apply keeps_ends. intros t k v Hr. do 3 eexists. by apply (wpd_generations True excused sharp). Qed.
Lemma keeps_bytes g : keeps (FsShelf.bytes g).
Proof. apply keeps_ends. intros t k v Hr. do 3 eexists. by apply (wpd_bytes True excused sharp). Qed.

Lemma keeps_stage_digest u : keeps (FsShelf.stage_digest u).
Proof. apply keeps_ends. intros t k v Hr. do 3 eexists. by apply (wpd_note True excused). Qed.

(** What the engine publishes is staged, and numbers are 64 bits wide: of
    other publications nothing is said. *)
Definition ready_at (u : UploadId) (g : N) (d : Disk) : Prop :=
  (g ≤ u64_max)%N ∧ is_Some (staging (view_tree (tree d)) !! u).
#[local] Instance ready_dec u g d : Decision (ready_at u g d).
Proof. unfold ready_at. apply _. Defined.
Definition publish_ready u g id e : M ApiError Disk bool := λ d,
  if decide (ready_at u g d) then FsShelf.publish u g id e d else (Err ServiceUnavailable, d).

Lemma keeps_publish u g id e : keeps (publish_ready u g id e).
Proof.
  intros d Hd. unfold publish_ready. destruct (decide (ready_at u g d)) as [[Hg Hu]|]; [|done].
  eapply ends_whole. by apply (wpd_publish True excused sharp u g id e (tree d) (trashed d) _ Hd Hg Hu).
Qed.

#[export] Instance disk_shelf : ItemShelf WholeDisk := {|
  stage_create u := on_whole _ (keeps_stage_create u);
  stage_write u content announced := on_whole _ (keeps_content u content announced false);
  stage_write_hashed u content announced := on_whole _ (keeps_content u content announced true);
  stage_digest u := on_whole _ (keeps_stage_digest u);
  stage_size u := on_whole _ (keeps_stage_size u);
  stage_remove u := on_whole _ (keeps_stage_remove u);
  staged := on_whole _ keeps_staged;
  publish u g id e := on_whole _ (keeps_publish u g id e);
  shelf_get g id := on_whole _ (keeps_get g id);
  open_content_from g id offset := on_whole _ (keeps_open_content_from g id offset);
  shelf_ids g := on_whole _ (keeps_ids g);
  shelf_remove g id := on_whole _ (keeps_remove g id);
  drop_generation g := on_whole _ (keeps_drop_generation g);
  generations := on_whole _ keeps_generations;
  shelf_bytes g := on_whole _ (keeps_bytes g);
|}.

#[export] Instance disk_lawful : LawfulShelf WholeDisk.
Proof.
  refine {| view := disk_view |}.
  - intros u s. exists (digest_at (tree (disk s)) u). apply ends_obeys. apply (wpd_stage_create True excused sharp), disk_whole.
  - intros u content announced s.
    destruct (wpd_write True excused sharp u content announced false _ (trashed (disk s)) _ (disk_whole s)) as (v0 & Hv & _ & H).
    exists v0. split; [exact Hv|]. by apply ends_obeys.
  - intros u content announced s.
    destruct (wpd_write True excused sharp u content announced true _ (trashed (disk s)) _ (disk_whole s)) as (v0 & Hv & _ & H).
    exists v0. split; [exact Hv|]. by apply ends_obeys.
  - intros u s Hu. apply ends_obeys. apply (wpd_stage_digest True excused); [apply disk_whole|done].
  - intros u s. apply ends_obeys. apply (wpd_stage_size True excused), disk_whole.
  - intros u s. apply ends_obeys. apply (wpd_stage_remove pid True excused); [apply disk_whole|done].
  - intros s. destruct (wpd_staged True excused _ (trashed (disk s)) _ (disk_whole s)) as (us & Hus & _ & H).
    exists us. split; [done|]. by apply ends_obeys.
  - intros u g id e s Hu. apply (ends_obeys (publish_ready u g id e)). intros d Hd Hk. unfold publish_ready.
    destruct (decide (ready_at u g d)) as [[Hg _]|Hn].
    + by apply (wpd_publish True excused sharp u g id e _ (trashed (disk s)) _ (disk_whole s) Hg Hu d).
    + right. cbn. split; [by left|split; [done|]]. exists (disk_view s).
      rewrite Hd. split; [apply disk_whole|by left].
  - intros g id s. apply ends_obeys. apply (wpd_get True excused), disk_whole.
  - intros g id offset s. apply ends_obeys. apply (wpd_open_content_from True excused), disk_whole.
  - intros g s. apply ends_obeys. apply (wpd_ids True excused sharp), disk_whole.
  - intros g id s. apply ends_obeys. apply (wpd_remove pid True excused); [apply disk_whole|done].
  - intros g s. apply ends_obeys. apply (wpd_drop_generation pid True excused); [apply disk_whole|done].
  - intros s. apply ends_obeys. apply (wpd_generations True excused sharp), disk_whole.
  - intros g s. apply ends_obeys. apply (wpd_bytes True excused sharp), disk_whole.
Defined.

(** ** Whatever happens *)

Lemma perform_on_disk {A} (o : shelf_op A) (s : WholeDisk) : ready o (disk_view s) →
  (perform o s).1 = (perform o (disk s)).1 ∧ disk (perform o s).2 = (perform o (disk s)).2.
Proof.
  intros Hr. destruct o; try done. cbn. unfold publish_ready.
  destruct (decide (ready_at u g (disk s))) as [_|Hn]; [done|]. destruct Hn, Hr. by split.
Qed.

Lemma serve_on_disk {A} (c : client A) (s : WholeDisk) : careful c (disk_view s) →
  (serve c s).1 = (serve c (disk s)).1 ∧ disk (serve c s).2 = (serve c (disk s)).2.
Proof.
  revert s. induction c as [a|B o next IH]; intros s; cbn [serve careful]; [done|]. intros [Hr Hc].
  pose proof (lawful_allowed o s Hr) as Ha. destruct (perform_on_disk o s Hr) as [H1 H2].
  destruct (perform o s) as [x s'], (perform o (disk s)) as [x' d']. cbn in *. subst x' d'. apply IH. by apply Hc.
Qed.

(** C9: Under two assumptions, a caller of the shelf in a directory is answered as
    the contract allows, on the shelf that the directory stands for, and the
    directory stays in order.  The first is [careful]: the caller asks for the
    digest of, and publishes, only what is staged, and numbers its generations
    in 64 bits, as the engine does.  The second is [SharpWeather]: the [stat]
    behind [is_dir], [is_file] and [exists] can tell whether the file is there;
    without it the claim is false ([Corners.an_item_goes_unlisted]).  Every
    other call may fail, or be left half done, and the process may die anywhere. *)
Theorem a_directory_serves_as_a_shelf {A} (c : client A) (d : Disk) :
  Whole (tree d) → careful c (view_tree (tree d)) →
  let '(a, d') := serve c d in
  Whole (tree d') ∧ may_serve c (view_tree (tree d)) a (view_tree (tree d')).
Proof.
  intros Hd Hc. pose proof (lawful_serves c (mkWholeDisk d Hd) Hc) as Hs.
  destruct (serve_on_disk c (mkWholeDisk d Hd) Hc) as [H1 H2]. rewrite H1 in Hs.
  destruct (serve c (mkWholeDisk d Hd)) as [a' s']. cbn [disk fst snd] in *.
  destruct (serve c d) as [a d']. cbn [fst snd] in *. subst d'. split; [apply disk_whole|exact Hs].
Qed.
End shelf.

(** ** When nothing happens *)

Section fine.
Context `{Ext : Externals} `{LawExt : !LawfulExternals} `{Sky : Weather} `{Sharp : !SharpWeather}
  `{Json : ServerJson} `{LawJson : !LawfulServerJson} `{Proc : Process}.
Context (fine : ∀ n, luck n = Fine).

Let unexcused n : luck n ≠ Fine → False := λ H, H (fine n).

(** A directory that nothing was left in by a call that was cut short. *)
Definition Neat (t : node) (v : Shelves) : Prop := Rep t v ∧ Finished t ∧ trash_at t = Some (Dir ∅).

Lemma neat_ends {A} t v (y : outcome ApiError A) v' torn x t' k' :
  Neat t v → ends False t y v' torn x t' k' → x = y ∧ Neat t' v'.
Proof.
  intros (_ & Hty & Htr) [(-> & Hr & [[]|[Htr' Hty']])|(_ & [] & _)]. split; [done|]. split; [done|]. split; [by apply Hty'|congruence].
Qed.

Lemma neat_no_clash t v name : Neat t v → is_Some (at_path (FsShelf.trash ++ [name]) t) → False.
Proof.
  intros (_ & _ & Htr) [n Hn]. unfold FsShelf.trash, trash_at in *. rewrite at_path_app, child_at, Htr in Hn. cbn in Hn.
  by rewrite lookup_empty in Hn.
Qed.

(** The number of a generation is 64 bits wide. *)
Definition fits {A} (o : shelf_op A) : Prop := match o with Publish _ g _ _ => (g ≤ u64_max)%N | _ => True end.

Fixpoint fitting {A} (c : client A) : Prop :=
  match c with Done _ => True | Ask o next => fits o ∧ ∀ x, fitting (next x) end.

Lemma write_neat u content announced hashed t k v : Neat t v →
  wpd (FsShelf.write u content announced hashed)
    (ends False t (MemoryShelf.write u content announced hashed v).1
      (MemoryShelf.write u content announced hashed v).2 (torn_write u v)) t k.
Proof.
  intros (Hr & Hty & _).
  destruct (wpd_write False unexcused sharp u content announced hashed t k v Hr) as (v0 & Hv0 & Hno & H).
  assert (v0 = v) as ->; [|done]. destruct Hv0 as [->|[d Hd]]; [done|].
  destruct (staging v !! u) eqn:Hu; [by rewrite Hd; unfold create_place; rewrite Hu|].
  apply Hno. by apply (finished_place t v).
Qed.

Lemma perform_neat {A} (o : shelf_op A) (d : Disk) (v : Shelves) : Neat (tree d) v → fits o →
  (perform o d).1 = (perform o v).1 ∧ Neat (tree (perform o d).2) (perform o v).2.
Proof.
  intros Hn Hf. pose proof Hn as (Hr & Hty & _).
  assert (∀ (m : M ApiError Disk A) (spec : outcome ApiError A * Shelves) torn,
    wpd m (ends False (tree d) spec.1 spec.2 torn) (tree d) (trashed d) →
    (m d).1 = spec.1 ∧ Neat (tree (m d).2) spec.2) as Hends.
  { intros m spec torn Hm. eapply neat_ends; [exact Hn|]. by apply Hm. }
  destruct o; cbn [perform fs_shelf memory_shelf stage_create stage_write stage_write_hashed stage_digest stage_size stage_remove
    staged publish shelf_get open_content_from shelf_ids shelf_remove drop_generation generations shelf_bytes].
  - rewrite memory_stage_create. eapply Hends.
    replace (create_place None u v) with (create_place (digest_at (tree d) u) u v); [by apply (wpd_stage_create False unexcused sharp)|].
    rewrite (finished_digest _ v) by done. unfold create_place. by destruct (staging v !! u).
  - eapply Hends. by apply write_neat.
  - eapply Hends. by apply write_neat.
  - eapply Hends. cbn. rewrite <- (finished_digest _ v u Hr Hty). by apply (wpd_note False unexcused).
  - eapply Hends. by apply (wpd_stage_size False unexcused).
  - eapply Hends. apply (wpd_stage_remove pid False unexcused); [done|]. by eapply neat_no_clash.
  - destruct (wpd_staged False unexcused _ (trashed d) v Hr) as (us & _ & Hus & H). rewrite Hus in H by done.
    by eapply (Hends _ (Ok (btree_keys (staging v)), v)).
  - destruct (decide (is_Some (staging v !! u))) as [Hu|Hu].
    + eapply Hends. by apply (wpd_publish False unexcused sharp).
    + apply eq_None_not_Some in Hu. replace (MemoryShelf.publish u g id e v) with (Err NotFound : outcome ApiError bool, v)
        by (unfold MemoryShelf.publish; by rewrite Hu).
      eapply Hends. apply (wpd_publish_absent False unexcused sharp); [done|]. by apply (finished_place _ v).
  - eapply Hends. by apply (wpd_get False unexcused).
  - eapply Hends. by apply (wpd_open_content_from False unexcused).
  - eapply Hends. by apply (wpd_ids False unexcused sharp).
  - eapply Hends. apply (wpd_remove pid False unexcused); [done|]. by eapply neat_no_clash.
  - eapply Hends. apply (wpd_drop_generation pid False unexcused); [done|]. by eapply neat_no_clash.
  - eapply Hends. by apply (wpd_generations False unexcused sharp).
  - eapply Hends. by apply (wpd_bytes False unexcused sharp).
Qed.

(** C10: While every call of the file system is carried out, no caller can tell the
    shelf in a directory from the one in memory, and nothing is left in the
    trash, unfinished, or beside it. *)
Theorem in_fine_weather_nothing_tells {A} (c : client A) (d : Disk) (v : Shelves) :
  Neat (tree d) v → fitting c →
  (serve c d).1 = (serve c v).1 ∧ Neat (tree (serve c d).2) (serve c v).2.
Proof.
  revert d v. induction c as [a|B o next IH]; intros d v Hn; cbn [serve fitting]; [done|]. intros [Hf Hc].
  destruct (perform_neat o d v Hn Hf) as [Hx Hn'].
  destruct (perform o d) as [x d'], (perform o v) as [x' v']. cbn [fst snd] in *. subst x'. by apply IH.
Qed.
End fine.

(** ** Opening *)

Section opening.
Context `{Ext : Externals} `{LawExt : !LawfulExternals} `{Sky : Weather} `{Sharp : !SharpWeather}
  `{Json : ServerJson} `{LawJson : !LawfulServerJson} `{Proc : Process}.

Lemma rep_view_rep t v : Rep t v → Rep t (view_tree t).
Proof. intros Hr. by rewrite (rep_view t v). Qed.

(** C11: Of whatever a shelf made, or openings that were cut short, an opening
    makes a shelf that stands for the same, with nothing in the trash and no
    note of an upload that is gone; or it is cut short itself, and the next one
    finds what it needs. *)
Theorem opening_mends (d : Disk) (v : Shelves) : Sound (tree d) v →
  let '(x, d') := FsShelf.open d in
  (x = Ok () ∧ Rep (tree d') v ∧ trash_at (tree d') = Some (Dir ∅) ∧ Swept (tree d')) ∨
  (interrupted x ∧ (∃ n, luck n ≠ Fine) ∧ Sound (tree d') v).
Proof.
  intros Hs. pose proof (wpd_open (∃ n, luck n ≠ Fine) (ex_intro (λ n, luck n ≠ Fine)) sharp (tree d) (trashed d) v Hs d eq_refl eq_refl) as H.
  by destruct (FsShelf.open d) as [x d'].
Qed.

(** [FsShelf::open] on the directory of a workspace: where there is none, or
    only the beginnings of one, from an empty one. *)
Definition opening (o : option WholeDisk) : outcome ApiError unit * Disk :=
  FsShelf.open (from_option disk (mkDisk (Dir ∅) 0 0) o).
Definition view_of (o : option WholeDisk) : Shelves := from_option disk_view no_shelves o.
Definition made (t : node) : Prop := is_Some (child "staging" t) ∧ is_Some (child "trash" t).

Lemma opening_sound (o : option WholeDisk) : Sound (tree (opening o).2) (view_of o).
Proof.
  assert (Sound (tree (from_option disk (mkDisk (Dir ∅) 0 0) o)) (view_of o)) as Hs.
  { destruct o as [s|]; [left; exact (disk_whole s)|right]. split; [|done]. exists ∅. split; [done|]. intros s n. by rewrite lookup_empty. }
  destruct (wpd_open True (λ _ _, I) sharp _ _ _ Hs _ eq_refl eq_refl) as [(_ & Hr & _)|(_ & _ & Hs')]; [by left|done].
Qed.
Lemma opening_whole o : made (tree (opening o).2) → Whole (tree (opening o).2).
Proof. intros [H1 H2]. eapply rep_whole, sound_rep; [apply opening_sound|done..]. Qed.

#[export] Instance whole_disk : ShelfDisk WholeDisk := λ o,
  ((opening o).1,
   match decide (made (tree (opening o).2)) with
   | left H => Some (mkWholeDisk (opening o).2 (opening_whole o H))
   | right _ => None
   end).

#[export] Instance whole_disk_lawful : LawfulDisk WholeDisk.
Proof.
  intros o. unfold open_shelf, whole_disk. cbn [snd]. pose proof (opening_sound o) as Hs.
  destruct (decide _) as [[H1 H2]|Hn].
  - unfold view. cbn. unfold disk_view. cbn. by apply (rep_view _ (view_of o)), sound_rep.
  - destruct Hs as [[_ (st & Hst & _) (tr & Htr & _) _]|[_ Hv]]; [|exact (eq_sym Hv)].
    destruct Hn. split; by eexists.
Qed.
End opening.
