(* ===== verification/FsDemo.v ===== *)
(** The shelf in a directory at work: a directory that is made, a file that is
    stored, and the weather that the witnesses and the corner cases need. *)

From S2P Require Import Prelude Text Errors Random Ids Shelf Records Effects Rules Workspace Upload Rewrite Ledger Engine Operations Demo.
From S2P Require Import Clients Engines Files FsShelf FsRep FsRules FsLaws FsDisk.

Module FsDemo.
Import Demo.

(** A stand-in for the text of [server.json]: the bits of a number that counts
    the files. *)
Fixpoint bits_of (p : positive) : list byte :=
  match p with xH => [] | xO p => Byte.x00 :: bits_of p | xI p => Byte.x01 :: bits_of p end.
Fixpoint of_bits (l : list byte) : positive :=
  match l with [] => xH | Byte.x00 :: l => xO (of_bits l) | _ :: l => xI (of_bits l) end.

#[export] Instance server_json : ServerJson := {|
  server_to_vec s := Some (bits_of (encode (sf_under s, sf_received_at s)));
  server_from_slice b := (λ x : option string * N, mkServerFile x.1 x.2) <$> decode (of_bits b);
|}.

Lemma bits_of_bits p : of_bits (bits_of p) = p.
Proof. induction p as [p IH|p IH|]; cbn; [by rewrite IH..|done]. Qed.

#[export] Instance server_json_lawful : LawfulServerJson.
Proof. intros [under received]. cbn. rewrite bits_of_bits, decode_encode. done. Qed.

#[export] Instance process : Process := 4711%N.

(** Every call is carried out but the [n]th, at which the process dies having
    done as much of it as [part]; and every [stat] can tell but the [n]th. *)
Definition weather (dies : option (nat * nat)) (blind : option nat) : Weather := {|
  luck n := match dies with Some (m, part) => if m =? n then Dies part else Fine | None => Fine end;
  glance n := match blind with Some m => negb (m =? n) | None => true end;
  dir_len := 4096;
|}.
Definition fair : Weather := weather None None.

Lemma weather_sharp dies : @SharpWeather (weather dies None).
Proof. done. Qed.
Lemma fair_fine n : @luck fair n = Fine.
Proof. done. Qed.

(** A directory as [FsShelf::open] makes it, and one file stored in it. *)
Definition fresh : Disk := (@FsShelf.open fair (mkDisk (Dir ∅) 0 0)).2.
Definition envelope_of : Envelope := mkEnvelope (meta_of content) (Some k1) 1002.

Definition keep_one : client (outcome ApiError bool * outcome ApiError (list ItemId)) :=
  Ask (StageCreate u1) (λ x, match x with
  | Ok _ => Ask (StageWriteHashed u1 [Data content] 3) (λ x, match x with
      | Ok _ => Ask (Publish u1 1 item1 envelope_of) (λ x, Ask (Ids 1) (λ y, Done (x, y)))
      | _ => Done (Err ServiceUnavailable, Ok [])
      end)
  | _ => Done (Err ServiceUnavailable, Ok [])
  end).
Definition kept (sky : Weather) := serve (H := @fs_shelf externals sky server_json process) keep_one fresh.

Example it_is_kept : (kept fair).1 = (Ok true, Ok [item1]).
Proof. vm_compute. reflexivity. Qed.

(** The server of [Demo.v], on a directory: each call with the weather of its
    time; and its start, [FsShelf::open] before the engine's own. *)
Abbreviation DiskServer := (Engine Disk Records SeededRandom) (only parsing).
Definition disk_exec (sky : Weather) (E : Env) (o : Op) (e : DiskServer) :=
  exec (Sh := Disk) (H0 := @fs_shelf externals sky server_json process) w E o e.
Definition disk_play (sky : Weather) (e : DiskServer) (calls : list (Env * Op)) : DiskServer :=
  foldl (λ e c, (disk_exec sky c.1 c.2 e).2) e calls.
Definition disk_start (e : DiskServer) : DiskServer :=
  disk_play fair (mkEngine (@FsShelf.open fair (e_shelf e)).2 (e_ledger e) (e_rng e) (e_ticks e) (e_passed e)) [(env 1002, Open)].
Definition disk_sent : DiskServer :=
  disk_play fair (disk_start (mkEngine (mkDisk (Dir ∅) 0 0) ∅ (SeededRandom.new 7) 0 0))
    [(env 1000, BeginUpload alice (plain_request item1)); (env 1001, PutUploadContent alice u1 [Data content])].

(** A commit that dies in its [n]th call, and what is there when the server is
    started again and the commit sent again. *)
Definition commit_dies (n part : nat) : outcome ApiError unit * DiskServer :=
  disk_exec (weather (Some (calls (e_shelf disk_sent) + n, part)) None) (env 1002) (CommitUpload alice u1) disk_sent.
Definition sent_again (n part : nat) : DiskServer :=
  disk_play fair (disk_start (commit_dies n part).2) [(env 1003, CommitUpload alice u1)].
Definition shelved_once (e : DiskServer) : bool :=
  let v := view_tree (tree (e_shelf e)) in
  bool_decide (staging v = ∅) &&
  bool_decide ((λ it : shelved, (it.1, meta it.2)) <$> items v 0 = {[ item1 := (content, meta_of content) ]}) &&
  match trash_at (tree (e_shelf e)) with Some (Dir tr) => length (map_to_list tr) =? 0 | _ => false end.
End FsDemo.

Section witnesses.
Import FsDemo Demo.

Lemma fresh_tree : tree fresh = Dir {[ "staging" := Dir ∅; "trash" := Dir ∅ ]}.
Proof. vm_compute. reflexivity. Qed.
Lemma fresh_view : view_tree (tree fresh) = no_shelves.
Proof. vm_compute. reflexivity. Qed.

Lemma fresh_neat : Neat (tree fresh) no_shelves.
Proof.
  rewrite fresh_tree. split; [|split; [|done]].
  - apply sound_rep; [|by eexists..]. right. split; [|done]. eexists. split; [done|]. intros s n.
    intros [[<- <-]|[_ [<- <-]%lookup_singleton_Some]]%lookup_insert_Some; auto.
  - intros u. assert (place_at (Dir {[ "staging" := Dir ∅; "trash" := Dir ∅ ]}) u = None) as -> by done. by split.
Qed.

Lemma place_created d u v : is_Some (staging (create_place d u v) !! u).
Proof. unfold create_place. destruct (staging v !! u) eqn:Hu; [by eexists|]. cbn. rewrite lookup_insert_eq. by eexists. Qed.

Lemma keep_one_careful : careful keep_one no_shelves.
Proof.
  split; [done|]. intros [[]| | |] v1 Hv1; try done. destruct Hv1 as (d & [[_ Hv1]|[[|] _]]); [|done..]. cbn [snd] in Hv1. subst v1.
  split; [done|]. intros [n| | |] v2 Hv2; try done. split; [|done]. split; [|done].
  destruct Hv2 as (v0 & Hv0 & [[_ Hv2]|[[|] _]]); [|done..]. cbn [snd] in Hv2. subst v2.
  assert (is_Some (staging v0 !! u1)) as [c Hu1].
  { destruct Hv0 as [->|[d' ->]]; apply place_created. }
  unfold MemoryShelf.stage_write_hashed, MemoryShelf.write. rewrite Hu1. destruct (pump _ _ _ _ _) as [[w h] b].
  cbn [snd staging set_staging]. rewrite lookup_insert_eq. by eexists.
Qed.

Lemma kept_whole dies : Whole (tree (kept (weather dies None)).2).
Proof.
  pose proof (@serve_on_disk externals externals_lawful (weather dies None) (weather_sharp _) server_json server_json_lawful
    process _ keep_one (mkWholeDisk fresh (rep_whole _ _ (proj1 fresh_neat)))) as [_ H]; [|].
  - unfold disk_view. cbn [disk]. rewrite fresh_view. apply keep_one_careful.
  - cbn [disk] in H. unfold kept. rewrite <- H. apply disk_whole.
Qed.

(** A process that dies in the call after the rename that makes the item. *)
Lemma a_directory_serves_as_a_shelf_witness :
  (kept (weather (Some (28, 1)) None)).1 = (Killed, Ok [item1]) ∧
  Whole (tree (kept (weather (Some (28, 1)) None)).2) ∧
  may_serve keep_one no_shelves (Killed, Ok [item1]) (view_tree (tree (kept (weather (Some (28, 1)) None)).2)).
Proof.
  assert ((kept (weather (Some (28, 1)) None)).1 = (Killed, Ok [item1])) as Ha by (vm_compute; reflexivity).
  split; [exact Ha|].
  pose proof (@a_directory_serves_as_a_shelf externals externals_lawful (weather (Some (28, 1)) None) (weather_sharp _)
    server_json server_json_lawful process _ keep_one fresh) as H.
  rewrite fresh_view in H. specialize (H (rep_whole _ _ (proj1 fresh_neat)) keep_one_careful).
  unfold kept in *. destruct (serve keep_one fresh) as [a d']. cbn [fst snd] in *. rewrite Ha in H. exact H.
Defined.

Lemma in_fine_weather_nothing_tells_witness :
  (kept fair).1 = (Ok true, Ok [item1]) ∧ (serve keep_one no_shelves).1 = (kept fair).1 ∧
  Neat (tree (kept fair).2) (serve keep_one no_shelves).2.
Proof.
  split; [vm_compute; reflexivity|].
  destruct (@in_fine_weather_nothing_tells externals externals_lawful fair (weather_sharp _) server_json server_json_lawful
    process fair_fine _ keep_one fresh no_shelves fresh_neat) as [Ha Hn].
  - split; [done|]. intros [?| | |]; try done. split; [done|]. by intros [?| | |].
  - by split.
Defined.

(** The directory of a process that died in its publish. *)
Definition died : Disk := (kept (weather (Some (20, 1)) None)).2.

Lemma opening_mends_witness :
  let '(x, d') := @FsShelf.open fair died in
  x = Ok () ∧ Rep (tree d') (view_tree (tree died)) ∧ trash_at (tree d') = Some (Dir ∅) ∧ Swept (tree d').
Proof.
  assert (Whole (tree died)) as Hd by apply kept_whole.
  pose proof (@opening_mends fair (weather_sharp _) server_json died (view_tree (tree died)) (or_introl Hd)) as H.
  destruct (FsShelf.open died) as [x d']. destruct H as [H|(_ & [n Hn] & _)]; [exact H|]. by destruct Hn.
Defined.

(** Wherever a commit dies, and however much of the call it dies in is done:
    once the server is started again and the commit is sent again, the file is
    there once and whole, and nothing is left of the dead commit. *)
Example a_commit_dies_anywhere :
  forallb (λ n, forallb (λ part, shelved_once (sent_again n part)) [0; 1; 2]) (seq 0 24) = true ∧
  (commit_dies 0 0).1 = Killed ∧ (commit_dies 21 1).1 = Killed ∧ (commit_dies 22 1).1 = Ok ().
Proof. vm_compute. auto. Qed.
End witnesses.
