(* ===== verification/Corners.v ===== *)
(** Corner cases: what the code does where its comments and documents say
    otherwise, or nothing.  Each is a run of the model. *)

From S2P Require Import Prelude Text Errors Random Ids Shelf Records Effects Rules Workspace Upload Rewrite Ledger Engine Operations Demo.
From S2P Require Import Auth Database Sqlite Control Rate Config Bridge Engines Files FsShelf FsRep FsDisk FsDemo.

Section corners.
Import Demo.

(** [staging.max_age_hours] may be any number: [limits_for] saturates, and the
    sum of the time and the seconds then wraps around, so that a ticket has
    expired when it is given. *)
Definition for_ever : Limits :=
  limits_for (mkConfig default_server default_listen None default_section (mkRewriting 600) (mkStaging u64_max)) None.

Definition ever (t : N) : Env := mkEnv (λ _, t) for_ever 4 None.
Definition given : outcome ApiError Begun * Server := Engine.begin_upload w (ever 1000) alice (plain_request item1) opened.

Example a_ticket_for_ever_has_expired :
  staging_secs for_ever = u64_max ∧
  match given.1 with
  | Ok (BegunTicket t) => text (ticket_upload_id t) = text u1 ∧ ticket_until t = 999%N
  | _ => False
  end ∧
  (Engine.upload_state w (ever 1000) alice u1 given.2).1 = Err NotFound.
Proof. vm_compute. auto. Qed.

(** A rewrite may stage as much as the quota, whatever the plain partition
    holds: after its commit the two are more than the quota, and no rewrite is
    open. *)
Definition tight (t : N) : Env := mkEnv (λ _, t) (mkLimits 6 None 86400 600 true) 4 None.
Definition larger : UploadRequest := mkUploadRequest item3 [] 6 (Some k2) true.
Definition overfull : Server := play opened [
  (tight 1000, BeginUpload alice (plain_request item1)); (tight 1001, PutUploadContent alice (minted 0) [Data content]);
  (tight 1002, CommitUpload alice (minted 0)); (tight 1003, FreshStart alice k1 []);
  (tight 1004, BeginUpload alice (sealed_request item2 k1)); (tight 1005, PutUploadContent alice (minted 1) [Data content]);
  (tight 1006, CommitUpload alice (minted 1)); (tight 1007, BeginRewrite alice (mkRewriteRequest Rotate (Some k1) k2 []));
  (tight 1008, BeginUpload alice larger); (tight 1009, PutUploadContent alice (minted 2) [Data (content ++ content)]);
  (tight 1010, CommitUpload alice (minted 2)); (tight 1011, CommitRewrite alice k2)].

Example more_than_the_quota_and_no_rewrite :
  is_rewriting (the_record overfull) = false ∧ quota_bytes (limits (tight 0)) = 6%N ∧
  Records.used_bytes (the_record overfull) = 9%N.
Proof. vm_compute. auto. Qed.

(** [beginRewrite] that is sent again after the migration was committed. *)
Definition migrating : RewriteRequest := mkRewriteRequest Migrate None k1 [].
Definition migrated : Server := play opened [(env 1001, BeginRewrite alice migrating); (env 1002, CommitRewrite alice k1)].

Example a_migration_begun_again :
  (Engine.begin_rewrite w (env 1003) alice migrating migrated).1 =
    Err (InvalidRequest "the workspace is encrypted already; rotate its key instead").
Proof. vm_compute. reflexivity. Qed.

(** A size that is no string of digits. *)
Example a_sign_is_accepted : parse_u64 "+3" = Some 3%N.
Proof. vm_compute. reflexivity. Qed.
End corners.

(** [probeWrite] takes the first id it draws.  With a source that repeats itself,
    which [beginUpload] withstands, it removes the place of a live upload. *)
Inductive Stuck := stuck.
#[export] Instance stuck_random : RandomSource Stuck.
Proof. refine {| fill n s := (replicate n Byte.x07, s) |}. intros n s. apply length_replicate. Defined.

Section probe.
Import Demo.
Definition stuck_start : Engine Shelves Records Stuck := mkEngine no_shelves ∅ stuck 0 0.
Definition waiting_upload : Engine Shelves Records Stuck :=
  (exec w (env 1000) (BeginUpload alice (plain_request item1)) (exec w (env 1000) Open stuck_start).2).2.

Example a_probe_removes_a_live_upload :
  size (tickets (default default_record (record_of w waiting_upload))) = 1 ∧
  size (staging (e_shelf waiting_upload)) = 1 ∧
  size (staging (e_shelf (Engine.probe_write w alice waiting_upload).2)) = 0.
Proof. vm_compute. auto. Qed.
End probe.

(** [Path::is_file] is [false] when the [stat] behind it fails, so that [ids]
    leaves an item out and answers well; an opening then counts the workspace's
    bytes without it, and writes that down.  [Path::is_dir] makes a staged
    upload look gone in the same way. *)
Section blind.
Import Demo FsDemo.
Definition blind_at (n : nat) : Weather := weather None (Some n).
Definition stored_in_files : DiskServer := disk_play fair disk_sent [(env 1002, CommitUpload alice u1)].
Definition opened_blind : outcome ApiError unit * DiskServer :=
  disk_exec (blind_at (S (calls (e_shelf stored_in_files)))) (env 1004) Open stored_in_files.

Example an_item_goes_unlisted :
  (kept (blind_at 34)).1 = (Ok true, Ok []) ∧ (kept (blind_at 16)).1 = (Err NotFound, Ok []) ∧
  opened_blind.1 = Ok () ∧
  Records.used_bytes (default default_record (record_of w stored_in_files)) = 3%N ∧
  Records.used_bytes (default default_record (record_of w opened_blind.2)) = 0%N ∧
  shelved_once opened_blind.2 = true.
Proof. vm_compute. auto 10. Qed.
End blind.
